(* ===== verification/_CoqProject ===== *)
-Q . S2P
Prelude.v
CppString.v
HttpRequest.v
Posix.v
RefKernel.v
HttpConfig.v
HttpLog.v
HttpHandler.v
SocketHandler.v
Server.v
ConnectionManager.v
ConnectionInvariant.v
SimpleHttp.v
ServerRace.v
EchoServer.v
GrpcEvent.v
GrpcServer.v
Semaphore.v
SemaphoreTest.v
GrpcClient.v
GrpcSync.v
TcpTool.v
GrpcConfig.v
Iocp.v
EchoClient.v
Udp.v
ReadDemos.v
SharedPtr.v
MyMalloc.v
Binary64.v
Bezier.v
Intervals.v
Geodetic.v
Threads.v
ThreadDemos.v
OperatorNew.v
Movies.v
AsyncServer.v
UseAsyncClient.v
UseMutex.v
IocpLog.v
EchoNet.v
SharedLibrary.v
Objects.v
RandomClock.v
IocpMain.v
HttpMain.v
Hex.v
Templates.v
Streams.v
EchoMain.v
GrpcMain.v
