(* ===== verification/Prelude.v ===== *)
(** * Verification of the network programs of cpp_programming

    The repository collects C++ programs: some are small systems of their own (an HTTP server with
    a thread pool, an epoll echo server, a gRPC client and server on completion queues, an echo
    server on I/O completion ports, a TCP and a UDP tool), the rest are examples of one language
    feature each.  This library models the systems, from their source, and proves what makes them
    correct; where the source does not do what it means to, the theorem states what it does.
    Paths are relative to src/.

    ** The parts

    - simple_http/ is one program in four layers.  tcp_server/src/server.cpp waits for events and
      reports them to tcp_server/src/connection.cpp, whose reader and writer threads move bytes
      through tcp_server/src/socket_handler.cpp and hand them to a request handler;
      http_server/src/http_request.cpp parses requests and is that handler;
      config/ and log/ serve all of them; http_server/src/main.cpp puts them together.
    - linux_programming/socket/server/use_epoll/edge_triggered/main.cpp is a single-threaded
      server that reverses sentences; linux_programming/socket/client/use_poll/main.cpp is its
      client.  linux_programming/read/ has nine small readers, one per way to wait for input.
    - learn_grpc/hello_world/src/ has a client and a server, each in an asynchronous and a
      synchronous version; the asynchronous halves share lib/event/ (tags and handlers),
      lib/utils/semaphore.h and lib/config/.
    - win32_programming/use_iocp/iocp_demo/ is an echo server with a pool of threads on one
      completion port.
    - socket/tcp/main.cpp relays between the terminal and a connection; socket/udp/ has echo
      clients and their server.
    - mock_malloc/lib/my_malloc.c interposes the allocator of a process;
      smart_pointer/my_shared_ptr/ is a counted pointer; syntax/operator_new/ replaces the operators
      new and delete; curve/bezier/ draws a curve and geodetic/ converts coordinates.
    - thread/ shows std::thread, mutexes, condition variables and futures, a function per case, and
      tests the semaphore; demos/protobuf_demos/ writes and reads two versions of a message;
      shared_library/ loads libraries with static objects; random/, chrono/, trick/vptr/,
      template/reflection/ and syntax/class/ hold small classes of their own.
    - the rest of template/ and of syntax/ shows what the compiler decides: overloads, forwarding, the
      members of a class; string/ and stream_based_io/ print through streams.

    ** The files

    - Prelude.v: outcomes of C++ code ([result]: a value, an exception, undefined behaviour, or no
      fuel left), the state-and-outcome monad [M], machine integers, generic lemmas, tactics and the
      hint database [cpp].
    - CppString.v: the string functions the programs share (std::to_string, std::stoi, trimming,
      searching, C strings) - simple_http/tcp_server/include/utils.h.
    - Posix.v: the system calls as the classes [Kernel] and [StreamKernel], what the proofs
      need of them as [KernelLaws] and [StreamLaws], and the read and write loops the socket
      programs share.  RefKernel.v: a kernel that satisfies the laws, on which witnesses run.
    - HttpRequest.v, HttpHandler.v, HttpConfig.v, HttpLog.v, SocketHandler.v, Server.v,
      ConnectionManager.v, SimpleHttp.v: simple_http, a file per class or layer;
      ConnectionInvariant.v: the invariant of the connection manager under every interleaving;
      ServerRace.v: the event loop of the server among its worker threads; HttpMain.v:
      http_server/src/main.cpp around it.
    - EchoServer.v, EchoClient.v: the epoll server and its client; EchoNet.v: the two together;
      EchoMain.v: the server's main.
    - GrpcEvent.v: event.h, event_handler_manager.h; GrpcServer.v, GrpcClient.v: the two proactors
      with their handlers and calls; GrpcSync.v: the synchronous client and server; Semaphore.v:
      semaphore.h, access by access; SemaphoreTest.v: the tests of thread/semaphore/main.cpp as
      its clients; GrpcConfig.v: abstract_config.cpp with the two configurations, an interface
      ([AbstractConfig]) and its laws ([ConfigLaws]) which both implement; Hex.v: utils.h.
    - GrpcMain.v: the main functions of the client and the server, lib/logger and the time of lib/utils.
    - AsyncServer.v: the asynchronous gRPC server as a whole, over the handlers of GrpcServer.v;
      UseAsyncClient.v: UseAsyncClient of client/main.cpp, over the client of GrpcClient.v.
    - Iocp.v: iocp.cpp, client_context.h, socket.cpp; IocpMain.v: main.cpp around it; IocpLog.v:
      the logger its threads share.
    - TcpTool.v: socket/tcp/main.cpp; Udp.v: the programs of socket/udp/ and a network that joins
      them.
    - ReadDemos.v: linux_programming/read/ and linux_programming/epoll/.
    - MyMalloc.v: my_malloc.c, with the addresses, the temporary buffer and the pointers it
      resolves; SharedPtr.v: my_shared_ptr.h, with the shared counter in a store; OperatorNew.v:
      syntax/operator_new/, its heap and what was constructed in it.
    - Threads.v: a machine with the parts of the standard library that thread/ uses and a verified
      explorer of its states; ThreadDemos.v: the examples of thread/ as its programs; UseMutex.v:
      thread/use_mutex/, which has too many states to explore.
    - Movies.v: demos/protobuf_demos/, over the wire format of its messages.
    - SharedLibrary.v: shared_library/; Objects.v: trick/vptr/, template/reflection/ and
      delete_this/; RandomClock.v: random/, with std::mt19937, and chrono/.
    - Binary64.v: double-precision arithmetic, with the error of each operation; Bezier.v: curve/ in this
      arithmetic.  Geodetic.v: geodetic/, over the real numbers; Intervals.v: bounds of real
      expressions, computed and proved, with which Geodetic.v evaluates the program's tests.
    - Templates.v: types, value categories and overload resolution, with syntax/std_forward/,
      syntax/value_categories/ and template/ as calls of it.
    - Streams.v: string/, most of stream_based_io/ and the log levels of demos/log_demo/.

    Definitions carry the names of the source, prefixed with the class ([Server_close] is
    Server::close) where the bare name would be ambiguous; fields keep theirs.

    ** How programs are modelled

    Sequential code is a function in [M S]: the state [S] is the object (and the kernel) it
    works on, and an exception keeps the writes made before it.  Concurrent code is a step
    relation: a step is one atomic action (the body of a critical section, one access to an atomic
    variable, one system call), any thread may take the next, and theorems hold for every
    reachable state.  Callbacks between components are classes ([RequestHandler],
    [SocketWorld], [AbstractConfig]) or entries of a trace ([report]); the client of an
    interface is proved against it and the implementation has its instance.  What runs outside
    the repository (the kernel, gRPC, Windows, the network) is a parameter with named laws, or
    nondeterminism of a step relation: gRPC and Windows hold the operations they were given and
    complete any of them, with any outcome.

    ** What the theorems show

    - Parsing and text: a request is parsed the same however it is cut
      (HttpRequest.request_any_chunking), parsing always ends, a proper prefix is never taken for
      a whole request; sentences are answered however the text arrives
      (EchoServer.session_replies); of what was typed at the client, what a session's socket took and
      what the session still holds are the answers to what was delivered
      (EchoNet.typed_sentences_answered); configuration files and options are read back
      (HttpConfig, GrpcConfig, TcpTool).
    - The connection manager: one reader and one writer per connection, no read event lost, a
      worker sleeps only when there is nothing to do (ConnectionInvariant); and the executions in
      which connections are closed twice, stall or end the process (SimpleHttp); the ways the process
      can end (HttpMain.http_main_ends).
    - The event loops: they end, having released everything - the HTTP server
      (Server.Start_returns), and the echo server with all its descriptors but the epoll's
      (EchoMain.echo_main_ends); an event of a socket that a worker closed ends the HTTP server
      without a word to its connections (ServerRace.stale_event_stops_server).
    - The gRPC proactors: one operation per handler, a handler always ready for the next call
      (GrpcServer); a stopped server ends whatever is in flight, unless an operation was given to a
      queue that had been shut down, which the code does not rule out
      (AsyncServer.async_stop_ends, request_after_shutdown); a delivery does what the call's state machine says
      (GrpcClient.delivery_is_machine), one write at a time; a thread may leave too early
      (GrpcClient.early_leave_strands_call); what is left when the client program can do nothing
      more (UseAsyncClient.program_rests).
    - The synchronous calls: each loop ends when the other side does (GrpcSync.sync_calls_end); a
      signal stops the server unless it comes before the server waits for it.
    - Whatever their configuration files hold, the gRPC programs start (GrpcMain.server_main_starts).
    - The semaphore: permits add up, no wake-up is lost (Semaphore); a test that uses it can only
      pass, in any schedule (SemaphoreTest.testA_passes).
    - The readers: they write inside their buffers (ReadDemos.loop_reads_in_bounds), and poll,
      select and epoll give the same output (ReadDemos.waits_agree).
    - Threads: in every schedule the functions of thread/ print just what they are to print, or
      end as the theorem says (ThreadDemos); ten threads count without a gap or a repetition
      (UseMutex.ten_threads_count); messages logged by threads come out whole
      (IocpLog.logger_refines).
    - The allocator: what the temporary buffer serves is disjoint and inside it
      (MyMalloc.tmp_buffer_serves) and which calls go through a pointer that is not there
      (MyMalloc.late_calloc_calls_null).  The counted pointer: the counter is the number of owners
      and the object dies with the last (SharedPtr.sharing_is_counted).  Arrays constructed in a buffer
      (OperatorNew.placement_array_defined).
    - Geometry: the recursive curve, computed in doubles, overflows nowhere and is near the Bernstein
      sum (Bezier.recursive_is_bernstein); over the reals a geodetic point at height 0 is on the
      ellipsoid and local coordinates convert back, and the numeric tests of the program pass
      (Geodetic.main_tests_pass).
    - What the compiler decides: an overload is picked just when it is better than all others
      (Templates.resolve_picks), what is forwarded picks the overload the argument itself would, whatever
      the overloads (Templates.forwarding_is_perfect); what each detector finds, and misses.
    - Streams: the pieces of a text come back (Streams.getline_pieces), a number in fixed notation is near
      the one printed, timestamps are not in the order of time.
    - The completion port: what is received is echoed, in order; one operation per
      context, inside its buffer; stop ends; a failed operation leaks its connection (Iocp); all of
      which holds in the program around it, unless it is told to exit while it starts (IocpMain).
    - The tools: what is typed is sent, in order and without the commands (TcpTool, EchoClient);
      over a network that loses datagrams the UDP client prints the lines before the first one lost
      (Udp).

    ** Bounds and fuel

    Integers are Z, wrapped where the source's type does ([u16], [u32], [u64]; [in_i32] for
    std::stoi).  A loop that is structural on its data is a Fixpoint on it.  Where it is not, the
    definition takes fuel and theorems say how much is enough: the length of the buffer for
    the header loop, the length of the text for a write loop, the size of the map for
    the search for a free key (GrpcEvent, Iocp), the number of lines for the UDP client.
    Loops that may run for ever (event loops, relays) take the number of turns as fuel, and
    their theorems hold for every number; where such a loop does end, the theorem gives the condition
    (Server.Start_returns, Udp.udp_lines_echoed).  The explorer of Threads.v takes the number of
    states as fuel; a check that runs out of it is false, so no theorem rests on fuel.  Intervals.v
    computes with 64 bits after the point and ten and eleven terms of the sine's series, far more than
    the micrometre of the tests needs.  A call that
    blocks for ever is a step that is not there, or [OutOfFuel].

    ** Not modelled

    - Text that is only logged or printed for a person: messages of exceptions, log lines.
    - learn_grpc: the code protoc generates, the set-up of spdlog.
    - Memory is modelled where the code depends on it (shared connections and handlers, buffers
      given to Windows, the allocator, the counted pointer); elsewhere objects are values.
      Atomics are sequentially consistent.
    - Rounding in geodetic/, which computes in double, the model in the reals; the tests of
      geodetic/main.cpp are evaluated with exact values.  In curve/ doubles are rounded after every
      operation; a compiler that contracts a product and a sum to one operation is not modelled.
    - What the echo server prints and the HTTP server logs as they run, but for the lines of the handlers
      in main.  The counter of my_shared_ptr.h, an int, is an integer without bound; the log level of
      iocp_demo/log.h, an int that is read without the mutex, is read and written as an atomic.
    - Conversions of an argument to another type in overload resolution, which no example uses.
    - The examples that print a constant text or an address, or only call a library (syntax/lambda/,
      syntax/functional/, smart_pointer/shared_ptr/, mock_malloc/src/, istringstream, the benchmark and
      database demos); the Python binding of the curve; the main functions that call the examples of a file
      in turn. *)

From Stdlib Require Import ZArith Lia Ascii String.
From stdpp Require Export base tactics option list gmap strings numbers relations sorting.
From Stdlib Require Export ZArith Lia Ascii.

#[export] Set Warnings "-clear-no-such-hyp".

(** ** Outcomes of C++ code *)

(** The standard exceptions the sources throw or let escape.  The text of
    [what()] is only ever logged, so it is not kept. *)
Inductive exn :=
  | RuntimeError
  | InvalidArgument
  | OutOfRange.

(** What evaluating a piece of C++ gives: a value, a thrown exception, undefined
    behaviour, or, for the loops that are not structural, running out of the
    fuel the model was given. *)
Inductive result (A : Type) :=
  | Ok (a : A)
  | Throw (e : exn)
  | Undef
  | OutOfFuel.
Arguments Ok {A} a.
Arguments Throw {A} e.
Arguments Undef {A}.
Arguments OutOfFuel {A}.

(** Code that reads and writes a mutable object of type [S].  An exception does
    not undo the writes made before it, so the state is returned on every path. *)
Definition M (S A : Type) : Type := S → result A * S.

#[global] Instance M_ret S : MRet (M S) := λ A a s, (Ok a, s).
#[global] Instance M_bind S : MBind (M S) := λ A B f m s,
  match m s with
  | (Ok a, s') => f a s'
  | (Throw e, s') => (Throw e, s')
  | (Undef, s') => (Undef, s')
  | (OutOfFuel, s') => (OutOfFuel, s')
  end.

Definition get {S} : M S S := λ s, (Ok s, s).
Definition gets {S A} (f : S → A) : M S A := λ s, (Ok (f s), s).
Definition put {S} (s' : S) : M S unit := λ _, (Ok tt, s').
Definition modify {S} (f : S → S) : M S unit := λ s, (Ok tt, f s).
Definition throw {S A} (e : exn) : M S A := λ s, (Throw e, s).
Definition undef {S A} : M S A := λ s, (Undef, s).
Definition lift {S A} (r : result A) : M S A := λ s, (r, s).
Definition when {S} (b : bool) (m : M S unit) : M S unit :=
  if b then m else mret tt.

(** [try { m } catch (const std::exception&) { h }]. *)
Definition try_catch {S A} (m : M S A) (h : M S A) : M S A := λ s,
  match m s with
  | (Throw _, s') => h s'
  | r => r
  end.

(** Run [m], which works on a part of the state selected by [g] and stored back by [u]. *)
Definition zoom {S T A} (g : S → T) (u : T → S → S) (m : M T A) : M S A := λ s,
  let '(r, t) := m (g s) in (r, u t s).

Fixpoint for_each {S A} (f : A → M S unit) (l : list A) : M S unit :=
  match l with
  | [] => mret tt
  | x :: l' => f x;; for_each f l'
  end.

(** ** Machine integers *)

Definition wrap (w z : Z) : Z := (z mod 2 ^ w)%Z.
Definition u16 : Z → Z := wrap 16.
Definition u32 : Z → Z := wrap 32.
Definition u64 : Z → Z := wrap 64.
Definition in_i32 (z : Z) : bool := ((- 2 ^ 31 <=? z) && (z <? 2 ^ 31))%Z.

(** The order in which a [std::map] with integer keys is visited. *)
Definition key_le {A} (a b : Z * A) : Prop := (a.1 ≤ b.1)%Z.

#[global] Instance key_le_dec {A} (a b : Z * A) : Decision (key_le a b).
Proof. unfold key_le. apply _. Defined.

(** ** Bytes *)

Abbreviation bytes := (list ascii).

Definition str (s : string) : bytes := String.list_ascii_of_string s.
Definition chr (n : nat) : ascii := ascii_of_nat n.

(** ** Lemmas on the monad *)

Section monad.
Context {S : Type}.

Lemma bind_ok {A B} (m : M S A) (f : A → M S B) s a s' :
  m s = (Ok a, s') → (m ≫= f) s = f a s'.
Proof. intros H. unfold mbind, M_bind. by rewrite H. Qed.

Lemma bind_throw {A B} (m : M S A) (f : A → M S B) s e s' :
  m s = (Throw e, s') → (m ≫= f) s = (Throw e, s').
Proof. intros H. unfold mbind, M_bind. by rewrite H. Qed.

Lemma bind_ret_l {A B} (a : A) (f : A → M S B) s : (mret a ≫= f) s = f a s.
Proof. done. Qed.

(** A successful sequence is two successful runs. *)
Lemma bind_inv_ok {A B} (m : M S A) (f : A → M S B) s b s' :
  (m ≫= f) s = (Ok b, s') → ∃ a s1, m s = (Ok a, s1) ∧ f a s1 = (Ok b, s').
Proof.
  unfold mbind, M_bind. destruct (m s) as [[a|e| |] s1]; intros; simplify_eq; eauto.
Qed.

Lemma bind_ext {A B} (m m' : M S A) (f f' : A → M S B) s :
  m s = m' s → (∀ a s', m' s = (Ok a, s') → f a s' = f' a s') → (m ≫= f) s = (m' ≫= f') s.
Proof.
  intros Hm Hf. unfold mbind, M_bind. rewrite Hm. destruct (m' s) as [[a|e| |] s'] eqn:E; auto.
Qed.

Lemma for_each_app {A} (f : A → M S unit) l1 l2 s :
  for_each f (l1 ++ l2) s = (for_each f l1;; for_each f l2) s.
Proof.
  revert s. induction l1 as [|x l1 IH]; intros s; [done|]. simpl.
  unfold mbind, M_bind in *. destruct (f x s) as [[a|e| |] s']; auto.
Qed.

(** A state predicate kept by every statement of a program is kept by the program,
    whether it returns or throws. *)
Definition preserves {A} (I : S → Prop) (m : M S A) : Prop :=
  ∀ s r s', I s → m s = (r, s') → I s'.

Lemma preserves_ret {A} I (a : A) : preserves I (mret a).
Proof. intros s r s' Hs [= _ ->]. done. Qed.

Lemma preserves_bind {A B} I (m : M S A) (f : A → M S B) :
  preserves I m → (∀ a, preserves I (f a)) → preserves I (m ≫= f).
Proof.
  intros Hm Hf s r s' Hs. unfold mbind, M_bind.
  destruct (m s) as [r1 s1] eqn:E. specialize (Hm _ _ _ Hs E).
  destruct r1; intros; simplify_eq; eauto. eapply (Hf a s1); eauto.
Qed.

Lemma preserves_modify I (f : S → S) : (∀ s, I s → I (f s)) → preserves I (modify f).
Proof. intros Hf s r s' Hs [= _ <-]. auto. Qed.

Lemma preserves_get I : preserves I get.
Proof. intros s r s' Hs [= _ ->]. done. Qed.

Lemma preserves_gets {A} I (f : S → A) : preserves I (gets f).
Proof. intros s r s' Hs [= _ ->]. done. Qed.

Lemma preserves_throw {A} I e : preserves I (throw (A := A) e).
Proof. intros s r s' Hs [= _ ->]. done. Qed.

Lemma preserves_lift {A} I (r : result A) : preserves I (lift r).
Proof. intros s r' s' Hs [= _ ->]. done. Qed.

Lemma preserves_when I b (m : M S unit) : preserves I m → preserves I (when b m).
Proof. destruct b; [done|]. intros _. apply preserves_ret. Qed.

Lemma preserves_for_each {A} I (f : A → M S unit) l :
  (∀ x, preserves I (f x)) → preserves I (for_each f l).
Proof.
  intros Hf. induction l as [|x l IH]; [apply preserves_ret|].
  apply preserves_bind; auto.
Qed.

Lemma preserves_try_catch {A} I (m h : M S A) :
  preserves I m → preserves I h → preserves I (try_catch m h).
Proof.
  intros Hm Hh s r s' Hs. unfold try_catch.
  destruct (m s) as [r1 s1] eqn:E. specialize (Hm _ _ _ Hs E).
  destruct r1; intros; simplify_eq; eauto.
Qed.
End monad.

(** ** Reachability *)

(** An invariant of a step relation holds in every reachable state. *)
Lemma rtc_invariant {A} (R : A → A → Prop) (I : A → Prop) x y :
  (∀ a b, I a → R a b → I b) → I x → rtc R x y → I y.
Proof. intros Hstep Hx Hr. induction Hr; eauto. Qed.

(** ** Machine integers *)

Lemma wrap_range w z : (0 ≤ w)%Z → (0 ≤ wrap w z < 2 ^ w)%Z.
Proof. intros. unfold wrap. apply Z.mod_pos_bound. lia. Qed.

Lemma wrap_small w z : (0 ≤ z < 2 ^ w)%Z → wrap w z = z.
Proof. apply Z.mod_small. Qed.

(** ** Sums over lists *)

Lemma sum_list_with_insert {A} (f : A → nat) l i x y :
  l !! i = Some x → sum_list_with f (<[i := y]> l) + f x = sum_list_with f l + f y.
Proof.
  revert i. induction l as [|z l IH]; intros [|i] Hi; simplify_eq/=; [lia|].
  specialize (IH i Hi). lia.
Qed.

Lemma sum_list_with_ge {A} (f : A → nat) l i x :
  l !! i = Some x → f x ≤ sum_list_with f l.
Proof.
  revert i. induction l as [|z l IH]; intros [|i] Hi; simplify_eq/=; [lia|].
  specialize (IH i Hi). lia.
Qed.

Lemma sum_list_with_ge2 {A} (f : A → nat) l i j x y :
  i ≠ j → l !! i = Some x → l !! j = Some y → f x + f y ≤ sum_list_with f l.
Proof.
  revert i j. induction l as [|z l IH]; intros [|i] [|j] Hij Hi Hj; simplify_eq/=.
  - apply (sum_list_with_ge f) in Hj. lia.
  - apply (sum_list_with_ge f) in Hi. lia.
  - specialize (IH i j ltac:(congruence) Hi Hj). lia.
Qed.

Lemma sum_list_with_0 {A} (f : A → nat) l : Forall (λ x, f x = 0) l → sum_list_with f l = 0.
Proof. induction 1; simpl; lia. Qed.

(** ** Automation *)

Create HintDb cpp.
#[export] Hint Resolve preserves_ret preserves_get preserves_gets preserves_throw
  preserves_lift : cpp.

(** Symbolic execution of monadic code on a known state. *)
Ltac run_m := unfold mbind, M_bind, mret, M_ret, get, gets, put, modify, throw,
  lift, when, zoom, try_catch in *; simpl in *.

(** Decompose a program into statements, leaving the ones no hint solves. *)
Ltac preserve :=
  repeat match goal with
  | |- preserves _ (mbind _ _) => apply preserves_bind; [|intros ?]
  | |- preserves _ (when _ _) => apply preserves_when
  | |- preserves _ (for_each _ _) => apply preserves_for_each; intros ?
  | |- preserves _ (try_catch _ _) => apply preserves_try_catch
  | |- preserves _ (if ?b then _ else _) => destruct b eqn:?
  | |- preserves _ (match ?x with _ => _ end) => destruct x eqn:?
  | |- preserves _ _ => solve [eauto with cpp]
  end.

(** A closed decidable proposition, by evaluation. *)
Ltac decide_closed := apply (bool_decide_eq_true_1 _); vm_compute; reflexivity.

(** Case analysis on every scrutinee of the goal or of a hypothesis. *)
Ltac break :=
  repeat (match goal with
  | |- context [match ?x with _ => _ end] => destruct x eqn:?
  | H : context [match ?x with _ => _ end] |- _ => destruct x eqn:?
  end; simplify_eq).
