(* ===== verification/CppString.v ===== *)
(** * C++ strings and the string helpers of simple_http

    [std::string] as a list of bytes: the members the sources call
    ([find], [substr], [erase], [operator+=] with a C string), the numeric
    conversions [std::to_string] and [std::stoi] in the C locale, and
    [Ltrim], [Rtrim], [Trim] of simple_http/tcp_server/include/utils.h. *)

From S2P Require Import Prelude.

(** ** Characters *)

Definition code (c : ascii) : Z := Z.of_nat (nat_of_ascii c).

(** [std::isspace] in the C locale: space and the five controls 9..13. *)
Definition isspace (c : ascii) : bool :=
  ((code c =? 32) || ((9 <=? code c) && (code c <=? 13)))%Z.

Definition isdigit (c : ascii) : bool := ((48 <=? code c) && (code c <=? 57))%Z.

Definition digit_val (c : ascii) : Z := (code c - 48)%Z.
Definition digit_chr (d : Z) : ascii := chr (Z.to_nat (48 + d)).

(** ** Members of std::string *)

Fixpoint starts_with (p s : bytes) : bool :=
  match p, s with
  | [], _ => true
  | a :: p', b :: s' => Ascii.eqb a b && starts_with p' s'
  | _ :: _, [] => false
  end.

(** [s.find(p)]: the first position where [p] occurs; [npos] is [None]. *)
Fixpoint find (p s : bytes) : option nat :=
  if starts_with p s then Some 0
  else match s with
       | [] => None
       | _ :: s' => S <$> find p s'
       end.

(** [s.find(c)] for a character. *)
Definition find_char (c : ascii) (s : bytes) : option nat := find [c] s.

(** [std::find_if] over a range and [erase] from its start to the result. *)
Fixpoint drop_while (P : ascii → bool) (s : bytes) : bytes :=
  match s with
  | [] => []
  | c :: s' => if P c then drop_while P s' else s
  end.

(** [s += &buf[0]]: the C string that starts at [buf]; without a NUL in the
    buffer the read runs past its end. *)
Fixpoint c_str (buf : bytes) : option bytes :=
  match buf with
  | [] => None
  | c :: buf' => if Ascii.eqb c Ascii.zero then Some [] else cons c <$> c_str buf'
  end.

(** ** Number conversions *)

Fixpoint dec_digits (fuel : nat) (n : Z) (acc : bytes) : bytes :=
  match fuel with
  | O => acc
  | S fuel' =>
      let acc' := digit_chr (n mod 10)%Z :: acc in
      if (n <? 10)%Z then acc' else dec_digits fuel' (n / 10)%Z acc'
  end.

(** [std::to_string] of an integer. *)
Definition to_string (n : Z) : bytes :=
  if (n <? 0)%Z then str "-" ++ dec_digits (S (Z.to_nat (Z.log2 (- n)))) (- n)%Z []
  else dec_digits (S (Z.to_nat (Z.log2 n))) n [].

Fixpoint parse_digits (s : bytes) (acc : Z) : Z :=
  match s with
  | [] => acc
  | c :: s' => if isdigit c then parse_digits s' (10 * acc + digit_val c)%Z else acc
  end.

(** [std::stoi]: white space, an optional sign, at least one digit; the rest of
    the string is ignored; a value outside [int] is an [out_of_range]. *)
Definition stoi (s : bytes) : result Z :=
  let s1 := drop_while isspace s in
  let '(sgn, s2) :=
    match s1 with
    | c :: s' =>
        if Ascii.eqb c "-" then ((-1)%Z, s')
        else if Ascii.eqb c "+" then (1%Z, s') else (1%Z, s1)
    | [] => (1%Z, s1)
    end in
  match s2 with
  | c :: _ =>
      if isdigit c then
        let v := (sgn * parse_digits s2 0)%Z in
        if in_i32 v then Ok v else Throw OutOfRange
      else Throw InvalidArgument
  | [] => Throw InvalidArgument
  end.

(** ** simple_http/tcp_server/include/utils.h *)

Definition Ltrim (s : bytes) : bytes := drop_while isspace s.

Definition Rtrim (s : bytes) : bytes := reverse (drop_while isspace (reverse s)).

Definition Trim (s : bytes) : bytes := Rtrim (Ltrim s).

(** The text of a logged system error; [strerror] is the C library's. *)
Definition GetErrorMsg (strerror : Z → bytes) (info : bytes) (errorCode : Z) : bytes :=
  info ++ str ", error code(" ++ to_string errorCode ++ str "), " ++ strerror errorCode.

Definition CRLF : bytes := [chr 13; chr 10].

(** A string whose first and last characters, if any, are not white space. *)
Definition trimmed (s : bytes) : Prop :=
  (∀ c s', s = c :: s' → isspace c = false) ∧ (∀ c s', s = s' ++ [c] → isspace c = false).

Example find_ex : find (str "cd") (str "abcde") = Some 2.
Proof. reflexivity. Qed.
Example trim_ex : Trim (str "  a b	") = str "a b".
Proof. reflexivity. Qed.
Example stoi_ex : stoi (str " -12x") = Ok (-12)%Z.
Proof. reflexivity. Qed.
Example to_string_ex : to_string 5666 = str "5666".
Proof. reflexivity. Qed.

(** ** Searching *)

Lemma starts_with_spec p s : starts_with p s = true ↔ ∃ t, s = p ++ t.
Proof.
  revert s. induction p as [|a p IH]; intros s; simpl.
  { split; [eauto | done]. }
  destruct s as [|b s]; simpl; [split; [done | intros [t Ht]; done]|].
  rewrite andb_true_iff, Ascii.eqb_eq, IH. split.
  - intros [-> [t ->]]. by exists t.
  - intros [t [= -> ->]]. eauto.
Qed.

Lemma find_cons p c s :
  find p (c :: s) = if starts_with p (c :: s) then Some 0 else S <$> find p s.
Proof. done. Qed.

Lemma starts_with_app p s t :
  length p ≤ length s → starts_with p (s ++ t) = starts_with p s.
Proof.
  revert s. induction p as [|a p IH]; intros [|b s] Hl; simpl in *; try done; try lia.
  f_equal. apply IH. lia.
Qed.

Lemma find_length p s i : find p s = Some i → i + length p ≤ length s.
Proof.
  revert i. induction s as [|c s IH]; intros i; simpl.
  - destruct p; simpl; [by intros [= <-] | done].
  - destruct (starts_with p (c :: s)) eqn:E.
    + intros [= <-]. apply starts_with_spec in E as [t Ht].
      apply (f_equal length) in Ht. rewrite length_app in Ht. simpl in Ht. lia.
    + intros (j & Hj & ->)%fmap_Some. apply IH in Hj. lia.
Qed.

(** [find] returns an occurrence. *)
Lemma find_occurrence p s i :
  find p s = Some i → s = take i s ++ p ++ drop (i + length p) s.
Proof.
  revert i. induction s as [|c s IH]; intros i; simpl.
  - destruct p; simpl; [by intros [= <-] | done].
  - destruct (starts_with p (c :: s)) eqn:E.
    + intros [= <-]. apply starts_with_spec in E as [t Ht]. rewrite Ht. simpl.
      by rewrite drop_app_length.
    + intros (j & Hj & ->)%fmap_Some. simpl. f_equal. by apply IH.
Qed.

(** More input after an occurrence does not move the first occurrence. *)
Lemma find_app_Some p s t i : find p s = Some i → find p (s ++ t) = Some i.
Proof.
  revert i. induction s as [|c s IH]; intros i Hf.
  - simpl in Hf. destruct p; simpl in *; [|done].
    by destruct t.
  - pose proof (find_length _ _ _ Hf) as Hl. simpl in Hf, Hl |- *.
    change (c :: s ++ t) with ((c :: s) ++ t).
    rewrite starts_with_app by (simpl; lia).
    destruct (starts_with p (c :: s)); [done|].
    apply fmap_Some in Hf as (j & Hj & ->). by rewrite (IH _ Hj).
Qed.

Lemma find_app_None p s t : find p (s ++ t) = None → find p s = None.
Proof.
  intros H. destruct (find p s) eqn:E; [|done]. by rewrite (find_app_Some _ _ _ _ E) in H.
Qed.

Lemma find_char_None c s : find_char c s = None ↔ c ∉ s.
Proof.
  unfold find_char. induction s as [|d s IH]; simpl.
  { split; [intros _; apply not_elem_of_nil | done]. }
  rewrite not_elem_of_cons. destruct (Ascii.eqb_spec c d) as [->|Hne]; simpl.
  - split; [done | by intros [? _]].
  - rewrite <- IH. destruct (find [c] s); simpl; (split; [try done; auto | by intros [_ ?]]).
Qed.

Lemma find_char_first c s t : c ∉ s → find_char c (s ++ c :: t) = Some (length s).
Proof.
  unfold find_char. induction s as [|d s IH]; simpl.
  - by rewrite Ascii.eqb_refl.
  - rewrite not_elem_of_cons. intros [Hne Hs].
    destruct (Ascii.eqb_spec c d); [done|]. simpl. by rewrite IH.
Qed.

Lemma starts_with_crlf_straddle a s t :
  starts_with CRLF (a :: s ++ CRLF ++ t) = true → starts_with CRLF (a :: s) = true.
Proof.
  unfold CRLF. destruct s as [|b s]; simpl; [|done].
  intros H. apply andb_prop in H as [_ H]. by vm_compute in H.
Qed.

(** A line that holds no line end stops at the line end that follows it. *)
Lemma find_crlf l t : find CRLF l = None → find CRLF (l ++ CRLF ++ t) = Some (length l).
Proof.
  induction l as [|a l IH]; [done|].
  rewrite <- app_comm_cons, !find_cons. intros H.
  destruct (starts_with CRLF (a :: l)) eqn:E; [done|].
  destruct (starts_with CRLF (a :: l ++ CRLF ++ t)) eqn:E'.
  { apply starts_with_crlf_straddle in E'. congruence. }
  rewrite IH; [done|]. by destruct (find CRLF l).
Qed.

(** ** Trimming *)

Lemma drop_while_split P s :
  ∃ pre, s = pre ++ drop_while P s ∧ Forall (λ c, P c = true) pre.
Proof.
  induction s as [|c s (pre & Hs & Hp)]; simpl; [by exists []|].
  destruct (P c) eqn:E; [|by exists []].
  exists (c :: pre). simpl. rewrite <- Hs. auto.
Qed.

Lemma drop_while_head P s c s' : drop_while P s = c :: s' → P c = false.
Proof. induction s as [|d s IH]; simpl; [done|]. destruct (P d) eqn:E; naive_solver. Qed.

Lemma drop_while_app P pre s :
  Forall (λ c, P c = true) pre → drop_while P (pre ++ s) = drop_while P s.
Proof. induction 1 as [|c pre Hc _ IH]; simpl; [done|]. by rewrite Hc. Qed.

Lemma drop_while_stop P s :
  (∀ c s', s = c :: s' → P c = false) → drop_while P s = s.
Proof. destruct s as [|c s]; simpl; [done|]. intros H. by rewrite (H c s). Qed.

Lemma drop_while_all P s : Forall (λ c, P c = true) s → drop_while P s = [].
Proof. induction 1 as [|c s Hc _ IH]; simpl; [done|]. by rewrite Hc. Qed.

Lemma Rtrim_split s :
  ∃ post, s = Rtrim s ++ post ∧ Forall (λ c, isspace c = true) post.
Proof.
  destruct (drop_while_split isspace (reverse s)) as (pre & Hs & Hp).
  exists (reverse pre). unfold Rtrim. rewrite <- reverse_app, <- Hs, reverse_involutive.
  split; [done|]. by apply Forall_reverse.
Qed.

Lemma Rtrim_last s c s' : Rtrim s = s' ++ [c] → isspace c = false.
Proof.
  unfold Rtrim. intros H. apply (f_equal reverse) in H.
  rewrite reverse_involutive, reverse_snoc in H. by apply drop_while_head in H.
Qed.

Lemma Rtrim_keep s post :
  Forall (λ c, isspace c = true) post →
  (∀ c s', s = s' ++ [c] → isspace c = false) → Rtrim (s ++ post) = s.
Proof.
  intros Hp Hl. unfold Rtrim. rewrite reverse_app, drop_while_app by by apply Forall_reverse.
  rewrite drop_while_stop; [apply reverse_involutive|].
  intros c s' H. apply (Hl c (reverse s')).
  by rewrite <- (reverse_involutive s), H, reverse_cons.
Qed.

(** The core of a string is the string without its surrounding white space. *)
Lemma Trim_unique pre t post :
  Forall (λ c, isspace c = true) pre → Forall (λ c, isspace c = true) post →
  trimmed t → Trim (pre ++ t ++ post) = t.
Proof.
  intros Hpre Hpost [Hh Hl]. unfold Trim, Ltrim. rewrite drop_while_app by done.
  destruct t as [|c t]; simpl.
  - by rewrite drop_while_all.
  - rewrite (Hh c t) by done. change (c :: t ++ post) with ((c :: t) ++ post).
    by apply Rtrim_keep.
Qed.

Lemma Trim_id t : trimmed t → Trim t = t.
Proof.
  intros Ht. pose proof (Trim_unique [] t []) as H. simpl in H.
  rewrite app_nil_r in H. auto.
Qed.

Lemma Trim_split s :
  ∃ pre post, s = pre ++ Trim s ++ post ∧ Forall (λ c, isspace c = true) pre
    ∧ Forall (λ c, isspace c = true) post.
Proof.
  destruct (drop_while_split isspace s) as (pre & Hs & Hp).
  destruct (Rtrim_split (Ltrim s)) as (post & Hs' & Hp').
  exists pre, post. unfold Trim. rewrite <- Hs'. auto.
Qed.

Lemma Trim_trimmed s : trimmed (Trim s).
Proof.
  split; [|intros c s' H; by eapply Rtrim_last].
  intros c s' H. destruct (Rtrim_split (Ltrim s)) as (post & Hs & _).
  unfold Trim in H. rewrite H in Hs. simpl in Hs. by eapply drop_while_head.
Qed.

Lemma trimmed_nil : trimmed [].
Proof. split; intros c s' H; [done|]. by destruct s'. Qed.
#[export] Hint Resolve Trim_trimmed trimmed_nil : cpp.

(** ** Numbers *)

Lemma code_digit_chr d : (0 ≤ d < 10)%Z → code (digit_chr d) = (48 + d)%Z.
Proof.
  intros Hd. unfold code, digit_chr, chr. rewrite nat_ascii_embedding by lia. lia.
Qed.

Lemma isdigit_digit_chr d : (0 ≤ d < 10)%Z → isdigit (digit_chr d) = true.
Proof. intros Hd. unfold isdigit. rewrite code_digit_chr by done. lia. Qed.

Lemma isdigit_not_space c : isdigit c = true → isspace c = false.
Proof. unfold isdigit, isspace. lia. Qed.

(** The digits written for [n] read back as [n], whatever follows them. *)
Lemma dec_digits_spec fuel n acc :
  (0 ≤ n < 10 ^ Z.of_nat fuel)%Z → (0 < fuel)%nat →
  ∃ ds, dec_digits fuel n acc = ds ++ acc ∧ ds ≠ [] ∧ Forall (λ c, isdigit c = true) ds
    ∧ ∀ t a, parse_digits (ds ++ t) a
             = parse_digits t (a * 10 ^ Z.of_nat (length ds) + n)%Z.
Proof.
  revert n acc. induction fuel as [|fuel IH]; intros n acc Hn Hf; [lia|]. simpl.
  assert (Hd : (0 ≤ n mod 10 < 10)%Z) by (apply Z.mod_pos_bound; lia).
  pose proof (isdigit_digit_chr _ Hd) as Hdig.
  assert (Hval : digit_val (digit_chr (n mod 10)) = (n mod 10)%Z).
  { unfold digit_val. rewrite code_digit_chr by done. lia. }
  destruct (n <? 10)%Z eqn:E.
  - exists [digit_chr (n mod 10)]. simpl. repeat split; auto.
    intros t a. rewrite Hdig, Hval. f_equal. rewrite Z.mod_small by lia. lia.
  - destruct (IH (n / 10)%Z (digit_chr (n mod 10) :: acc)) as (ds & -> & Hne & Hall & Hp).
    { rewrite Nat2Z.inj_succ, Z.pow_succ_r in Hn by lia.
      split; [apply Z.div_pos; lia | apply Z.div_lt_upper_bound; lia]. }
    { destruct fuel; [|lia]. simpl in Hn. lia. }
    exists (ds ++ [digit_chr (n mod 10)]). rewrite <- app_assoc. simpl.
    repeat split; auto; [by destruct ds | by apply Forall_app_2; auto |].
    intros t a. rewrite <- app_assoc, Hp. simpl. rewrite Hdig, Hval. f_equal.
    rewrite length_app, Nat2Z.inj_add, Z.pow_add_r by lia. simpl.
    pose proof (Z.div_mod n 10). lia.
Qed.

Lemma log2_pow10 n : (0 ≤ n)%Z → (n < 10 ^ Z.of_nat (S (Z.to_nat (Z.log2 n))))%Z.
Proof.
  intros Hn. destruct (Z.eq_dec n 0) as [->|]; [done|].
  pose proof (Z.log2_nonneg n). rewrite Nat2Z.inj_succ, Z2Nat.id by done.
  apply Z.lt_le_trans with (2 ^ Z.succ (Z.log2 n))%Z; [apply Z.log2_spec; lia|].
  apply Z.pow_le_mono_l. lia.
Qed.

(** The decimal text of a non-negative number: digits only, and they read back. *)
Lemma to_string_nonneg n : (0 ≤ n)%Z →
  ∃ c ds, to_string n = c :: ds ∧ isdigit c = true ∧ parse_digits (c :: ds) 0 = n.
Proof.
  intros Hn. unfold to_string. destruct (n <? 0)%Z eqn:E; [lia|].
  destruct (dec_digits_spec (S (Z.to_nat (Z.log2 n))) n []) as (ds & -> & Hne & Hall & Hp).
  { split; [done | by apply log2_pow10]. } { lia. }
  destruct ds as [|c ds]; [done|]. exists c, (ds ++ []). simpl. rewrite !app_nil_r.
  split; [done|]. inversion Hall; subst. split; [done|].
  specialize (Hp [] 0%Z). rewrite app_nil_r in Hp. exact Hp.
Qed.

Lemma to_string_neg n : (n < 0)%Z → to_string n = chr 45 :: to_string (- n).
Proof.
  intros Hn. unfold to_string. destruct (n <? 0)%Z eqn:E; [|lia].
  by destruct (- n <? 0)%Z eqn:E'; [lia|].
Qed.

Lemma to_string_digits n : (0 ≤ n)%Z → Forall (λ c, isdigit c = true) (to_string n).
Proof.
  intros Hn. unfold to_string. destruct (n <? 0)%Z eqn:E; [lia|].
  destruct (dec_digits_spec (S (Z.to_nat (Z.log2 n))) n []) as (ds & -> & _ & Hall & _).
  { split; [done | by apply log2_pow10]. } { lia. }
  by rewrite app_nil_r.
Qed.

Lemma digit_not_sign c : isdigit c = true → Ascii.eqb c "-" = false ∧ Ascii.eqb c "+" = false.
Proof.
  intros H. split; apply Ascii.eqb_neq; intros ->; by vm_compute in H.
Qed.

Lemma stoi_digits c s : isdigit c = true →
  stoi (c :: s) = (let v := parse_digits (c :: s) 0 in if in_i32 v then Ok v else Throw OutOfRange).
Proof.
  intros Hc. unfold stoi. cbn [drop_while]. rewrite (isdigit_not_space _ Hc).
  destruct (digit_not_sign _ Hc) as [-> ->]. rewrite Hc.
  by rewrite Z.mul_1_l.
Qed.

Lemma stoi_total s : (∃ n, stoi s = Ok n) ∨ (∃ e, stoi s = Throw e).
Proof. unfold stoi. break; eauto. Qed.

Lemma stoi_to_string n : in_i32 n = true → stoi (to_string n) = Ok n.
Proof.
  intros Hr. destruct (Z_lt_le_dec n 0) as [Hn|Hn].
  - rewrite to_string_neg by done.
    destruct (to_string_nonneg (- n)) as (c & ds & -> & Hc & Hp); [lia|].
    change (stoi (chr 45 :: c :: ds)) with
      (if isdigit c then let v := (-1 * parse_digits (c :: ds) 0)%Z in
         if in_i32 v then Ok v else Throw OutOfRange else Throw InvalidArgument).
    rewrite Hc, Hp. cbv zeta. replace (-1 * - n)%Z with n by lia. by rewrite Hr.
  - destruct (to_string_nonneg n) as (c & ds & -> & Hc & Hp); [done|].
    rewrite stoi_digits, Hp by done. cbv zeta. by rewrite Hr.
Qed.

(** White space around a number does not change what [stoi] reads. *)
Lemma stoi_Ltrim s : stoi (Ltrim s) = stoi s.
Proof.
  unfold stoi, Ltrim. rewrite (drop_while_stop isspace (drop_while isspace s)); [done|].
  intros c s' H. by eapply drop_while_head.
Qed.
