(* ===== verification/HttpRequest.v ===== *)
(** * The HTTP request parser (simple_http/http_server)

    [HttpRequest] of http_request.h and http_request.cpp: an incremental parser
    that is given the bytes of a connection in whatever pieces they arrive.
    One [Record] for the object, one definition per member function.

    [SetHeaders] loops until the buffer holds no more line end; its fuel is the
    length of the buffer plus one, and [SetHeaders_no_fuel_out] shows that it is
    enough, since every turn erases at least two bytes. *)

From S2P Require Import Prelude CppString.

#[global] Program Instance ascii_countable : Countable ascii :=
  inj_countable' nat_of_ascii ascii_of_nat _.
Next Obligation. apply ascii_nat_embedding. Qed.

(** ** The object *)

Record HttpRequest := mkHttpRequest {
  buf : bytes;
  contentLength : Z;
  firstLine : bytes;
  headers : gmap bytes bytes;
  messageBody : bytes;
  headersParseComplete : bool;
  totalParseComplete : bool
}.

#[global] Instance HttpRequest_eq_dec : EqDecision HttpRequest.
Proof. solve_decision. Defined.

Definition LINE_END : bytes := CRLF.
Definition LINE_END_LEN : nat := 2.
Definition HEADER_SEP : ascii := ":".
Definition HEADER_SEP_LEN : nat := 1.
Definition CONTENT_LENGTH_HEADER : bytes := str "Content-Length".

Definition HttpRequest_HttpRequest : HttpRequest :=
  mkHttpRequest [] 0 [] ∅ [] false false.

Definition set_buf (b : bytes) (r : HttpRequest) : HttpRequest :=
  mkHttpRequest b (contentLength r) (firstLine r) (headers r) (messageBody r)
    (headersParseComplete r) (totalParseComplete r).
Definition set_contentLength (n : Z) (r : HttpRequest) : HttpRequest :=
  mkHttpRequest (buf r) n (firstLine r) (headers r) (messageBody r)
    (headersParseComplete r) (totalParseComplete r).
Definition set_firstLine (l : bytes) (r : HttpRequest) : HttpRequest :=
  mkHttpRequest (buf r) (contentLength r) l (headers r) (messageBody r)
    (headersParseComplete r) (totalParseComplete r).
Definition set_headers (h : gmap bytes bytes) (r : HttpRequest) : HttpRequest :=
  mkHttpRequest (buf r) (contentLength r) (firstLine r) h (messageBody r)
    (headersParseComplete r) (totalParseComplete r).
Definition set_messageBody (b : bytes) (r : HttpRequest) : HttpRequest :=
  mkHttpRequest (buf r) (contentLength r) (firstLine r) (headers r) b
    (headersParseComplete r) (totalParseComplete r).
Definition set_headersParseComplete (b : bool) (r : HttpRequest) : HttpRequest :=
  mkHttpRequest (buf r) (contentLength r) (firstLine r) (headers r) (messageBody r)
    b (totalParseComplete r).
Definition set_totalParseComplete (b : bool) (r : HttpRequest) : HttpRequest :=
  mkHttpRequest (buf r) (contentLength r) (firstLine r) (headers r) (messageBody r)
    (headersParseComplete r) b.

(** ** Member functions *)

Definition HttpRequest_SetFirstLine : M HttpRequest unit :=
  r ← get;
  if negb (bool_decide (firstLine r = [])) then mret tt
  else
    match find LINE_END (buf r) with
    | None => mret tt
    | Some pos =>
        modify (set_firstLine (take pos (buf r)));;
        modify (λ r, set_buf (drop (pos + LINE_END_LEN) (buf r)) r)
    end.

Definition HttpRequest_AddHeader (s : bytes) : M HttpRequest unit :=
  match find_char HEADER_SEP s with
  | None => throw RuntimeError
  | Some pos =>
      let v := Trim (drop (pos + HEADER_SEP_LEN) s) in
      modify (λ r, set_headers (<[take pos s := v]> (headers r)) r)
  end.

(** [std::stoi] gives an [int]; the assignment converts it to [size_t]. *)
Definition HttpRequest_SetContentLength : M HttpRequest unit :=
  r ← get;
  match headers r !! CONTENT_LENGTH_HEADER with
  | None => modify (set_contentLength 0)
  | Some v => n ← lift (stoi v); modify (set_contentLength (u64 n))
  end.

Fixpoint HttpRequest_SetHeaders (fuel : nat) : M HttpRequest unit :=
  match fuel with
  | O => lift OutOfFuel
  | S fuel' =>
      r ← get;
      match find LINE_END (buf r) with
      | None => mret tt
      | Some O =>
          modify (set_buf (drop LINE_END_LEN (buf r)));;
          modify (set_headersParseComplete true);;
          HttpRequest_SetContentLength
      | Some pos =>
          HttpRequest_AddHeader (take pos (buf r));;
          modify (λ r, set_buf (drop (pos + LINE_END_LEN) (buf r)) r);;
          HttpRequest_SetHeaders fuel'
      end
  end.

Definition HttpRequest_ParseMessageBody : M HttpRequest unit :=
  r ← get;
  if negb (headersParseComplete r) then mret tt
  else if totalParseComplete r then mret tt
  else
    modify (set_messageBody (messageBody r ++ buf r));;
    r' ← get;
    when (contentLength r' <=? Z.of_nat (length (messageBody r')))%Z
      (modify (set_totalParseComplete true));;
    modify (set_buf []).

Definition HttpRequest_ParseRequest : M HttpRequest unit :=
  r ← get;
  when (negb (headersParseComplete r))
    (HttpRequest_SetFirstLine;;
     fuel ← gets (λ r, S (length (buf r)));
     HttpRequest_SetHeaders fuel);;
  HttpRequest_ParseMessageBody.

Definition HttpRequest_Append (s : bytes) : M HttpRequest unit :=
  r ← get;
  if totalParseComplete r then mret tt
  else
    modify (set_buf (buf r ++ s));;
    HttpRequest_ParseRequest.

Definition HttpRequest_Reset : M HttpRequest unit := modify (set_buf []).

Definition HttpRequest_AllReceived (r : HttpRequest) : bool := totalParseComplete r.

Definition HttpRequest_GetMessageBody (r : HttpRequest) : bytes := messageBody r.

(** ** What a client sends *)

Record request := mkRequest {
  req_line : bytes;
  req_headers : list (bytes * bytes);
  req_body : bytes
}.

Definition header_text (h : bytes * bytes) : bytes := h.1 ++ HEADER_SEP :: h.2.

Definition serialize (q : request) : bytes :=
  req_line q ++ CRLF ++ concat (map (λ h, header_text h ++ CRLF) (req_headers q))
    ++ CRLF ++ req_body q.

(** The fields read back from the header lines: a repeated name keeps its last value. *)
Definition header_map (l : list (bytes * bytes)) (m : gmap bytes bytes) : gmap bytes bytes :=
  foldl (λ m h, <[h.1 := Trim h.2]> m) m l.

(** What the parser needs of a request to accept it. *)
Definition well_formed (q : request) : Prop :=
  req_line q ≠ [] ∧ find CRLF (req_line q) = None ∧
  Forall (λ h, (HEADER_SEP ∉ h.1) ∧ find CRLF (header_text h) = None) (req_headers q) ∧
  match (header_map (req_headers q) ∅) !! CONTENT_LENGTH_HEADER with
  | None => req_body q = []
  | Some v => stoi v = Ok (Z.of_nat (length (req_body q)))
  end.

(** The parser's state once it has the whole request. *)
Definition parsed (q : request) : HttpRequest :=
  mkHttpRequest [] (Z.of_nat (length (req_body q))) (req_line q)
    (header_map (req_headers q) ∅) (req_body q) true true.

(** The pieces of a request, in the order the socket delivers them. *)
Definition feed (chunks : list bytes) : M HttpRequest unit :=
  for_each HttpRequest_Append chunks.

(** Between two calls the parser has used what it could: before the end of the
    headers no line is left in the buffer, and after it the bytes are in the body,
    which is complete as soon as it has the announced length. *)
Definition idle (r : HttpRequest) : Prop :=
  if headersParseComplete r then
    buf r = [] ∧
    (totalParseComplete r = (contentLength r <=? Z.of_nat (length (messageBody r))))%Z
  else find CRLF (buf r) = None ∧ totalParseComplete r = false.

Definition app_buf (t : bytes) (r : HttpRequest) : HttpRequest := set_buf (buf r ++ t) r.

(** One turn of the header loop that consumes a header line. *)
Definition header_step (pos sep : nat) (r : HttpRequest) : HttpRequest :=
  let s := take pos (buf r) in
  set_buf (drop (pos + LINE_END_LEN) (buf r))
    (set_headers (<[take sep s := Trim (drop (sep + HEADER_SEP_LEN) s)]> (headers r)) r).

(** ** The header loop *)

Lemma SetHeaders_eq fuel r :
  HttpRequest_SetHeaders (S fuel) r =
  match find CRLF (buf r) with
  | None => (Ok tt, r)
  | Some O => HttpRequest_SetContentLength
                (set_headersParseComplete true (set_buf (drop 2 (buf r)) r))
  | Some (S p) =>
      match find_char HEADER_SEP (take (S p) (buf r)) with
      | None => (Throw RuntimeError, r)
      | Some sep => HttpRequest_SetHeaders fuel (header_step (S p) sep r)
      end
  end.
Proof.
  cbn [HttpRequest_SetHeaders]. unfold mbind, M_bind, get, modify. cbv beta iota.
  unfold LINE_END. destruct (find CRLF (buf r)) as [[|p]|]; [done| |done].
  unfold HttpRequest_AddHeader. by destruct (find_char _ _).
Qed.

Lemma header_step_shorter r p sep :
  find CRLF (buf r) = Some p → length (buf (header_step p sep r)) < length (buf r).
Proof.
  intros Hf. pose proof (find_length _ _ _ Hf) as Hl. simpl in *.
  rewrite length_drop. unfold LINE_END_LEN. lia.
Qed.

(** Any two sufficient amounts of fuel give the same run. *)
Lemma SetHeaders_fuel f f' r :
  length (buf r) < f → length (buf r) < f' →
  HttpRequest_SetHeaders f r = HttpRequest_SetHeaders f' r.
Proof.
  revert f' r. induction f as [|f IH]; intros [|f'] r Hf Hf'; [lia..|].
  rewrite !SetHeaders_eq. destruct (find CRLF (buf r)) as [[|p]|] eqn:E; [done| |done].
  destruct (find_char _ _) as [sep|]; [|done].
  pose proof (header_step_shorter r _ sep E). apply IH; lia.
Qed.

Lemma SetContentLength_cases r :
  let '(res, r') := HttpRequest_SetContentLength r in
  (res = Ok tt ∨ ∃ e, res = Throw e) ∧ ∃ n, r' = set_contentLength n r.
Proof.
  unfold HttpRequest_SetContentLength. run_m.
  destruct (headers r !! CONTENT_LENGTH_HEADER) as [v|]; simpl; [|eauto].
  assert (r = set_contentLength (contentLength r) r) by by destruct r.
  pose proof (stoi_total v) as Hs.
  destruct Hs as [[n ->]|[e ->]]; simpl; eauto.
Qed.

(** Fields the header loop leaves alone. *)
Definition same_frame (r r' : HttpRequest) : Prop :=
  firstLine r' = firstLine r ∧ messageBody r' = messageBody r
  ∧ totalParseComplete r' = totalParseComplete r.

Lemma SetHeaders_frame f r res r1 :
  HttpRequest_SetHeaders f r = (res, r1) → same_frame r r1.
Proof.
  revert r. induction f as [|f IH]; intros r; [intros [= _ <-]; done|].
  rewrite SetHeaders_eq. destruct (find CRLF (buf r)) as [[|p]|]; [| |intros [= _ <-]; done].
  - intros H. pose proof (SetContentLength_cases
      (set_headersParseComplete true (set_buf (drop 2 (buf r)) r))) as Hc.
    rewrite H in Hc. by destruct Hc as [_ [n ->]].
  - destruct (find_char _ _) as [sep|]; [apply IH | intros [= _ <-]; done].
Qed.

(** How the header loop can end, and what it would have done with more input:
    it stops for lack of input and goes on from where it stopped, or it has
    completed the headers or thrown, and more input only lengthens the buffer. *)
Lemma SetHeaders_app t f r res r1 f' :
  length (buf r) < f → length (buf r) + length t < f' → headersParseComplete r = false →
  HttpRequest_SetHeaders f r = (res, r1) →
  (res = Ok tt ∧ headersParseComplete r1 = false ∧ find CRLF (buf r1) = None ∧
     length (buf r1) ≤ length (buf r) ∧
     HttpRequest_SetHeaders f' (app_buf t r) = HttpRequest_SetHeaders f' (app_buf t r1))
  ∨ ((res = Ok tt ∧ headersParseComplete r1 = true ∨ ∃ e, res = Throw e) ∧
     HttpRequest_SetHeaders f' (app_buf t r) = (res, app_buf t r1)).
Proof.
  revert r f'. induction f as [|f IH]; intros r [|f'] Hf Hf' Hh H; [lia..|].
  rewrite SetHeaders_eq in H. rewrite SetHeaders_eq. simpl (buf (app_buf t r)).
  destruct (find CRLF (buf r)) as [p|] eqn:E.
  2: { injection H as <- <-. left. rewrite SetHeaders_eq. eauto. }
  pose proof (find_length _ _ _ E) as Hl. simpl in Hl.
  rewrite (find_app_Some _ _ t _ E). destruct p as [|p].
  - right. unfold HttpRequest_SetContentLength in *. run_m. rewrite drop_app_le by lia.
    destruct (headers r !! CONTENT_LENGTH_HEADER) as [v|]; simpl in *.
    + destruct (stoi v) as [n|e| |] eqn:Ev; simplify_eq; eauto;
        unfold stoi in Ev; by break.
    + simplify_eq; eauto.
  - rewrite take_app_le by lia.
    destruct (find_char _ (take (S p) (buf r))) as [sep|] eqn:Es.
    2: { injection H as <- <-. right. eauto. }
    pose proof (header_step_shorter r _ sep E) as Hs.
    replace (header_step (S p) sep (app_buf t r)) with (app_buf t (header_step (S p) sep r)).
    2: { unfold header_step, app_buf, set_buf, set_headers. cbn [buf]. unfold LINE_END_LEN.
         by rewrite (drop_app_le (buf r)), (take_app_le (buf r)) by lia. }
    destruct (IH (header_step (S p) sep r) f' ltac:(lia) ltac:(lia) Hh H)
      as [(-> & Hc & Hn & Hle & Heq) | [Hres Heq]]; [left | right; eauto].
    repeat split; auto; [lia|]. rewrite Heq.
    apply SetHeaders_fuel; simpl; rewrite length_app; lia.
Qed.

(** The loop never runs out of the fuel [ParseRequest] gives it. *)
Lemma SetHeaders_no_fuel_out r :
  headersParseComplete r = false →
  (HttpRequest_SetHeaders (S (length (buf r))) r).1 ≠ OutOfFuel.
Proof.
  intros Hh. destruct (HttpRequest_SetHeaders _ r) as [res r1] eqn:E. simpl.
  destruct (SetHeaders_app [] (S (length (buf r))) r res r1 (S (length (buf r)))
    ltac:(lia) ltac:(simpl; lia) Hh E) as [(-> & _) | [[[-> _] | [e ->]] _]]; done.
Qed.

(** ** One call of [Append] *)

#[local] Arguments HttpRequest_SetHeaders : simpl never.

Definition first_line_step (r : HttpRequest) : HttpRequest :=
  if bool_decide (firstLine r = []) then
    match find CRLF (buf r) with
    | None => r
    | Some pos => set_buf (drop (pos + 2) (buf r)) (set_firstLine (take pos (buf r)) r)
    end
  else r.

Definition body_step (r : HttpRequest) : HttpRequest :=
  if headersParseComplete r then
    if totalParseComplete r then r
    else set_buf [] (set_totalParseComplete
           (contentLength r <=? Z.of_nat (length (messageBody r ++ buf r)))%Z
           (set_messageBody (messageBody r ++ buf r) r))
  else r.

Lemma Append_eq s r :
  totalParseComplete r = false →
  HttpRequest_Append s r =
  if headersParseComplete r then (Ok tt, body_step (app_buf s r))
  else
    let r0 := first_line_step (app_buf s r) in
    match HttpRequest_SetHeaders (S (length (buf r0))) r0 with
    | (Ok _, r2) => (Ok tt, body_step r2)
    | out => out
    end.
Proof.
  intros Ht.
  assert (Hb : ∀ r, HttpRequest_ParseMessageBody r = (Ok tt, body_step r)).
  { intros r'. unfold HttpRequest_ParseMessageBody, body_step. run_m.
    destruct (headersParseComplete r'); simpl; [|done].
    destruct (totalParseComplete r') eqn:E; simpl; [done|].
    destruct (_ <=? _)%Z; simpl; [done|]. unfold set_buf, set_messageBody. simpl. by rewrite E. }
  assert (Hf : ∀ r, HttpRequest_SetFirstLine r = (Ok tt, first_line_step r)).
  { intros r'. unfold HttpRequest_SetFirstLine, first_line_step, LINE_END, LINE_END_LEN.
    run_m. case_bool_decide; simpl; [|done]. by destruct (find CRLF (buf r')). }
  unfold HttpRequest_Append, HttpRequest_ParseRequest, mbind, M_bind, get, gets, modify, when.
  rewrite Ht. change (set_buf (buf r ++ s) r) with (app_buf s r). simpl (headersParseComplete _).
  destruct (headersParseComplete r); simpl; [apply Hb|].
  rewrite Hf. set (r0 := first_line_step _).
  destruct (HttpRequest_SetHeaders (S (length (buf r0))) r0) as [[[]|e| |] r2]; auto.
Qed.

Lemma first_line_step_frame r :
  headersParseComplete (first_line_step r) = headersParseComplete r
  ∧ totalParseComplete (first_line_step r) = totalParseComplete r
  ∧ length (buf (first_line_step r)) ≤ length (buf r).
Proof.
  unfold first_line_step. case_bool_decide; [|done].
  destruct (find CRLF (buf r)); simpl; [rewrite length_drop|]; auto with lia.
Qed.

(** The first line is taken from the same place when more input follows. *)
Lemma first_line_step_app t r :
  firstLine r ≠ [] ∨ is_Some (find CRLF (buf r)) →
  first_line_step (app_buf t r) = app_buf t (first_line_step r).
Proof.
  intros H. unfold first_line_step. simpl (firstLine (app_buf t r)).
  case_bool_decide as Hf; [|done]. destruct H as [?|[pos Hp]]; [done|].
  simpl (buf (app_buf t r)). rewrite (find_app_Some _ _ t _ Hp), Hp.
  pose proof (find_length _ _ _ Hp) as Hl. simpl in Hl.
  unfold app_buf, set_buf, set_firstLine. cbn [buf].
  by rewrite (take_app_le (buf r)), (drop_app_le (buf r)) by lia.
Qed.

(** Without a line end in the buffer a call only stores its bytes. *)
Lemma Append_no_line s r :
  totalParseComplete r = false → headersParseComplete r = false →
  find CRLF (buf r ++ s) = None → HttpRequest_Append s r = (Ok tt, app_buf s r).
Proof.
  intros Ht Hh Hn. rewrite Append_eq, Hh by done. cbv zeta.
  assert (Hf : first_line_step (app_buf s r) = app_buf s r).
  { unfold first_line_step. simpl (buf _). rewrite Hn. by case_bool_decide. }
  rewrite Hf, SetHeaders_eq. simpl (buf _). rewrite Hn.
  unfold body_step. simpl. by rewrite Hh.
Qed.

(** The body collected from two pieces is the body collected from both at once. *)
Lemma body_step_app t x :
  headersParseComplete x = true → totalParseComplete x = false →
  body_step (app_buf t x) =
  if totalParseComplete (body_step x)
  then set_messageBody (messageBody (body_step x) ++ t) (body_step x)
  else body_step (app_buf t (body_step x)).
Proof.
  intros Hh Ht. unfold body_step. simpl. rewrite Hh, Ht. simpl.
  rewrite Hh, app_assoc.
  destruct (contentLength x <=? Z.of_nat (length (messageBody x ++ buf x)))%Z eqn:E; simpl.
  - unfold set_buf, set_totalParseComplete, set_messageBody. simpl. f_equal.
    apply Z.leb_le in E. apply Z.leb_le. rewrite length_app. lia.
  - reflexivity.
Qed.

Lemma body_step_frame x :
  headersParseComplete (body_step x) = headersParseComplete x
  ∧ firstLine (body_step x) = firstLine x
  ∧ (headersParseComplete x = true → totalParseComplete x = false → buf (body_step x) = []).
Proof.
  unfold body_step. destruct (headersParseComplete x) eqn:E; simpl; [|done].
  destruct (totalParseComplete x); simpl; rewrite ?E; done.
Qed.

Lemma app_buf_app s t r : app_buf (s ++ t) r = app_buf t (app_buf s r).
Proof. unfold app_buf, set_buf. simpl. by rewrite app_assoc. Qed.

(** What a call on [s ++ t] does, from what the call on [s] did. *)
Definition Append_splits (s t : bytes) (r : HttpRequest) (res : result unit)
    (r1 : HttpRequest) : Prop :=
  (res = Ok tt ∧ totalParseComplete r1 = false ∧
     (firstLine r1 ≠ [] ∨ find CRLF (buf r ++ s) = None →
      HttpRequest_Append (s ++ t) r = HttpRequest_Append t r1))
  ∨ (res = Ok tt ∧ totalParseComplete r1 = true ∧
     HttpRequest_Append (s ++ t) r = (Ok tt, set_messageBody (messageBody r1 ++ t) r1))
  ∨ (∃ e, res = Throw e ∧ HttpRequest_Append (s ++ t) r = (Throw e, app_buf t r1)).

Lemma Append_split_headers_done s t r :
  idle r → headersParseComplete r = true → totalParseComplete r = false →
  Append_splits s t r (Ok tt) (body_step (app_buf s r)).
Proof.
  unfold idle. intros Hi Hh Ht. rewrite Hh in Hi. destruct Hi as [Hi _]. unfold Append_splits. rewrite Append_eq, Hh, app_buf_app by done.
  rewrite (body_step_app t (app_buf s r)) by done.
  destruct (totalParseComplete (body_step (app_buf s r))) eqn:E; [tauto|].
  left. repeat split; auto. intros _. rewrite Append_eq by done.
  destruct (body_step_frame (app_buf s r)) as (-> & _). simpl. by rewrite Hh.
Qed.

Lemma Append_split_line s t r res r2 r1 :
  totalParseComplete r = false → headersParseComplete r = false →
  is_Some (find CRLF (buf r ++ s)) →
  r2 = first_line_step (app_buf s r) →
  HttpRequest_SetHeaders (S (length (buf r2))) r2 = (res, r1) →
  match res with
  | Ok _ => Append_splits s t r (Ok tt) (body_step r1)
  | _ => Append_splits s t r res r1
  end.
Proof.
  intros Ht Hh Hs -> H. set (r2 := first_line_step (app_buf s r)) in *.
  destruct (first_line_step_frame (app_buf s r)) as (Hh2 & Ht2 & Hl2). fold r2 in Hh2, Ht2, Hl2.
  simpl in Hh2, Ht2. rewrite Hh in Hh2. rewrite Ht in Ht2.
  destruct (SetHeaders_frame _ _ _ _ H) as (Hf & Hm & Ht1). rewrite Ht2 in Ht1.
  assert (Heq : first_line_step (app_buf (s ++ t) r) = app_buf t r2).
  { rewrite app_buf_app. apply first_line_step_app. by right. }
  clearbody r2.
  assert (HA : HttpRequest_Append (s ++ t) r =
    match HttpRequest_SetHeaders (S (length (buf (app_buf t r2)))) (app_buf t r2) with
    | (Ok _, r2) => (Ok tt, body_step r2) | out => out end).
  { rewrite Append_eq, Hh by done. cbv zeta. by rewrite Heq. }
  destruct (SetHeaders_app t (S (length (buf r2))) r2 res r1 (S (length (buf (app_buf t r2)))) ltac:(lia)
    ltac:(simpl; rewrite length_app; lia) Hh2 H)
    as [(-> & Hh1 & Hn & Hle & HS) | [Hres HS]]; rewrite HS in HA.
  - left. unfold body_step. rewrite Hh1. repeat split; auto.
    intros [Hfl|Hnone]; [|rewrite Hnone in Hs; by destruct Hs].
    rewrite HA, Append_eq, Hh1 by done. cbv zeta.
    assert (Hfs : first_line_step (app_buf t r1) = app_buf t r1).
    { unfold first_line_step. simpl. by case_bool_decide. }
    rewrite Hfs. rewrite (SetHeaders_fuel _ (S (length (buf (app_buf t r1))))); [done|..];
      simpl; rewrite !length_app; lia.
  - destruct Hres as [[-> Hh1]|[e ->]].
    + unfold Append_splits. rewrite HA, (body_step_app t r1) by done.
      destruct (totalParseComplete (body_step r1)) eqn:E; [tauto|].
      left. repeat split; auto. intros _. rewrite Append_eq by done.
      destruct (body_step_frame r1) as (-> & _). by rewrite Hh1.
    + right. right. eauto.
Qed.

Lemma Append_split s t r res r1 :
  idle r → totalParseComplete r = false → HttpRequest_Append s r = (res, r1) →
  Append_splits s t r res r1.
Proof.
  intros Hi Ht H. rewrite Append_eq in H by done.
  destruct (headersParseComplete r) eqn:Hh.
  { simplify_eq. by apply Append_split_headers_done. }
  destruct (find CRLF (buf r ++ s)) eqn:E.
  - cbv zeta in H. destruct (HttpRequest_SetHeaders _ (first_line_step (app_buf s r)))
      as [res0 r0] eqn:H0.
    pose proof (Append_split_line s t r _ _ _ Ht Hh ltac:(eauto) eq_refl H0) as HS.
    by destruct res0; simplify_eq.
  - left. assert (HN := Append_no_line s r Ht Hh E). rewrite Append_eq, Hh in HN by done.
    rewrite HN in H. simplify_eq. repeat split; auto. intros _.
    rewrite !Append_eq by done. simpl (headersParseComplete (app_buf s r)).
    by rewrite Hh, app_buf_app.
Qed.

(** ** What one call leaves behind *)

Lemma idle_body_step r :
  headersParseComplete r = true → totalParseComplete r = false → idle (body_step r).
Proof. intros Hh Ht. unfold idle, body_step. rewrite Hh, Ht. simpl. by rewrite Hh. Qed.

(** The request line: kept once it is set, else the text before the first line end. *)
Definition next_first_line (s : bytes) (r : HttpRequest) : bytes :=
  if bool_decide (firstLine r = []) then
    if headersParseComplete r then []
    else match find CRLF (buf r ++ s) with
         | None => []
         | Some pos => take pos (buf r ++ s)
         end
  else firstLine r.

Lemma Append_post s r r1 :
  idle r → totalParseComplete r = false → HttpRequest_Append s r = (Ok tt, r1) →
  idle r1 ∧ firstLine r1 = next_first_line s r.
Proof.
  intros Hi Ht H. rewrite Append_eq in H by done. unfold next_first_line.
  destruct (headersParseComplete r) eqn:Hh.
  - simplify_eq. split; [by apply idle_body_step|].
    destruct (body_step_frame (app_buf s r)) as (_ & -> & _). simpl.
    case_bool_decide; auto.
  - cbv zeta in H. set (r2 := first_line_step (app_buf s r)) in *.
    destruct (first_line_step_frame (app_buf s r)) as (Hh2 & Ht2 & Hl2).
    fold r2 in Hh2, Ht2, Hl2. simpl in Hh2, Ht2. rewrite Hh in Hh2. rewrite Ht in Ht2.
    assert (Hfl : firstLine r2 = if bool_decide (firstLine r = [])
      then match find CRLF (buf r ++ s) with None => [] | Some pos => take pos (buf r ++ s) end
      else firstLine r).
    { unfold r2, first_line_step. simpl. case_bool_decide as E; [|done].
      by destruct (find CRLF (buf r ++ s)). }
    clearbody r2.
    destruct (HttpRequest_SetHeaders _ r2) as [res r3] eqn:E.
    destruct (SetHeaders_frame _ _ _ _ E) as (Hf & _ & Ht3). rewrite Ht2 in Ht3.
    destruct (SetHeaders_app [] _ r2 res r3 (S (length (buf r2))) (Nat.lt_succ_diag_r _)
      ltac:(simpl; lia) Hh2 E) as [(-> & Hh3 & Hn & _) | [[[-> Hh3]|[e ->]] _]];
      simplify_eq.
    + unfold body_step. rewrite Hh3. unfold idle. rewrite Hh3. split; [done|congruence].
    + destruct (body_step_frame r3) as (_ & -> & _).
      split; [by apply idle_body_step | congruence].
Qed.

(** With no bytes a call cannot complete a request. *)
Lemma Append_nil r : idle r → totalParseComplete r = false →
  HttpRequest_Append [] r = (Ok tt, r).
Proof.
  unfold idle. intros Hi Ht. destruct (headersParseComplete r) eqn:Hh.
  - rewrite Append_eq, Hh by done. destruct Hi as [Hb Hc]. rewrite Ht in Hc.
    destruct r. unfold body_step, app_buf, set_buf in *. simpl in *. subst. simpl.
    by rewrite app_nil_r, <- Hc.
  - rewrite Append_no_line; [|done..|by rewrite app_nil_r; destruct Hi].
    unfold app_buf, set_buf. destruct r; simpl. by rewrite app_nil_r.
Qed.

Lemma feed_complete chunks r : totalParseComplete r = true → feed chunks r = (Ok tt, r).
Proof.
  intros Ht. unfold feed. induction chunks as [|c chunks IH]; [done|]. simpl.
  unfold mbind, M_bind. replace (HttpRequest_Append c r) with (@Ok unit tt, r); [done|].
  unfold HttpRequest_Append, mbind, M_bind, get. by rewrite Ht.
Qed.

(** A request that is complete exactly at its last byte is parsed alike whatever
    the pieces it comes in. *)
Lemma feed_concat chunks r rW :
  idle r → totalParseComplete r = false →
  HttpRequest_Append (concat chunks) r = (Ok tt, rW) →
  totalParseComplete rW = true → firstLine rW ≠ [] →
  contentLength rW = Z.of_nat (length (messageBody rW)) →
  feed chunks r = (Ok tt, rW).
Proof.
  revert r. induction chunks as [|c chunks IH]; intros r Hi Ht H HtW Hfl HcW; simpl in H.
  { rewrite Append_nil in H by done. simplify_eq. congruence. }
  unfold feed. simpl. unfold mbind, M_bind.
  destruct (HttpRequest_Append c r) as [res r1] eqn:E.
  destruct (Append_split c (concat chunks) r res r1 Hi Ht E)
    as [(-> & Ht1 & Hs) | [(-> & Ht1 & Hs) | (e & -> & Hs)]].
  - destruct (Append_post _ _ _ Hi Ht E) as [Hi1 Hf1].
    destruct (Append_post _ _ _ Hi Ht H) as [_ HfW]. rewrite HfW in Hfl.
    apply IH; try done; [|by rewrite HfW]. rewrite <- Hs; [done|]. rewrite Hf1.
    unfold next_first_line in *. case_bool_decide; [|by left].
    destruct (headersParseComplete r); [done|].
    destruct (find CRLF (buf r ++ c)) as [pos|] eqn:Ep; [|by right]. left.
    rewrite app_assoc, (find_app_Some _ _ _ _ Ep) in Hfl.
    pose proof (find_length _ _ _ Ep). by rewrite take_app_le in Hfl by lia.
  - destruct (Append_post _ _ _ Hi Ht E) as [Hi1 _]. rewrite Hs in H. simplify_eq.
    assert (Hnil : concat chunks = []).
    { unfold idle in Hi1. simpl in *. rewrite length_app in HcW.
      destruct (headersParseComplete r1); [|destruct Hi1; congruence].
      destruct Hi1 as [_ Hc]. rewrite Ht1 in Hc. symmetry in Hc. apply Z.leb_le in Hc.
      apply nil_length_inv. lia. }
    change (for_each _ chunks) with (feed chunks). rewrite feed_complete by done. f_equal.
    unfold set_messageBody. rewrite Hnil, app_nil_r. by destruct r1.
  - rewrite Hs in H. done.
Qed.

(** ** Reading back what a client wrote *)

Lemma stoi_in_range s n : stoi s = Ok n → in_i32 n = true.
Proof.
  unfold stoi. cbv zeta.
  match goal with |- (let '(_, _) := ?p in _) = _ → _ => destruct p as [sgn [|c s2]] end;
    [done|]. destruct (isdigit c); [|done].
  destruct (in_i32 _) eqn:E; intros H; by simplify_eq.
Qed.

Lemma u64_nonneg_i32 n : (0 ≤ n)%Z → in_i32 n = true → u64 n = n.
Proof. unfold in_i32. intros. apply wrap_small. lia. Qed.

Lemma header_line_find h t :
  find CRLF (header_text h) = None →
  ∃ p, find CRLF (header_text h ++ CRLF ++ t) = Some (S p) ∧ S p = length (header_text h).
Proof.
  intros Hn. rewrite find_crlf by done. unfold header_text. rewrite length_app. simpl.
  exists (length h.1 + length h.2). split; [f_equal|]; lia.
Qed.

(** The loop over a block of header lines ends by reading the content length. *)
Lemma SetHeaders_block hs r body f :
  Forall (λ h, (HEADER_SEP ∉ h.1) ∧ find CRLF (header_text h) = None) hs →
  buf r = concat (map (λ h, header_text h ++ CRLF) hs) ++ CRLF ++ body →
  length (buf r) < f →
  HttpRequest_SetHeaders f r =
  HttpRequest_SetContentLength
    (set_headersParseComplete true (set_buf body (set_headers (header_map hs (headers r)) r))).
Proof.
  intros Hall. revert r f. induction Hall as [|h hs [Hsep Hcr] _ IH]; intros r f Hb Hf.
  - destruct f as [|f]; [lia|]. rewrite SetHeaders_eq. rewrite Hb. simpl.
    by destruct r.
  - destruct f as [|f]; [lia|]. rewrite SetHeaders_eq, Hb. simpl (concat _).
    rewrite <- !app_assoc.
    destruct (header_line_find h (concat (map (λ h, header_text h ++ CRLF) hs) ++ CRLF ++ body)
      Hcr) as (p & -> & Hp).
    rewrite Hp, take_app_length. unfold header_text at 1. rewrite find_char_first by done.
    assert (Hd : drop (length h.1 + HEADER_SEP_LEN) (header_text h) = h.2).
    { unfold header_text, HEADER_SEP_LEN. rewrite drop_app_add. done. }
    rewrite (IH (header_step (length (header_text h)) (length h.1) r)).
    + unfold header_step. simpl. rewrite Hb. simpl (concat _). rewrite <- !app_assoc.
      rewrite take_app_length, Hd. unfold header_text at 1. by rewrite take_app_length.
    + unfold header_step. simpl. rewrite Hb. simpl (concat _). rewrite <- !app_assoc.
      by rewrite drop_app_add.
    + apply (f_equal length) in Hb. simpl (concat _) in Hb.
      rewrite !length_app in Hb. simpl (length CRLF) in Hb. unfold header_step. simpl.
      rewrite length_drop. unfold LINE_END_LEN. lia.
Qed.

Lemma SetContentLength_announced body r n :
  (match headers r !! CONTENT_LENGTH_HEADER with
   | None => n = 0%nat | Some v => stoi v = Ok (Z.of_nat n) end) →
  HttpRequest_SetContentLength (set_headersParseComplete true (set_buf body r))
  = (Ok tt, set_contentLength (Z.of_nat n) (set_headersParseComplete true (set_buf body r))).
Proof.
  intros H. unfold HttpRequest_SetContentLength. run_m.
  destruct (headers r !! CONTENT_LENGTH_HEADER) as [v|]; [|by rewrite H].
  rewrite H. rewrite u64_nonneg_i32; [done|lia|by eapply stoi_in_range].
Qed.

Lemma Append_serialize q :
  well_formed q → HttpRequest_Append (serialize q) HttpRequest_HttpRequest = (Ok tt, parsed q).
Proof.
  intros (Hne & Hcr & Hall & Hcl). rewrite Append_eq by done. cbv zeta.
  assert (Hf : first_line_step (app_buf (serialize q) HttpRequest_HttpRequest)
    = set_firstLine (req_line q) (app_buf
        (concat (map (λ h, header_text h ++ CRLF) (req_headers q)) ++ CRLF ++ req_body q)
        HttpRequest_HttpRequest)).
  { unfold first_line_step. simpl. unfold serialize. rewrite find_crlf by done.
    rewrite take_app_length. change 2 with (length CRLF). by rewrite drop_app_add, drop_app_length. }
  simpl (headersParseComplete _). cbv iota. rewrite Hf.
  rewrite (SetHeaders_block (req_headers q) _ (req_body q)); [|done|done|simpl; lia].
  rewrite (SetContentLength_announced _ _ (length (req_body q))).
  - unfold body_step. simpl. rewrite Z.leb_refl. reflexivity.
  - simpl. destruct (_ !! _); [done|]. by rewrite Hcl.
Qed.

Lemma Append_prefix q p t :
  well_formed q → serialize q = p ++ t → t ≠ [] →
  ∃ r, HttpRequest_Append p HttpRequest_HttpRequest = (Ok tt, r) ∧
       totalParseComplete r = false.
Proof.
  intros Hq Hs Ht. pose proof (Append_serialize q Hq) as HA. rewrite Hs in HA.
  destruct (HttpRequest_Append p HttpRequest_HttpRequest) as [res r1] eqn:E.
  assert (Hi : idle HttpRequest_HttpRequest) by done.
  destruct (Append_split p t _ res r1 Hi eq_refl E)
    as [(-> & Ht1 & _) | [(-> & Ht1 & HS) | (e & -> & HS)]]; [eauto| |congruence].
  exfalso. apply Ht. rewrite HS in HA.
  destruct (Append_post _ _ _ Hi eq_refl E) as [Hi1 _]. unfold idle in Hi1.
  destruct (headersParseComplete r1); [|destruct Hi1; congruence].
  destruct Hi1 as [_ Hc]. rewrite Ht1 in Hc. symmetry in Hc. apply Z.leb_le in Hc.
  apply (f_equal (λ o, (contentLength o.2, messageBody o.2))) in HA. simpl in HA.
  injection HA as Hcl Hmb. rewrite Hcl, <- Hmb, length_app in Hc.
  apply nil_length_inv. lia.
Qed.

(** ** Properties *)

(** C1: a well-formed request is read back exactly, in whatever pieces the socket
    delivers its bytes: the request line, the headers with their values trimmed,
    the body, and the complete flag. *)
Theorem request_any_chunking q chunks :
  well_formed q → concat chunks = serialize q →
  feed chunks HttpRequest_HttpRequest = (Ok tt, parsed q).
Proof.
  intros Hq Hc. assert (Hne : req_line q ≠ []) by apply Hq.
  apply feed_concat; try done. rewrite Hc. by apply Append_serialize.
Qed.

Definition sample_request : request :=
  mkRequest (str "POST / HTTP/1.1") [(str "Content-Length", str " 2"); (str "A", [])] (str "ok").

Lemma sample_request_wf : well_formed sample_request.
Proof.
  repeat split; try done. repeat constructor; try done; simpl;
    rewrite ?not_elem_of_cons; repeat split; try done; apply not_elem_of_nil.
Qed.

Lemma request_any_chunking_witness :
  concat [str "POST / HTTP/1.1"; chr 13 :: []; chr 10 :: drop 17 (serialize sample_request)]
    = serialize sample_request ∧
  feed [str "POST / HTTP/1.1"; chr 13 :: []; chr 10 :: drop 17 (serialize sample_request)]
    HttpRequest_HttpRequest = (Ok tt, parsed sample_request).
Proof.
  split; [reflexivity|].
  apply (request_any_chunking sample_request); [apply sample_request_wf | reflexivity].
Defined.

(** C10: the parser does not report a request as received before its last byte: after
    any strict prefix of a well-formed request, no exception was thrown and
    [AllReceived] is false. *)
Theorem prefix_not_complete q p t :
  well_formed q → serialize q = p ++ t → t ≠ [] →
  ∃ r, HttpRequest_Append p HttpRequest_HttpRequest = (Ok tt, r) ∧
       HttpRequest_AllReceived r = false.
Proof. apply Append_prefix. Qed.

Lemma prefix_not_complete_witness :
  ∃ r, HttpRequest_Append (removelast (serialize sample_request)) HttpRequest_HttpRequest
         = (Ok tt, r) ∧ HttpRequest_AllReceived r = false.
Proof.
  apply (prefix_not_complete sample_request _ (str "k"));
    [apply sample_request_wf | reflexivity | done].
Defined.

(** [Append] always returns or throws: the header loop ends within the fuel
    [ParseRequest] gives it, in every state the parser can be in between two calls. *)
Theorem Append_terminates s r :
  (HttpRequest_Append s r).1 = Ok tt ∨ ∃ e, (HttpRequest_Append s r).1 = Throw e.
Proof.
  destruct (totalParseComplete r) eqn:Ht.
  { left. unfold HttpRequest_Append, mbind, M_bind, get. by rewrite Ht. }
  rewrite Append_eq by done. destruct (headersParseComplete r) eqn:Hh; [by left|].
  cbv zeta. set (r2 := first_line_step (app_buf s r)).
  destruct (first_line_step_frame (app_buf s r)) as (Hh2 & _ & _). fold r2 in Hh2.
  simpl in Hh2. rewrite Hh in Hh2.
  destruct (HttpRequest_SetHeaders (S (length (buf r2))) r2) as [res r3] eqn:E.
  destruct (SetHeaders_app [] _ r2 res r3 (S (length (buf r2))) (Nat.lt_succ_diag_r _)
    ltac:(simpl; lia) Hh2 E) as [(-> & _) | [[[-> _]|[e ->]] _]]; simpl; eauto.
Qed.

(** A header line without a colon makes [Append] throw; the caller,
    [Connection::Read] on a worker thread, does not catch it. *)
Theorem malformed_header_throws line h t :
  line ≠ [] → find CRLF line = None → h ≠ [] → find CRLF h = None → HEADER_SEP ∉ h →
  (HttpRequest_Append (line ++ CRLF ++ h ++ CRLF ++ t) HttpRequest_HttpRequest).1
    = Throw RuntimeError.
Proof.
  intros Hl Hlc Hh Hhc Hsep. rewrite Append_eq by done. cbv zeta.
  set (b := h ++ CRLF ++ t).
  assert (Hf : first_line_step (app_buf (line ++ CRLF ++ b) HttpRequest_HttpRequest)
    = set_firstLine line (app_buf b HttpRequest_HttpRequest)).
  { unfold first_line_step. simpl. change (chr 13 :: chr 10 :: b) with (CRLF ++ b). rewrite find_crlf by done. rewrite take_app_length.
    change 2 with (length CRLF). by rewrite drop_app_add, drop_app_length. }
  simpl (headersParseComplete _). cbv iota. rewrite Hf, SetHeaders_eq.
  change (buf (set_firstLine line (app_buf b HttpRequest_HttpRequest))) with b.
  assert (Hb : take (length h) b = h) by apply take_app_length.
  assert (Hp : find CRLF b = Some (length h)) by by apply find_crlf.
  rewrite Hp. destruct h as [|c h]; [done|]. cbn [length] in *. rewrite Hb.
  by rewrite (proj2 (find_char_None _ _) Hsep).
Qed.

Lemma malformed_header_throws_witness :
  (HttpRequest_Append (str "GET /" ++ CRLF ++ str "oops" ++ CRLF ++ [])
     HttpRequest_HttpRequest).1 = Throw RuntimeError.
Proof.
  apply malformed_header_throws; try done.
  simpl. rewrite !not_elem_of_cons. repeat split; try done. apply not_elem_of_nil.
Defined.

(** An empty line before the request line is not handled alike in every split:
    delivered on its own it is skipped, delivered with the request it becomes the
    request line and the real one is taken for a header and rejected. *)
Theorem leading_empty_line_depends_on_split :
  (feed [CRLF; str "GET / HTTP/1.1" ++ CRLF ++ CRLF] HttpRequest_HttpRequest).1 = Ok tt ∧
  (feed [CRLF ++ str "GET / HTTP/1.1" ++ CRLF ++ CRLF] HttpRequest_HttpRequest).1
    = Throw RuntimeError.
Proof. split; vm_compute; reflexivity. Qed.
