(* ===== verification/Posix.v ===== *)
(** * The operating system as the programs see it

    The system calls are not code of the repository: they are operations of a
    class [Kernel], an argument of every definition that makes one.  What the
    proofs need of their documented behaviour is the class [KernelLaws].
    [RefKernel.v] is a concrete kernel that satisfies the laws.

    The file also holds the read and write loops that the socket programs share:
    [read_all] (read until EAGAIN or end of file into a fixed buffer, and append
    the buffer as a C string) and [write_all] (write until EAGAIN or done). *)

From S2P Require Import Prelude CppString.

(** ** System calls *)

(** The value of a call, or the [errno] of a call that returned -1. *)
Definition outcome (A : Type) : Type := (Z + A)%type.

Definition EINTR : Z := 4.
Definition EBADF : Z := 9.
Definition EAGAIN : Z := 11.
Definition ENOENT : Z := 2.

Definition EPOLLIN : Z := 1.
Definition EPOLLOUT : Z := 4.
Definition EPOLLERR : Z := 8.
Definition EPOLLET : Z := 2 ^ 31.
Definition F_GETFL : Z := 3.
Definition F_SETFL : Z := 4.
Definition O_NONBLOCK : Z := 2048.

Definition has_flag (mask flag : Z) : bool := negb (Z.land mask flag =? 0)%Z.

Class Kernel (K : Type) := {
  sys_read : Z → nat → K → outcome bytes * K;
  sys_write : Z → bytes → K → outcome nat * K;
  sys_close : Z → K → outcome unit * K;
  sys_socket : K → outcome Z * K;
  (** [bind] to [INADDR_ANY] and a port in network byte order *)
  sys_bind : Z → Z → K → outcome unit * K;
  sys_listen : Z → Z → K → outcome unit * K;
  (** the new descriptor, the peer's address and port in network byte order *)
  sys_accept : Z → K → outcome (Z * Z * Z) * K;
  sys_fcntl : Z → Z → Z → K → outcome Z * K;
  sys_epoll_create : K → outcome Z * K;
  sys_epoll_ctl_add : Z → Z → Z → K → outcome unit * K;
  sys_epoll_ctl_del : Z → Z → K → outcome unit * K;
  (** at most so many (descriptor, event mask) pairs *)
  sys_epoll_wait : Z → nat → Z → K → outcome (list (Z * Z)) * K;
  (** [inet_ntop] of the C library *)
  lib_inet_ntop : Z → outcome bytes
}.

Definition syscall {K A} (f : K → outcome A * K) : M K (outcome A) := λ k,
  let '(o, k') := f k in (Ok o, k').

(** [htons] and [ntohs] on a little-endian machine. *)
Definition htons (p : Z) : Z := (Z.lor (Z.shiftl (Z.land p 255) 8) (Z.shiftr p 8))%Z.
Definition ntohs : Z → Z := htons.

(** The documented behaviour the proofs rely on, in terms of the open descriptors,
    those in the (one) epoll interest list, and the bytes accepted for sending. *)
Class KernelLaws (K : Type) `{!Kernel K} := {
  fds : K → gset Z;
  watched : K → gset Z;
  sent : Z → K → bytes;
  watched_open k : watched k ⊆ fds k;
  read_len fd n k bs k' : sys_read fd n k = (inr bs, k') → length bs ≤ n;
  read_frame fd n k o k' : sys_read fd n k = (o, k') →
    fds k' = fds k ∧ watched k' = watched k ∧ ∀ fd', sent fd' k' = sent fd' k;
  read_bad fd n k : fd ∉ fds k → (sys_read fd n k).1 = inl EBADF;
  write_frame fd b k o k' : sys_write fd b k = (o, k') →
    fds k' = fds k ∧ watched k' = watched k ∧ ∀ fd', fd' ≠ fd → sent fd' k' = sent fd' k;
  write_ok fd b k n k' : sys_write fd b k = (inr n, k') →
    n ≤ length b ∧ (b ≠ [] → 0 < n) ∧ sent fd k' = sent fd k ++ take n b;
  write_err fd b k e k' : sys_write fd b k = (inl e, k') → sent fd k' = sent fd k;
  write_bad fd b k : fd ∉ fds k → (sys_write fd b k).1 = inl EBADF;
  close_ok fd k : fd ∈ fds k → ∃ k', sys_close fd k = (inr tt, k') ∧
    fds k' = fds k ∖ {[fd]} ∧ watched k' = watched k ∖ {[fd]};
  close_bad fd k : fd ∉ fds k → ∃ k', sys_close fd k = (inl EBADF, k') ∧
    fds k' = fds k ∧ watched k' = watched k;
  socket_err k e k' : sys_socket k = (inl e, k') → fds k' = fds k ∧ watched k' = watched k;
  socket_fresh k fd k' : sys_socket k = (inr fd, k') →
    (fd ∉ fds k) ∧ fds k' = fds k ∪ {[fd]} ∧ watched k' = watched k;
  bind_frame fd p k o k' : sys_bind fd p k = (o, k') → fds k' = fds k ∧ watched k' = watched k;
  listen_frame fd n k o k' : sys_listen fd n k = (o, k') → fds k' = fds k ∧ watched k' = watched k;
  epoll_create_err k e k' : sys_epoll_create k = (inl e, k') →
    fds k' = fds k ∧ watched k' = watched k;
  epoll_create_fresh k fd k' : sys_epoll_create k = (inr fd, k') →
    (fd ∉ fds k) ∧ fds k' = fds k ∪ {[fd]} ∧ watched k' = watched k;
  accept_fresh lfd k fd ip port k' : sys_accept lfd k = (inr (fd, ip, port), k') →
    (fd ∉ fds k) ∧ fds k' = fds k ∪ {[fd]} ∧ watched k' = watched k;
  accept_err lfd k e k' : sys_accept lfd k = (inl e, k') →
    fds k' = fds k ∧ watched k' = watched k;
  fcntl_frame fd c a k o k' : sys_fcntl fd c a k = (o, k') →
    fds k' = fds k ∧ watched k' = watched k;
  ctl_add_ok ep fd m k k' : sys_epoll_ctl_add ep fd m k = (inr tt, k') →
    fds k' = fds k ∧ watched k' = watched k ∪ {[fd]};
  ctl_add_err ep fd m k e k' : sys_epoll_ctl_add ep fd m k = (inl e, k') →
    fds k' = fds k ∧ watched k' = watched k;
  ctl_del_ok ep fd k : fd ∈ watched k → ∃ k', sys_epoll_ctl_del ep fd k = (inr tt, k') ∧
    fds k' = fds k ∧ watched k' = watched k ∖ {[fd]};
  ctl_del_bad ep fd k : fd ∉ watched k → ∃ e k', sys_epoll_ctl_del ep fd k = (inl e, k') ∧
    fds k' = fds k ∧ watched k' = watched k;
  close_sent fd k o k' : sys_close fd k = (o, k') → ∀ fd', sent fd' k' = sent fd' k;
  ctl_del_sent ep fd k o k' : sys_epoll_ctl_del ep fd k = (o, k') →
    ∀ fd', sent fd' k' = sent fd' k;
  epoll_wait_len ep n t k evs k' : sys_epoll_wait ep n t k = (inr evs, k') → length evs ≤ n;
  epoll_wait_frame ep n t k o k' : sys_epoll_wait ep n t k = (o, k') →
    fds k' = fds k ∧ watched k' = watched k
}.

(** ** The calls of the programs that relay what is typed *)

Definition STDIN_FILENO : Z := 0.
Definition POLLIN : Z := 1.
Definition POLLOUT : Z := 4.

Class StreamKernel (K : Type) := {
  sys_signal : Z → Z → K → outcome unit * K;
  sys_setsockopt : Z → Z → Z → Z → K → outcome unit * K;
  (** the address in network byte order, or none when the text is not an address *)
  lib_inet_aton : bytes → option Z;
  lib_inet_pton : bytes → option Z;
  sys_bind_to : Z → Z → Z → K → outcome unit * K;
  sys_connect : Z → Z → Z → K → outcome unit * K;
  sys_shutdown : Z → Z → K → outcome unit * K;
  (** the (descriptor, events) pairs; the returned events of each *)
  sys_poll : list (Z * Z) → Z → K → outcome (list Z) * K;
  (** the first descriptor not looked at, the read and the write set *)
  sys_select : Z → gset Z → gset Z → K → outcome (gset Z * gset Z) * K
}.

(** Of these calls none sends anything. *)
Class StreamLaws (K : Type) `{!Kernel K, !KernelLaws K, !StreamKernel K} := {
  signal_sent a b k o k' : sys_signal a b k = (o, k') → ∀ fd, sent fd k' = sent fd k;
  setsockopt_sent a b c d k o k' : sys_setsockopt a b c d k = (o, k') → ∀ fd, sent fd k' = sent fd k;
  bind_to_sent a b c k o k' : sys_bind_to a b c k = (o, k') → ∀ fd, sent fd k' = sent fd k;
  connect_sent a b c k o k' : sys_connect a b c k = (o, k') → ∀ fd, sent fd k' = sent fd k;
  shutdown_sent a b k o k' : sys_shutdown a b k = (o, k') → ∀ fd, sent fd k' = sent fd k;
  fcntl_sent a b c k o k' : sys_fcntl a b c k = (o, k') → ∀ fd, sent fd k' = sent fd k;
  poll_sent l t k o k' : sys_poll l t k = (o, k') → ∀ fd, sent fd k' = sent fd k;
  select_sent n r w k o k' : sys_select n r w k = (o, k') → ∀ fd, sent fd k' = sent fd k
}.

(** ** The shared loops *)

Section loops.
Context {K : Type} `{!Kernel K}.

(** [std::vector<char> buf(vecSize, 0)] after [read] stored [bs] at its start. *)
Definition filled (vecSize : nat) (bs : bytes) : bytes :=
  bs ++ replicate (vecSize - length bs) Ascii.zero.

(** The loop [for (;;) read(fd, &buf[0], bufSize)] into a vector of [vecSize]
    bytes; the boolean tells whether it was left at the end of file. *)
Fixpoint read_all (bufSize vecSize fuel : nat) (fd : Z) (s : bytes) : M K (bytes * bool) :=
  match fuel with
  | O => lift OutOfFuel
  | S fuel' =>
      n ← syscall (sys_read fd bufSize);
      match n with
      | inl code => if (code =? EAGAIN)%Z then mret (s, false) else throw RuntimeError
      | inr [] => mret (s, true)
      | inr bs =>
          match c_str (filled vecSize bs) with
          | Some t => read_all bufSize vecSize fuel' fd (s ++ t)
          | None => undef
          end
      end
  end.

(** The loop that writes until the string is empty or the call would block;
    the rest of the string is the result. *)
Fixpoint write_all (fuel : nat) (fd : Z) (s : bytes) : M K bytes :=
  match fuel with
  | O => lift OutOfFuel
  | S fuel' =>
      match s with
      | [] => mret []
      | _ :: _ =>
          n ← syscall (sys_write fd s);
          match n with
          | inl code => if (code =? EAGAIN)%Z then mret s else throw RuntimeError
          | inr n => write_all fuel' fd (drop n s)
          end
      end
  end.

(** The chunks a sequence of successful reads delivers before the one that ends the loop. *)
Inductive reads (bufSize : nat) (fd : Z) : K → list bytes → bool → K → Prop :=
  | reads_again k k' :
      sys_read fd bufSize k = (inl EAGAIN, k') → reads bufSize fd k [] false k'
  | reads_eof k k' :
      sys_read fd bufSize k = (inr [], k') → reads bufSize fd k [] true k'
  | reads_more k bs k1 bss eof k' :
      sys_read fd bufSize k = (inr bs, k1) → bs ≠ [] →
      reads bufSize fd k1 bss eof k' → reads bufSize fd k (bs :: bss) eof k'.
End loops.

(** ** Lemmas *)

Lemma c_str_app s t : Ascii.zero ∉ s → c_str (s ++ Ascii.zero :: t) = Some s.
Proof.
  induction s as [|c s IH]; simpl; [done|]. rewrite not_elem_of_cons. intros [Hc Hs].
  destruct (Ascii.eqb_spec c Ascii.zero); [congruence|]. by rewrite IH.
Qed.

Lemma c_str_None s : Ascii.zero ∉ s → c_str s = None.
Proof.
  induction s as [|c s IH]; simpl; [done|]. rewrite not_elem_of_cons. intros [Hc Hs].
  destruct (Ascii.eqb_spec c Ascii.zero); [congruence|]. by rewrite IH.
Qed.

(** A vector longer than what is read into it holds a terminator. *)
Lemma c_str_terminated n bs : length bs ≤ n → is_Some (c_str (filled (S n) bs)).
Proof.
  intros Hl. unfold filled. destruct (S n - length bs) as [|m] eqn:E; [lia|]. clear Hl E.
  induction bs as [|b bs IH]; simpl; [by eauto|]. case_match; [by eauto|]. destruct IH as [t Ht]. simpl in Ht.
  rewrite Ht. eauto.
Qed.

Section loop_lemmas.
Context {K : Type} `{!Kernel K, !KernelLaws K}.

(** Text shorter than the vector is appended whole. *)
Lemma filled_short vecSize bs :
  length bs < vecSize → Ascii.zero ∉ bs → c_str (filled vecSize bs) = Some bs.
Proof.
  intros Hl Hz. unfold filled. destruct (vecSize - length bs) as [|m] eqn:E; [lia|].
  simpl. by apply c_str_app.
Qed.

(** A vector filled to its last byte with text holds no terminator. *)
Lemma filled_full vecSize bs :
  length bs = vecSize → Ascii.zero ∉ bs → c_str (filled vecSize bs) = None.
Proof.
  intros <- Hz. unfold filled. rewrite Nat.sub_diag. simpl. rewrite app_nil_r.
  by apply c_str_None.
Qed.

Lemma read_all_text bufSize vecSize fd k bss eof k' s fuel :
  reads bufSize fd k bss eof k' →
  Forall (λ bs, length bs < vecSize ∧ Ascii.zero ∉ bs) bss →
  length bss < fuel →
  read_all bufSize vecSize fuel fd s k = (Ok (s ++ concat bss, eof), k').
Proof.
  intros Hr. revert s fuel. induction Hr as [k k' H|k k' H|k bs k1 bss eof k' H Hne Hr IH];
    intros s [|fuel] Hall Hf; simpl in *; try lia;
    unfold mbind, M_bind, syscall; rewrite H; rewrite ?app_nil_r; try done.
  apply Forall_cons in Hall as [[Hl Hz] Hall]. destruct bs as [|b bs]; [done|].
  rewrite filled_short by done. rewrite IH by (done || lia). by rewrite <- app_assoc.
Qed.

(** Reading changes no descriptor and sends nothing, whatever it returns. *)
Lemma read_all_frame bufSize vecSize fuel fd s k r k' :
  read_all bufSize vecSize fuel fd s k = (r, k') →
  fds k' = fds k ∧ watched k' = watched k ∧ ∀ fd', sent fd' k' = sent fd' k.
Proof.
  revert s k. induction fuel as [|fuel IH]; intros s k; [by intros [= _ <-]|].
  cbn [read_all]. unfold mbind, M_bind, syscall.
  destruct (sys_read fd bufSize k) as [[code|[|b bs]] k1] eqn:E;
    apply read_frame in E as (Hf & Hw & Hs).
  - destruct (code =? EAGAIN)%Z; by intros [= _ <-].
  - by intros [= _ <-].
  - destruct (c_str _); [|by intros [= _ <-]]. intros Hr. apply IH in Hr as (H1 & H2 & H3).
    rewrite H1, H2. split_and!; [done|done|]. intros fd'. by rewrite H3, Hs.
Qed.

(** The loop ends; what it took off the string is what the kernel accepted. *)
Lemma write_all_spec fd s fuel k :
  length s < fuel →
  ∃ r k', write_all fuel fd s k = (r, k') ∧
    fds k' = fds k ∧ watched k' = watched k ∧
    match r with
    | Ok rest => ∃ done_, s = done_ ++ rest ∧ sent fd k' = sent fd k ++ done_
    | Throw e => e = RuntimeError ∧
                 ∃ done_ rest, s = done_ ++ rest ∧ sent fd k' = sent fd k ++ done_
    | _ => False
    end.
Proof.
  revert s k. induction fuel as [|fuel IH]; intros s k Hf; [lia|].
  destruct s as [|c s]; simpl.
  { exists (Ok []), k. repeat split; auto. exists []. split; [done|]. by rewrite app_nil_r. }
  unfold mbind, M_bind, syscall.
  destruct (sys_write fd (c :: s) k) as [[code|n] k1] eqn:E.
  - pose proof (write_err _ _ _ _ _ E) as Hs. apply write_frame in E as (Hf1 & Hw1 & _).
    destruct (code =? EAGAIN)%Z.
    + exists (Ok (c :: s)), k1. repeat split; auto. exists []. by rewrite Hs, app_nil_r.
    + exists (Throw RuntimeError), k1. repeat split; auto.
      exists [], (c :: s). by rewrite Hs, app_nil_r.
  - pose proof (write_frame _ _ _ _ _ E) as (Hf1 & Hw1 & _).
    apply write_ok in E as (Hn & Hpos & Hs). specialize (Hpos ltac:(done)).
    destruct (IH (drop n (c :: s)) k1) as (r & k' & Hr & Hf2 & Hw2 & Hsp).
    { rewrite length_drop. simpl in *. lia. }
    exists r, k'. split; [done|]. rewrite Hf2, Hw2. split; [done|]. split; [done|].
    destruct r as [rest|e| |]; try done.
    + destruct Hsp as (d & Hd & Hsd). exists (take n (c :: s) ++ d).
      rewrite <- app_assoc, <- Hd, take_drop, app_assoc, <- Hs. done.
    + destruct Hsp as (-> & d & rest & Hd & Hsd). split; [done|].
      exists (take n (c :: s) ++ d), rest.
      rewrite <- app_assoc, <- Hd, take_drop, app_assoc, <- Hs. done.
Qed.
End loop_lemmas.
