(* ===== verification/RefKernel.v ===== *)
(** * A concrete kernel

    A small file-descriptor table that satisfies the laws of [Posix.KernelLaws]: it
    shows that the hypotheses the proofs make about the operating system can
    hold, and is the kernel on which the witnesses are evaluated. *)

From S2P Require Import Prelude CppString Posix.

Record ref_kernel := mkRef {
  rk_fds : gset Z;
  rk_watched : gset Z;
  rk_in : gmap Z (list bytes);
  rk_room : gmap Z nat;
  rk_sent : gmap Z bytes;
  rk_pending : list (Z * Z);
  rk_events : list (list (Z * Z))
}.

Definition rk_set_fds (f w : gset Z) (k : ref_kernel) : ref_kernel :=
  mkRef f w (rk_in k) (rk_room k) (rk_sent k) (rk_pending k) (rk_events k).

(** The next chunk waiting on the descriptor; an empty chunk is the end of file. *)
Definition rk_read (fd : Z) (n : nat) (k : ref_kernel) : outcome bytes * ref_kernel :=
  if decide (fd ∈ rk_fds k) then
    match rk_in k !! fd with
    | Some (c :: cs) =>
        let cs' := match drop n c with [] => match c with [] => [] :: cs | _ => cs end
                   | rest => rest :: cs end in
        (inr (take n c), mkRef (rk_fds k) (rk_watched k) (<[fd := cs']> (rk_in k))
           (rk_room k) (rk_sent k) (rk_pending k) (rk_events k))
    | _ => (inl EAGAIN, k)
    end
  else (inl EBADF, k).

Definition rk_write (fd : Z) (b : bytes) (k : ref_kernel) : outcome nat * ref_kernel :=
  if decide (fd ∈ rk_fds k) then
    let room := default 0 (rk_room k !! fd) in
    let n := min (length b) room in
    if bool_decide (n = 0 ∧ b ≠ []) then (inl EAGAIN, k)
    else (inr n, mkRef (rk_fds k) (rk_watched k) (rk_in k) (<[fd := room - n]> (rk_room k))
                  (<[fd := default [] (rk_sent k !! fd) ++ take n b]> (rk_sent k))
                  (rk_pending k) (rk_events k))
  else (inl EBADF, k).

Definition rk_close (fd : Z) (k : ref_kernel) : outcome unit * ref_kernel :=
  if decide (fd ∈ rk_fds k)
  then (inr tt, rk_set_fds (rk_fds k ∖ {[fd]}) (rk_watched k ∖ {[fd]}) k)
  else (inl EBADF, k).

(** The lowest descriptor that is not open, as POSIX prescribes. *)
Definition rk_lowest (f : gset Z) : Z :=
  match list_find (λ z, z ∉ f) (Z.of_nat <$> seq 3 (S (size f))) with
  | Some (_, z) => z
  | None => fresh f
  end.

Definition rk_free (f : gset Z) : Z :=
  if decide (rk_lowest f ∈ f) then fresh f else rk_lowest f.

Definition rk_accept (lfd : Z) (k : ref_kernel) : outcome (Z * Z * Z) * ref_kernel :=
  match rk_pending k with
  | [] => (inl EAGAIN, k)
  | (ip, p) :: ps =>
      let fd := rk_free (rk_fds k) in
      (inr (fd, ip, p), mkRef (rk_fds k ∪ {[fd]}) (rk_watched k ∩ rk_fds k) (rk_in k) (rk_room k)
                          (rk_sent k) ps (rk_events k))
  end.

Definition rk_socket (k : ref_kernel) : outcome Z * ref_kernel :=
  let fd := rk_free (rk_fds k) in (inr fd, rk_set_fds (rk_fds k ∪ {[fd]}) (rk_watched k ∩ rk_fds k) k).

Definition rk_ctl_add (ep fd m : Z) (k : ref_kernel) : outcome unit * ref_kernel :=
  if decide (fd ∈ rk_fds k ∧ fd ∉ rk_watched k)
  then (inr tt, rk_set_fds (rk_fds k) (rk_watched k ∪ {[fd]}) k)
  else (inl EBADF, k).

Definition rk_ctl_del (ep fd : Z) (k : ref_kernel) : outcome unit * ref_kernel :=
  if decide (fd ∈ rk_watched k ∩ rk_fds k)
  then (inr tt, rk_set_fds (rk_fds k) (rk_watched k ∖ {[fd]}) k)
  else (inl ENOENT, k).

Definition rk_wait (ep : Z) (n : nat) (t : Z) (k : ref_kernel)
    : outcome (list (Z * Z)) * ref_kernel :=
  match rk_events k with
  | [] => (inr [], k)
  | evs :: rest => (inr (take n evs), mkRef (rk_fds k) (rk_watched k) (rk_in k) (rk_room k)
                      (rk_sent k) (rk_pending k) rest)
  end.

#[global] Instance ref_kernel_Kernel : Kernel ref_kernel := {
  sys_read := rk_read;
  sys_write := rk_write;
  sys_close := rk_close;
  sys_socket := rk_socket;
  sys_bind _ _ k := (inr tt, k);
  sys_listen _ _ k := (inr tt, k);
  sys_accept := rk_accept;
  sys_fcntl _ _ _ k := (inr 0%Z, k);
  sys_epoll_create k := rk_socket k;
  sys_epoll_ctl_add := rk_ctl_add;
  sys_epoll_ctl_del := rk_ctl_del;
  sys_epoll_wait := rk_wait;
  lib_inet_ntop _ := inr (str "127.0.0.1")
}.

(** ** The laws hold *)

Lemma rk_free_fresh f : rk_free f ∉ f.
Proof. unfold rk_free. case_decide; [apply is_fresh | done]. Qed.

Lemma rk_socket_fresh k fd k' :
  rk_socket k = (inr fd, k') →
  (fd ∉ rk_fds k) ∧ rk_fds k' = rk_fds k ∪ {[fd]} ∧
  rk_watched k' ∩ rk_fds k' = rk_watched k ∩ rk_fds k.
Proof. intros [= <- <-]. simpl. pose proof (rk_free_fresh (rk_fds k)). set_solver. Qed.

#[global] Program Instance ref_kernel_laws : KernelLaws ref_kernel := {
  fds := rk_fds;
  watched k := rk_watched k ∩ rk_fds k;
  sent fd k := default [] (rk_sent k !! fd)
}.
Next Obligation. set_solver. Qed.
Next Obligation.
  intros fd n k bs k'. unfold sys_read. simpl. unfold rk_read. case_decide; [|done].
  destruct (rk_in k !! fd) as [[|c cs]|]; [done| |done]. intros [= <- _].
  rewrite length_take. lia.
Qed.
Next Obligation.
  intros fd n k o k'. unfold sys_read. simpl. unfold rk_read. case_decide; [|by intros [= _ <-]].
  destruct (rk_in k !! fd) as [[|c cs]|]; by intros [= _ <-].
Qed.
Next Obligation. intros. unfold sys_read. simpl. unfold rk_read. by case_decide. Qed.
Next Obligation.
  intros fd b k o k'. unfold sys_write. simpl. unfold rk_write. case_decide; [|by intros [= _ <-]].
  case_bool_decide; intros [= _ <-]; simpl; repeat split; auto.
  intros fd' Hne. by rewrite lookup_insert_ne.
Qed.
Next Obligation.
  intros fd b k n k'. unfold sys_write. simpl. unfold rk_write. case_decide; [|done].
  case_bool_decide as Hb; [done|]. intros [= <- <-]. simpl. rewrite lookup_insert_eq.
  repeat split; [lia|]. intros Hne. apply not_and_l in Hb as [?|?]; [lia|done].
Qed.
Next Obligation.
  intros fd b k e k'. unfold sys_write. simpl. unfold rk_write. case_decide; [|by intros [= _ <-]].
  case_bool_decide; by intros [= _ <-].
Qed.
Next Obligation. intros. unfold sys_write. simpl. unfold rk_write. by case_decide. Qed.
Next Obligation.
  intros fd k H. unfold sys_close. simpl. unfold rk_close. rewrite decide_True by done.
  eexists. split; [done|]. simpl. set_solver.
Qed.
Next Obligation.
  intros fd k H. unfold sys_close. simpl. unfold rk_close. rewrite decide_False by done. eauto.
Qed.
Next Obligation. intros k e k'. done. Qed.
Next Obligation. intros k fd k'. apply rk_socket_fresh. Qed.
Next Obligation. intros fd p k o k'. unfold sys_bind. simpl. by intros [= _ <-]. Qed.
Next Obligation. intros fd n k o k'. unfold sys_listen. simpl. by intros [= _ <-]. Qed.
Next Obligation. intros k e k'. done. Qed.
Next Obligation. intros k fd k'. apply rk_socket_fresh. Qed.
Next Obligation.
  intros lfd k fd ip p k'. unfold sys_accept. simpl. unfold rk_accept.
  destruct (rk_pending k) as [|[ip' p'] ps]; [done|]. intros [= <- _ _ <-]. simpl.
  pose proof (rk_free_fresh (rk_fds k)). set_solver.
Qed.
Next Obligation.
  intros lfd k e k'. unfold sys_accept. simpl. unfold rk_accept.
  destruct (rk_pending k) as [|[ip p] ps]; by intros [= _ <-].
Qed.
Next Obligation. intros fd c a k o k'. unfold sys_fcntl. simpl. by intros [= _ <-]. Qed.
Next Obligation.
  intros ep fd m k k'. unfold sys_epoll_ctl_add. simpl. unfold rk_ctl_add. case_decide; [|done].
  intros [= <-]. simpl. set_solver.
Qed.
Next Obligation.
  intros ep fd m k e k'. unfold sys_epoll_ctl_add. simpl. unfold rk_ctl_add.
  case_decide; by intros [= _ <-].
Qed.
Next Obligation.
  intros ep fd k H. unfold sys_epoll_ctl_del. simpl. unfold rk_ctl_del.
  rewrite decide_True by done. eexists. split; [done|]. simpl. set_solver.
Qed.
Next Obligation.
  intros ep fd k H. unfold sys_epoll_ctl_del. simpl. unfold rk_ctl_del.
  rewrite decide_False by done. eauto.
Qed.
Next Obligation.
  intros fd k o k'. unfold sys_close. simpl. unfold rk_close. case_decide; by intros [= _ <-].
Qed.
Next Obligation.
  intros ep fd k o k'. unfold sys_epoll_ctl_del. simpl. unfold rk_ctl_del.
  case_decide; by intros [= _ <-].
Qed.
Next Obligation.
  intros ep n t k evs k'. unfold sys_epoll_wait. simpl. unfold rk_wait.
  destruct (rk_events k) as [|e es]; intros [= <- _]; simpl; [lia|]. rewrite length_take. lia.
Qed.
Next Obligation.
  intros ep n t k o k'. unfold sys_epoll_wait. simpl. unfold rk_wait.
  destruct (rk_events k) as [|e es]; by intros [= _ <-].
Qed.

(** ** A kernel for the witnesses *)

(** Descriptor 3 is the epoll instance, 4 the listening socket, 5 an established
    connection with the given input and room for output. *)
Definition kernel_with (input : list bytes) (room : nat) : ref_kernel :=
  mkRef {[3%Z; 4%Z; 5%Z]} {[4%Z; 5%Z]} {[5%Z := input]} {[5%Z := room]} ∅ [] [].

(** ** Polling *)

(** [poll] and [select] report the next batch of events of the reference kernel. *)
Definition rs_next (k : ref_kernel) : list (Z * Z) * ref_kernel :=
  match rk_events k with
  | [] => ([], k)
  | e :: es => (e, mkRef (rk_fds k) (rk_watched k) (rk_in k) (rk_room k) (rk_sent k) (rk_pending k) es)
  end.

Definition rs_poll (l : list (Z * Z)) (t : Z) (k : ref_kernel) : outcome (list Z) * ref_kernel :=
  let '(evs, k) := rs_next k in
  (inr ((λ x, default 0%Z (snd <$> head (filter (λ e, e.1 = x.1) evs))) <$> l), k).

Definition rs_select (n : Z) (r w : gset Z) (k : ref_kernel) : outcome (gset Z * gset Z) * ref_kernel :=
  let '(evs, k) := rs_next k in
  (inr (list_to_set (fst <$> filter (λ e, has_flag e.2 POLLIN = true ∧ e.1 ∈ r) evs),
        list_to_set (fst <$> filter (λ e, has_flag e.2 POLLOUT = true ∧ e.1 ∈ w) evs)), k).

#[global] Instance ref_stream : StreamKernel ref_kernel := {
  sys_signal _ _ k := (inr tt, k);
  sys_setsockopt _ _ _ _ k := (inr tt, k);
  lib_inet_aton _ := Some 16777343%Z;
  lib_inet_pton _ := Some 16777343%Z;
  sys_bind_to _ _ _ k := (inr tt, k);
  sys_connect _ _ _ k := (inr tt, k);
  sys_shutdown _ _ k := (inr tt, k);
  sys_poll := rs_poll;
  sys_select := rs_select
}.

Lemma rs_next_sent k : rk_sent (rs_next k).2 = rk_sent k.
Proof. unfold rs_next. by destruct (rk_events k). Qed.

#[global] Instance ref_stream_laws : StreamLaws ref_kernel.
Proof.
  split; try (intros *; simpl; by intros [= _ <-]).
  - intros l t k o k' E fd. simpl in *. unfold rs_poll in E.
    pose proof (rs_next_sent k) as Hs. destruct (rs_next k). injection E as _ <-. simpl in *. by rewrite Hs.
  - intros n r w k o k' E fd. simpl in *. unfold rs_select in E.
    pose proof (rs_next_sent k) as Hs. destruct (rs_next k). injection E as _ <-. simpl in *. by rewrite Hs.
Qed.
