(* ===== verification/HttpConfig.v ===== *)
(** * The configuration of simple_http (simple_http/config)

    [Config] of config.h and config.cpp: the file ./config is read line by line,
    a line [name = value] sets the field it names, anything else is skipped. *)

From S2P Require Import Prelude CppString.

Definition DEFAULT_PORT : Z := 5666.
Definition EP_EVENT_COUNT : Z := 10.

Record Config := mkConfig {
  logLevel : bytes;
  port : Z;
  epEventCount : Z
}.

#[global] Instance Config_eq_dec : EqDecision Config.
Proof. solve_decision. Defined.

(** [port = std::stoi(value)] converts the [int] to [uint16_t]. *)
Definition Config_ParseLine (s : bytes) : M Config unit :=
  let s := Trim s in
  match find_char "=" s with
  | None => mret tt
  | Some pos =>
      let name := Trim (take pos s) in
      let value := Trim (drop (pos + 1) s) in
      if bool_decide (name = str "port") then
        n ← lift (stoi value);
        modify (λ c, mkConfig (logLevel c) (u16 n) (epEventCount c))
      else if bool_decide (name = str "log_level") then
        modify (λ c, mkConfig value (port c) (epEventCount c))
      else mret tt
  end.

Definition NEWLINE : ascii := chr 10.

(** The strings [std::getline] yields until [eof()]: the text between line feeds,
    and what follows the last one, even when it is empty. *)
Fixpoint getlines (cur text : bytes) : list bytes :=
  match text with
  | [] => [cur]
  | c :: text' =>
      if Ascii.eqb c NEWLINE then cur :: getlines [] text' else getlines (cur ++ [c]) text'
  end.

(** The constructor; [None] is [exit(1)] when the file cannot be opened. *)
Definition Config_Config (file : option bytes) : option (result unit * Config) :=
  match file with
  | None => None
  | Some text =>
      Some (for_each Config_ParseLine (getlines [] text)
              (mkConfig [] DEFAULT_PORT EP_EVENT_COUNT))
  end.

(** ** Lemmas *)

Lemma Ltrim_sep np c vp : isspace c = false → Ltrim (np ++ c :: vp) = Ltrim np ++ c :: vp.
Proof.
  intros Hc. unfold Ltrim. induction np as [|d np IH]; simpl; [by rewrite Hc|].
  by destruct (isspace d).
Qed.

Lemma Rtrim_sep np c vp : isspace c = false → Rtrim (np ++ c :: vp) = np ++ c :: Rtrim vp.
Proof.
  intros Hc. unfold Rtrim. rewrite reverse_app, reverse_cons, <- app_assoc. simpl.
  change (drop_while isspace) with Ltrim. rewrite Ltrim_sep by done.
  rewrite reverse_app, reverse_cons, reverse_involutive, <- app_assoc. done.
Qed.

Lemma Trim_sep np c vp : isspace c = false → Trim (np ++ c :: vp) = Ltrim np ++ c :: Rtrim vp.
Proof. intros Hc. unfold Trim. by rewrite Ltrim_sep, Rtrim_sep. Qed.

Lemma Trim_Ltrim s : Trim (Ltrim s) = Trim s.
Proof.
  unfold Trim, Ltrim. rewrite (drop_while_stop isspace (drop_while isspace s)); [done|].
  intros c s' H. by eapply drop_while_head.
Qed.

Lemma Trim_Rtrim s : Trim (Rtrim s) = Trim s.
Proof.
  destruct (Trim_split (Rtrim s)) as (pre & post & Hs & Hpre & Hpost).
  destruct (Rtrim_split s) as (post' & Hs' & Hpost'). rewrite Hs in Hs'.
  symmetry. rewrite Hs' at 1. rewrite <- !app_assoc.
  apply Trim_unique; auto with cpp. by apply Forall_app_2.
Qed.

Lemma Ltrim_subset c s : c ∉ s → c ∉ Ltrim s.
Proof.
  intros Hc Hin. apply Hc. destruct (drop_while_split isspace s) as (pre & -> & _).
  apply elem_of_app. by right.
Qed.

Lemma ParseLine_split np vp :
  "="%char ∉ np →
  Config_ParseLine (np ++ "="%char :: vp) =
  (if bool_decide (Trim np = str "port") then
     n ← lift (stoi (Trim vp)); modify (λ c, mkConfig (logLevel c) (u16 n) (epEventCount c))
   else if bool_decide (Trim np = str "log_level") then
     modify (λ c, mkConfig (Trim vp) (port c) (epEventCount c))
   else mret tt).
Proof.
  intros Hn. unfold Config_ParseLine.
  rewrite Trim_sep by done. rewrite find_char_first by by apply Ltrim_subset.
  rewrite take_app_length, Trim_Ltrim.
  replace (drop (length (Ltrim np) + 1) (Ltrim np ++ "="%char :: Rtrim vp)) with (Rtrim vp).
  2: { by rewrite drop_app_add. }
  by rewrite Trim_Rtrim.
Qed.

Lemma getlines_app cur l t :
  NEWLINE ∉ l → getlines cur (l ++ NEWLINE :: t) = (cur ++ l) :: getlines [] t.
Proof.
  revert cur. induction l as [|c l IH]; intros cur; simpl; [by rewrite app_nil_r|].
  rewrite not_elem_of_cons. intros [Hc Hl].
  destruct (Ascii.eqb_spec c NEWLINE); [congruence|]. rewrite IH by done.
  by rewrite <- app_assoc.
Qed.

Lemma Rtrim_subset c s : c ∉ s → c ∉ Rtrim s.
Proof.
  intros Hc Hin. apply Hc. destruct (Rtrim_split s) as (post & -> & _).
  apply elem_of_app. by left.
Qed.

Lemma digits_no c s : isdigit c = false → Forall (λ d, isdigit d = true) s → c ∉ s.
Proof. intros Hc Hs Hin. rewrite Forall_forall in Hs. apply Hs in Hin. congruence. Qed.

Lemma digits_trimmed s : Forall (λ c, isdigit c = true) s → trimmed s.
Proof.
  intros Hs. split; intros c s' ->.
  - apply Forall_cons in Hs as [Hc _]. by apply isdigit_not_space.
  - apply Forall_app in Hs as [_ Hc]. inversion Hc. by apply isdigit_not_space.
Qed.

(** ** Properties *)

(** Every line is handled by its name: with an equals sign, the text before the
    first one, trimmed, selects the field and the text after it, trimmed, is the
    value ([port] reduced modulo 2^16, or [std::stoi]'s exception); any other name
    leaves the configuration alone. *)
Theorem ParseLine_by_name np vp c :
  "="%char ∉ np →
  Config_ParseLine (np ++ "="%char :: vp) c =
  if bool_decide (Trim np = str "port") then
    match stoi (Trim vp) with
    | Ok n => (Ok tt, mkConfig (logLevel c) (u16 n) (epEventCount c))
    | Throw e => (Throw e, c)
    | Undef => (Undef, c)
    | OutOfFuel => (OutOfFuel, c)
    end
  else if bool_decide (Trim np = str "log_level") then
    (Ok tt, mkConfig (Trim vp) (port c) (epEventCount c))
  else (Ok tt, c).
Proof.
  intros Hn. rewrite ParseLine_split by done.
  case_bool_decide; [run_m; by destruct (stoi (Trim vp))|]. by case_bool_decide.
Qed.

Lemma ParseLine_by_name_witness :
  Config_ParseLine (str " port " ++ "="%char :: str " 80 ") (mkConfig [] 5666 10)
  = (Ok tt, mkConfig [] 80 10).
Proof.
  rewrite (ParseLine_by_name (str " port ") (str " 80 ")); [reflexivity|].
  decide_closed.
Defined.

(** A configuration file written with a port and a log level is read back, the
    number of epoll events keeping its default. *)
Theorem config_file_roundtrip n lvl :
  (0 ≤ n < 2 ^ 16)%Z → trimmed lvl → NEWLINE ∉ lvl →
  Config_Config (Some (str "port = " ++ to_string n ++ NEWLINE ::
                       str "log_level = " ++ lvl ++ [NEWLINE]))
  = Some (Ok tt, mkConfig lvl n EP_EVENT_COUNT).
Proof.
  intros Hn Ht Hl. pose proof (to_string_digits n ltac:(lia)) as Hd. unfold Config_Config.
  replace (str "port = " ++ to_string n ++ NEWLINE :: str "log_level = " ++ lvl ++ [NEWLINE])
    with ((str "port = " ++ to_string n) ++ NEWLINE :: (str "log_level = " ++ lvl) ++ [NEWLINE])
    by by rewrite <- !app_assoc.
  rewrite !getlines_app.
  2: { apply not_elem_of_app. split; [decide_closed | done]. }
  2: { apply not_elem_of_app. split; [decide_closed | by apply digits_no]. }
  assert (Hp : Config_ParseLine (str "port = " ++ to_string n) (mkConfig [] DEFAULT_PORT EP_EVENT_COUNT)
    = (Ok tt, mkConfig [] n EP_EVENT_COUNT)).
  { change (str "port = " ++ to_string n) with (str "port " ++ "="%char :: " "%char :: to_string n).
    rewrite ParseLine_split by decide_closed. run_m.
    change (Trim (" "%char :: to_string n)) with (Trim (to_string n)).
    rewrite Trim_id by by apply digits_trimmed.
    rewrite stoi_to_string by (unfold in_i32; lia).
    unfold u16. by rewrite wrap_small. }
  cbn [for_each]. unfold mbind, M_bind. rewrite app_nil_l, Hp.
  change ([] ++ str "log_level = " ++ lvl) with (str "log_level " ++ "="%char :: " "%char :: lvl).
  rewrite ParseLine_split by decide_closed. run_m.
  change (Trim (" "%char :: lvl)) with (Trim lvl). by rewrite Trim_id.
Qed.

Lemma config_file_roundtrip_witness :
  Config_Config (Some (str "port = " ++ to_string 5666 ++ NEWLINE ::
                       str "log_level = " ++ str "debug" ++ [NEWLINE]))
  = Some (Ok tt, mkConfig (str "debug") 5666 EP_EVENT_COUNT).
Proof.
  apply (config_file_roundtrip 5666 (str "debug")); [lia| |decide_closed].
  split; intros c s'; [by intros [= <- _] |].
  intros H. apply (f_equal last) in H. rewrite last_snoc in H. by injection H as <-.
Defined.
