(* ===== verification/HttpLog.v ===== *)
(** * The logger of simple_http (simple_http/log)

    [Logger] of log.h and log.cpp: a level and the text written so far.  The file
    and the console get the same text, so one output is kept.  The arguments of a
    call are text; the macros put the function's name before them. *)

From S2P Require Import Prelude CppString.

Definition LEVEL_ERROR : Z := 0.
Definition LEVEL_WARN : Z := 1.
Definition LEVEL_INFO : Z := 2.
Definition LEVEL_DEBUG : Z := 3.
Definition LEVEL_ALWAYS : Z := 4.

Record Logger := mkLogger {
  logger_level : Z;
  logger_out : bytes
}.

Definition Logger_Logger : Logger := mkLogger LEVEL_ALWAYS [].

(** [Log(t, args...)]: the arguments one after the other, then a line feed. *)
Definition Logger_Log (args : list bytes) : M Logger unit :=
  modify (λ l, mkLogger (logger_level l) (logger_out l ++ concat args ++ [chr 10])).

Definition Logger_LogAlways (args : list bytes) : M Logger unit := Logger_Log args.

Definition Logger_LogInfo (args : list bytes) : M Logger unit :=
  l ← get;
  if (logger_level l <? LEVEL_INFO)%Z then mret tt else Logger_Log (str "[Info]" :: args).

Definition Logger_LogWarn (args : list bytes) : M Logger unit :=
  l ← get;
  if (logger_level l <? LEVEL_WARN)%Z then mret tt else Logger_Log (str "[Warn]" :: args).

Definition Logger_LogError (args : list bytes) : M Logger unit :=
  l ← get;
  if (logger_level l <? LEVEL_ERROR)%Z then mret tt else Logger_Log (str "[Error]" :: args).

Definition Logger_LogDebug (args : list bytes) : M Logger unit :=
  l ← get;
  if (logger_level l <? LEVEL_DEBUG)%Z then mret tt else Logger_Log (str "[Debug]" :: args).

Definition set_level (n : Z) : M Logger unit := modify (λ l, mkLogger n (logger_out l)).

(** In log.cpp LogAlways is the macro: the name GCC gives the function comes first. *)
Definition in_SetLogLevel : bytes := str "[void Logger::SetLogLevel(std::string)] ".

Definition Logger_SetLogLevel (s : bytes) : M Logger unit :=
  if bool_decide (s = str "error") then
    set_level LEVEL_ERROR;; Logger_LogAlways [in_SetLogLevel; str "SetLogLevel: error"]
  else if bool_decide (s = str "warn") then
    set_level LEVEL_WARN;; Logger_LogAlways [in_SetLogLevel; str "SetLogLevel: warn"]
  else if bool_decide (s = str "info") then
    set_level LEVEL_INFO;; Logger_LogAlways [in_SetLogLevel; str "SetLogLevel: info"]
  else if bool_decide (s = str "debug") then
    set_level LEVEL_DEBUG;; Logger_LogAlways [in_SetLogLevel; str "SetLogLevel: debug"]
  else mret tt.

(** The severities, the call each one stands for, and its rank. *)
Inductive severity := SevError | SevWarn | SevInfo | SevDebug.

Definition log_call (v : severity) (args : list bytes) : M Logger unit :=
  match v with
  | SevError => Logger_LogError args
  | SevWarn => Logger_LogWarn args
  | SevInfo => Logger_LogInfo args
  | SevDebug => Logger_LogDebug args
  end.

Definition rank (v : severity) : Z :=
  match v with
  | SevError => LEVEL_ERROR | SevWarn => LEVEL_WARN
  | SevInfo => LEVEL_INFO | SevDebug => LEVEL_DEBUG
  end.

Definition tag (v : severity) : bytes :=
  match v with
  | SevError => str "[Error]" | SevWarn => str "[Warn]"
  | SevInfo => str "[Info]" | SevDebug => str "[Debug]"
  end.

Definition level_name (v : severity) : bytes :=
  match v with
  | SevError => str "error" | SevWarn => str "warn"
  | SevInfo => str "info" | SevDebug => str "debug"
  end.

(** ** Properties *)

(** After [SetLogLevel] with a level's name exactly the messages of that level and
    the more severe ones are written, each as one tagged line, and nothing else
    about the logger changes. *)
Theorem log_filter v w args l l' :
  Logger_SetLogLevel (level_name v) l = (Ok tt, l') →
  log_call w args l' =
  (Ok tt, if (rank w <=? rank v)%Z
          then mkLogger (rank v) (logger_out l' ++ tag w ++ concat args ++ [chr 10])
          else l').
Proof.
  destruct v; intros [= <-]; destruct w; try reflexivity; cbn; rewrite <- ?app_assoc; done.
Qed.

Lemma log_filter_witness :
  Logger_SetLogLevel (level_name SevInfo) Logger_Logger
    = (Ok tt, mkLogger LEVEL_INFO (in_SetLogLevel ++ str "SetLogLevel: info" ++ [chr 10])) ∧
  log_call SevWarn [str "x"] (mkLogger LEVEL_INFO (in_SetLogLevel ++ str "SetLogLevel: info" ++ [chr 10]))
    = (Ok tt, mkLogger LEVEL_INFO
         ((in_SetLogLevel ++ str "SetLogLevel: info" ++ [chr 10]) ++ str "[Warn]" ++ concat [str "x"] ++ [chr 10])).
Proof.
  split; [reflexivity|].
  rewrite (log_filter SevInfo SevWarn [str "x"] Logger_Logger); [reflexivity|reflexivity].
Defined.
