(* ===== verification/HttpHandler.v ===== *)
(** * Request handlers (simple_http)

    The abstract class [RequestHandler] of tcp_server/include/request_handler.h is
    the interface through which a connection drives the application.  It is a
    typeclass here: the connection manager is modelled and verified against it,
    and [HttpRequestHandler] of http_server is an instance.

    [ReadCompleteCallback] calls the [write] function it was constructed with in
    the middle of its work.  Because that function enters the connection manager
    (it queues the text and may wake a writer thread), the callback is given in the
    three parts another thread can observe: the state before the call of
    [write], the text written, if any, and the update made after it. *)

From S2P Require Import Prelude CppString HttpRequest.

Class RequestHandler (H : Type) := {
  AppendReceivedData : bytes → M H unit;
  CheckDataIntegrity : H → bool;
  ReadCompleteCallback : Z → H → H * option bytes;
  after_write : H → H;
  WriteCompleteCallback : Z → H → H;
  IsWaiting : H → bool
}.

(** What the manager relies on: a handler that is waiting for its write to finish
    stops waiting for it when told so, and a write leaves it waiting. *)
Class RequestHandlerLaws (H : Type) `{!RequestHandler H} := {
  waits_after_write h : IsWaiting (after_write h) = true;
  writes_once e h h1 s : ReadCompleteCallback e h = (h1, Some s) →
    ∀ e', (ReadCompleteCallback e' (after_write h1)).2 = None
}.

Record HttpRequestHandler := mkHandler {
  isReadWaiting : bool;
  isWriteWaiting : bool;
  httpRequest : HttpRequest;
  contentToWrite : bytes
}.

#[global] Instance HttpRequestHandler_eq_dec : EqDecision HttpRequestHandler.
Proof. solve_decision. Defined.

Definition HttpRequestHandler_new : HttpRequestHandler :=
  mkHandler true false HttpRequest_HttpRequest [].

Definition RequestHandler_IsWaiting (h : HttpRequestHandler) : bool :=
  isReadWaiting h || isWriteWaiting h.

Definition HttpRequestHandler_AppendReceivedData (s : bytes) : M HttpRequestHandler unit :=
  zoom httpRequest
    (λ r h, mkHandler (isReadWaiting h) (isWriteWaiting h) r (contentToWrite h))
    (HttpRequest_Append s).

Definition HttpRequestHandler_CheckDataIntegrity (h : HttpRequestHandler) : bool :=
  HttpRequest_AllReceived (httpRequest h).

Definition responseMsg : bytes := str "hello" ++ CRLF.

Definition response_text : bytes :=
  str "HTTP/1.1 200 OK" ++ CRLF ++
  str "Context-Length: " ++ to_string (Z.of_nat (length responseMsg)) ++ CRLF ++
  CRLF ++ responseMsg.

(** Up to the call of [RequestHandler::Write]. *)
Definition HttpRequestHandler_ReadCompleteCallback (errorCode : Z) (h : HttpRequestHandler)
    : HttpRequestHandler * option bytes :=
  if negb (isReadWaiting h) then (h, None)
  else (mkHandler false (isWriteWaiting h) (httpRequest h) response_text, Some response_text).

(** The rest of [Write]: [isWriteWaiting = true]. *)
Definition HttpRequestHandler_Write_after (h : HttpRequestHandler) : HttpRequestHandler :=
  mkHandler (isReadWaiting h) true (httpRequest h) (contentToWrite h).

Definition HttpRequestHandler_WriteCompleteCallback (errorCode : Z) (h : HttpRequestHandler)
    : HttpRequestHandler :=
  if negb (isWriteWaiting h) then h
  else mkHandler (isReadWaiting h) false (httpRequest h) (contentToWrite h).

#[global] Instance HttpRequestHandler_RequestHandler : RequestHandler HttpRequestHandler := {
  AppendReceivedData := HttpRequestHandler_AppendReceivedData;
  CheckDataIntegrity := HttpRequestHandler_CheckDataIntegrity;
  ReadCompleteCallback := HttpRequestHandler_ReadCompleteCallback;
  after_write := HttpRequestHandler_Write_after;
  WriteCompleteCallback := HttpRequestHandler_WriteCompleteCallback;
  IsWaiting := RequestHandler_IsWaiting
}.

#[global] Instance HttpRequestHandler_laws : RequestHandlerLaws HttpRequestHandler.
Proof.
  split.
  - intros []. unfold IsWaiting. simpl. unfold RequestHandler_IsWaiting. simpl. apply orb_true_r.
  - intros e [[] w r c] h1 s H e'; cbn in *; by simplify_eq.
Qed.

(** One exchange as the connection runs it when nothing interferes: the pieces of a
    request arrive, and once all is there the reply is written and completed. *)
Definition receive (s : bytes) (h : HttpRequestHandler) : result unit * HttpRequestHandler * option bytes :=
  match HttpRequestHandler_AppendReceivedData s h with
  | (Ok _, h1) =>
      if HttpRequestHandler_CheckDataIntegrity h1 then
        match HttpRequestHandler_ReadCompleteCallback 0 h1 with
        | (h2, Some t) => (Ok tt, HttpRequestHandler_Write_after h2, Some t)
        | (h2, None) => (Ok tt, h2, None)
        end
      else (Ok tt, h1, None)
  | (r, h1) => (r, h1, None)
  end.

(** ** Properties *)

(** The handler waits exactly while there is something left to do: it replies once,
    when the last byte of a well-formed request has arrived, with a fixed text, is
    waiting until the write completes, and not afterwards. *)
Theorem handler_one_reply q p t :
  well_formed q → serialize q = p ++ t → t ≠ [] →
  (∃ h1, receive p HttpRequestHandler_new = (Ok tt, h1, None) ∧ RequestHandler_IsWaiting h1 = true) ∧
  (∃ h2, receive (serialize q) HttpRequestHandler_new = (Ok tt, h2, Some response_text) ∧
     RequestHandler_IsWaiting h2 = true ∧
     HttpRequest_GetMessageBody (httpRequest h2) = req_body q ∧
     (∀ s, (receive s h2).2 = None) ∧
     RequestHandler_IsWaiting (HttpRequestHandler_WriteCompleteCallback 0 h2) = false).
Proof.
  intros Hq Hs Ht. unfold receive, HttpRequestHandler_AppendReceivedData, zoom.
  change (httpRequest HttpRequestHandler_new) with HttpRequest_HttpRequest. split.
  - destruct (Append_prefix q p t Hq Hs Ht) as (r & -> & Hr). simpl.
    unfold HttpRequestHandler_CheckDataIntegrity, HttpRequest_AllReceived. simpl.
    rewrite Hr. eauto.
  - rewrite Append_serialize by done. simpl. eexists. split; [done|]. split; [done|].
    split; [done|]. split; [|done]. intros s. unfold HttpRequest_Append. run_m. done.
Qed.

Lemma handler_one_reply_witness :
  ∃ h2, receive (serialize sample_request) HttpRequestHandler_new
          = (Ok tt, h2, Some response_text) ∧
        RequestHandler_IsWaiting h2 = true.
Proof.
  destruct (handler_one_reply sample_request (removelast (serialize sample_request)) (str "k")
    sample_request_wf ltac:(reflexivity) ltac:(done))
    as (_ & h2 & H1 & H2 & _). by exists h2.
Defined.
