(* ===== verification/SocketHandler.v ===== *)
(** * Reading and writing a connection (simple_http/tcp_server/src/socket_handler.cpp)

    [SocketHandler] keeps a descriptor and the function that closes it; the close
    function belongs to the server and is modelled there.  The descriptor is
    non-blocking and edge triggered, so [Read] and [Write] go on until the kernel
    says EAGAIN. *)

From S2P Require Import Prelude CppString Posix RefKernel.

Definition SOCKET_BUF_SIZE : nat := 1000.

Section socket_handler.
  Context {K : Type} `{!Kernel K}.

Definition SocketHandler_Read (fuel : nat) (fd : Z) : M K bytes :=
  r ← read_all SOCKET_BUF_SIZE SOCKET_BUF_SIZE fuel fd [];
  mret r.1.

(** [write] takes at least one byte of a non-empty string or fails, so the
    length of the string bounds the number of calls. *)
Definition SocketHandler_Write (fd : Z) (s : bytes) : M K bytes :=
  if bool_decide (s = []) then mret [] else write_all (S (length s)) fd s.

  Context `{!KernelLaws K}.

(** Whatever the kernel accepts at each call, [Write] returns: the bytes it sent,
    in order, are exactly the string without the rest it returns; when a call
    fails otherwise than with EAGAIN it throws, having sent a prefix of the string. *)
Theorem SocketHandler_Write_sends fd s k :
  ∃ r k', SocketHandler_Write fd s k = (r, k') ∧
    fds k' = fds k ∧ watched k' = watched k ∧
    match r with
    | Ok rest => ∃ done_, s = done_ ++ rest ∧ sent fd k' = sent fd k ++ done_
    | Throw e => e = RuntimeError ∧
                 ∃ done_ rest, s = done_ ++ rest ∧ sent fd k' = sent fd k ++ done_
    | _ => False
    end.
Proof.
  unfold SocketHandler_Write. case_bool_decide as Hs.
  - exists (Ok []), k. repeat split; auto. subst s. exists []. split; [done|]. by rewrite app_nil_r.
  - apply write_all_spec. lia.
Qed.

(** Text that arrives in chunks of fewer than 1000 bytes, none of them NUL, is read
    whole, in order, up to the call that would block or reports the end of file. *)
Theorem SocketHandler_Read_text fd k bss eof k' fuel :
  reads SOCKET_BUF_SIZE fd k bss eof k' →
  Forall (λ bs, length bs < SOCKET_BUF_SIZE ∧ Ascii.zero ∉ bs) bss →
  length bss < fuel →
  SocketHandler_Read fuel fd k = (Ok (concat bss), k').
Proof.
  intros Hr Hall Hf. unfold SocketHandler_Read.
  rewrite (bind_ok _ _ _ (concat bss, eof) k'); [done|]. by apply (read_all_text _ _ fd k bss eof k' []).
Qed.

(** A chunk that fills the buffer with text makes [Read] append a character array
    that has no terminator: the behaviour is undefined. *)
Theorem SocketHandler_Read_full_buffer fd k bs k1 fuel :
  sys_read fd SOCKET_BUF_SIZE k = (inr bs, k1) →
  length bs = SOCKET_BUF_SIZE → Ascii.zero ∉ bs → 0 < fuel →
  (SocketHandler_Read fuel fd k).1 = Undef.
Proof.
  intros Hk Hl Hz Hf. destruct fuel as [|fuel]; [lia|].
  unfold SocketHandler_Read. cbn [read_all]. unfold mbind, M_bind, syscall. rewrite Hk.
  destruct bs as [|b bs]; [done|]. by rewrite filled_full.
Qed.
End socket_handler.

(** ** Witnesses *)

Lemma SocketHandler_Write_sends_witness :
  ∃ r k', SocketHandler_Write 5 (str "hello") (kernel_with [] 3) = (r, k') ∧
    fds k' = fds (kernel_with [] 3) ∧ watched k' = watched (kernel_with [] 3) ∧
    match r with
    | Ok rest => ∃ done_, str "hello" = done_ ++ rest ∧
                   sent 5 k' = sent 5 (kernel_with [] 3) ++ done_
    | Throw e => e = RuntimeError ∧ ∃ done_ rest, str "hello" = done_ ++ rest ∧
                   sent 5 k' = sent 5 (kernel_with [] 3) ++ done_
    | _ => False
    end.
Proof. apply (SocketHandler_Write_sends 5 (str "hello") (kernel_with [] 3)). Defined.

Lemma SocketHandler_Read_text_witness :
  ∃ k', SocketHandler_Read 4 5 (kernel_with [str "ab"; str "c"] 0) = (Ok (str "abc"), k').
Proof.
  eexists. eapply (SocketHandler_Read_text 5 _ [str "ab"; str "c"] false).
  - eapply reads_more; [reflexivity|done|]. eapply reads_more; [reflexivity|done|].
    apply reads_again. reflexivity.
  - repeat constructor; try (vm_compute; lia); decide_closed.
  - simpl. lia.
Defined.

Lemma SocketHandler_Read_full_buffer_witness :
  (SocketHandler_Read 1 5 (kernel_with [replicate SOCKET_BUF_SIZE "x"%char] 0)).1 = Undef.
Proof.
  eapply (SocketHandler_Read_full_buffer 5 _ (replicate SOCKET_BUF_SIZE "x"%char));
    [vm_compute; reflexivity | reflexivity | decide_closed | lia].
Defined.
