(* ===== verification/Server.v ===== *)
(** * The event loop of simple_http (simple_http/tcp_server/src/server.cpp)

    [Server] with its [Epoll] and [SocketMap].  The state is the kernel, the epoll
    and listening descriptors, the map from descriptors to connection ids, the id
    counter, and the trace of the calls made to the registered report functions
    (the connection manager's entry points, modelled in ConnectionManager.v).

    [isTimeToExit] is set by a signal handler at any moment: the loop of [Start] is
    given the values it reads, one per turn. *)

From S2P Require Import Prelude CppString Posix RefKernel.

Record ClientInfo := mkClientInfo { ip : bytes; client_port : Z }.

#[global] Instance ClientInfo_eq_dec : EqDecision ClientInfo.
Proof. solve_decision. Defined.

(** A call of one of the functions given to [RegisterReportFunctions]. *)
Inductive report :=
  | reportNewConnection (id : Z) (client : ClientInfo) (fd : Z)
  | reportCanRead (id : Z)
  | reportCanWrite (id : Z)
  | reportErrorOccurred (id : Z)
  | reportTimeToExit (id : Z).

Section server.
  Context {K : Type} `{!Kernel K}.

Record World := mkWorld {
  kern : K;
  epollFd : Z;
  eventCount : nat;
  listenFd : Z;
  sockets : gmap Z Z;
  nextConnId : Z;
  reports : list report
}.

Definition set_kern (k : K) (w : World) : World :=
  mkWorld k (epollFd w) (eventCount w) (listenFd w) (sockets w) (nextConnId w) (reports w).
Definition set_epollFd (fd : Z) (w : World) : World :=
  mkWorld (kern w) fd (eventCount w) (listenFd w) (sockets w) (nextConnId w) (reports w).
Definition set_listenFd (fd : Z) (w : World) : World :=
  mkWorld (kern w) (epollFd w) (eventCount w) fd (sockets w) (nextConnId w) (reports w).
Definition set_sockets (m : gmap Z Z) (w : World) : World :=
  mkWorld (kern w) (epollFd w) (eventCount w) (listenFd w) m (nextConnId w) (reports w).
Definition set_nextConnId (n : Z) (w : World) : World :=
  mkWorld (kern w) (epollFd w) (eventCount w) (listenFd w) (sockets w) n (reports w).
Definition set_reports (l : list report) (w : World) : World :=
  mkWorld (kern w) (epollFd w) (eventCount w) (listenFd w) (sockets w) (nextConnId w) l.

(** A system call made by the server; -1 becomes a [runtime_error]. *)
Definition call {A} (f : K → outcome A * K) : M World (outcome A) :=
  zoom kern set_kern (syscall f).

Definition or_throw {A} (o : outcome A) : M World A :=
  match o with inl _ => throw RuntimeError | inr a => mret a end.

Definition emit (r : report) : M World unit := modify (λ w, set_reports (reports w ++ [r]) w).

(** ** Epoll *)

Definition Epoll_Init : M World unit :=
  o ← call sys_epoll_create; fd ← or_throw o; modify (set_epollFd fd).

Definition Epoll_Add (fd eventMask : Z) : M World unit :=
  w ← get; o ← call (sys_epoll_ctl_add (epollFd w) fd eventMask); or_throw o.

Definition Epoll_Delete (fd : Z) : M World unit :=
  w ← get; o ← call (sys_epoll_ctl_del (epollFd w) fd); or_throw o.

(** The events the call stored; an interrupted call counts as none. *)
Definition Epoll_Wait (timeoutMs : Z) : M World (list (Z * Z)) :=
  w ← get;
  o ← call (sys_epoll_wait (epollFd w) (eventCount w) timeoutMs);
  match o with
  | inl code => if (code =? EINTR)%Z then mret [] else throw RuntimeError
  | inr evs => mret evs
  end.

(** ** SocketMap *)

Definition SocketMap_Add (fd connectionId : Z) : M World unit :=
  modify (λ w, set_sockets (<[fd := connectionId]> (sockets w)) w).

Definition SocketMap_Delete (fd : Z) : M World unit :=
  w ← get;
  match sockets w !! fd with
  | None => throw RuntimeError
  | Some _ => modify (λ w, set_sockets (delete fd (sockets w)) w)
  end.

(** [sockets[fd]]: an absent key is inserted with the value 0. *)
Definition SocketMap_GetValue (fd : Z) : M World Z :=
  w ← get;
  match sockets w !! fd with
  | Some id => mret id
  | None => modify (λ w, set_sockets (<[fd := 0%Z]> (sockets w)) w);; mret 0%Z
  end.

Definition SocketMap_Count (fd : Z) : M World bool :=
  gets (λ w, bool_decide (is_Some (sockets w !! fd))).

(** The values in the order of [std::map], by descriptor. *)
Definition SocketMap_GetValues : M World (list Z) :=
  gets (λ w, snd <$> merge_sort key_le (map_to_list (sockets w))).

(** ** Server *)

Definition LISTEN_BACKLOG : Z := 50.

Definition Server_Listen (port : Z) : M World unit :=
  o ← call sys_socket;
  match o with
  | inl _ => modify (set_listenFd (-1));; throw RuntimeError
  | inr fd =>
      modify (set_listenFd fd);;
      o ← call (sys_bind fd (htons port)); or_throw o;;
      o ← call (sys_listen fd LISTEN_BACKLOG); or_throw o
  end.

Definition Server_Accept : M World (Z * bytes * Z) :=
  w ← get;
  o ← call (sys_accept (listenFd w));
  r ← or_throw o;
  let '(fd, addr, p) := r in
  text ← or_throw (lib_inet_ntop addr);
  mret (fd, text, ntohs p).

Definition Server_CloseFd (fd : Z) : M World unit :=
  o ← call (sys_close fd); or_throw o.

(** The results of the two [fcntl] calls are not checked: after a failure [flags] is -1. *)
Definition SetNonBlocking (fd : Z) : M World unit :=
  o ← call (sys_fcntl fd F_GETFL (-1));
  let flags := match o with inl _ => (-1)%Z | inr f => f end in
  call (sys_fcntl fd F_SETFL (Z.lor flags O_NONBLOCK));; mret tt.

(** The function handed to the connection's [SocketHandler]. *)
Definition Server_close (fdv : Z) : M World unit :=
  Epoll_Delete fdv;; Server_CloseFd fdv;; SocketMap_Delete fdv.

Definition Server_ProcessNewConnection : M World unit :=
  r ← Server_Accept;
  let '(fd, text, p) := r in
  exist ← SocketMap_Count fd;
  if (exist : bool) then throw RuntimeError
  else
    SetNonBlocking fd;;
    Epoll_Add fd (Z.lor (Z.lor EPOLLIN EPOLLOUT) EPOLLET);;
    modify (λ w, set_nextConnId (u64 (nextConnId w + 1)) w);;
    id ← gets nextConnId;
    SocketMap_Add fd id;;
    emit (reportNewConnection id (mkClientInfo text p) fd).

Definition Server_ProcessEvent (fd eventMask : Z) : M World unit :=
  exist ← SocketMap_Count fd;
  if negb exist then throw RuntimeError
  else
    when (has_flag eventMask EPOLLIN)
      (id ← SocketMap_GetValue fd; emit (reportCanRead id));;
    when (has_flag eventMask EPOLLOUT)
      (id ← SocketMap_GetValue fd; emit (reportCanWrite id));;
    when (has_flag eventMask EPOLLERR)
      (id ← SocketMap_GetValue fd; emit (reportErrorOccurred id)).

Definition Server_ProcessEvents (evs : list (Z * Z)) : M World unit :=
  for_each (λ e : Z * Z,
    w ← get;
    if (e.1 =? listenFd w)%Z then Server_ProcessNewConnection
    else Server_ProcessEvent e.1 e.2) evs.

Definition Server_Release : M World unit :=
  ids ← SocketMap_GetValues;
  for_each (λ id, emit (reportTimeToExit id)) ids;;
  w ← get;
  Epoll_Delete (listenFd w);;
  w ← get;
  Server_CloseFd (listenFd w).

Definition TIMEOUT_MS : Z := 3000.

(** [flags]: the values of [isTimeToExit] read at the end of each turn. *)
Fixpoint Server_loop (flags : list bool) : M World unit :=
  match flags with
  | [] => lift OutOfFuel
  | isTimeToExit :: flags' =>
      evs ← Epoll_Wait TIMEOUT_MS;
      when (0 <? Z.of_nat (length evs))%Z (Server_ProcessEvents evs);;
      if isTimeToExit : bool then Server_Release else Server_loop flags'
  end.

Definition Server_Start (port : Z) (flags : list bool) : M World unit :=
  Server_Listen port;;
  Epoll_Init;;
  w ← get;
  Epoll_Add (listenFd w) EPOLLIN;;
  Server_loop flags.

(** The constructor: nothing is open yet. *)
Definition Server_Server (k : K) (epEventCount : nat) : World :=
  mkWorld k (-1) epEventCount (-1) ∅ 0 [].

(** ** The invariant *)

  Context `{!KernelLaws K}.

(** Every registered socket is open and watched, the ids are distinct, not zero, and
    at most the counter, and the listening socket is not registered. *)
Record server_inv (w : World) : Prop := {
  inv_watched : dom (sockets w) ⊆ watched (kern w);
  inv_listen : sockets w !! listenFd w = None;
  inv_listen_open : listenFd w ∈ watched (kern w);
  inv_next : (0 ≤ nextConnId w)%Z;
  inv_ids : ∀ fd id, sockets w !! fd = Some id → (0 < id ≤ nextConnId w)%Z;
  inv_inj : ∀ fd fd' id, sockets w !! fd = Some id → sockets w !! fd' = Some id → fd = fd'
}.
End server.
Arguments World K : clear implicits.

Section server_lemmas.
  Context {K : Type} `{!Kernel K, !KernelLaws K}.
  Implicit Types w : World K.

(** The reports an event mask stands for, in the order they are made. *)
Definition event_reports (id mask : Z) : list report :=
  (if has_flag mask EPOLLIN then [reportCanRead id] else []) ++
  (if has_flag mask EPOLLOUT then [reportCanWrite id] else []) ++
  (if has_flag mask EPOLLERR then [reportErrorOccurred id] else []).

Lemma GetValue_present fd id w :
  sockets w !! fd = Some id → SocketMap_GetValue fd w = (Ok id, w).
Proof. intros H. unfold SocketMap_GetValue. run_m. by rewrite H. Qed.

Lemma report_step (b : bool) fd id w (r : report) (mk : Z → report) :
  sockets w !! fd = Some id →
  when b (v ← SocketMap_GetValue fd; emit (mk v)) w
  = (Ok tt, set_reports (reports w ++ if b then [mk id] else []) w).
Proof.
  intros H. destruct b; simpl.
  - unfold mbind, M_bind. by rewrite (GetValue_present _ _ _ H).
  - unfold mret, M_ret, set_reports. rewrite app_nil_r. by destruct w.
Qed.

Lemma ProcessEvent_eq fd mask w :
  Server_ProcessEvent fd mask w =
  match sockets w !! fd with
  | None => (Throw RuntimeError, w)
  | Some id => (Ok tt, set_reports (reports w ++ event_reports id mask) w)
  end.
Proof.
  unfold Server_ProcessEvent, SocketMap_Count. unfold mbind at 1, M_bind at 1. simpl.
  destruct (sockets w !! fd) as [id|] eqn:E.
  - rewrite bool_decide_true by eauto. simpl.
    erewrite bind_ok by (apply (report_step _ fd id w (reportCanRead id) reportCanRead E)).
    erewrite bind_ok by (apply (report_step _ fd id _ (reportCanWrite id) reportCanWrite); exact E).
    rewrite (report_step _ fd id _ (reportErrorOccurred id) reportErrorOccurred) by exact E.
    unfold event_reports, set_reports. simpl. by rewrite <- !app_assoc.
  - rewrite bool_decide_false by (intros [? ?]; done). done.
Qed.

(** Closing a registered socket removes it everywhere. *)
Lemma close_registered fd id w :
  server_inv w → sockets w !! fd = Some id →
  ∃ k', Server_close fd w = (Ok tt, set_sockets (delete fd (sockets w)) (set_kern k' w)) ∧
    fds k' = fds (kern w) ∖ {[fd]} ∧ watched k' = watched (kern w) ∖ {[fd]}.
Proof.
  intros Hi Hfd.
  assert (Hw : fd ∈ watched (kern w)).
  { apply (inv_watched w Hi), elem_of_dom. eauto. }
  destruct (ctl_del_ok (epollFd w) fd (kern w) Hw) as (k1 & E1 & Hf1 & Hw1).
  assert (Ho : fd ∈ fds k1) by (rewrite Hf1; by apply watched_open).
  destruct (close_ok fd k1 Ho) as (k2 & E2 & Hf2 & Hw2).
  exists k2. split; [|split; [by rewrite Hf2, Hf1 | rewrite Hw2, Hw1; set_solver]].
  unfold Server_close, Epoll_Delete, Server_CloseFd, SocketMap_Delete, call, zoom, syscall,
    or_throw. run_m. rewrite E1. simpl. rewrite E2. simpl. by rewrite Hfd.
Qed.

Lemma inv_close fd w k' :
  server_inv w → is_Some (sockets w !! fd) → watched k' = watched (kern w) ∖ {[fd]} →
  server_inv (set_sockets (delete fd (sockets w)) (set_kern k' w)).
Proof.
  intros Hi [id Hfd] Hw'. split; simpl.
  - rewrite dom_delete_L, Hw'. pose proof (inv_watched w Hi). set_solver.
  - rewrite lookup_delete. case_decide; [done|]. apply (inv_listen w Hi).
  - rewrite Hw'. pose proof (inv_listen w Hi). pose proof (inv_listen_open w Hi).
    assert (listenFd w ≠ fd) by congruence. set_solver.
  - apply (inv_next w Hi).
  - intros fd' id' [_ H]%lookup_delete_Some. by eapply (inv_ids w Hi).
  - intros fd1 fd2 id' [_ H1]%lookup_delete_Some [_ H2]%lookup_delete_Some.
    by eapply (inv_inj w Hi).
Qed.

Lemma inv_kern k' w :
  server_inv w → watched (kern w) ⊆ watched k' → server_inv (set_kern k' w).
Proof.
  intros [] Hw. split; simpl; try done; set_solver.
Qed.

Lemma inv_reports l w : server_inv w → server_inv (set_reports l w).
Proof. intros []. by split. Qed.

(** Closing a descriptor that is not watched throws and changes nothing the server sees. *)
Lemma close_unwatched fd w :
  fd ∉ watched (kern w) →
  ∃ k', Server_close fd w = (Throw RuntimeError, set_kern k' w) ∧
        fds k' = fds (kern w) ∧ watched k' = watched (kern w).
Proof.
  intros Hw. destruct (ctl_del_bad (epollFd w) fd (kern w) Hw) as (e & k' & E & Hf & Hw').
  exists k'. split; [|done].
  unfold Server_close, Epoll_Delete, call, zoom, syscall, or_throw. run_m. by rewrite E.
Qed.

(** A connection accepted while the invariant holds is registered under a fresh id. *)
Definition registered (w w' : World K) : Prop :=
  ∃ fd text p, sockets w !! fd = None ∧
    sockets w' = <[fd := (nextConnId w + 1)%Z]> (sockets w) ∧
    nextConnId w' = (nextConnId w + 1)%Z ∧
    reports w' = reports w ++
      [reportNewConnection (nextConnId w + 1) (mkClientInfo text p) fd].

Lemma SetNonBlocking_frame fd w :
  ∃ k', SetNonBlocking fd w = (Ok tt, set_kern k' w) ∧ fds k' = fds (kern w) ∧
        watched k' = watched (kern w).
Proof.
  unfold SetNonBlocking, call, zoom, syscall. run_m.
  destruct (sys_fcntl fd F_GETFL (-1) (kern w)) as [o k1] eqn:E1. simpl.
  apply fcntl_frame in E1 as [Hf1 Hw1].
  destruct (sys_fcntl fd F_SETFL _ k1) as [o2 k2] eqn:E2. simpl.
  apply fcntl_frame in E2 as [Hf2 Hw2].
  exists k2. split; [done|]. split; congruence.
Qed.

Lemma inv_register fd id w k' l :
  server_inv w → id = (nextConnId w + 1)%Z →
  sockets w !! fd = None → fd ≠ listenFd w → watched k' = watched (kern w) ∪ {[fd]} →
  server_inv (set_reports l (set_sockets (<[fd := id]> (sockets w))
    (set_nextConnId id (set_kern k' w)))).
Proof.
  intros Hi -> Hfd Hl Hw'. pose proof (inv_next w Hi) as Hn. split; simpl.
  - rewrite dom_insert_L, Hw'. pose proof (inv_watched w Hi). set_solver.
  - rewrite lookup_insert_ne by done. apply (inv_listen w Hi).
  - rewrite Hw'. pose proof (inv_listen_open w Hi). set_solver.
  - lia.
  - intros fd' id'. rewrite lookup_insert. case_decide.
    + intros [= <-]. lia.
    + intros H'%(inv_ids w Hi). lia.
  - intros fd1 fd2 id'. rewrite !lookup_insert. repeat case_decide; intros H1 H2; subst; auto.
    + simplify_eq. apply (inv_ids w Hi) in H2. lia.
    + simplify_eq. apply (inv_ids w Hi) in H1. lia.
    + by eapply (inv_inj w Hi).
Qed.

(** What [ProcessNewConnection] can do, whatever the system calls return. *)
Definition new_connection_outcome (w : World K) (r : result unit) (w' : World K) : Prop :=
  server_inv w' ∧
  ((r = Ok tt ∧ registered w w') ∨
   (r = Throw RuntimeError ∧ sockets w' = sockets w ∧ nextConnId w' = nextConnId w
      ∧ reports w' = reports w)).

Lemma ProcessNewConnection_outcome w r w' :
  server_inv w → (nextConnId w + 1 < 2 ^ 64)%Z →
  Server_ProcessNewConnection w = (r, w') → new_connection_outcome w r w'.
Proof.
  intros Hi Hn. pose proof (inv_next w Hi) as Hpos.
  unfold Server_ProcessNewConnection, Server_Accept, call, zoom, syscall, or_throw.
  unfold mbind, M_bind, get, mret, M_ret, throw.
  destruct (sys_accept (listenFd w) (kern w)) as [[e|[[fd addr] p]] k1] eqn:Ea.
  { intros [= <- <-]. apply accept_err in Ea as [_ Hw1].
    split; [apply inv_kern; [done|by rewrite Hw1] | by right]. }
  apply accept_fresh in Ea as (Hfresh & Hf1 & Hw1).
  destruct (lib_inet_ntop addr) as [e|text].
  { intros [= <- <-]. split; [apply inv_kern; [done|by rewrite Hw1] | by right]. }
  assert (Hnone : sockets w !! fd = None).
  { apply not_elem_of_dom. pose proof (inv_watched w Hi). pose proof (watched_open (kern w)).
    set_solver. }
  assert (Hl : fd ≠ listenFd w).
  { intros ->. apply Hfresh, watched_open, (inv_listen_open w Hi). }
  unfold SocketMap_Count, gets. simpl. rewrite bool_decide_false by (rewrite Hnone; by intros []).
  destruct (SetNonBlocking_frame fd (set_kern k1 w)) as (k2 & -> & Hf2 & Hw2).
  simpl in Hf2, Hw2. unfold Epoll_Add, call, zoom, syscall, or_throw, mbind, M_bind, get. simpl.
  destruct (sys_epoll_ctl_add _ fd _ k2) as [[e|[]] k3] eqn:Ec; simpl.
  - intros [= <- <-]. apply ctl_add_err in Ec as [_ Hw3].
    split; [|by right]. change (server_inv (set_kern k3 w)).
    apply inv_kern; [done|]. by rewrite Hw3, Hw2, Hw1.
  - apply ctl_add_ok in Ec as [_ Hw3]. intros [= <- <-].
    assert (Hu : u64 (nextConnId w + 1) = (nextConnId w + 1)%Z) by (apply wrap_small; lia).
    split.
    + apply (inv_register fd _ w k3); simpl; auto. by rewrite Hw3, Hw2, Hw1.
    + left. split; [done|]. exists fd, text, (ntohs p). simpl. by rewrite Hu.
Qed.

Lemma ProcessEvents_cons e evs w r w' :
  Server_ProcessEvents (e :: evs) w = (r, w') →
  ∃ r1 w1,
    (if (e.1 =? listenFd w)%Z then Server_ProcessNewConnection w
     else Server_ProcessEvent e.1 e.2 w) = (r1, w1) ∧
    match r1 with
    | Ok _ => Server_ProcessEvents evs w1 = (r, w')
    | _ => r1 = r ∧ w1 = w'
    end.
Proof.
  unfold Server_ProcessEvents. simpl. unfold mbind, M_bind, get.
  destruct (e.1 =? listenFd w)%Z;
    [destruct (Server_ProcessNewConnection w) as [r1 w1]
    |destruct (Server_ProcessEvent e.1 e.2 w) as [r1 w1]];
    intros H; exists r1, w1; (split; [done|]); destruct r1; simplify_eq; auto.
Qed.

Lemma ProcessEvents_inv evs w r w' :
  server_inv w → (nextConnId w + Z.of_nat (length evs) < 2 ^ 64)%Z →
  Server_ProcessEvents evs w = (r, w') →
  server_inv w' ∧ (nextConnId w ≤ nextConnId w' ≤ nextConnId w + Z.of_nat (length evs))%Z
  ∧ (r = Ok tt ∨ r = Throw RuntimeError).
Proof.
  revert w. induction evs as [|e evs IH]; intros w Hi Hn H.
  { injection H as <- <-. split; [done|]. split; [simpl; lia|by left]. }
  simpl (length _) in *. destruct (ProcessEvents_cons _ _ _ _ _ H) as (r1 & w1 & H1 & H2).
  assert (Hs : server_inv w1 ∧ (nextConnId w ≤ nextConnId w1 ≤ nextConnId w + 1)%Z
    ∧ (r1 = Ok tt ∨ r1 = Throw RuntimeError)).
  { destruct (e.1 =? listenFd w)%Z.
    - apply ProcessNewConnection_outcome in H1 as [Hi1 [(-> & fd & t & p & _ & _ & Hx & _)
        |(-> & _ & Hx & _)]]; [| |done|lia]; rewrite Hx; split_and!; auto; lia.
    - rewrite ProcessEvent_eq in H1. destruct (sockets w !! e.1); simplify_eq; simpl.
      + split_and!; auto; [by apply inv_reports | lia..].
      + split_and!; auto; lia. }
  destruct Hs as (Hi1 & Hn1 & Hr1).
  destruct r1 as [[]|x| |]; [|destruct H2; subst..].
  - destruct (IH w1 Hi1 ltac:(lia) H2) as (? & ? & ?). split_and!; auto; lia.
  - split_and!; auto; lia.
  - split_and!; auto; lia.
  - split_and!; auto; lia.
Qed.

(** The descriptors and sizes fixed at start are not changed by event processing. *)
Definition same_setup (l : Z) (n : nat) w : Prop := listenFd w = l ∧ eventCount w = n.

Lemma preserves_call {A} l n (f : K → outcome A * K) : preserves (same_setup l n) (call f).
Proof.
  intros w r w' Hw. unfold call, zoom, syscall. destruct (f (kern w)). by intros [= _ <-].
Qed.

Lemma preserves_or_throw {A} I (o : outcome A) : preserves I (or_throw (K := K) o).
Proof. destruct o; [apply preserves_throw | apply preserves_ret]. Qed.

Hint Resolve preserves_call preserves_or_throw : cpp.

Lemma preserves_emit l n r : preserves (same_setup l n) (emit (K := K) r).
Proof. by apply preserves_modify. Qed.
Hint Resolve preserves_emit : cpp.

Lemma preserves_GetValue l n fd : preserves (same_setup l n) (SocketMap_GetValue (K := K) fd).
Proof. unfold SocketMap_GetValue. preserve. by apply preserves_modify. Qed.
Hint Resolve preserves_GetValue : cpp.

Lemma ProcessEvents_setup l n evs : preserves (same_setup l n) (Server_ProcessEvents evs).
Proof.
  unfold Server_ProcessEvents, Server_ProcessNewConnection, Server_ProcessEvent, Server_Accept,
    SocketMap_Count, SetNonBlocking, Epoll_Add, SocketMap_Add.
  preserve; by apply preserves_modify.
Qed.

Lemma emit_all {A} (f : A → report) l w :
  for_each (λ x, emit (f x)) l w = (Ok tt, set_reports (reports w ++ map f l) w).
Proof.
  revert w. induction l as [|x l IH]; intros w; simpl.
  - unfold mret, M_ret, set_reports. rewrite app_nil_r. by destruct w.
  - unfold mbind, M_bind. simpl. rewrite IH. unfold set_reports. simpl. by rewrite <- app_assoc.
Qed.

(** On the way out every connection is told to close, by descriptor order, and the
    listening socket is unwatched and closed. *)
Definition released (w w' : World K) : Prop :=
  ∃ ids k', w' = set_kern k' (set_reports (reports w ++ map reportTimeToExit ids) w) ∧
    ids ≡ₚ (map_to_list (sockets w)).*2 ∧
    watched k' = watched (kern w) ∖ {[listenFd w]} ∧ fds k' = fds (kern w) ∖ {[listenFd w]}.

Lemma Release_spec w : server_inv w → ∃ w', Server_Release w = (Ok tt, w') ∧ released w w'.
Proof.
  intros Hi. unfold Server_Release, SocketMap_GetValues, gets. unfold mbind at 1, M_bind at 1.
  set (ids := (merge_sort key_le (map_to_list (sockets w))).*2).
  erewrite bind_ok by apply emit_all. unfold mbind, M_bind, get.
  pose proof (inv_listen_open w Hi) as Hw.
  destruct (ctl_del_ok (epollFd w) (listenFd w) (kern w) Hw) as (k1 & E1 & Hf1 & Hw1).
  assert (Ho : listenFd w ∈ fds k1) by (rewrite Hf1; by apply watched_open).
  destruct (close_ok (listenFd w) k1 Ho) as (k2 & E2 & Hf2 & Hw2).
  unfold Epoll_Delete, Server_CloseFd, call, zoom, syscall, or_throw. run_m.
  rewrite E1. simpl. rewrite E2. simpl. eexists. split; [done|].
  exists ids, k2. split; [done|]. split_and!.
  - unfold ids. by rewrite merge_sort_Permutation.
  - rewrite Hw2, Hw1. set_solver.
  - by rewrite Hf2, Hf1.
Qed.

Lemma Epoll_Wait_cases t w :
  ∃ r k', Epoll_Wait t w = (r, set_kern k' w) ∧ fds k' = fds (kern w) ∧
    watched k' = watched (kern w) ∧
    ((∃ evs, r = Ok evs ∧ length evs ≤ eventCount w) ∨ r = Throw RuntimeError).
Proof.
  unfold Epoll_Wait, call, zoom, syscall. run_m.
  destruct (sys_epoll_wait (epollFd w) (eventCount w) t (kern w)) as [o k'] eqn:E.
  pose proof (epoll_wait_frame _ _ _ _ _ _ E) as [Hf Hw].
  destruct o as [code|evs]; simpl.
  - destruct (code =? EINTR)%Z; eexists _, k'; split_and!; eauto.
    left. exists []. split; [done|]. simpl. lia.
  - apply epoll_wait_len in E. eexists _, k'. split_and!; eauto.
Qed.

(** One turn of the loop, up to the test of the exit flag. *)
Lemma turn_inv w r w' :
  server_inv w → (nextConnId w + Z.of_nat (eventCount w) < 2 ^ 64)%Z →
  (evs ← Epoll_Wait TIMEOUT_MS;
   when (0 <? Z.of_nat (length evs))%Z (Server_ProcessEvents evs)) w = (r, w') →
  server_inv w' ∧ same_setup (listenFd w) (eventCount w) w' ∧
  (nextConnId w' ≤ nextConnId w + Z.of_nat (eventCount w))%Z ∧
  (r = Ok tt ∨ r = Throw RuntimeError).
Proof.
  intros Hi Hn. destruct (Epoll_Wait_cases TIMEOUT_MS w) as (r1 & k' & E & Hf & Hw & Hr).
  assert (Hi1 : server_inv (set_kern k' w)) by (apply inv_kern; [done|by rewrite Hw]).
  unfold mbind, M_bind. rewrite E. destruct Hr as [(evs & -> & Hl)| ->].
  2: { intros [= <- <-]. split_and!; auto; [done|simpl; lia]. }
  unfold when. destruct (0 <? Z.of_nat (length evs))%Z; intros H.
  - assert (Hset : same_setup (listenFd w) (eventCount w) w').
    { eapply (ProcessEvents_setup (listenFd w) (eventCount w) evs); [|exact H]. done. }
    destruct (ProcessEvents_inv evs _ _ _ Hi1 ltac:(simpl; lia) H) as (? & ? & ?).
    simpl in *. split_and!; auto. lia.
  - injection H as <- <-. split_and!; auto; [done|simpl; lia].
Qed.

Lemma loop_eq b flags w :
  Server_loop (b :: flags) w =
  match (evs ← Epoll_Wait TIMEOUT_MS;
         when (0 <? Z.of_nat (length evs))%Z (Server_ProcessEvents evs)) w with
  | (Ok _, w1) => if (b : bool) then Server_Release w1 else Server_loop flags w1
  | (Throw e, w1) => (Throw e, w1)
  | (Undef, w1) => (Undef, w1)
  | (OutOfFuel, w1) => (OutOfFuel, w1)
  end.
Proof.
  cbn [Server_loop]. unfold mbind, M_bind.
  destruct (Epoll_Wait TIMEOUT_MS w) as [[evs|e| |] w0]; try done.
  destruct (when _ _ w0) as [[[]|e| |] w1]; try done. by destruct b.
Qed.

(** Whatever the kernel does, the loop ends when it reads the exit flag, and it ends
    with a return or an exception. *)
Lemma loop_ends flags w :
  server_inv w → true ∈ flags →
  (nextConnId w + Z.of_nat (length flags * eventCount w) < 2 ^ 64)%Z →
  ∃ r w', Server_loop flags w = (r, w') ∧
    ((r = Ok tt ∧ ∃ w1, server_inv w1 ∧ listenFd w1 = listenFd w ∧ released w1 w') ∨
     (r = Throw RuntimeError ∧ server_inv w')).
Proof.
  revert w. induction flags as [|b flags IH]; intros w Hi Hin Hn; [by apply elem_of_nil in Hin|].
  rewrite loop_eq.
  destruct ((evs ← Epoll_Wait TIMEOUT_MS; _) w) as [r1 w1] eqn:E.
  simpl in Hn. apply turn_inv in E as (Hi1 & [Hl Hc] & Hx & Hr); [|done|lia].
  destruct Hr as [-> | ->]; [|by eexists _, _; split; [done|right]].
  destruct b.
  - destruct (Release_spec w1 Hi1) as (w2 & E2 & Hrel). eexists _, _. split; [exact E2|].
    left. split; [done|]. exists w1. done.
  - apply elem_of_cons in Hin as [|Hin]; [done|].
    destruct (IH w1 Hi1 Hin) as (r & w' & E2 & Hcase); [rewrite Hc; lia|].
    exists r, w'. split; [exact E2|]. by rewrite <- Hl.
Qed.

(** The statements before the loop: on success the invariant is established. *)
Definition Server_setup (port : Z) : M (World K) unit :=
  Server_Listen port;; Epoll_Init;; w ← get; Epoll_Add (listenFd w) EPOLLIN.

Lemma Start_eq port flags w :
  Server_Start port flags w =
  match Server_setup port w with
  | (Ok _, w1) => Server_loop flags w1
  | (Throw e, w1) => (Throw e, w1)
  | (Undef, w1) => (Undef, w1)
  | (OutOfFuel, w1) => (OutOfFuel, w1)
  end.
Proof.
  unfold Server_Start, Server_setup, mbind, M_bind.
  destruct (Server_Listen port w) as [[[]|e| |] w1]; try done.
  destruct (Epoll_Init w1) as [[[]|e| |] w2]; try done.
Qed.

Lemma setup_inv port k n r w :
  watched k = ∅ → Server_setup port (Server_Server k n) = (r, w) →
  (r = Ok tt ∧ server_inv w ∧ eventCount w = n ∧ nextConnId w = 0%Z) ∨ r = Throw RuntimeError.
Proof.
  intros Hk. unfold Server_setup, Server_Listen, Epoll_Init, Epoll_Add, call, zoom, syscall, or_throw.
  unfold mbind, M_bind, get, modify, throw, mret, M_ret. simpl.
  destruct (sys_socket k) as [[e|fd] k1] eqn:E1; [intros [= <- <-]; by right|]. simpl.
  destruct (sys_bind fd _ k1) as [[e|[]] k2] eqn:E2; [intros [= <- <-]; by right|]. simpl.
  destruct (sys_listen fd _ k2) as [[e|[]] k3] eqn:E3; [intros [= <- <-]; by right|]. simpl.
  destruct (sys_epoll_create k3) as [[e|ep] k4] eqn:E4; [intros [= <- <-]; by right|]. simpl.
  destruct (sys_epoll_ctl_add ep fd _ k4) as [[e|[]] k5] eqn:E5; [intros [= <- <-]; by right|].
  intros [= <- <-]. left. split; [done|]. split; [|done].
  apply ctl_add_ok in E5 as [_ Hw5]. split; simpl; try done.
  rewrite Hw5. set_solver.
Qed.

Lemma Start_ends port flags k n :
  watched k = ∅ → true ∈ flags → (Z.of_nat (length flags * n) < 2 ^ 64)%Z →
  ∃ r w', Server_Start port flags (Server_Server k n) = (r, w') ∧
    ((r = Ok tt ∧ ∃ w1, server_inv w1 ∧ released w1 w') ∨ r = Throw RuntimeError).
Proof.
  intros Hk Hin Hn. rewrite Start_eq.
  destruct (Server_setup port (Server_Server k n)) as [r1 w1] eqn:E.
  apply setup_inv in E as [(-> & Hi & Hc & Hx)| ->]; [|by eauto|done].
  destruct (loop_ends flags w1 Hi Hin) as (r & w' & E2 & [(-> & w2 & Hi2 & _ & Hrel)|[-> _]]).
  - by rewrite Hc, Hx.
  - eexists _, _. split; [exact E2|]. left. eauto.
  - eexists _, _. split; [exact E2|]. by right.
Qed.

(** ** Properties *)

(** Accepting a connection either registers the new socket under the next id, reports
    it once with that id, and leaves every socket registered before as it was, or throws with
    the map, the counter and the reports as before; the invariant holds after both. *)
Theorem ProcessNewConnection_registers w r w' :
  server_inv w → (nextConnId w + 1 < 2 ^ 64)%Z →
  Server_ProcessNewConnection w = (r, w') → new_connection_outcome w r w'.
Proof. apply ProcessNewConnection_outcome. Qed.

(** An event on a registered socket calls the report functions of its connection in the
    order read, write, error, one for each flag set, and changes nothing else; an event on an
    unregistered descriptor throws and changes nothing. *)
Theorem ProcessEvent_reports fd mask w :
  Server_ProcessEvent fd mask w =
  match sockets w !! fd with
  | None => (Throw RuntimeError, w)
  | Some id => (Ok tt, set_reports (reports w ++ event_reports id mask) w)
  end.
Proof. apply ProcessEvent_eq. Qed.

(** C5: the close function given to a connection's socket handler works once: the first
    call unwatches, closes and forgets exactly that socket; a second one throws before
    it closes anything, so that a descriptor reused meanwhile is not at risk. *)
Theorem close_once fd id w :
  server_inv w → sockets w !! fd = Some id →
  ∃ w1, Server_close fd w = (Ok tt, w1) ∧ server_inv w1 ∧
    sockets w1 = delete fd (sockets w) ∧ fds (kern w1) = fds (kern w) ∖ {[fd]} ∧
    ∃ w2, Server_close fd w1 = (Throw RuntimeError, w2) ∧
      sockets w2 = sockets w1 ∧ fds (kern w2) = fds (kern w1).
Proof.
  intros Hi Hfd. destruct (close_registered fd id w Hi Hfd) as (k' & E & Hf & Hw).
  eexists. split; [exact E|]. split; [by apply inv_close; eauto|]. split_and!; auto.
  destruct (close_unwatched fd (set_sockets (delete fd (sockets w)) (set_kern k' w)))
    as (k2 & E2 & Hf2 & Hw2); [simpl; rewrite Hw; set_solver|].
  eexists. split; [exact E2|]. done.
Qed.

(** Processing any batch of events keeps the invariant, raises the id counter by at most
    one per event, and returns or throws a [runtime_error]. *)
Theorem ProcessEvents_keeps_inv evs w r w' :
  server_inv w → (nextConnId w + Z.of_nat (length evs) < 2 ^ 64)%Z →
  Server_ProcessEvents evs w = (r, w') →
  server_inv w' ∧ (nextConnId w ≤ nextConnId w' ≤ nextConnId w + Z.of_nat (length evs))%Z
  ∧ (r = Ok tt ∨ r = Throw RuntimeError).
Proof. apply ProcessEvents_inv. Qed.

(** C4: [Start], on a fresh server and for any behaviour of the kernel, ends once the
    exit flag is read: it throws, or it returns after telling every registered connection once
    that it is time to exit, and closing the listening socket. *)
Theorem Start_returns port flags k n :
  watched k = ∅ → true ∈ flags → (Z.of_nat (length flags * n) < 2 ^ 64)%Z →
  ∃ r w', Server_Start port flags (Server_Server k n) = (r, w') ∧
    ((r = Ok tt ∧ ∃ w1, server_inv w1 ∧ released w1 w') ∨ r = Throw RuntimeError).
Proof. apply Start_ends. Qed.
End server_lemmas.

(** ** Witnesses *)

(** One connection, number 7, on descriptor 5. *)
Definition sample_world (events : list (list (Z * Z))) : World ref_kernel :=
  mkWorld (mkRef {[3%Z; 4%Z; 5%Z]} {[4%Z; 5%Z]} ∅ ∅ ∅ [(16777343%Z, 47873%Z)] events)
    3 10 4 {[5%Z := 7%Z]} 7 [].

Lemma sample_world_inv events : server_inv (sample_world events).
Proof.
  split; try done; try decide_closed.
  intros fd fd' id H H'. simpl in H, H'. apply lookup_singleton_Some in H as [<- _].
  by apply lookup_singleton_Some in H' as [<- _].
Qed.

Lemma ProcessNewConnection_registers_witness :
  ∃ w', Server_ProcessNewConnection (sample_world []) = (Ok tt, w') ∧
        new_connection_outcome (sample_world []) (Ok tt) w' ∧ sockets w' !! 6%Z = Some 8%Z.
Proof.
  eexists. split; [vm_compute; reflexivity|]. split.
  - apply (ProcessNewConnection_registers (sample_world []));
      [apply sample_world_inv | by vm_compute | vm_compute; reflexivity].
  - vm_compute. reflexivity.
Defined.

Lemma close_once_witness :
  ∃ w1 w2, Server_close 5 (sample_world []) = (Ok tt, w1) ∧
           Server_close 5 w1 = (Throw RuntimeError, w2).
Proof.
  destruct (close_once 5 7 (sample_world []) (sample_world_inv []) ltac:(reflexivity))
    as (w1 & H1 & _ & _ & _ & w2 & H2 & _). by exists w1, w2.
Defined.

Lemma ProcessEvents_keeps_inv_witness :
  ∃ w', Server_ProcessEvents [(4, 1); (5, 5)]%Z (sample_world []) = (Ok tt, w') ∧ server_inv w'.
Proof.
  eexists. split; [vm_compute; reflexivity|].
  eapply (ProcessEvents_keeps_inv [(4, 1); (5, 5)]%Z (sample_world []));
    [apply sample_world_inv | by vm_compute | vm_compute; reflexivity].
Defined.

Lemma Start_returns_witness :
  ∃ r w', Server_Start 8080 [false; true] (Server_Server (mkRef ∅ ∅ ∅ ∅ ∅ [] []) 10) = (r, w') ∧
    ((r = Ok tt ∧ ∃ w1, server_inv w1 ∧ released w1 w') ∨ r = Throw RuntimeError).
Proof.
  apply (Start_returns 8080 [false; true] (mkRef ∅ ∅ ∅ ∅ ∅ [] []) 10);
    [decide_closed | decide_closed | by vm_compute].
Defined.
