(* ===== verification/ConnectionManager.v ===== *)
(** * The connection manager of simple_http (simple_http/tcp_server/src/connection.cpp)

    [ConnectionManager] with [Connection], [ConnectionMap], [ConnectionQueue],
    [WriteCache] and the [EventNotifier] of utils.h.  The server's thread reports events
    to it; detached reader and writer threads take connections from the two queues
    and serve them through the application's request handler (the class [RequestHandler]).

    A thread is the list of the instructions it has still to execute.  One
    instruction is one atomic action of the code: the body of a critical section, one access to
    an atomic variable or to a field of the connection, one call of the socket
    handler.  [exec] executes an instruction and gives the instructions that come before the
    rest of the thread; [sys_step] lets one thread of the system make a step.

    An exception that leaves a thread function ends the process ([std::terminate]); one that
    leaves the server's thread ends [main].  Both are recorded in [stopped]. *)

From S2P Require Import Prelude CppString Posix RefKernel HttpRequest HttpHandler SocketHandler Server.

(** What a connection needs of the socket layer: the operations of [SocketHandler].  The
    number bounds the [read] calls of one [Read]. *)
Class SocketWorld (W : Type) := {
  sk_read : nat → Z → M W bytes;
  sk_write : Z → bytes → M W bytes;
  sk_close : Z → M W unit
}.

#[global] Instance World_SocketWorld {K} `{!Kernel K} : SocketWorld (World K) := {
  sk_read fuel fd := zoom kern set_kern (SocketHandler_Read fuel fd);
  sk_write fd s := zoom kern set_kern (SocketHandler_Write fd s);
  sk_close := Server_close
}.

Inductive side := Read | Write.

#[global] Instance side_eq_dec : EqDecision side.
Proof. solve_decision. Defined.

(** [enum ConnectionErrorCode]. *)
Definition NO_ERROR : Z := 0.
Definition SOCKET_ERROR : Z := 1.
Definition SOCKET_CLOSED : Z := 2.

Section manager.
  Context {H W : Type} `{!RequestHandler H, !SocketWorld W}.

(** ** The state *)

Record Connection := mkConnection {
  conn_id : Z;
  clientInfo : ClientInfo;
  conn_fd : Z;
  isReadable : Z;
  isWritable : Z;
  errorCode : Z;
  isClosed : bool;
  isReading : bool;
  isWriting : bool;
  requestHandler : H;
  response : bytes
}.

Definition Connection_Connection (id : Z) (ci : ClientInfo) (fd : Z) (h : H) : Connection :=
  mkConnection id ci fd 0 0 NO_ERROR false false false h [].

Definition set_isReadable n c := mkConnection (conn_id c) (clientInfo c) (conn_fd c) n
  (isWritable c) (errorCode c) (isClosed c) (isReading c) (isWriting c) (requestHandler c) (response c).
Definition set_isWritable n c := mkConnection (conn_id c) (clientInfo c) (conn_fd c) (isReadable c)
  n (errorCode c) (isClosed c) (isReading c) (isWriting c) (requestHandler c) (response c).
Definition set_errorCode e c := mkConnection (conn_id c) (clientInfo c) (conn_fd c) (isReadable c)
  (isWritable c) e (isClosed c) (isReading c) (isWriting c) (requestHandler c) (response c).
Definition set_isClosed b c := mkConnection (conn_id c) (clientInfo c) (conn_fd c) (isReadable c)
  (isWritable c) (errorCode c) b (isReading c) (isWriting c) (requestHandler c) (response c).
Definition set_isReading b c := mkConnection (conn_id c) (clientInfo c) (conn_fd c) (isReadable c)
  (isWritable c) (errorCode c) (isClosed c) b (isWriting c) (requestHandler c) (response c).
Definition set_isWriting b c := mkConnection (conn_id c) (clientInfo c) (conn_fd c) (isReadable c)
  (isWritable c) (errorCode c) (isClosed c) (isReading c) b (requestHandler c) (response c).
Definition set_requestHandler h c := mkConnection (conn_id c) (clientInfo c) (conn_fd c)
  (isReadable c) (isWritable c) (errorCode c) (isClosed c) (isReading c) (isWriting c) h (response c).
Definition set_response s c := mkConnection (conn_id c) (clientInfo c) (conn_fd c)
  (isReadable c) (isWritable c) (errorCode c) (isClosed c) (isReading c) (isWriting c)
  (requestHandler c) s.

(** [std::atomic_int] wraps. *)
Definition int_wrap (z : Z) : Z := (wrap 32 (z + 2 ^ 31) - 2 ^ 31)%Z.

Definition ReadEventHappend (c : Connection) : bool :=
  negb (Z.lor (isReadable c) (errorCode c) =? 0)%Z.
Definition WriteEventHappend (c : Connection) : bool :=
  negb (Z.lor (isWritable c) (errorCode c) =? 0)%Z.
Definition CanClose (c : Connection) : bool := negb (IsWaiting (requestHandler c)).

(** The connections live in [objs] and are shared by pointer (their index). *)
Record Mgr := mkMgr {
  objs : list Connection;
  connectionMap : gmap Z nat;
  readQueue : list nat;
  writeQueue : list nat;
  writeCache : gmap Z bytes;
  readInQueueHappened : bool;
  writeInQueueHappened : bool;
  closed : bool;
  world : W
}.

Definition set_objs l m := mkMgr l (connectionMap m) (readQueue m) (writeQueue m) (writeCache m)
  (readInQueueHappened m) (writeInQueueHappened m) (closed m) (world m).
Definition set_connectionMap x m := mkMgr (objs m) x (readQueue m) (writeQueue m) (writeCache m)
  (readInQueueHappened m) (writeInQueueHappened m) (closed m) (world m).
Definition set_writeCache x m := mkMgr (objs m) (connectionMap m) (readQueue m) (writeQueue m) x
  (readInQueueHappened m) (writeInQueueHappened m) (closed m) (world m).
Definition set_closed b m := mkMgr (objs m) (connectionMap m) (readQueue m) (writeQueue m)
  (writeCache m) (readInQueueHappened m) (writeInQueueHappened m) b (world m).
Definition set_world w m := mkMgr (objs m) (connectionMap m) (readQueue m) (writeQueue m)
  (writeCache m) (readInQueueHappened m) (writeInQueueHappened m) (closed m) w.

(** The queue and the notifier of a side. *)
Definition queue (d : side) (m : Mgr) : list nat :=
  match d with Read => readQueue m | Write => writeQueue m end.
Definition set_queue (d : side) (q : list nat) (m : Mgr) : Mgr :=
  match d with
  | Read => mkMgr (objs m) (connectionMap m) q (writeQueue m) (writeCache m)
              (readInQueueHappened m) (writeInQueueHappened m) (closed m) (world m)
  | Write => mkMgr (objs m) (connectionMap m) (readQueue m) q (writeCache m)
              (readInQueueHappened m) (writeInQueueHappened m) (closed m) (world m)
  end.
Definition signaled (d : side) (m : Mgr) : bool :=
  match d with Read => readInQueueHappened m | Write => writeInQueueHappened m end.
Definition set_signaled (d : side) (b : bool) (m : Mgr) : Mgr :=
  match d with
  | Read => mkMgr (objs m) (connectionMap m) (readQueue m) (writeQueue m) (writeCache m)
              b (writeInQueueHappened m) (closed m) (world m)
  | Write => mkMgr (objs m) (connectionMap m) (readQueue m) (writeQueue m) (writeCache m)
              (readInQueueHappened m) b (closed m) (world m)
  end.

(** The constructor does not initialise [closed]: its first value is an argument. *)
Definition ConnectionManager_new (closed0 : bool) (w : W) : Mgr :=
  mkMgr [] ∅ [] [] ∅ false false closed0 w.

(** ** Access to the shared objects *)

Definition deref (c : nat) : M Mgr Connection :=
  m ← get; match objs m !! c with Some o => mret o | None => undef end.

Definition update (c : nat) (f : Connection → Connection) : M Mgr unit :=
  modify (λ m, set_objs (alter f c (objs m)) m).

Definition ConnectionMap_GetValue (id : Z) : M Mgr nat :=
  m ← get; match connectionMap m !! id with Some c => mret c | None => throw RuntimeError end.

Definition ConnectionMap_Add (id : Z) (c : nat) : M Mgr unit :=
  m ← get;
  match connectionMap m !! id with
  | Some _ => throw RuntimeError
  | None => modify (λ m, set_connectionMap (<[id := c]> (connectionMap m)) m)
  end.

Definition ConnectionMap_Erase (id : Z) : M Mgr unit :=
  m ← get;
  match connectionMap m !! id with
  | None => throw RuntimeError
  | Some _ => modify (λ m, set_connectionMap (delete id (connectionMap m)) m)
  end.

Definition ConnectionQueue_InQueue (d : side) (c : nat) : M Mgr unit :=
  modify (λ m, set_queue d (queue d m ++ [c]) m).

Definition ConnectionQueue_DeQueue (d : side) : M Mgr (option nat) :=
  m ← get;
  match queue d m with
  | [] => mret None
  | c :: q => modify (set_queue d q);; mret (Some c)
  end.

Definition WriteCache_Add (id : Z) (s : bytes) : M Mgr unit :=
  modify (λ m, set_writeCache (<[id := default [] (writeCache m !! id) ++ s]> (writeCache m)) m).

(** The text is swapped out: an entry that exists stays, empty. *)
Definition WriteCache_Get (id : Z) : M Mgr bytes :=
  m ← get;
  match writeCache m !! id with
  | None => mret []
  | Some s => modify (λ m, set_writeCache (<[id := []]> (writeCache m)) m);; mret s
  end.

Definition WriteCache_HasContentToWrite (id : Z) (m : Mgr) : bool :=
  match writeCache m !! id with Some s => bool_decide (s ≠ []) | None => false end.

Definition EventNotifier_Set (d : side) : M Mgr unit := modify (set_signaled d true).

(** ** The critical sections that decide who serves a connection *)

Definition NeedInQueueRead (c : nat) : M Mgr bool :=
  o ← deref c;
  if ReadEventHappend o && negb (isReading o)
  then update c (set_isReading true);; mret true
  else mret false.

Definition NeedReInQueueRead (c : nat) : M Mgr bool :=
  o ← deref c;
  if negb (isReading o) then throw RuntimeError
  else if negb (ReadEventHappend o) then update c (set_isReading false);; mret false
  else mret true.

Definition NeedInQueueWrite (c : nat) : M Mgr bool :=
  m ← get;
  o ← deref c;
  if ((WriteEventHappend o && WriteCache_HasContentToWrite (conn_id o) m) || CanClose o)
     && negb (isWriting o)
  then update c (set_isWriting true);; mret true
  else mret false.

Definition NeedReInQueueWrite (c : nat) : M Mgr bool :=
  m ← get;
  o ← deref c;
  if negb (isWriting o) then throw RuntimeError
  else if negb (WriteEventHappend o) || negb (WriteCache_HasContentToWrite (conn_id o) m)
  then update c (set_isWriting false);; mret false
  else mret true.

Definition NeedInQueue (d : side) : nat → M Mgr bool :=
  match d with Read => NeedInQueueRead | Write => NeedInQueueWrite end.
Definition NeedReInQueue (d : side) : nat → M Mgr bool :=
  match d with Read => NeedReInQueueRead | Write => NeedReInQueueWrite end.

(** ** Instructions *)

Inductive instr :=
  (* the server's thread: an action on the sockets, and the reports it makes *)
  | IServer (m : M W (list report))
  | IReport (r : report)
  | ISetReadable (c : nat)
  | ISetWritable (c : nat)
  | ISetErrorCode (e : Z) (c : nat)
  | IManagerClose
  (* CheckToInQueueRead, CheckToInQueueWrite *)
  | INeedInQueue (d : side) (c : nat)
  | IInQueue (d : side) (c : nat)
  | ISet (d : side)
  (* ProcessRead, ProcessWrite *)
  | IOuter (d : side)
  | IWait (d : side)
  | IInner (d : side)
  | IDeQueue (d : side)
  | INeedReInQueue (d : side) (c : nat)
  (* Connection::Read *)
  | IRead (c : nat)
  | IReadTest (c : nat)
  | IReadDecrement (c : nat)
  | ISocketRead (c : nat)
  | IAppend (s : bytes) (c : nat)
  | ICheckIntegrity (c : nat)
  | IReadComplete (e : Z) (c : nat)
  | ICacheAdd (id : Z) (s : bytes)
  | ICacheAdded (id : Z)
  | IAfterWrite (c : nat)
  (* Connection::Write *)
  | ICacheGet (c : nat)
  | ISetResponse (s : bytes) (c : nat)
  | IWrite (c : nat)
  | IWriteTest (c : nat)
  | IWriteDecrement (c : nat)
  | IWriteResponse (c : nat)
  | ISocketWrite (c : nat)
  | IWriteComplete (e : Z) (c : nat)
  (* the end of both *)
  | IFinish (c : nat)
  | ISocketClose (c : nat)
  | IRelease (c : nat)
  | ISetClosed (c : nat).

Definition Connection_Close (c : nat) : list instr := [ISocketClose c; IRelease c; ISetClosed c].

(** The reader's and the writer's work on a connection they have taken. *)
Definition serve (d : side) (c : nat) : list instr :=
  match d with Read => [IRead c] | Write => [ICacheGet c; IWrite c] end.

  Context (new_handler : H) (read_fuel : nat).

(** [try { ... } catch { LogError }] around a handler of the server's reports; only the
    lookup in the map can throw in it. *)
Definition ConnectionManager_NewConnection (id : Z) (ci : ClientInfo) (fd : Z)
    : M Mgr (list instr) :=
  try_catch
    (m ← get;
     modify (λ m, set_objs (objs m ++ [Connection_Connection id ci fd new_handler]) m);;
     ConnectionMap_Add id (length (objs m));;
     mret [])
    (mret []).

Definition on_connection (id : Z) (k : nat → list instr) : M Mgr (list instr) :=
  try_catch (c ← ConnectionMap_GetValue id; mret (k c)) (mret []).

Definition ConnectionManager_CanRead (id : Z) : M Mgr (list instr) :=
  on_connection id (λ c, [ISetReadable c]).
Definition ConnectionManager_CanWrite (id : Z) : M Mgr (list instr) :=
  on_connection id (λ c, [ISetWritable c]).
Definition ConnectionManager_ErrorOccurred (id : Z) : M Mgr (list instr) :=
  on_connection id (λ c, [ISetErrorCode SOCKET_ERROR c]).
Definition ConnectionManager_TimeToExit (id : Z) : M Mgr (list instr) :=
  on_connection id (λ c, [ISetErrorCode SOCKET_CLOSED c]).

Definition ReleaseConnection (id : Z) : M Mgr unit :=
  try_catch (ConnectionMap_Erase id) (mret tt).

(** [std::bind]s of main.cpp. *)
Definition on_report (r : report) : M Mgr (list instr) :=
  match r with
  | reportNewConnection id ci fd => ConnectionManager_NewConnection id ci fd
  | reportCanRead id => ConnectionManager_CanRead id
  | reportCanWrite id => ConnectionManager_CanWrite id
  | reportErrorOccurred id => ConnectionManager_ErrorOccurred id
  | reportTimeToExit id => ConnectionManager_TimeToExit id
  end.

Definition ConnectionManager_Close : M Mgr (list instr) :=
  m ← get;
  if closed m then mret []
  else modify (set_closed true);; mret [ISet Write; ISet Read].

(** [ProcessRead] and [ProcessWrite]: the two loop heads, the wait and the dequeue. *)
Definition Process_outer (d : side) : M Mgr (list instr) :=
  m ← get; mret (if closed m then [ISet d] else [IWait d]).

Definition Process_inner (d : side) : M Mgr (list instr) :=
  m ← get; mret (if closed m then [IOuter d] else [IDeQueue d]).

Definition Process_dequeue (d : side) : M Mgr (list instr) :=
  o ← ConnectionQueue_DeQueue d;
  mret (match o with
        | None => [IOuter d]
        | Some c => serve d c ++ [INeedReInQueue d c; IInner d]
        end).

Definition Connection_Read (c : nat) : M Mgr (list instr) :=
  o ← deref c;
  mret ((if negb (errorCode o =? NO_ERROR)%Z
         then IReadComplete (errorCode o) c :: Connection_Close c else []) ++ [IReadTest c]).

Definition Connection_Write (c : nat) : M Mgr (list instr) :=
  o ← deref c;
  mret ((if negb (errorCode o =? NO_ERROR)%Z
         then IWriteComplete (errorCode o) c :: Connection_Close c else []) ++ [IWriteTest c]).

Definition handler_step {A} (c : nat) (f : M H A) : M Mgr A :=
  o ← deref c;
  match f (requestHandler o) with
  | (Ok a, h) => update c (set_requestHandler h);; mret a
  | (r, h) => update c (set_requestHandler h);; lift r
  end.

Definition exec (i : instr) : M Mgr (list instr) :=
  match i with
  | IServer f => rs ← zoom world set_world f; mret (map IReport rs)
  | IReport r => on_report r
  | ISetReadable c =>
      update c (λ o, set_isReadable (int_wrap (isReadable o + 1)) o);; mret [INeedInQueue Read c]
  | ISetWritable c =>
      update c (λ o, set_isWritable (int_wrap (isWritable o + 1)) o);; mret [INeedInQueue Write c]
  | ISetErrorCode e c =>
      update c (set_errorCode e);; mret [INeedInQueue Read c; INeedInQueue Write c]
  | IManagerClose => ConnectionManager_Close
  | INeedInQueue d c =>
      b ← NeedInQueue d c; mret (if b : bool then [IInQueue d c; ISet d] else [])
  | IInQueue d c => ConnectionQueue_InQueue d c;; mret []
  | ISet d => EventNotifier_Set d;; mret []
  | IOuter d => Process_outer d
  | IWait d => modify (set_signaled d false);; mret [IInner d]
  | IInner d => Process_inner d
  | IDeQueue d => Process_dequeue d
  | INeedReInQueue d c =>
      b ← NeedReInQueue d c; mret (if b : bool then [IInQueue d c] else [])
  | IRead c => Connection_Read c
  | IReadTest c =>
      o ← deref c; mret (if (isReadable o =? 0)%Z then [] else [IReadDecrement c])
  | IReadDecrement c =>
      update c (λ o, set_isReadable (int_wrap (isReadable o - 1)) o);; mret [ISocketRead c]
  | ISocketRead c =>
      o ← deref c;
      s ← zoom world set_world (sk_read read_fuel (conn_fd o));
      mret [IAppend s c; ICheckIntegrity c; IFinish c]
  | IAppend s c => handler_step c (AppendReceivedData s);; mret []
  | ICheckIntegrity c =>
      o ← deref c;
      mret (if CheckDataIntegrity (requestHandler o) then [IReadComplete NO_ERROR c] else [])
  | IReadComplete e c =>
      o ← deref c;
      t ← handler_step c (λ h, let '(h', t) := ReadCompleteCallback e h in (Ok t, h'));
      mret (match t with None => [] | Some s => [ICacheAdd (conn_id o) s; IAfterWrite c] end)
  | ICacheAdd id s => WriteCache_Add id s;; mret [ICacheAdded id]
  | ICacheAdded id => c ← ConnectionMap_GetValue id; mret [INeedInQueue Write c]
  | IAfterWrite c => handler_step c (λ h, (Ok tt, after_write h));; mret []
  | ICacheGet c => o ← deref c; s ← WriteCache_Get (conn_id o); mret [ISetResponse s c]
  | ISetResponse s c => update c (λ o, set_response (response o ++ s) o);; mret []
  | IWrite c => Connection_Write c
  | IWriteTest c =>
      o ← deref c; mret (if (isWritable o =? 0)%Z then [] else [IWriteDecrement c])
  | IWriteDecrement c =>
      update c (λ o, set_isWritable (int_wrap (isWritable o - 1)) o);; mret [IWriteResponse c]
  | IWriteResponse c =>
      o ← deref c; mret (if bool_decide (response o = []) then [] else [ISocketWrite c])
  | ISocketWrite c =>
      o ← deref c;
      s ← zoom world set_world (sk_write (conn_fd o) (response o));
      update c (set_response s);;
      mret ((if bool_decide (s = []) then [IWriteComplete NO_ERROR c] else []) ++ [IFinish c])
  | IWriteComplete e c => handler_step c (λ h, (Ok tt, WriteCompleteCallback e h));; mret []
  | IFinish c =>
      o ← deref c; mret (if IsWaiting (requestHandler o) then [] else Connection_Close c)
  | ISocketClose c =>
      o ← deref c; zoom world set_world (sk_close (conn_fd o));; mret []
  | IRelease c => o ← deref c; ReleaseConnection (conn_id o);; mret []
  | ISetClosed c => update c (set_isClosed true);; mret []
  end.

(** ** The threads *)

Record Sys := mkSys {
  mgr : Mgr;
  threads : list (list instr);
  stopped : option (nat * result unit)
}.

(** A thread can always make its next step, except that a wait needs the notifier set. *)
Definition enabled (i : instr) (m : Mgr) : bool :=
  match i with IWait d => signaled d m | _ => true end.

Definition sys_step (t : nat) (s : Sys) : option Sys :=
  match stopped s, threads s !! t with
  | None, Some (i :: k) =>
      if enabled i (mgr s) then
        Some (match exec i (mgr s) with
              | (Ok l, m) => mkSys m (<[t := l ++ k]> (threads s)) None
              | (Throw e, m) => mkSys m (threads s) (Some (t, Throw e))
              | (Undef, m) => mkSys m (threads s) (Some (t, Undef))
              | (OutOfFuel, m) => mkSys m (threads s) (Some (t, OutOfFuel))
              end)
      else None
  | _, _ => None
  end.

Definition sys_trans (s s' : Sys) : Prop := ∃ t, sys_step t s = Some s'.

(** Thread 0 runs the server's program and then [Close]; each pair of threads after it
    is a reader and a writer. *)
Definition server_thread (acts : list (M W (list report))) : list instr :=
  map IServer acts ++ [IManagerClose].

Definition sys_init (closed0 : bool) (w : W) (acts : list (M W (list report)))
    (processEventThreadCount : nat) : Sys :=
  mkSys (ConnectionManager_new closed0 w)
    (server_thread acts :: concat (replicate processEventThreadCount [[IOuter Read]; [IOuter Write]]))
    None.

Definition reachable closed0 w acts n : Sys → Prop := rtc sys_trans (sys_init closed0 w acts n).

(** Run a schedule: a list of (thread, number of steps); threads that cannot go on are skipped. *)
Fixpoint run_thread (t n : nat) (s : Sys) : Sys :=
  match n with
  | O => s
  | S n' => match sys_step t s with Some s' => run_thread t n' s' | None => s end
  end.

Definition run_schedule (sch : list (nat * nat)) (s : Sys) : Sys :=
  foldl (λ s tn, run_thread tn.1 tn.2 s) s sch.
End manager.
Arguments Connection H : clear implicits.
Arguments Mgr H W : clear implicits.
Arguments instr W : clear implicits.
Arguments Sys H W : clear implicits.
