(* ===== verification/ConnectionInvariant.v ===== *)
(** * The connection manager under every interleaving

    The invariant of the system of threads of ConnectionManager.v, for any request
    handler, any behaviour of the sockets, any program of the server's thread and any
    number of worker threads:
    - a connection's flag [isReading] ([isWriting]) is set exactly while one token for it
      exists: an occurrence in the queue or a thread that serves it;
    - a read event that is not consumed is being served or about to be examined;
    - a queue that is not empty, or the closing of the manager, is known to the workers: the
      notifier is set or about to be, or a worker is awake;
    - the instructions of a thread come in the order the code has them. *)

From S2P Require Import Prelude CppString HttpHandler Server ConnectionManager.

(** ** Effects of an instruction *)

Section spec.
Context {S : Type}.

(** Every outcome relates the states by [R]; a value returned satisfies [Q]. *)
Definition spec {A} (R : S → S → Prop) (Q : A → Prop) (m : M S A) : Prop :=
  ∀ s r s', m s = (r, s') → R s s' ∧ ∀ a, r = Ok a → Q a.

Context (R : S → S → Prop) `{!PreOrder R}.

Lemma spec_ret {A} (Q : A → Prop) a : Q a → spec R Q (mret a).
Proof. intros Ha s r s' [= <- <-]. split; [done|]. by intros ? [= <-]. Qed.

Lemma spec_bind {A B} (Q' : A → Prop) (Q : B → Prop) (m : M S A) (f : A → M S B) :
  spec R Q' m → (∀ a, Q' a → spec R Q (f a)) → spec R Q (m ≫= f).
Proof.
  intros Hm Hf s r s'. unfold mbind, M_bind. destruct (m s) as [r1 s1] eqn:E.
  apply Hm in E as [HR HQ]. destruct r1; intros H; simplify_eq; try (split; [done|by intros]).
  apply (Hf a (HQ a eq_refl)) in H as [HR' HQ']. split; [by etrans|done].
Qed.

Lemma spec_any {A} (Q : A → Prop) (m : M S A) : spec R (λ _, True) m →
  (∀ s a s', m s = (Ok a, s') → Q a) → spec R Q m.
Proof.
  intros Hm HQ s r s' H. split; [by eapply Hm|]. intros a ->. by eapply HQ.
Qed.

Lemma spec_get : spec R (λ _, True) get.
Proof. intros s r s' [= <- <-]. by split. Qed.
Lemma spec_throw {A} (Q : A → Prop) e : spec R Q (throw e).
Proof. intros s r s' [= <- <-]. by split. Qed.
Lemma spec_undef {A} (Q : A → Prop) : spec R Q undef.
Proof. intros s r s' [= <- <-]. by split. Qed.
Lemma spec_modify (f : S → S) : (∀ s, R s (f s)) → spec R (λ _, True) (modify f).
Proof. intros Hf s r s' [= <- <-]. by split. Qed.
Lemma spec_try {A} (Q : A → Prop) (m h : M S A) :
  spec R Q m → spec R Q h → spec R Q (try_catch m h).
Proof.
  intros Hm Hh s r s'. unfold try_catch. destruct (m s) as [r1 s1] eqn:E.
  apply Hm in E as [HR HQ]. destruct r1; intros H; simplify_eq; try done.
  apply Hh in H as [HR' HQ']. split; [by etrans|done].
Qed.
Lemma spec_mono {A} (Q Q' : A → Prop) (m : M S A) :
  spec R Q m → (∀ a, Q a → Q' a) → spec R Q' m.
Proof. intros Hm HQ s r s' H. apply Hm in H as [? Ha]. split; auto. Qed.
End spec.

Section invariant.
  Context {H W : Type} `{!RequestHandler H, !SocketWorld W}.
  Implicit Types (m : Mgr H W) (i : instr W) (code : list (instr W)) (s : Sys H W) (o : Connection H).

(** ** What the invariant speaks about *)

Definition busy (d : side) o : bool :=
  match d with Read => isReading o | Write => isWriting o end.

Definition busy_at (d : side) (c : nat) m : nat :=
  match objs m !! c with Some o => Nat.b2n (busy d o) | None => 0 end.

Definition event_at (c : nat) m : bool :=
  match objs m !! c with Some o => ReadEventHappend o | None => false end.

Definition token (d : side) (c : nat) i : nat :=
  match i with
  | IInQueue d' c' | INeedReInQueue d' c' => Nat.b2n (bool_decide (d' = d ∧ c' = c))
  | _ => 0
  end.

Definition tokens (d : side) (c : nat) code : nat := sum_list_with (token d c) code.

Definition queued (d : side) (c : nat) m : nat :=
  sum_list_with (λ c', Nat.b2n (bool_decide (c' = c))) (queue d m).

(** Instructions of a reader that precede the decrement of [isReadable]. *)
Definition reading (c : nat) i : Prop :=
  match i with IRead c' | IReadTest c' | IReadDecrement c' => c' = c | _ => False end.

Definition looping (d : side) i : Prop :=
  match i with IOuter d' | IWait d' | IInner d' | IDeQueue d' => d' = d | _ => False end.

Definition awake (d : side) (closing : bool) i : Prop :=
  match i with
  | IInner d' | IDeQueue d' | ISet d' => d' = d
  | IOuter d' => d' = d ∧ closing = true
  | _ => False
  end.

Definition follows i code : Prop :=
  match i with
  | IInQueue d c => (ISet d ∈ code) ∨ IInner d ∈ code
  | INeedReInQueue d c => IInner d ∈ code
  | IOuter d | IWait d | IInner d | IDeQueue d => code = []
  | IRead c | IReadTest c | IReadDecrement c => INeedReInQueue Read c ∈ code
  | _ => True
  end.

Fixpoint ordered code : Prop :=
  match code with [] => True | i :: k => follows i k ∧ ordered k end.

Definition some_thread (P : instr W → Prop) s : Prop :=
  ∃ t code i, threads s !! t = Some code ∧ i ∈ code ∧ P i.

Record sys_inv s : Prop := {
  inv_tokens d c :
    sum_list_with (tokens d c) (threads s) + queued d c (mgr s) = busy_at d c (mgr s);
  inv_events c : event_at c (mgr s) = true →
    busy_at Read c (mgr s) = 1 ∨ some_thread (λ i, i = INeedInQueue Read c) s;
  inv_wake d : queue d (mgr s) ≠ [] ∨ closed (mgr s) = true →
    signaled d (mgr s) = true ∨ some_thread (awake d (closed (mgr s))) s;
  inv_loop d : closed (mgr s) = true ∨ some_thread (looping d) s;
  inv_ordered : Forall ordered (threads s)
}.

(** ** Instructions that do none of this *)

Definition quiet i : bool :=
  match i with
  | ISetReadable _ | ISetErrorCode _ _ | IReadDecrement _ | IManagerClose | INeedInQueue _ _
  | IInQueue _ _ | ISet _ | IOuter _ | IWait _ | IInner _ | IDeQueue _ | INeedReInQueue _ _ => false
  | _ => true
  end.

Record same m m' : Prop := {
  same_queue d : queue d m' = queue d m;
  same_signaled d : signaled d m' = signaled d m;
  same_closed : closed m' = closed m;
  same_busy d c : busy_at d c m' = busy_at d c m;
  same_event c : event_at c m' = event_at c m
}.

#[local] Instance same_preorder : PreOrder same.
Proof.
  split; [by split|]. intros m1 m2 m3 [] []. split; intros; etrans; eauto.
Qed.

(** What a quiet instruction puts in front of the rest. *)
Definition inert i : Prop :=
  match i with
  | IInQueue _ _ | INeedReInQueue _ _ | IOuter _ | IWait _ | IInner _ | IDeQueue _
  | IRead _ | IReadTest _ | IReadDecrement _ => False
  | _ => True
  end.

Definition quiet_code i code : Prop := Forall (λ j, inert j ∨ ∃ c, reading c i ∧ reading c j) code.

Lemma same_update c f m :
  (∀ o, isReading (f o) = isReading o ∧ isWriting (f o) = isWriting o ∧
        ReadEventHappend (f o) = ReadEventHappend o) →
  same m (set_objs (alter f c (objs m)) m).
Proof.
  intros Hf. split; try (intros []; done); try done.
  - intros d c'. unfold busy_at. simpl. rewrite list_lookup_alter. case_decide; [|done].
    subst. destruct (objs m !! c') as [o|]; simpl; [|done].
    destruct (Hf o) as (H1 & H2 & _). destruct d; simpl; by rewrite ?H1, ?H2.
  - intros c'. unfold event_at. simpl. rewrite list_lookup_alter. case_decide; [|done].
    subst. destruct (objs m !! c') as [o|]; simpl; [|done]. apply Hf.
Qed.

Lemma spec_update c f :
  (∀ o, isReading (f o) = isReading o ∧ isWriting (f o) = isWriting o ∧
        ReadEventHappend (f o) = ReadEventHappend o) →
  spec same (λ _, True) (update (H := H) (W := W) c f).
Proof. intros Hf. apply (spec_modify same). intros m. by apply same_update. Qed.

Lemma spec_deref c : spec same (λ _, True) (deref (H := H) (W := W) c).
Proof.
  eapply spec_bind; [apply _|apply (spec_get same)|]. intros m _.
  destruct (objs m !! c); [by apply (spec_ret same)|apply (spec_undef same)].
Qed.

Lemma spec_handler_step {A} c (f : M H A) : spec same (λ _, True) (handler_step (W := W) c f).
Proof.
  eapply spec_bind; [apply _|apply spec_deref|]. intros o _.
  destruct (f (requestHandler o)) as [r h].
  destruct r; (eapply spec_bind; [apply _|by apply spec_update|]); intros [] _;
    intros m r' m' [= <- <-]; by split.
Qed.

Lemma same_world w m : same m (set_world w m).
Proof. by split; try intros []. Qed.
Lemma same_connectionMap x m : same m (set_connectionMap x m).
Proof. by split; try intros []. Qed.
Lemma same_writeCache x m : same m (set_writeCache x m).
Proof. by split; try intros []. Qed.

Lemma spec_world {A} (f : M W A) : spec same (λ _, True) (zoom world set_world f : M (Mgr H W) A).
Proof.
  intros m r m'. unfold zoom. destruct (f (world m)) as [r1 w]. intros [= <- <-].
  split; [apply same_world|done].
Qed.

Lemma spec_modify_same (f : Mgr H W → Mgr H W) : (∀ m, same m (f m)) → spec same (λ _, True) (modify f).
Proof. apply (spec_modify same). Qed.

Lemma same_new o m : isReading o = false → isWriting o = false → ReadEventHappend o = false →
  same m (set_objs (objs m ++ [o]) m).
Proof.
  intros H1 H2 H3. split; try (intros []; done); try done.
  - intros d c. unfold busy_at. simpl. destruct (objs m !! c) as [o'|] eqn:E.
    + by rewrite (lookup_app_l_Some _ _ _ _ E).
    + rewrite lookup_app_r by (by apply lookup_ge_None). destruct (c - length (objs m)) as [|n]; simpl.
      * destruct d; simpl; by rewrite ?H1, ?H2.
      * done.
  - intros c. unfold event_at. simpl. destruct (objs m !! c) as [o'|] eqn:E.
    + by rewrite (lookup_app_l_Some _ _ _ _ E).
    + rewrite lookup_app_r by (by apply lookup_ge_None). destruct (c - length (objs m)) as [|n]; simpl.
      * by rewrite H3.
      * done.
Qed.

(** ** Executing a quiet instruction *)

Context (h0 : H) (fuel : nat).
#[local] Abbreviation exec := (exec h0 fuel).

Ltac spec_step :=
  match goal with
  | |- spec _ _ (mbind _ _) => apply (spec_bind same (λ _, True)); [|intros ? _]
  | |- spec _ _ (try_catch _ _) => apply spec_try; [apply _| |]
  | |- spec _ _ (match ?x with _ => _ end) => destruct x
  | |- spec _ _ get => apply (spec_get same)
  | |- spec _ _ undef => apply (spec_undef same)
  | |- spec _ _ (throw _) => apply (spec_throw same)
  | |- spec _ _ (deref _) => apply spec_deref
  | |- spec _ _ (handler_step _ _) => apply spec_handler_step
  | |- spec _ _ (zoom _ _ _) => apply spec_world
  | |- spec _ _ (update _ _) => apply spec_update; by intros []
  | |- spec _ _ (modify _) => apply spec_modify_same; intros ?;
      first [apply same_connectionMap | apply same_writeCache | apply same_new; reflexivity]
  | |- spec _ _ (mret _) => apply (spec_ret same)
  end.

Lemma inert_code i code : Forall inert code → quiet_code i code.
Proof. intros Hc. eapply Forall_impl; [exact Hc|]. by left. Qed.

Lemma inert_reports i rs : quiet_code i (map IReport rs).
Proof. apply inert_code, Forall_forall. by intros j (r & -> & _)%list_elem_of_fmap. Qed.

Lemma exec_quiet i : quiet i = true → spec same (quiet_code i) (exec i).
Proof.
  destruct i; intros Hq; try discriminate Hq; simpl;
    unfold on_report, ConnectionManager_NewConnection, ConnectionManager_CanRead,
      ConnectionManager_CanWrite, ConnectionManager_ErrorOccurred, ConnectionManager_TimeToExit,
      on_connection, ConnectionMap_Add, ConnectionMap_GetValue, WriteCache_Add, WriteCache_Get,
      ReleaseConnection, ConnectionMap_Erase, Connection_Read, Connection_Write, Connection_Close;
    repeat spec_step;
    try done; try match goal with |- context [map IReport _] => apply inert_reports end;
    repeat match goal with |- context [match ?b with _ => _ end] => destruct b end;
    unfold quiet_code; simpl; rewrite ?Forall_cons;
    repeat split; try apply Forall_nil_2; try (by left); right; eexists; split; reflexivity.
Qed.

(** ** One step of a thread *)

Definition run_code s (t : nat) code m' : Sys H W := mkSys m' (<[t := code]> (threads s)) None.

Lemma some_keep P s t i k l m' :
  threads s !! t = Some (i :: k) → some_thread P s → P i ∨ some_thread P (run_code s t (l ++ k) m').
Proof.
  intros Ht (t' & code & j & Ht' & Hj & HP). destruct (decide (t' = t)) as [->|Hne].
  - rewrite Ht in Ht'. injection Ht' as <-. apply elem_of_cons in Hj as [->|Hj]; [by left|].
    right. exists t, (l ++ k), j. split_and!; [|set_solver|done].
    simpl. rewrite list_lookup_insert_eq; [done|]. by eapply lookup_lt_Some.
  - right. exists t', code, j. simpl. by rewrite list_lookup_insert_ne.
Qed.

Lemma some_here (P : instr W → Prop) s t i k code j m' :
  threads s !! t = Some (i :: k) → j ∈ code → P j → some_thread P (run_code s t code m').
Proof.
  intros Ht Hj HP. exists t, code, j. split_and!; [|done..].
  simpl. rewrite list_lookup_insert_eq; [done|]. by eapply lookup_lt_Some.
Qed.

Lemma some_mono (P Q : instr W → Prop) s : (∀ i, P i → Q i) → some_thread P s → some_thread Q s.
Proof. intros HPQ (t & code & i & ? & ? & ?). exists t, code, i. auto. Qed.

Lemma awake_mono d b b' i : (b = true → b' = true) → awake d b i → awake d b' i.
Proof. destruct i; simpl; naive_solver. Qed.

Lemma tokens_app d c k1 k2 : tokens d c (k1 ++ k2) = tokens d c k1 + tokens d c k2.
Proof. apply sum_list_with_app. Qed.

Lemma busy_at_le d c m : busy_at d c m ≤ 1.
Proof. unfold busy_at. destruct (objs m !! c) as [o|]; [|lia]. by destruct (busy d o); simpl; lia. Qed.

Lemma tokens_elem d c i code : i ∈ code → token d c i ≤ tokens d c code.
Proof.
  intros [n Hn]%list_elem_of_lookup. by apply (sum_list_with_ge (token d c)) in Hn.
Qed.

(** Who holds a token serves a connection whose flag is set. *)
Lemma token_busy d c s t code i :
  sys_inv s → threads s !! t = Some code → i ∈ code → token d c i = 1 →
  busy_at d c (mgr s) = 1.
Proof.
  intros Hi Ht Hin Htok. pose proof (inv_tokens s Hi d c).
  apply (sum_list_with_ge (tokens d c)) in Ht. pose proof (tokens_elem d c i code Hin).
  pose proof (busy_at_le d c (mgr s)). lia.
Qed.

(** What an instruction must do for the invariant to go on. *)
Record step_ok i k l m m' : Prop := {
  ok_tokens d c :
    token d c i + queued d c m + busy_at d c m' = tokens d c l + queued d c m' + busy_at d c m;
  ok_events c : event_at c m' = true →
    busy_at Read c m' = 1 ∨ (INeedInQueue Read c ∈ l) ∨
    (event_at c m = true ∧ i ≠ INeedInQueue Read c ∧
     (busy_at Read c m = 1 → busy_at Read c m' = 1));
  ok_closed : closed m = true → closed m' = true;
  ok_wake d : queue d m' ≠ [] ∨ closed m' = true →
    signaled d m' = true ∨ (∃ j, j ∈ l ++ k ∧ awake d (closed m') j) ∨
    ((queue d m ≠ [] ∨ closed m = true) ∧ (signaled d m = true → signaled d m' = true) ∧
     ¬ awake d (closed m) i);
  ok_loop d : closed m' = true ∨ (∃ j, j ∈ l ∧ looping d j) ∨ ¬ looping d i;
  ok_ordered : ordered (l ++ k)
}.

Lemma step_ok_inv s t i k l m' :
  sys_inv s → threads s !! t = Some (i :: k) → step_ok i k l (mgr s) m' →
  sys_inv (run_code s t (l ++ k) m').
Proof.
  intros Hi Ht Hok. split; simpl.
  - intros d c. pose proof (inv_tokens s Hi d c) as H1. pose proof (ok_tokens _ _ _ _ _ Hok d c) as H2.
    pose proof (sum_list_with_insert (tokens d c) _ _ _ (l ++ k) Ht) as H3.
    rewrite tokens_app in H3.
    change (tokens d c (i :: k)) with (token d c i + tokens d c k) in H3. lia.
  - intros c [H1|[H1|(H1 & Hne & Hb)]]%(ok_events _ _ _ _ _ Hok); [by left| |].
    + right. eapply some_here; [exact Ht| |reflexivity]. set_solver.
    + apply (inv_events s Hi) in H1 as [H1|H1]; [auto|].
      right. by destruct (some_keep _ s t i k l m' Ht H1) as [|].
  - intros d [H1|[(j & Hj & Ha)|(Hq & Hs & Hna)]]%(ok_wake _ _ _ _ _ Hok); [by left| |].
    + right. by eapply some_here.
    + apply (inv_wake s Hi) in Hq as [Hq|Hq]; [by left; auto|]. right.
      destruct (some_keep _ s t i k l m' Ht Hq) as [|H1]; [done|].
      eapply some_mono; [|exact H1]. intros j. apply awake_mono. apply (ok_closed _ _ _ _ _ Hok).
  - intros d. destruct (ok_loop _ _ _ _ _ Hok d) as [|[(j & Hj & Hl)|Hn]]; [by left| |].
    + right. eapply some_here; [exact Ht| |exact Hl]. set_solver.
    + destruct (inv_loop s Hi d) as [Hc|Hc]; [left; by apply (ok_closed _ _ _ _ _ Hok)|].
      right. by destruct (some_keep _ s t i k l m' Ht Hc).
  - apply Forall_insert; [apply (inv_ordered s Hi)|]. apply (ok_ordered _ _ _ _ _ Hok).
Qed.

Lemma ordered_quiet i k l : ordered (i :: k) → quiet_code i l → ordered (l ++ k).
Proof.
  intros [Hf Ho]. induction 1 as [|j l Hj Hl IH]; simpl; [done|]. split; [|done].
  destruct Hj as [Hj|(c & Hi & Hj)].
  - by destruct j.
  - assert (INeedReInQueue Read c ∈ k) by (by destruct i; simpl in Hi; try done; subst).
    destruct j; simpl in Hj; try done; subst; simpl; set_solver.
Qed.

Lemma quiet_no_token i l d c : quiet_code i l → tokens d c l = 0.
Proof.
  intros Hq. apply sum_list_with_0. eapply Forall_impl; [exact Hq|].
  intros j [Hj|(c' & _ & Hj)]; by destruct j.
Qed.

Lemma quiet_ok i k l m m' :
  quiet i = true → ordered (i :: k) → same m m' → quiet_code i l → step_ok i k l m m'.
Proof.
  intros Hq Ho Hs Hl. destruct Hs as [Hqu Hsi Hcl Hbu Hev]. split.
  - intros d c. rewrite (quiet_no_token i l d c Hl), Hbu. unfold queued. rewrite Hqu.
    by destruct i.
  - intros c Hc. right. right. rewrite Hev in Hc. split_and!; [done|by destruct i|by rewrite Hbu].
  - by rewrite Hcl.
  - intros d Hd. rewrite Hqu, Hcl in Hd. right. right. split_and!; [done|by rewrite Hsi|intros Ha; by destruct i].
  - intros d. right. right. intros Ha; by destruct i.
  - by eapply ordered_quiet.
Qed.

(** ** The other instructions *)

Lemma update_eq c (f : Connection H → Connection H) m r m' :
  update c f m = (r, m') → r = Ok tt ∧ m' = set_objs (alter f c (objs m)) m.
Proof. by intros [= <- <-]. Qed.

Lemma deref_ok c m o m' : deref c m = (Ok o, m') → m' = m ∧ objs m !! c = Some o.
Proof. unfold deref. run_m. destruct (objs m !! c); intros; by simplify_eq. Qed.

Lemma busy_alter d c f m c' :
  busy_at d c' (set_objs (alter f c (objs m)) m) =
  if decide (c = c') then match objs m !! c with Some o => Nat.b2n (busy d (f o)) | None => 0 end
  else busy_at d c' m.
Proof.
  unfold busy_at. simpl. rewrite list_lookup_alter. case_decide; [|done]. subst.
  by destruct (objs m !! c').
Qed.

Lemma event_alter c f m c' :
  event_at c' (set_objs (alter f c (objs m)) m) =
  if decide (c = c') then match objs m !! c with Some o => ReadEventHappend (f o) | None => false end
  else event_at c' m.
Proof.
  unfold event_at. simpl. rewrite list_lookup_alter. case_decide; [|done]. subst.
  by destruct (objs m !! c').
Qed.

(** An update that keeps the two flags. *)
Lemma busy_alter_same d c f m c' :
  (∀ o, isReading (f o) = isReading o ∧ isWriting (f o) = isWriting o) →
  busy_at d c' (set_objs (alter f c (objs m)) m) = busy_at d c' m.
Proof.
  intros Hf. rewrite busy_alter. case_decide; [|done]. subst. unfold busy_at.
  destruct (objs m !! c') as [o|]; [|done]. destruct (Hf o) as [H1 H2].
  destruct d; simpl; by rewrite ?H1, ?H2.
Qed.

Lemma ordered_inert l k : Forall inert l → ordered k → ordered (l ++ k).
Proof. induction 1 as [|j l Hj]; simpl; [done|]. split; [by destruct j|auto]. Qed.

Lemma inert_no_token l d c : Forall inert l → tokens d c l = 0.
Proof.
  intros Hl. apply sum_list_with_0. eapply Forall_impl; [exact Hl|]. intros j Hj. by destruct j.
Qed.

(** The instructions that record a read event and have it examined next, or consume one
    on a connection that is being read. *)
Lemma event_ok i k l m c f :
  ordered (i :: k) → Forall inert l →
  (∀ o, isReading (f o) = isReading o ∧ isWriting (f o) = isWriting o) →
  (i = IReadDecrement c ∧ busy_at Read c m = 1 ∨
   (∃ e, i = ISetReadable c ∨ i = ISetErrorCode e c) ∧ INeedInQueue Read c ∈ l) →
  step_ok i k l m (set_objs (alter f c (objs m)) m).
Proof.
  intros Ho Hl Hf Hi. split.
  - intros d c'. rewrite busy_alter_same, (inert_no_token l) by done.
    assert (token d c' i = 0) as -> by (destruct Hi as [[-> _]|[(e & [-> | ->]) _]]; done).
    by destruct d.
  - intros c'. rewrite event_alter, busy_alter_same by done. case_decide; subst.
    + intros _. destruct Hi as [[_ Hb]|[_ Hin]]; auto.
    + intros He. right. right. split_and!; [done| |done].
      by destruct Hi as [[-> _]|[(e & [-> | ->]) _]].
  - done.
  - intros d Hd. right. right. split_and!; [by destruct d|by destruct d|].
    intros Ha; by destruct Hi as [[-> _]|[(e & [-> | ->]) _]].
  - intros d. right. right. intros Ha; by destruct Hi as [[-> _]|[(e & [-> | ->]) _]].
  - apply ordered_inert; [done|]. apply Ho.
Qed.

Lemma event_read_flag c b m c' :
  event_at c' (set_objs (alter (set_isReading b) c (objs m)) m) = event_at c' m.
Proof. rewrite event_alter. case_decide; [|done]. subst. unfold event_at. by destruct (objs m !! c'). Qed.

Lemma event_write_flag c b m c' :
  event_at c' (set_objs (alter (set_isWriting b) c (objs m)) m) = event_at c' m.
Proof. rewrite event_alter. case_decide; [|done]. subst. unfold event_at. by destruct (objs m !! c'). Qed.

Lemma NeedInQueue_cases d c m b m' :
  NeedInQueue d c m = (Ok b, m') →
  ∃ o, objs m !! c = Some o ∧
    ((b = true ∧ busy d o = false ∧
      m' = set_objs (alter (match d with Read => set_isReading true | Write => set_isWriting true end)
             c (objs m)) m) ∨
     (b = false ∧ m' = m ∧ (d = Read → ReadEventHappend o = true → isReading o = true))).
Proof.
  destruct d; simpl; unfold NeedInQueueRead, NeedInQueueWrite, deref; run_m;
    destruct (objs m !! c) as [o|] eqn:E; try done; simpl; intros Hx; exists o; (split; [done|]).
  - destruct (ReadEventHappend o), (isReading o) eqn:Eb; simplify_eq/=; first [left; by split_and! | right; by split_and!].
  - destruct (_ || _), (isWriting o) eqn:Eb; simplify_eq/=; first [left; by split_and! | right; by split_and!].
Qed.

Lemma NeedReInQueue_cases d c m r m' :
  NeedReInQueue d c m = (r, m') →
  match objs m !! c with
  | None => r = Undef
  | Some o =>
      if busy d o then
        (r = Ok true ∧ m' = m) ∨
        (r = Ok false ∧ (d = Read → ReadEventHappend o = false) ∧
         m' = set_objs (alter (match d with Read => set_isReading false | Write => set_isWriting false end)
                c (objs m)) m)
      else r = Throw RuntimeError
  end.
Proof.
  destruct d; simpl; unfold NeedReInQueueRead, NeedReInQueueWrite, deref; run_m;
    destruct (objs m !! c) as [o|] eqn:E; simpl; try (by intros [= <- <-]).
  - destruct (isReading o), (ReadEventHappend o); simpl; intros; simplify_eq; auto.
  - destruct (isWriting o); simpl; [|by intros [= <- <-]].
    destruct (_ || _); intros; simplify_eq; auto. right. by split_and!.
Qed.

Lemma flag_busy (b : bool) d c d' c' m o :
  objs m !! c = Some o →
  busy_at d' c' (set_objs (alter (match d with Read => set_isReading b | Write => set_isWriting b end)
    c (objs m)) m) =
  if decide (d' = d ∧ c' = c) then Nat.b2n b else busy_at d' c' m.
Proof.
  intros Ho. rewrite busy_alter, Ho. unfold busy_at.
  destruct (decide (c = c')) as [->|Hc].
  - destruct d, d'; simpl; rewrite ?Ho; try case_decide; naive_solver.
  - rewrite decide_False; [done|naive_solver].
Qed.

Lemma event_flag (b : bool) d c c' m :
  event_at c' (set_objs (alter (match d with Read => set_isReading b | Write => set_isWriting b end)
    c (objs m)) m) = event_at c' m.
Proof. destruct d; [apply event_read_flag|apply event_write_flag]. Qed.

Lemma need_ok d c k l m m' :
  ordered (INeedInQueue d c :: k) → exec (INeedInQueue d c) m = (Ok l, m') →
  step_ok (INeedInQueue d c) k l m m'.
Proof.
  intros [_ Ho] Hx. simpl in Hx. apply bind_inv_ok in Hx as (b & m1 & Hb & [= <- <-]).
  apply NeedInQueue_cases in Hb as (o & Hob & [(-> & Hbusy & ->)|(-> & -> & Hev)]).
  - split.
    + intros d' c'. rewrite (flag_busy true d c d' c' m o Hob).
      assert (queued d' c' (set_objs (alter (match d with Read => set_isReading true
        | Write => set_isWriting true end) c (objs m)) m) = queued d' c' m) as -> by by destruct d'.
      unfold tokens. simpl. destruct (decide (d' = d ∧ c' = c)) as [[-> ->]|Hn].
      * rewrite bool_decide_true by done. unfold busy_at. rewrite Hob, Hbusy. simpl. lia.
      * rewrite bool_decide_false by naive_solver. simpl. lia.
    + intros c'. rewrite event_flag, (flag_busy true d c _ _ m o Hob). intros He.
      destruct (decide (Read = d ∧ c' = c)) as [[<- ->]|Hn]; [by left|].
      right. right. split_and!; [done|naive_solver|done].
    + by destruct d.
    + intros d' Hd. right. right. split_and!; [by destruct d'|by destruct d'|by intros Ha].
    + intros d'. right. right. by intros Ha.
    + simpl. split; [left; set_solver|]. by split.
  - split.
    + intros d' c'. unfold tokens. simpl. lia.
    + intros c' He. destruct (decide (d = Read ∧ c' = c)) as [[-> ->]|Hn].
      * left. unfold busy_at, event_at in *. rewrite Hob in *. simpl. by rewrite Hev.
      * right. right. split_and!; [done|naive_solver|done].
    + done.
    + intros d' Hd. right. right. split_and!; [done|done|by intros Ha].
    + intros d'. right. right. by intros Ha.
    + done.
Qed.

Lemma requeue_ok d c k l m m' :
  ordered (INeedReInQueue d c :: k) → exec (INeedReInQueue d c) m = (Ok l, m') →
  step_ok (INeedReInQueue d c) k l m m'.
Proof.
  intros [Hf Ho] Hx. simpl in Hx, Hf. apply bind_inv_ok in Hx as (b & m1 & Hb & [= <- <-]).
  apply NeedReInQueue_cases in Hb. destruct (objs m !! c) as [o|] eqn:Hob; [|done].
  destruct (busy d o) eqn:Hbusy; [|done].
  destruct Hb as [[[= ->] ->]|([= ->] & Hev & ->)].
  - split; try done.
    + intros d' c'. unfold tokens. simpl. lia.
    + intros c' He. right. by right.
    + intros d' Hd. right. right. split_and!; [done|done|by intros Ha].
    + intros d'. right. right. by intros Ha.
    + simpl. split; [by right|done].
  - split.
    + intros d' c'. rewrite (flag_busy false d c d' c' m o Hob).
      assert (queued d' c' (set_objs (alter (match d with Read => set_isReading false
        | Write => set_isWriting false end) c (objs m)) m) = queued d' c' m) as -> by by destruct d'.
      unfold tokens. simpl. destruct (decide (d' = d ∧ c' = c)) as [[-> ->]|Hn].
      * rewrite bool_decide_true by done. unfold busy_at. rewrite Hob, Hbusy. simpl. lia.
      * rewrite bool_decide_false by naive_solver. simpl. lia.
    + intros c'. rewrite event_flag, (flag_busy false d c _ _ m o Hob). intros He.
      destruct (decide (Read = d ∧ c' = c)) as [[<- ->]|Hn]; [|right; right; by split_and!].
      unfold event_at in He. rewrite Hob in He. by rewrite Hev in He.
    + by destruct d.
    + intros d' Hd. right. right. split_and!; [by destruct d'|by destruct d'|by intros Ha].
    + intros d'. right. right. by intros Ha.
    + done.
Qed.

(** The loops, the queue and the notifier leave the connections alone. *)
Lemma queued_app d c m c' d' :
  queued d c (set_queue d' (queue d' m ++ [c']) m) =
  queued d c m + Nat.b2n (bool_decide (d' = d ∧ c' = c)).
Proof.
  unfold queued. destruct (decide (d' = d)) as [->|Hd].
  - assert (queue d (set_queue d (queue d m ++ [c']) m) = queue d m ++ [c']) as -> by by destruct d.
    rewrite sum_list_with_app. simpl. rewrite Nat.add_0_r. f_equal. f_equal.
    apply bool_decide_ext. naive_solver.
  - assert (queue d (set_queue d' (queue d' m ++ [c']) m) = queue d m) as -> by by destruct d, d'.
    rewrite (bool_decide_false (d' = d ∧ _)) by naive_solver. simpl. lia.
Qed.

Lemma inqueue_ok d c k m :
  ordered (IInQueue d c :: k) →
  step_ok (IInQueue d c) k [] m (set_queue d (queue d m ++ [c]) m).
Proof.
  intros [Hf Ho]. simpl in Hf. split; try by destruct d.
  - intros d' c'. rewrite queued_app.
    assert (busy_at d' c' (set_queue d (queue d m ++ [c]) m) = busy_at d' c' m) as -> by by destruct d.
    unfold tokens. simpl. lia.
  - intros c'. destruct d; intros He; right; by right.
  - intros d' Hd. destruct (decide (d' = d)) as [->|Hn].
    + right. left. destruct Hf as [Hf|Hf]; [exists (ISet d)|exists (IInner d)]; done.
    + right. right. destruct d, d'; try done; split_and!; try done; by intros Ha.
  - intros d'. right. right. by intros Ha.
Qed.

Lemma set_ok d k m : ordered (ISet d :: k) → step_ok (ISet d) k [] m (set_signaled d true m).
Proof.
  intros [_ Ho]. split; try by destruct d.
  - intros c' He. right. right. split_and!; [by destruct d|done|by destruct d].
  - intros d' Hd. destruct (decide (d' = d)) as [->|Hn]; [left; by destruct d|].
    right. right. destruct d, d'; try done; split_and!; try done; by intros Ha.
  - intros d'. right. right. by intros Ha.
Qed.

(** A step that only replaces the loop instruction of side [d]. *)
Lemma loop_ok i d l b m :
  looping d i → ordered l → Forall (λ j, ∀ d' c', token d' c' j = 0) l →
  (closed m = true ∨ ∃ j, j ∈ l ∧ looping d j) →
  (queue d m ≠ [] ∨ closed m = true → (∃ j, j ∈ l ∧ awake d (closed m) j) ∨
     b = signaled d m ∧ ¬ awake d (closed m) i) →
  step_ok i [] l m (set_signaled d b m).
Proof.
  intros Hl Ho Ht Hlo Ha.
  assert (Htok : ∀ d' c', tokens d' c' l = 0).
  { intros d' c'. apply sum_list_with_0. by eapply Forall_impl; [exact Ht|]. }
  assert (Hi : ∀ d' c', token d' c' i = 0) by (intros; by destruct i).
  assert (Hcl : closed (set_signaled d b m) = closed m) by by destruct d.
  assert (Hqu : ∀ d', queue d' (set_signaled d b m) = queue d' m) by by intros []; destruct d.
  split; rewrite ?Hcl.
  - intros d' c'. rewrite Hi, Htok. unfold queued. rewrite Hqu. by destruct d.
  - intros c' He. right. right. split_and!; [by destruct d|by intros ->|by destruct d].
  - done.
  - intros d'. rewrite Hqu. intros Hd. rewrite app_nil_r. right.
    destruct (decide (d' = d)) as [->|Hn].
    + destruct (Ha Hd) as [?|[-> H2]]; [by left|]. right. split_and!; [done|by destruct d|done].
    + right. split_and!; [done|by destruct d, d'|]. by destruct i; simpl in *; naive_solver.
  - intros d'. destruct (decide (d' = d)) as [->|Hn].
    + destruct Hlo; auto.
    + right. right. intros Hl'. destruct i; simpl in *; congruence.
  - by rewrite app_nil_r.
Qed.

Lemma same_signal d m : set_signaled d (signaled d m) m = m.
Proof. by destruct m, d. Qed.

Lemma loop_ok_same i d l m :
  looping d i → ordered l → Forall (λ j, ∀ d' c', token d' c' j = 0) l →
  (closed m = true ∨ ∃ j, j ∈ l ∧ looping d j) →
  (queue d m ≠ [] ∨ closed m = true → (∃ j, j ∈ l ∧ awake d (closed m) j) ∨
     ¬ awake d (closed m) i) →
  step_ok i [] l m m.
Proof.
  intros Hl Ho Ht Hlo Ha. pose proof (loop_ok i d l (signaled d m) m Hl Ho Ht Hlo) as Hok.
  rewrite same_signal in Hok. apply Hok. intros Hd. destruct (Ha Hd); auto.
Qed.

Ltac here := eexists; split; [apply list_elem_of_here|]; done.

Lemma outer_ok d m l m' :
  exec (IOuter d) m = (Ok l, m') → step_ok (IOuter d) [] l m m'.
Proof.
  intros Hx. simpl in Hx. unfold Process_outer in Hx. run_m. injection Hx as <- <-.
  apply (loop_ok_same _ d); destruct (closed m) eqn:E; try done; simpl.
  - by repeat constructor.
  - by repeat constructor.
  - by left.
  - right. here.
  - intros _. left. here.
  - intros _. right. by intros [].
Qed.

Lemma inner_ok d m l m' :
  exec (IInner d) m = (Ok l, m') → step_ok (IInner d) [] l m m'.
Proof.
  intros Hx. simpl in Hx. unfold Process_inner in Hx. run_m. injection Hx as <- <-.
  apply (loop_ok_same _ d); destruct (closed m) eqn:E; try done; simpl;
    try (by repeat constructor); try (right; here); intros _; left; here.
Qed.

Lemma wait_ok d m : step_ok (IWait d) [] [IInner d] m (set_signaled d false m).
Proof.
  apply loop_ok; try done; try (by repeat constructor); [right; here|]. intros _. left. here.
Qed.

Lemma serve_inert d c : ∃ l, serve (W := W) d c ++ [INeedReInQueue d c; IInner d] =
  l ++ [INeedReInQueue d c; IInner d] ∧ (∀ d' c', tokens d' c' l = 0) ∧
  ordered (l ++ [INeedReInQueue d c; IInner d]).
Proof.
  exists (serve d c). split; [done|]. split; [by destruct d|].
  destruct d; simpl; split_and!; try done; set_solver.
Qed.

Lemma dequeue_ok d m l m' :
  exec (IDeQueue d) m = (Ok l, m') → step_ok (IDeQueue d) [] l m m'.
Proof.
  intros Hx. simpl in Hx. unfold Process_dequeue, ConnectionQueue_DeQueue in Hx. run_m.
  destruct (queue d m) as [|c q] eqn:Hq; injection Hx as <- <-.
  - apply (loop_ok_same _ d); try done; try (by repeat constructor).
    + right. here.
    + intros [?|Hc]; [done|]. left. eexists. split; [apply list_elem_of_here|]. done.
  - destruct (serve_inert d c) as (l' & -> & Hl' & Ho). split; try by destruct d.
    + intros d' c'. rewrite tokens_app, Hl'. unfold queued, tokens. simpl.
      assert (busy_at d' c' (set_queue d q m) = busy_at d' c' m) as -> by by destruct d.
      destruct (decide (d' = d)) as [->|Hn].
      * rewrite Hq. assert (queue d (set_queue d q m) = q) as -> by by destruct d. simpl.
        rewrite (bool_decide_ext (d = d ∧ c = c') (c = c')) by naive_solver. lia.
      * rewrite bool_decide_false by naive_solver.
        assert (queue d' (set_queue d q m) = queue d' m) as -> by by destruct d, d'. simpl. lia.
    + intros c' He. right. right. split_and!; [by destruct d|done|by destruct d].
    + intros d' Hd. destruct (decide (d' = d)) as [->|Hn].
      * right. left. exists (IInner d). split; [set_solver|done].
      * right. right. split_and!; [by destruct d, d'|by destruct d, d'|by intros ?].
    + intros d'. destruct (decide (d' = d)) as [->|Hn]; right; [left|right].
      * exists (IInner d). split; [set_solver|done].
      * simpl. congruence.
    + by rewrite app_nil_r.
Qed.

Lemma close_ok k l m m' :
  ordered (IManagerClose :: k) → exec IManagerClose m = (Ok l, m') →
  step_ok IManagerClose k l m m'.
Proof.
  intros [_ Ho] Hx. simpl in Hx. unfold ConnectionManager_Close in Hx. run_m.
  destruct (closed m) eqn:E; injection Hx as <- <-.
  - split; try done.
    + intros c' He. right. by right.
    + intros d' Hd. right. right. split_and!; [done|done|by intros ?].
    + intros d'. by left.
  - split; try done.
    + intros c' He. right. by right.
    + intros d' _. right. left. exists (ISet d'). split; [destruct d'; set_solver|done].
    + intros d'. by left.
Qed.

(** Every instruction. *)
Lemma exec_ok s t i k l m' :
  sys_inv s → threads s !! t = Some (i :: k) → exec i (mgr s) = (Ok l, m') →
  step_ok i k l (mgr s) m'.
Proof.
  intros Hi Ht Hx.
  assert (Ho : ordered (i :: k)) by (eapply (Forall_lookup_1 _ _ _ _ (inv_ordered s Hi) Ht)).
  destruct (quiet i) eqn:Hq.
  { pose proof (exec_quiet i Hq _ _ _ Hx) as [Hs Hl]. by apply quiet_ok; auto. }
  assert (Hk : (∃ d, looping d i) → k = []) by (intros [d Hd]; by destruct i; simpl in Hd; try done; apply Ho).
  destruct i; try discriminate Hq; try (rewrite Hk by (by eexists)).
  - injection Hx as <- <-. eapply event_ok; [done|by repeat constructor|by intros []|].
    right. split; [exists 0%Z; by left|set_solver].
  - injection Hx as <- <-. eapply event_ok; [done|by repeat constructor|by intros []|].
    right. split; [eexists; by right|set_solver].
  - by apply close_ok.
  - by apply need_ok.
  - injection Hx as <- <-. by apply inqueue_ok.
  - injection Hx as <- <-. by apply set_ok.
  - by apply outer_ok.
  - injection Hx as <- <-. by apply wait_ok.
  - by apply inner_ok.
  - by apply dequeue_ok.
  - by apply requeue_ok.
  - injection Hx as <- <-. eapply event_ok; [done|by repeat constructor|by intros []|].
    left. split; [done|]. destruct Ho as [Hf _].
    eapply (token_busy Read c s t); [done|exact Ht|apply list_elem_of_further, Hf|].
    simpl. by rewrite bool_decide_true.
Qed.

(** ** Reachable systems *)

#[local] Abbreviation sys_trans := (sys_trans h0 fuel).

Lemma init_inv closed0 w acts n :
  0 < n → sys_inv (sys_init closed0 w acts n : Sys H W).
Proof.
  intros Hn. destruct n as [|n]; [lia|].
  assert (Hw : ∀ d (P : instr W → Prop), P (IOuter d) →
    some_thread P (sys_init closed0 w acts (S n) : Sys H W)).
  { intros [] P HP; [exists 1|exists 2]; by eexists _, _; split_and!; [reflexivity|by left|]. }
  assert (Ht : ∀ d c, tokens d c (server_thread acts) = 0).
  { intros d c. apply sum_list_with_0. unfold server_thread. rewrite Forall_app.
    split; [|by repeat constructor]. apply Forall_forall. by intros i (a & -> & _)%list_elem_of_fmap. }
  assert (Hc : ∀ d c, sum_list_with (tokens d c)
    (concat (replicate (S n) [[IOuter Read]; [IOuter Write]]) : list (list (instr W))) = 0).
  { intros d c. apply sum_list_with_0, Forall_concat, Forall_replicate. by repeat constructor. }
  split.
  - intros d c. unfold sys_init. cbn [threads mgr sum_list_with]. rewrite Ht, Hc. by destruct d.
  - intros c. done.
  - intros d [Hd|Hd]; [by destruct d|]. right. by apply (Hw d).
  - intros d. right. by apply (Hw d).
  - unfold sys_init. cbn [threads]. apply Forall_cons. split.
    + unfold server_thread. apply ordered_inert; [|done].
      apply Forall_forall. by intros i (a & -> & _)%list_elem_of_fmap.
    + apply Forall_concat, Forall_replicate. by repeat constructor.
Qed.

Lemma step_inv s s' :
  (stopped s = None → sys_inv s) → sys_trans s s' → stopped s' = None → sys_inv s'.
Proof.
  intros Hi [t Hs] Hst. unfold sys_step in Hs. destruct (stopped s) eqn:E; [done|].
  destruct (threads s !! t) as [[|i k]|] eqn:Ht; try done.
  destruct (enabled i (mgr s)); [|done].
  destruct (exec i (mgr s)) as [[l|e| |] m'] eqn:Hx; simplify_eq; try done.
  eapply step_ok_inv; [by apply Hi|exact Ht|]. by eapply exec_ok; [apply Hi| |].
Qed.

Lemma reachable_inv closed0 w acts n s :
  0 < n → reachable h0 fuel closed0 w acts n s → stopped s = None → sys_inv s.
Proof.
  intros Hn Hr. apply (rtc_invariant sys_trans (λ s, stopped s = None → sys_inv s) _ _ step_inv
    (λ _, init_inv closed0 w acts n Hn) Hr).
Qed.



(** ** Properties *)

(** A thread that has taken the connection and not given it back. *)
Definition serves (d : side) (c : nat) code : Prop := INeedReInQueue d c ∈ code.

(** An instruction that will queue the connection for reading, or look at it again. *)
Definition will_examine (c : nat) i : Prop :=
  i = IInQueue Read c ∨ i = INeedReInQueue Read c ∨ i = INeedInQueue Read c.

(** C3: however the threads interleave, at most one thread at a time reads from a connection
    and at most one writes to it, and a connection that is being served is not in the queue of
    that side. *)
Theorem one_thread_per_side closed0 w acts n s d c t t' code code' :
  0 < n → reachable h0 fuel closed0 w acts n s → stopped s = None →
  threads s !! t = Some code → threads s !! t' = Some code' →
  serves d c code →
  (c ∉ queue d (mgr s)) ∧ (t ≠ t' → ¬ serves d c code').
Proof.
  intros Hn Hr Hst Ht Ht' Hin. pose proof (reachable_inv _ _ _ _ _ Hn Hr Hst) as Hi.
  pose proof (inv_tokens s Hi d c) as Htok. pose proof (busy_at_le d c (mgr s)).
  pose proof (tokens_elem d c _ _ Hin) as H1. simpl in H1. rewrite bool_decide_true in H1 by done.
  simpl in H1. split.
  - intros Hq. apply (sum_list_with_ge (tokens d c)) in Ht.
    apply list_elem_of_lookup in Hq as [j Hj].
    apply (sum_list_with_ge (λ c', Nat.b2n (bool_decide (c' = c)))) in Hj.
    rewrite bool_decide_true in Hj by done. simpl in Hj. unfold queued in Htok. lia.
  - intros Hne Hin'. pose proof (tokens_elem d c _ _ Hin') as H2. simpl in H2.
    rewrite bool_decide_true in H2 by done. simpl in H2.
    pose proof (sum_list_with_ge2 (tokens d c) _ _ _ _ _ Hne Ht Ht'). lia.
Qed.

(** C7: the exception of NeedReInQueueRead and NeedReInQueueWrite is unreachable: a thread
    that comes to the test finds its connection alive and marked as being served. *)
Theorem requeue_never_throws closed0 w acts n s d c t k :
  0 < n → reachable h0 fuel closed0 w acts n s → stopped s = None →
  threads s !! t = Some (INeedReInQueue d c :: k) →
  ∃ o b, objs (mgr s) !! c = Some o ∧ busy d o = true ∧ (NeedReInQueue d c (mgr s)).1 = Ok b.
Proof.
  intros Hn Hr Hst Ht. pose proof (reachable_inv _ _ _ _ _ Hn Hr Hst) as Hi.
  assert (Hb : busy_at d c (mgr s) = 1).
  { eapply token_busy; [exact Hi|exact Ht|by apply list_elem_of_here|]. simpl.
    by rewrite bool_decide_true. }
  destruct (NeedReInQueue d c (mgr s)) as [r m'] eqn:E. apply NeedReInQueue_cases in E.
  unfold busy_at in Hb. destruct (objs (mgr s) !! c) as [o|] eqn:Ho; [|done].
  destruct (busy d o) eqn:Hbo; [|done]. simpl. destruct E as [[-> _]|[-> _]]; eauto.
Qed.

(** C6: no read event is lost: in every reachable state, a connection with an event not
    consumed (readable, or an error) is in the read queue or being read, or a thread is about
    to examine it. *)
Theorem read_event_not_lost closed0 w acts n s c o :
  0 < n → reachable h0 fuel closed0 w acts n s → stopped s = None →
  objs (mgr s) !! c = Some o → ReadEventHappend o = true →
  (c ∈ queue Read (mgr s)) ∨
  ∃ t code i, threads s !! t = Some code ∧ i ∈ code ∧ will_examine c i.
Proof.
  intros Hn Hr Hst Ho He. pose proof (reachable_inv _ _ _ _ _ Hn Hr Hst) as Hi.
  assert (Hev : event_at c (mgr s) = true) by (unfold event_at; by rewrite Ho).
  apply (inv_events s Hi) in Hev as [Hb|(t & code & i & Ht & Hin & ->)]; [|by right; exists t, code, (INeedInQueue Read c); unfold will_examine; auto].
  pose proof (inv_tokens s Hi Read c) as Htok. rewrite Hb in Htok.
  destruct (decide (c ∈ queue Read (mgr s))) as [|Hq]; [by left|]. right.
  assert (Hq0 : queued Read c (mgr s) = 0).
  { apply sum_list_with_0, Forall_forall. intros c' Hc'. rewrite bool_decide_false; [done|].
    by intros ->. }
  destruct (decide (Exists (λ code, tokens Read c code ≠ 0) (threads s))) as [Hex|Hex].
  - apply Exists_exists in Hex as (code & [t Ht]%list_elem_of_lookup & Hne).
    destruct (decide (Exists (λ i, token Read c i ≠ 0) code)) as [Hex2|Hex2].
    + apply Exists_exists in Hex2 as (i & Hin & Hi0). exists t, code, i. split_and!; [done..|].
      unfold will_examine.
      destruct i as [| | | | | | |d' c'| | | | | |d' c'| | | | | | | | | | | | | | | | | | | | | |];
        try done; simpl in Hi0; destruct (decide (d' = Read ∧ c' = c)) as [[-> ->]|Hn'];
        try rewrite bool_decide_false in Hi0 by done; auto; done.
    + exfalso. apply Hne, sum_list_with_0, Forall_forall. intros i Hin.
      destruct (decide (token Read c i = 0)) as [|Hi0]; [done|]. exfalso. apply Hex2, Exists_exists. eauto.
  - exfalso. rewrite Hq0 in Htok.
    assert (sum_list_with (tokens Read c) (threads s) = 0); [|lia].
    apply sum_list_with_0, Forall_forall. intros code Hin.
    destruct (decide (tokens Read c code = 0)) as [|Hi0]; [done|]. exfalso. apply Hex, Exists_exists. eauto.
Qed.

End invariant.
