(* ===== verification/SimpleHttp.v ===== *)
(** * The program: simple_http/http_server/src/main.cpp

    The server, the connection manager and the HTTP request handler put together: the
    server's thread processes the events [epoll_wait] delivers, one socket-map access at
    a time, while the reader and writer threads close connections.  [run] executes a
    schedule; the theorems at the end are executions the code allows. *)

From S2P Require Import Prelude CppString Posix RefKernel HttpRequest HttpHandler SocketHandler Server ConnectionManager ConnectionInvariant.

Section program.
  Context {K : Type} `{!Kernel K}.

(** What a step of the server adds to the trace is what it reports. *)
Definition collect (m : M (World K) unit) : M (World K) (list report) :=
  n ← gets (λ w, length (reports w)); m;; gets (λ w, drop n (reports w)).

(** [Server::ProcessEvent], cut where another thread can run. *)
Definition event_actions (fd mask : Z) : list (M (World K) (list report)) :=
  [ collect (exist ← SocketMap_Count fd; if (exist : bool) then mret tt else throw RuntimeError);
    collect (when (has_flag mask EPOLLIN) (id ← SocketMap_GetValue fd; emit (reportCanRead id)));
    collect (when (has_flag mask EPOLLOUT) (id ← SocketMap_GetValue fd; emit (reportCanWrite id)));
    collect (when (has_flag mask EPOLLERR)
      (id ← SocketMap_GetValue fd; emit (reportErrorOccurred id))) ].

(** The events of one turn, and the release at the end. *)
Definition turn_actions (lfd : Z) (evs : list (Z * Z)) : list (M (World K) (list report)) :=
  e ← evs; if (e.1 =? lfd)%Z then [collect Server_ProcessNewConnection] else event_actions e.1 e.2.

Definition release_actions : list (M (World K) (list report)) :=
  [ collect (ids ← SocketMap_GetValues; for_each (λ id, emit (reportTimeToExit id)) ids);
    collect (w ← get; Epoll_Delete (listenFd w);; w ← get; Server_CloseFd (listenFd w)) ].

Definition run_actions (l : list (M (World K) (list report))) : M (World K) unit :=
  for_each (λ m, m;; mret tt) l.
End program.

(** The server has opened its sockets; descriptor 5 is the next to be accepted. *)
Definition ready_world (input : list bytes) (room : nat) : World ref_kernel :=
  mkWorld (mkRef {[3%Z; 4%Z]} {[4%Z]} {[5%Z := input]} {[5%Z := room]} ∅
             [(16777343%Z, 47873%Z)] [])
    3 10 4 ∅ 0 [].

Definition http_system (input : list bytes) (room : nat) (batches : list (list (Z * Z)))
    (release : bool) : Sys HttpRequestHandler (World ref_kernel) :=
  sys_init false (ready_world input room)
    ((batches ≫= turn_actions 4) ++ (if release then release_actions else [])) 2.

Definition run (sch : list (nat * nat)) (s : Sys HttpRequestHandler (World ref_kernel)) :=
  run_schedule HttpRequestHandler_new 10 sch s.


(** ** The server's actions are the server's functions *)

Section actions.
  Context {K : Type} `{!Kernel K, !KernelLaws K}.
  Implicit Types w : World K.

Lemma run_collect (m : M (World K) unit) l w :
  run_actions (collect m :: l) w = (m;; run_actions l) w.
Proof.
  unfold run_actions, collect. simpl. unfold mbind, M_bind, gets, mret, M_ret.
  by destruct (m w) as [[[]|e| |] w'].
Qed.

Lemma event_actions_eq fd mask w :
  run_actions (event_actions fd mask) w = Server_ProcessEvent fd mask w.
Proof.
  unfold event_actions. rewrite run_collect. unfold mbind, M_bind, SocketMap_Count, gets. simpl.
  rewrite ProcessEvent_eq. destruct (sockets w !! fd) as [id|] eqn:E.
  - rewrite bool_decide_true by eauto. simpl.
    rewrite run_collect. erewrite bind_ok by (apply (report_step _ fd id w (reportCanRead id) reportCanRead E)).
    rewrite run_collect. erewrite bind_ok by (apply (report_step _ fd id _ (reportCanWrite id) reportCanWrite); exact E).
    rewrite run_collect. erewrite bind_ok by (apply (report_step _ fd id _ (reportErrorOccurred id) reportErrorOccurred); exact E).
    unfold run_actions, event_reports, set_reports. simpl. by rewrite <- !app_assoc.
  - rewrite bool_decide_false by (intros [? ?]; done). done.
Qed.

(** When no other thread runs in between, the actions the server's thread is cut into
    are, event after event, what [ProcessEvents] does, exceptions included. *)
Lemma turn_actions_sequential evs w :
  run_actions (turn_actions (listenFd w) evs) w = Server_ProcessEvents evs w.
Proof.
  unfold Server_ProcessEvents, turn_actions.
  assert (Hgen : ∀ l w, listenFd w = l →
    run_actions (evs ≫= λ e : Z * Z,
      if (e.1 =? l)%Z then [collect Server_ProcessNewConnection] else event_actions e.1 e.2) w =
    for_each (λ e : Z * Z, w ← get;
      if (e.1 =? listenFd w)%Z then Server_ProcessNewConnection
      else Server_ProcessEvent e.1 e.2) evs w); [|by apply Hgen].
  clear w. induction evs as [|e evs IH]; intros l w Hl; [done|].
  change (e :: evs) with ([e] ++ evs). rewrite bind_app. unfold run_actions.
  rewrite !for_each_app. apply bind_ext.
  - cbn [mbind list_bind for_each]. rewrite app_nil_r. unfold mbind at 2, M_bind at 2, get.
    unfold mbind at 2, M_bind at 2. rewrite Hl. destruct (e.1 =? l)%Z.
    + pose proof (run_collect Server_ProcessNewConnection [] w) as Hc. exact Hc.
    + pose proof (event_actions_eq e.1 e.2 w) as Hc. unfold run_actions in Hc. rewrite Hc.
      by destruct (Server_ProcessEvent e.1 e.2 w) as [[[]| | |] ?].
  - intros [] w1 Hw1. apply IH. rewrite <- Hl.
    by apply (ProcessEvents_setup (listenFd w) (eventCount w) [e] w (Ok tt) w1).
Qed.
End actions.

(** ** Executions *)

Lemma run_thread_rtc t n s :
  rtc (sys_trans HttpRequestHandler_new 10) s (run_thread HttpRequestHandler_new 10 t n s).
Proof.
  revert s. induction n as [|n IH]; intros s; [done|]. simpl.
  destruct (sys_step HttpRequestHandler_new 10 t s) as [s'|] eqn:E; [|done].
  eapply rtc_l; [by exists t|apply IH].
Qed.

Lemma run_rtc sch s : rtc (sys_trans HttpRequestHandler_new 10) s (run sch s).
Proof.
  revert s. induction sch as [|[t n] sch IH]; intros s; [done|].
  etrans; [apply (run_thread_rtc t n)|apply IH].
Qed.

(** A client connects and sends the sample request; then the connection is readable and
    writable. *)
Definition exchange (room : nat) : Sys HttpRequestHandler (World ref_kernel) :=
  http_system [serialize sample_request] room [[(4, EPOLLIN)]; [(5, EPOLLIN + EPOLLOUT)]]%Z false.

Definition bytes_sent (s : Sys HttpRequestHandler (World ref_kernel)) : bytes :=
  default [] (rk_sent (kern (world (mgr s))) !! 5%Z).

(** What is left when a connection has been served: no socket, no entry, nothing queued. *)
Definition all_clean (s : Sys HttpRequestHandler (World ref_kernel)) : bool :=
  bool_decide (stopped s = None ∧ sockets (world (mgr s)) = ∅ ∧ connectionMap (mgr s) = ∅ ∧
    readQueue (mgr s) = [] ∧ writeQueue (mgr s) = [] ∧
    rk_fds (kern (world (mgr s))) = {[3%Z; 4%Z]}).

(** Some execution serves the request: the reply is sent, the connection is closed once, its entries are gone, and
    after [Close] every thread comes to its end. *)
Example exchange_can_be_served :
  ∃ s, rtc (sys_trans HttpRequestHandler_new 10) (exchange 1000) s ∧
    bytes_sent s = response_text ∧ all_clean s = true ∧
    Forall (λ code, length code = 0) (threads s).
Proof.
  exists (run [(0, 14); (1, 100); (2, 100); (0, 100); (1, 100); (2, 100); (3, 100); (4, 100)]
            (exchange 1000)).
  split; [apply run_rtc|]. split; [vm_compute; reflexivity|]. split; [vm_compute; reflexivity|].
  decide_closed.
Qed.

(** C8: on an ordinary request some interleaving ends the process: the writer, whose last
    bytes are out, finds the handler idle and closes the connection; so does the reader,
    which was preempted before its own test, and the second close throws on a detached
    thread. *)
Theorem reader_and_writer_both_close :
  ∃ s k, rtc (sys_trans HttpRequestHandler_new 10) (exchange 1000) s ∧
    bytes_sent s = response_text ∧ stopped s = Some (1, Throw RuntimeError) ∧
    threads s !! 1 = Some (ISocketClose 0 :: k).
Proof.
  exists (run [(0, 14); (1, 17); (2, 100); (1, 100)] (exchange 1000)).
  eexists. split; [apply run_rtc|]. split; [vm_compute; reflexivity|].
  split; vm_compute; reflexivity.
Qed.

(** A reply the socket takes only in part is never finished: the rest stays in the
    connection, and when the socket becomes writable again the connection is not queued, since
    only new text of the handler counts as content to write. *)
Theorem partial_write_stalls :
  ∃ s o, rtc (sys_trans HttpRequestHandler_new 10)
      (http_system [serialize sample_request] 3
         [[(4, EPOLLIN)]; [(5, EPOLLIN + EPOLLOUT)]; [(5, EPOLLOUT)]]%Z false) s ∧
    stopped s = None ∧ objs (mgr s) !! 0 = Some o ∧
    bytes_sent s = take 3 response_text ∧ response o = drop 3 response_text ∧
    isWritable o = 1%Z ∧ writeQueue (mgr s) = [] ∧
    (∀ t, t ≠ 0 → sys_step HttpRequestHandler_new 10 t s = None) ∧
    length <$> threads s !! 0 = Some 1.
Proof.
  set (s := run [(3, 5); (4, 5); (0, 14); (1, 100); (2, 100); (0, 7); (1, 100); (2, 100)]
    (http_system [serialize sample_request] 3
       [[(4, EPOLLIN)]; [(5, EPOLLIN + EPOLLOUT)]; [(5, EPOLLOUT)]]%Z false)).
  exists s. eexists. split; [apply run_rtc|].
  split; [vm_compute; reflexivity|]. split; [vm_compute; reflexivity|].
  split; [vm_compute; reflexivity|]. split; [vm_compute; reflexivity|].
  split; [vm_compute; reflexivity|]. split; [vm_compute; reflexivity|].
  split; [|vm_compute; reflexivity].
  intros [|[|[|[|[|t]]]]] Ht; [done| vm_compute; reflexivity..].
Qed.

(** Each of these ends the process from a reader thread: telling an idle connection that
    it is time to exit (the connection is closed, stays in error, and is closed again), an
    EPOLLERR event, and a header line without a colon (the parser's exception is not caught). *)
Theorem reader_ends_process :
  Forall (λ s0, ∃ s, rtc (sys_trans HttpRequestHandler_new 10) s0 s ∧
                     stopped s = Some (1, Throw RuntimeError))
    [http_system [] 1000 [[(4, EPOLLIN)]]%Z true;
     http_system [] 1000 [[(4, EPOLLIN)]; [(5, EPOLLERR)]]%Z false;
     http_system [str "GET / HTTP/1.1" ++ CRLF ++ str "Host" ++ CRLF] 1000
       [[(4, EPOLLIN)]; [(5, EPOLLIN)]]%Z false].
Proof.
  repeat (apply Forall_cons; split); [..|apply Forall_nil_2].
  - eexists. split; [apply (run_rtc [(0, 8); (1, 100)])|]. vm_compute. reflexivity.
  - eexists. split; [apply (run_rtc [(0, 12); (1, 100)])|]. vm_compute. reflexivity.
  - eexists. split; [apply (run_rtc [(0, 11); (1, 100)])|]. vm_compute. reflexivity.
Qed.

(** ** Witnesses for the theorems of ConnectionInvariant.v *)

(** States of the exchange: the reader at work, before its last test, and the end. *)
Definition reader_at (n : nat) : Sys HttpRequestHandler (World ref_kernel) :=
  run [(0, 14); (1, n)] (exchange 1000).


Lemma run_reachable sch room (batches : list (list (Z * Z))) (release : bool) :
  reachable HttpRequestHandler_new 10 false (ready_world [serialize sample_request] room)
    ((batches ≫= turn_actions 4) ++ (if release then release_actions else [])) 2
    (run sch (http_system [serialize sample_request] room batches release)).
Proof. apply run_rtc. Qed.

Lemma one_thread_per_side_witness :
  ∃ code, threads (reader_at 5) !! 1 = Some code ∧ (INeedReInQueue Read 0 ∈ code) ∧
    0 ∉ queue Read (mgr (reader_at 5)).
Proof.
  eexists. split; [vm_compute; reflexivity|].
  assert (Hin : INeedReInQueue (W := World ref_kernel) Read 0 ∈
    [IReadTest 0; INeedReInQueue Read 0; IInner Read]) by set_solver.
  split; [exact Hin|].
  eapply (one_thread_per_side HttpRequestHandler_new 10 false _ _ 2 (reader_at 5) Read 0 1 0);
    [lia|apply (run_reachable _ 1000 _ false)|vm_compute; reflexivity|vm_compute; reflexivity
    |vm_compute; reflexivity|exact Hin].
Defined.

Lemma requeue_never_throws_witness :
  ∃ o b, objs (mgr (reader_at 18)) !! 0 = Some o ∧ busy Read o = true ∧
    (NeedReInQueue Read 0 (mgr (reader_at 18))).1 = Ok b.
Proof.
  eapply (requeue_never_throws HttpRequestHandler_new 10 false _ _ 2 (reader_at 18) Read 0 1);
    [lia|apply (run_reachable _ 1000 _ false)|vm_compute; reflexivity|vm_compute; reflexivity].
Defined.

Lemma read_event_not_lost_witness :
  ∃ o, objs (mgr (reader_at 0)) !! 0 = Some o ∧ ReadEventHappend o = true ∧
  ((0 ∈ queue Read (mgr (reader_at 0))) ∨
   ∃ t code i, threads (reader_at 0) !! t = Some code ∧ i ∈ code ∧ will_examine 0 i).
Proof.
  eexists. split; [vm_compute; reflexivity|]. split; [reflexivity|].
  eapply (read_event_not_lost HttpRequestHandler_new 10 false _ _ 2 (reader_at 0) 0);
    [lia|apply (run_reachable _ 1000 _ false)|vm_compute; reflexivity|vm_compute; reflexivity
    |reflexivity].
Defined.

