(* ===== verification/ServerRace.v ===== *)
(** * The event loop of simple_http among its worker threads

    (simple_http/tcp_server/src/server.cpp with the calls connection.cpp makes from its threads.)
    [Server::Start] as a machine: a turn waits, then makes the accesses [SimpleHttp.turn_actions] cuts the
    events into, one at a time; before every step the worker threads may read, write and close sockets
    through the functions the server gave them. *)

From S2P Require Import Prelude CppString Posix RefKernel SocketHandler Server ConnectionManager SimpleHttp.

Section race.
  Context {K : Type} `{!Kernel K}.

(** What a worker does to the server and the kernel.  An exception would end the process. *)
Inductive worker_step (w : World K) : World K → Prop :=
  | ws_read fuel fd text w' : sk_read fuel fd w = (Ok text, w') → worker_step w w'
  | ws_write fd s rest w' : sk_write fd s w = (Ok rest, w') → worker_step w w'
  | ws_close fd w' : sk_close fd w = (Ok tt, w') → worker_step w w'.

(** Where the loop is, with the values of the exit flag that are still to be read. *)
Inductive control :=
  | AtWait (flags : list bool)
  | InTurn (todo : list (M (World K) (list report))) (isTimeToExit : bool) (flags : list bool)
  | InRelease (todo : list (M (World K) (list report)))
  | Left_ (r : result unit).

(** Where an access leads. *)
Definition after {A} (r : result A) (c : control) : control :=
  match r with Ok _ => c | Throw e => Left_ (Throw e) | Undef => Left_ Undef | OutOfFuel => Left_ OutOfFuel end.

Inductive server_step : control * World K → control * World K → Prop :=
  | ss_worker c w w' : worker_step w w' → server_step (c, w) (c, w')
  | ss_wait isTimeToExit flags w evs w' :
      Epoll_Wait TIMEOUT_MS w = (Ok evs, w') →
      server_step (AtWait (isTimeToExit :: flags), w) (InTurn (turn_actions (listenFd w) evs) isTimeToExit flags, w')
  | ss_wait_fails flags w e w' :
      Epoll_Wait TIMEOUT_MS w = (Throw e, w') → server_step (AtWait flags, w) (Left_ (Throw e), w')
  | ss_act m todo b flags w r w' :
      m w = (r, w') → server_step (InTurn (m :: todo) b flags, w) (after r (InTurn todo b flags), w')
  | ss_again flags w : server_step (InTurn [] false flags, w) (AtWait flags, w)
  | ss_exit flags w : server_step (InTurn [] true flags, w) (InRelease release_actions, w)
  | ss_release m todo w r w' : m w = (r, w') → server_step (InRelease (m :: todo), w) (after r (InRelease todo), w')
  | ss_return w : server_step (InRelease [], w) (Left_ (Ok tt), w).
End race.
Arguments control K : clear implicits.

Section race_lemmas.
  Context {K : Type} `{!Kernel K, !KernelLaws K}.
  Implicit Types w : World K.

(** ** Without workers the machine is [Start] *)

Lemma acts_run l rest b flags w w' :
  run_actions l w = (Ok tt, w') → rtc server_step (InTurn (l ++ rest) b flags, w) (InTurn rest b flags, w').
Proof.
  revert w. induction l as [|m l IH]; intros w; [intros [= <-]; apply rtc_refl|].
  unfold run_actions. cbn [for_each]. intros H.
  apply bind_inv_ok in H as ([] & w1 & H1 & H2). apply bind_inv_ok in H1 as (rs & w2 & H1 & [= <-]).
  eapply rtc_l; [by eapply (ss_act m (l ++ rest) b flags w (Ok rs))|]. by apply IH.
Qed.

Lemma release_reaches l w w' :
  run_actions l w = (Ok tt, w') → rtc server_step (InRelease l, w) (Left_ (Ok tt), w').
Proof.
  revert w. induction l as [|m l IH]; intros w; [intros [= <-]; apply rtc_once, ss_return|].
  unfold run_actions. cbn [for_each]. intros H.
  apply bind_inv_ok in H as ([] & w1 & H1 & H2). apply bind_inv_ok in H1 as (rs & w2 & H1 & [= <-]).
  eapply rtc_l; [by eapply (ss_release m l w (Ok rs))|]. by apply IH.
Qed.

Lemma release_actions_run w w' :
  Server_Release w = (Ok tt, w') → run_actions release_actions w = (Ok tt, w').
Proof.
  intros H. unfold Server_Release in H. apply bind_inv_ok in H as (ids & w1 & H1 & H).
  apply bind_inv_ok in H as ([] & w2 & H2 & H). unfold release_actions. rewrite run_collect.
  rewrite (bind_ok _ _ w tt w2) by (rewrite (bind_ok _ _ _ _ _ H1); exact H2).
  pose proof (run_collect (w ← get; Epoll_Delete (listenFd w);; w ← get; Server_CloseFd (listenFd w)) [] w2) as ->.
  by rewrite (bind_ok _ _ _ _ _ H).
Qed.

(** What the loop returns is what the machine comes to when no worker runs. *)
Lemma loop_is_machine flags w w' :
  Server_loop flags w = (Ok tt, w') → rtc server_step (AtWait flags, w) (Left_ (Ok tt), w').
Proof.
  revert w. induction flags as [|b flags IH]; intros w; [done|]. cbn [Server_loop]. intros H.
  apply bind_inv_ok in H as (evs & w1 & H1 & H). apply bind_inv_ok in H as ([] & w2 & H2 & H).
  assert (listenFd w1 = listenFd w) as Hl.
  { destruct (Epoll_Wait_cases TIMEOUT_MS w) as (r & k' & E & _). rewrite H1 in E. by injection E as _ ->. }
  eapply rtc_l; [by eapply ss_wait|]. rewrite <- Hl.
  assert (Server_ProcessEvents evs w1 = (Ok tt, w2)) as Hev.
  { destruct evs; [exact H2|]. unfold when in H2. by rewrite (proj2 (Z.ltb_lt _ _)) in H2 by (simpl; lia). }
  rewrite <- turn_actions_sequential in Hev. rewrite <- (app_nil_r (turn_actions _ _)). etrans; [by apply acts_run|]. destruct b.
  - eapply rtc_l; [apply ss_exit|]. by apply release_reaches, release_actions_run.
  - eapply rtc_l; [apply ss_again|]. by apply IH.
Qed.

(** ** What no event and no worker takes from the server *)

(** The listening socket is open, and nobody was told to exit. *)
Record up (l : Z) (w : World K) : Prop := {
  up_listen : listenFd w = l;
  up_watched : l ∈ watched (kern w);
  up_apart : sockets w !! l = None;
  up_silent : ∀ id, reportTimeToExit id ∉ reports w
}.

Definition up_control (l : Z) (c : control K) (w : World K) : Prop :=
  match c with
  | AtWait _ => up l w
  | InTurn todo _ _ => up l w ∧ Forall (preserves (up l)) todo
  | _ => True
  end.

Lemma up_kern l k' w : up l w → watched (kern w) ⊆ watched k' → up l (set_kern k' w).
Proof. intros [] Hw. split; simpl; try done. set_solver. Qed.

Lemma up_report l r w : up l w → (∀ id', r ≠ reportTimeToExit id') →
  up l (set_reports (reports w ++ [r]) w).
Proof.
  intros [] Hr. split; simpl; try done. intros id'. rewrite elem_of_app, list_elem_of_singleton.
  intros [H|H]; [by eapply up_silent0|by eapply Hr].
Qed.

Lemma emit_up l (r : report) : (∀ id, r ≠ reportTimeToExit id) → preserves (up l) (emit (K := K) r).
Proof. intros Hr. apply preserves_modify. intros w Hw. by apply up_report. Qed.

Lemma GetValue_up l fd : fd ≠ l → preserves (up l) (SocketMap_GetValue (K := K) fd).
Proof.
  intros Hne. unfold SocketMap_GetValue. preserve. apply preserves_modify. intros w []. split; simpl; try done.
  by rewrite lookup_insert_ne.
Qed.

Lemma collect_up l (m : M (World K) unit) : preserves (up l) m → preserves (up l) (collect m).
Proof. intros Hm. unfold collect. by preserve. Qed.

Lemma event_actions_up l fd mask : fd ≠ l → Forall (preserves (up l)) (event_actions (K := K) fd mask).
Proof.
  intros Hne. unfold event_actions, SocketMap_Count. rewrite !Forall_cons. split_and!; [..|constructor];
    apply collect_up; preserve; by (apply GetValue_up || apply emit_up).
Qed.

(** A call that changes neither the watched descriptors nor, when it fails, anything. *)
Lemma new_connection_up l : preserves (up l) (Server_ProcessNewConnection (K := K)).
Proof.
  intros w r w' Hup. unfold Server_ProcessNewConnection, Server_Accept, call, zoom, syscall, or_throw.
  unfold mbind at 1, M_bind at 1. run_m. rewrite (up_listen l w Hup).
  destruct (sys_accept l (kern w)) as [[e|[[fd addr] p]] k1] eqn:Ea.
  { intros [= _ <-]. apply accept_err in Ea as [_ Hw]. by apply up_kern; [|rewrite Hw]. }
  apply accept_fresh in Ea as (Hfresh & Hf1 & Hw1). simpl.
  assert (up l (set_kern k1 w)) as Hup1 by (apply up_kern; [done|by rewrite Hw1]).
  destruct (lib_inet_ntop addr) as [e|text]; [by intros [= _ <-]|]. simpl.
  assert (fd ≠ l) as Hl by (intros ->; apply Hfresh, watched_open, (up_watched l w Hup)).
  unfold SocketMap_Count, gets. simpl. case_bool_decide; [by intros [= _ <-]|].
  destruct (SetNonBlocking_frame fd (set_kern k1 w)) as (k2 & -> & _ & Hw2).
  simpl in Hw2. unfold Epoll_Add, call, zoom, syscall, or_throw, mbind, M_bind, get. simpl.
  destruct (sys_epoll_ctl_add _ fd _ k2) as [[e|[]] k3] eqn:Ec; simpl; intros [= _ <-].
  - apply ctl_add_err in Ec as [_ Hw3]. change (up l (set_kern k3 w)). apply up_kern; [done|]. by rewrite Hw3, Hw2, Hw1.
  - apply ctl_add_ok in Ec as [_ Hw3]. destruct Hup as [H1 H2 H3 H4]. split; simpl; try done.
    + rewrite Hw3, Hw2, Hw1. set_solver.
    + by rewrite lookup_insert_ne.
    + intros id. rewrite elem_of_app, list_elem_of_singleton. intros [?|?]; [by eapply H4|done].
Qed.

Lemma turn_actions_up l evs : Forall (preserves (up l)) (turn_actions (K := K) l evs).
Proof.
  unfold turn_actions. induction evs as [|e evs IH]; [constructor|]. cbn [mbind list_bind].
  apply Forall_app. split; [|exact IH]. destruct (Z.eqb_spec e.1 l).
  - apply Forall_singleton, collect_up, new_connection_up.
  - by apply event_actions_up.
Qed.

Lemma wait_up l t : preserves (up l) (Epoll_Wait (K := K) t).
Proof.
  intros w r w' Hup H. destruct (Epoll_Wait_cases t w) as (r0 & k' & E & _ & Hw & _).
  rewrite H in E. injection E as _ ->. apply up_kern; [done|by rewrite Hw].
Qed.

(** Workers close registered sockets only, and the listening socket is none. *)
Lemma close_apart l fd w w' :
  up l w → Server_close fd w = (Ok tt, w') → up l w' ∧ fd ≠ l ∧ sockets w' = delete fd (sockets w).
Proof.
  intros Hup. unfold Server_close, Epoll_Delete, Server_CloseFd, SocketMap_Delete, call, zoom, syscall, or_throw.
  run_m. destruct (decide (fd ∈ watched (kern w))) as [Hin|Hin].
  2: { destruct (ctl_del_bad (epollFd w) fd (kern w) Hin) as (e & k1 & -> & _). done. }
  destruct (ctl_del_ok (epollFd w) fd (kern w) Hin) as (k1 & -> & Hf1 & Hw1). simpl.
  assert (fd ∈ fds k1) as Ho by (rewrite Hf1; by apply watched_open).
  destruct (close_ok fd k1 Ho) as (k2 & -> & Hf2 & Hw2). simpl.
  destruct (sockets w !! fd) as [id|] eqn:E; [|done]. intros [= <-].
  assert (fd ≠ l) as Hne by (intros ->; pose proof (up_apart l w Hup); congruence).
  split; [|done]. destruct Hup as [H1 H2 H3 H4]. split; simpl; try done.
  - rewrite Hw2, Hw1. set_solver.
  - by rewrite lookup_delete_ne.
Qed.

Lemma worker_up l w w' : up l w → worker_step w w' → up l w' ∧ sockets w' ⊆ sockets w.
Proof.
  intros Hup [fuel fd text w1 H|fd s rest w1 H|fd w1 H]; simpl in H.
  - unfold zoom in H. destruct (SocketHandler_Read fuel fd (kern w)) as [r k'] eqn:E. injection H as -> <-.
    split; [|done]. unfold SocketHandler_Read in E. apply bind_inv_ok in E as (p & k1 & E & [= _ <-]).
    apply read_all_frame in E as (_ & Hw & _). apply up_kern; [done|by rewrite Hw].
  - unfold zoom in H. destruct (SocketHandler_Write fd s (kern w)) as [r k'] eqn:E. injection H as -> <-.
    split; [|done]. unfold SocketHandler_Write in E. case_bool_decide.
    + injection E as _ <-. by apply up_kern.
    + destruct (write_all_spec fd s (S (length s)) (kern w) ltac:(lia)) as (r' & k2 & E' & _ & Hw & _).
      rewrite E in E'. injection E' as _ <-. apply up_kern; [done|by rewrite Hw].
  - destruct (close_apart l fd w w1 Hup H) as (Hup' & _ & Hs). split; [done|]. rewrite Hs. apply delete_subseteq.
Qed.

Lemma step_up l x y : up_control l x.1 x.2 → server_step x y → up_control l y.1 y.2.
Proof.
  intros Hup Hs. destruct Hs as [c w w' Hs|b flags w evs w' H|flags w e w' H|m todo b flags w r w' H| | | |]; simpl in *; try done.
  - destruct c; simpl in *; try done; [|destruct Hup as [Hup ?]; split; [|done]]; by eapply worker_up.
  - split; [by eapply wait_up|]. rewrite (up_listen _ _ Hup). apply turn_actions_up.
  - destruct Hup as [Hup Hall]. apply Forall_cons in Hall as [Hm Hall]. destruct r; simpl; try done. split; [|done].
    by eapply Hm.
  - by destruct Hup.
  - by destruct r.
Qed.

Lemma setup_up port k n w : Server_setup port (Server_Server k n) = (Ok tt, w) → up (listenFd w) w.
Proof.
  unfold Server_setup, Server_Listen, Epoll_Init, Epoll_Add, call, zoom, syscall, or_throw.
  unfold mbind, M_bind, get, modify, throw, mret, M_ret. simpl.
  destruct (sys_socket k) as [[e|fd] k1] eqn:E1; [done|]. simpl.
  destruct (sys_bind fd _ k1) as [[e|[]] k2] eqn:E2; [done|]. simpl.
  destruct (sys_listen fd _ k2) as [[e|[]] k3] eqn:E3; [done|]. simpl.
  destruct (sys_epoll_create k3) as [[e|ep] k4] eqn:E4; [done|]. simpl.
  destruct (sys_epoll_ctl_add ep fd _ k4) as [[e|[]] k5] eqn:E5; [done|].
  intros [= <-]. apply ctl_add_ok in E5 as [_ Hw5]. split; simpl; try done; [set_solver|].
  intros id H. by apply elem_of_nil in H.
Qed.

(** Once the next event is stale it stays so, until the loop is left. *)
Definition stale (l fd : Z) todo b flags (x : control K * World K) : Prop :=
  up l x.2 ∧ (x.1 = InTurn todo b flags ∧ sockets x.2 !! fd = None ∨ x.1 = Left_ (Throw RuntimeError)).

Lemma stale_act fd (w : World K) :
  sockets w !! fd = None →
  collect (exist ← SocketMap_Count fd; if (exist : bool) then mret tt else throw RuntimeError) w = (Throw RuntimeError, w).
Proof.
  intros H. unfold collect, SocketMap_Count, gets, mbind, M_bind. simpl. by rewrite bool_decide_false by (rewrite H; by intros []).
Qed.

Lemma stale_step l fd mask todo b flags x y :
  stale l fd (event_actions fd mask ++ todo) b flags x → server_step x y →
  stale l fd (event_actions fd mask ++ todo) b flags y.
Proof.
  intros [Hup [[Hc Hs]|Hc]] Hstep.
  - destruct Hstep as [c w w' H|? ? w evs w' H|? w e w' H|m todo' ? ? w r w' H| | | |]; simpl in *; try done.
    + destruct (worker_up _ _ _ Hup H) as [? Hsub]. split; [done|]. left. split; [done|]. by eapply lookup_weaken_None.
    + unfold event_actions in Hc. cbn [app] in Hc. injection Hc as -> _ _. rewrite stale_act in H by done.
      injection H as <- <-. split; [done|by right].
  - destruct Hstep as [c w w' H| | | | | | |]; simpl in *; simplify_eq. destruct (worker_up _ _ _ Hup H). split; [done|by right].
Qed.

(** ** Property *)

(** C9: when the loop of [Start], at any turn and anywhere in the batch [epoll_wait] delivered, comes to an event of a
    descriptor that is not registered (a worker closed it after the events were collected), [Start] can only be
    left by the exception, however the workers run (unless one of them ends the process first); no connection has then been told to exit, and the listening
    socket has not been closed. *)
Theorem stale_event_stops_server port k n flags w0 fd mask todo b flags' w :
  Server_setup port (Server_Server k n) = (Ok tt, w0) →
  rtc server_step (AtWait flags, w0) (InTurn (event_actions fd mask ++ todo) b flags', w) →
  sockets w !! fd = None →
  server_step (InTurn (event_actions fd mask ++ todo) b flags', w) (Left_ (Throw RuntimeError), w) ∧
  ∀ c w', rtc server_step (InTurn (event_actions fd mask ++ todo) b flags', w) (c, w') →
    (c = InTurn (event_actions fd mask ++ todo) b flags' ∨ c = Left_ (Throw RuntimeError)) ∧
    (∀ id, reportTimeToExit id ∉ reports w') ∧ listenFd w' = listenFd w0 ∧ listenFd w' ∈ fds (kern w').
Proof.
  intros Hset Hreach Hs. apply setup_up in Hset as Hup.
  assert (up (listenFd w0) w) as Hw.
  { pose proof (rtc_invariant _ (λ x, up_control (listenFd w0) x.1 x.2) (AtWait flags, w0) _ (step_up _) Hup Hreach) as H. by destruct H. }
  split.
  - apply (ss_act _ _ b flags' w (Throw RuntimeError)), stale_act, Hs.
  - intros c w' Hr. assert (stale (listenFd w0) fd (event_actions fd mask ++ todo) b flags' (c, w')) as [Hup' Hc].
    { eapply (rtc_invariant server_step); [intros ??; apply stale_step| |exact Hr]. by split; [|left]. }
    simpl in *. destruct Hup' as [Hl Hin _ Htte]. split; [naive_solver|]. split; [done|]. split; [done|].
    rewrite Hl. by apply watched_open.
Qed.
End race_lemmas.

(** ** Witness *)

(** Two clients connect; then both are readable, and a worker closes the second before its event is looked at. *)
Definition two_clients : ref_kernel :=
  mkRef ∅ ∅ ∅ ∅ ∅ [(16777343, 47873); (16777343, 47874)]%Z [[(3, 1); (3, 1)]; [(5, 1); (6, 1)]]%Z.

(** The world after the set-up, after the first turn, after the event of the first client, and after the worker. *)
Definition wit_0 := Eval vm_compute in (Server_setup 80 (Server_Server two_clients 10)).2.
Definition turn_of (w : World ref_kernel) : list (M (World ref_kernel) (list report)) * World ref_kernel :=
  let '(r, w') := Epoll_Wait TIMEOUT_MS w in
  (turn_actions (listenFd w) match r with Ok evs => evs | _ => [] end, w').
Definition wit_1 := Eval vm_compute in (run_actions (turn_of wit_0).1 (turn_of wit_0).2).2.
Definition wit_2 := Eval vm_compute in (run_actions (event_actions 5 1) (turn_of wit_1).2).2.
Definition wit_3 := Eval vm_compute in (Server_close 6 wit_2).2.

Lemma stale_reached :
  rtc server_step (AtWait [false; true], wit_0) (InTurn (event_actions 6 1 ++ []) true [], wit_3).
Proof.
  eapply rtc_l; [eapply (ss_wait false [true] wit_0 [(3, 1); (3, 1)]%Z (turn_of wit_0).2); vm_compute; reflexivity|].
  etrans; [rewrite <- (app_nil_r (turn_actions _ _)); apply (acts_run _ [] false [true] _ wit_1); vm_compute; reflexivity|].
  eapply rtc_l; [apply ss_again|].
  eapply rtc_l; [eapply (ss_wait true [] wit_1 [(5, 1); (6, 1)]%Z (turn_of wit_1).2); vm_compute; reflexivity|].
  etrans; [apply (acts_run (event_actions 5 1) (event_actions 6 1 ++ []) true [] _ wit_2); vm_compute; reflexivity|].
  apply rtc_once, ss_worker, (ws_close wit_2 6 wit_3). vm_compute. reflexivity.
Qed.

Lemma stale_event_stops_server_witness :
  server_step (InTurn (event_actions 6 1 ++ []) true [], wit_3) (Left_ (Throw RuntimeError), wit_3) ∧
  sockets wit_3 = {[5%Z := 1%Z]}.
Proof.
  split; [|vm_compute; reflexivity].
  apply (stale_event_stops_server 80 two_clients 10 [false; true] wit_0 6 1 [] true [] wit_3);
    [vm_compute; reflexivity|apply stale_reached|vm_compute; reflexivity].
Defined.
