(* ===== verification/EchoServer.v ===== *)
(** * The edge-triggered echo server (linux_programming/socket/server/use_epoll/edge_triggered/main.cpp)

    One thread: the [Server] waits for events and calls the [SessionManager], whose
    sessions read text, reverse every sentence that a full stop ends, and write the
    sentences back in brackets.  [ConnHandler] is the socket of a session.

    [timeToExit] is given as the values the loop reads, one per turn. *)

From S2P Require Import Prelude CppString Posix RefKernel.

Definition MAX_EVENTS : nat := 10.
Definition READ_BUF_SIZE : nat := 3.

Record ConnHandler := mkConnHandler {
  ch_fd : Z;
  ch_ip : bytes;
  ch_port : Z;
  ch_isEof : bool
}.

Record Session := mkSession {
  s_id : Z;
  s_input : bytes;
  s_output : bytes;
  s_isReadable : bool;
  s_isWritable : bool;
  s_isClosed : bool;
  s_conn : ConnHandler
}.

#[global] Instance ConnHandler_eq_dec : EqDecision ConnHandler.
Proof. solve_decision. Defined.
#[global] Instance Session_eq_dec : EqDecision Session.
Proof. solve_decision. Defined.

Definition Session_Session (id : Z) (c : ConnHandler) : Session :=
  mkSession id [] [] false false false c.

Definition set_input i s := mkSession (s_id s) i (s_output s) (s_isReadable s) (s_isWritable s)
  (s_isClosed s) (s_conn s).
Definition set_output o s := mkSession (s_id s) (s_input s) o (s_isReadable s) (s_isWritable s)
  (s_isClosed s) (s_conn s).
Definition set_isReadable b s := mkSession (s_id s) (s_input s) (s_output s) b (s_isWritable s)
  (s_isClosed s) (s_conn s).
Definition set_isWritable b s := mkSession (s_id s) (s_input s) (s_output s) (s_isReadable s) b
  (s_isClosed s) (s_conn s).
Definition set_isClosed b s := mkSession (s_id s) (s_input s) (s_output s) (s_isReadable s)
  (s_isWritable s) b (s_conn s).
Definition set_isEof b s := mkSession (s_id s) (s_input s) (s_output s) (s_isReadable s)
  (s_isWritable s) (s_isClosed s)
  (mkConnHandler (ch_fd (s_conn s)) (ch_ip (s_conn s)) (ch_port (s_conn s)) b).

Definition FULL_STOP : ascii := ".".

(** A sentence as it is sent back. *)
Definition reply (w : bytes) : bytes := "["%char :: reverse w ++ ["]"%char].

Arguments reply w : simpl never.

(** The loop of [Session::Read] over the received text: what is left and what is added
    to the output.  Every turn takes a full stop off the input. *)
Fixpoint split_input (fuel : nat) (input output : bytes) : result (bytes * bytes) :=
  match fuel with
  | O => OutOfFuel
  | S fuel' =>
      match find_char FULL_STOP input with
      | Some pos =>
          split_input fuel' (drop (pos + 1) input) (output ++ reply (take pos input))
      | None => Ok (input, output)
      end
  end.

Section echo.
  Context {K : Type} `{!Kernel K}.

(** The sessions are shared objects: [objs] holds them by id, [sessions] are the keys of
    the manager's map. *)
Record Echo := mkEcho {
  ekern : K;
  eepollFd : Z;
  elistenFd : Z;
  conns : gmap Z Z;
  enextConnId : Z;
  sessions : gset Z;
  sobjs : gmap Z Session
}.

Definition set_ekern k e := mkEcho k (eepollFd e) (elistenFd e) (conns e) (enextConnId e)
  (sessions e) (sobjs e).
Definition set_eepollFd fd e := mkEcho (ekern e) fd (elistenFd e) (conns e) (enextConnId e)
  (sessions e) (sobjs e).
Definition set_elistenFd fd e := mkEcho (ekern e) (eepollFd e) fd (conns e) (enextConnId e)
  (sessions e) (sobjs e).
Definition set_conns c e := mkEcho (ekern e) (eepollFd e) (elistenFd e) c (enextConnId e)
  (sessions e) (sobjs e).
Definition set_enextConnId n e := mkEcho (ekern e) (eepollFd e) (elistenFd e) (conns e) n
  (sessions e) (sobjs e).
Definition set_sessions s e := mkEcho (ekern e) (eepollFd e) (elistenFd e) (conns e)
  (enextConnId e) s (sobjs e).
Definition set_sobjs o e := mkEcho (ekern e) (eepollFd e) (elistenFd e) (conns e)
  (enextConnId e) (sessions e) o.

Definition ecall {A} (f : K → outcome A * K) : M Echo (outcome A) :=
  zoom ekern set_ekern (syscall f).

Definition check {A} (o : outcome A) : M Echo A :=
  match o with inl _ => throw RuntimeError | inr a => mret a end.

(** ** Epoll *)

Definition Epoll_Init : M Echo unit :=
  o ← ecall sys_epoll_create; fd ← check o; modify (set_eepollFd fd).

Definition Epoll_Add (fd eventMask : Z) : M Echo unit :=
  e ← get; o ← ecall (sys_epoll_ctl_add (eepollFd e) fd eventMask); check o.

Definition Epoll_DeleteFd (fd : Z) : M Echo unit :=
  e ← get; o ← ecall (sys_epoll_ctl_del (eepollFd e) fd); check o.

Definition Epoll_Wait (timeoutMs : Z) : M Echo (list (Z * Z)) :=
  e ← get;
  o ← ecall (sys_epoll_wait (eepollFd e) MAX_EVENTS timeoutMs);
  match o with
  | inl code => if (code =? EINTR)%Z then mret [] else throw RuntimeError
  | inr evs => mret evs
  end.

Definition SetNonBlocking (fd : Z) : M Echo unit :=
  o ← ecall (sys_fcntl fd F_GETFL 0);
  let flags := match o with inl _ => (-1)%Z | inr f => f end in
  ecall (sys_fcntl fd F_SETFL (Z.lor flags O_NONBLOCK));; mret tt.

(** ** The server's sockets *)

Definition Server_CloseFd (fd : Z) : M Echo unit := o ← ecall (sys_close fd); check o.

Definition Server_closeConn (fdv : Z) : M Echo unit :=
  Epoll_DeleteFd fdv;; Server_CloseFd fdv;; modify (λ e, set_conns (delete fdv (conns e)) e).

(** ** ConnHandler and Session *)

Context (read_fuel : nat).

(** Access to a session through a [shared_ptr]. *)
Definition sderef (id : Z) : M Echo Session :=
  e ← get; match sobjs e !! id with Some s => mret s | None => undef end.

Definition supdate (id : Z) (f : Session → Session) : M Echo unit :=
  modify (λ e, set_sobjs (alter f id (sobjs e)) e).

Definition ConnHandler_Read (id : Z) : M Echo bytes :=
  s ← sderef id;
  r ← zoom ekern set_ekern (read_all READ_BUF_SIZE READ_BUF_SIZE read_fuel (ch_fd (s_conn s)) []);
  when r.2 (supdate id (set_isEof true));;
  mret r.1.

Definition ConnHandler_Write (fd : Z) (s : bytes) : M Echo bytes :=
  if bool_decide (s = []) then mret []
  else zoom ekern set_ekern (write_all (S (length s)) fd s).

Definition VerifySessionExist (id : Z) : M Echo unit :=
  e ← get; if decide (id ∈ sessions e) then mret tt else throw RuntimeError.

Definition VerifySessionNotExist (id : Z) : M Echo unit :=
  e ← get; if decide (id ∈ sessions e) then throw RuntimeError else mret tt.

Definition ReleaseSession (id : Z) : M Echo unit :=
  VerifySessionExist id;; modify (λ e, set_sessions (sessions e ∖ {[id]}) e).

Definition Session_Close (id : Z) : M Echo unit :=
  s ← sderef id;
  if s_isClosed s then throw RuntimeError
  else
    Server_closeConn (ch_fd (s_conn s));;
    ReleaseSession id;;
    supdate id (set_isClosed true).

Definition Session_Write (id : Z) : M Echo unit :=
  s ← sderef id;
  if negb (s_isWritable s) then mret tt
  else
    out ← ConnHandler_Write (ch_fd (s_conn s)) (s_output s);
    supdate id (λ s, set_isWritable false (set_output out s));;
    s ← sderef id;
    when (ch_isEof (s_conn s) && bool_decide (s_output s = [])) (Session_Close id).

Definition Session_Read (id : Z) : M Echo unit :=
  s ← sderef id;
  if negb (s_isReadable s) then mret tt
  else
    t ← ConnHandler_Read id;
    io ← lift (split_input (S (length (s_input s ++ t))) (s_input s ++ t) (s_output s));
    supdate id (λ s, set_isReadable false (set_output io.2 (set_input io.1 s)));;
    Session_Write id.

(** ** SessionManager *)

Definition SessionManager_NewConnection (id : Z) (c : ConnHandler) : M Echo unit :=
  VerifySessionNotExist id;;
  modify (λ e, set_sessions (sessions e ∪ {[id]}) (set_sobjs (<[id := Session_Session id c]> (sobjs e)) e)).

Definition SessionManager_CanRead (id : Z) : M Echo unit :=
  VerifySessionExist id;; supdate id (set_isReadable true);; Session_Read id.

Definition SessionManager_CanWrite (id : Z) : M Echo unit :=
  VerifySessionExist id;; supdate id (set_isWritable true);; Session_Write id.

Definition SessionManager_ErrorOccurred (id : Z) : M Echo unit :=
  VerifySessionExist id;; Session_Close id.

Definition SessionManager_TimeToExit (id : Z) : M Echo unit :=
  VerifySessionExist id;; Session_Close id.

(** ** Server *)

Definition LISTEN_BACKLOG : Z := 50.

Definition Server_Listen (port : Z) : M Echo unit :=
  o ← ecall sys_socket;
  match o with
  | inl _ => modify (set_elistenFd (-1));; throw RuntimeError
  | inr fd =>
      modify (set_elistenFd fd);;
      o ← ecall (sys_bind fd (htons port)); check o;;
      o ← ecall (sys_listen fd LISTEN_BACKLOG); check o
  end.

Definition Server_Accept : M Echo (Z * bytes * Z) :=
  e ← get;
  o ← ecall (sys_accept (elistenFd e));
  r ← check o;
  let '(fd, addr, p) := r in
  text ← check (lib_inet_ntop addr);
  mret (fd, text, ntohs p).

Definition Server_ProcessNewConnection : M Echo unit :=
  r ← Server_Accept;
  let '(fd, text, p) := r in
  e ← get;
  if bool_decide (is_Some (conns e !! fd)) then throw RuntimeError
  else
    modify (λ e, set_enextConnId (u64 (enextConnId e + 1)) e);;
    SetNonBlocking fd;;
    Epoll_Add fd (Z.lor (Z.lor EPOLLIN EPOLLOUT) EPOLLET);;
    id ← gets enextConnId;
    SessionManager_NewConnection id (mkConnHandler fd text p false);;
    modify (λ e, set_conns (<[fd := id]> (conns e)) e).

(** [conns[fd]]: an absent key is inserted with the value 0. *)
Definition conns_at (fd : Z) : M Echo Z :=
  e ← get;
  match conns e !! fd with
  | Some id => mret id
  | None => modify (λ e, set_conns (<[fd := 0%Z]> (conns e)) e);; mret 0%Z
  end.

Definition Server_ProcessEvent (fd eventMask : Z) : M Echo unit :=
  e ← get;
  if bool_decide (conns e !! fd = None) then throw RuntimeError
  else
    when (has_flag eventMask EPOLLIN) (id ← conns_at fd; SessionManager_CanRead id);;
    when (has_flag eventMask EPOLLOUT) (id ← conns_at fd; SessionManager_CanWrite id);;
    when (has_flag eventMask EPOLLERR) (id ← conns_at fd; SessionManager_ErrorOccurred id).

Definition Server_ProcessEvents (evs : list (Z * Z)) : M Echo unit :=
  for_each (λ ev : Z * Z,
    e ← get;
    if (ev.1 =? elistenFd e)%Z then Server_ProcessNewConnection
    else Server_ProcessEvent ev.1 ev.2) evs.

(** The entry with the smallest key, [conns.begin()]. *)
Definition first_entry (m : gmap Z Z) : option (Z * Z) :=
  match merge_sort key_le (map_to_list m) with
  | [] => None
  | e :: _ => Some e
  end.

(** [while (!conns.empty()) TimeToExit(conns.begin()->second)]. *)
Fixpoint Release_loop (fuel : nat) : M Echo unit :=
  match fuel with
  | O => lift OutOfFuel
  | S fuel' =>
      e ← get;
      match first_entry (conns e) with
      | None => mret tt
      | Some (_, id) => SessionManager_TimeToExit id;; Release_loop fuel'
      end
  end.

Definition Server_Release : M Echo unit :=
  e ← get;
  Release_loop (S (size (conns e)));;
  e ← get;
  Epoll_DeleteFd (elistenFd e);;
  Server_CloseFd (elistenFd e).

Definition TIMEOUT_MS : Z := 3000.

Fixpoint Server_loop (flags : list bool) : M Echo unit :=
  match flags with
  | [] => lift OutOfFuel
  | timeToExit :: flags' =>
      evs ← Epoll_Wait TIMEOUT_MS;
      when (0 <? Z.of_nat (length evs))%Z (Server_ProcessEvents evs);;
      if timeToExit : bool then Server_Release else Server_loop flags'
  end.

Definition Server_Start (port : Z) (flags : list bool) : M Echo unit :=
  Server_Listen port;;
  Epoll_Init;;
  e ← get;
  Epoll_Add (elistenFd e) EPOLLIN;;
  Server_loop flags.

Definition Server_Server (k : K) : Echo := mkEcho k (-1) (-1) ∅ 0 ∅ ∅.
End echo.
Arguments Echo K : clear implicits.

(** ** The text of a session *)

Definition no_stop (w : bytes) : Prop := FULL_STOP ∉ w.

(** Sentences, each ended by a full stop, and an unfinished rest. *)
Definition text_of (ws : list bytes) (rest : bytes) : bytes :=
  concat (map (λ w, w ++ [FULL_STOP]) ws) ++ rest.

(** What one [Session::Read] does with the text it received. *)
Definition feed_text (t : bytes) (io : bytes * bytes) : result (bytes * bytes) :=
  split_input (S (length (io.1 ++ t))) (io.1 ++ t) io.2.

Fixpoint feed_texts (ts : list bytes) (io : bytes * bytes) : result (bytes * bytes) :=
  match ts with
  | [] => Ok io
  | t :: ts' => match feed_text t io with Ok io' => feed_texts ts' io' | r => r end
  end.

Lemma find_stop w t : no_stop w → find_char FULL_STOP (w ++ FULL_STOP :: t) = Some (length w).
Proof. apply find_char_first. Qed.

Lemma split_sentences ws rest out fuel :
  Forall no_stop ws → no_stop rest → length ws < fuel →
  split_input fuel (text_of ws rest) out = Ok (rest, out ++ concat (map reply ws)).
Proof.
  unfold text_of. intros Hws Hrest. revert out fuel.
  induction Hws as [|w ws Hw Hws IH]; intros out [|fuel] Hf; simpl in *; try lia.
  - rewrite (proj2 (find_char_None FULL_STOP rest) Hrest). by rewrite app_nil_r.
  - rewrite <- !app_assoc. cbn [app]. rewrite find_stop by done.
    rewrite take_app_length, drop_app_add. simpl. rewrite IH by lia. rewrite <- app_assoc. unfold reply. simpl. by rewrite <- app_assoc.
Qed.

Lemma text_of_app ws1 r1 t ws2 r2 :
  r1 ++ t = text_of ws2 r2 → text_of ws1 r1 ++ t = text_of (ws1 ++ ws2) r2.
Proof. intros Ht. unfold text_of in *. by rewrite map_app, concat_app, <- !app_assoc, Ht. Qed.

Lemma text_split t : ∃ ws rest, Forall no_stop ws ∧ no_stop rest ∧ t = text_of ws rest.
Proof.
  induction t as [|c t (ws & rest & Hws & Hrest & ->)].
  { exists [], []. split_and!; [constructor|apply not_elem_of_nil|done]. }
  destruct (decide (c = FULL_STOP)) as [->|Hc].
  { exists ([] :: ws), rest. split_and!; [|done|done].
    constructor; [apply not_elem_of_nil|done]. }
  destruct ws as [|w ws].
  - exists [], (c :: rest). split_and!; [done| |done]. unfold no_stop in *. set_solver.
  - exists ((c :: w) :: ws), rest. apply Forall_cons in Hws as [Hw Hws].
    split_and!; [|done|done]. constructor; [|done]. unfold no_stop in *. set_solver.
Qed.

Lemma text_of_length ws rest : length ws ≤ length (text_of ws rest).
Proof.
  unfold text_of. induction ws as [|w ws IH]; simpl; [lia|]. rewrite !length_app in *.
  simpl in *. lia.
Qed.

Lemma feed_text_of t i o ws rest :
  i ++ t = text_of ws rest → Forall no_stop ws → no_stop rest →
  feed_text t (i, o) = Ok (rest, o ++ concat (map reply ws)).
Proof.
  intros Ht Hws Hrest. unfold feed_text. cbn [fst snd]. rewrite Ht.
  apply split_sentences; [done|done|]. pose proof (text_of_length ws rest). lia.
Qed.

Lemma feed_texts_of ts i o ws rest :
  i ++ concat ts = text_of ws rest → no_stop i → Forall no_stop ws → no_stop rest →
  feed_texts ts (i, o) = Ok (rest, o ++ concat (map reply ws)).
Proof.
  revert i o ws rest. induction ts as [|t ts IH]; intros i o ws rest Ht Hi Hws Hrest.
  - assert (H1 : feed_text [] (i, o) = Ok (rest, o ++ concat (map reply ws))) by by apply feed_text_of.
    assert (H2 : feed_text [] (i, o) = Ok (i, o ++ concat (map reply []))).
    { apply feed_text_of; [by rewrite app_nil_r|done|done]. }
    rewrite H1 in H2. simpl in *. injection H2 as -> H2. by rewrite H2, app_nil_r.
  - simpl. destruct (text_split (i ++ t)) as (ws1 & r1 & Hws1 & Hr1 & Ht1).
    rewrite (feed_text_of t i o ws1 r1) by done.
    destruct (text_split (r1 ++ concat ts)) as (ws2 & r2 & Hws2 & Hr2 & Ht2).
    rewrite (IH r1 _ ws2 r2) by done.
    assert (Heq : text_of (ws1 ++ ws2) r2 = text_of ws rest).
    { rewrite <- (text_of_app ws1 r1 (concat ts) ws2 r2 Ht2), <- Ht1, <- Ht. simpl.
      by rewrite app_assoc. }
    assert (H1 : feed_text (text_of ws rest) ([], o) = Ok (rest, o ++ concat (map reply ws)))
      by by apply feed_text_of.
    rewrite <- Heq, (feed_text_of _ _ o (ws1 ++ ws2) r2) in H1;
      [|done|by apply Forall_app|done].
    injection H1 as -> H1. rewrite <- H1, map_app, concat_app. by rewrite app_assoc.
Qed.

(** ** The state between events *)

Section echo_lemmas.
  Context {K : Type} `{!Kernel K, !KernelLaws K} (read_fuel : nat).
  Implicit Types e : Echo K.

(** A session the server can drive: its socket is [fd] and it waits for an event. *)
Definition idle_session (fd : Z) (s : Session) : Prop :=
  ch_fd (s_conn s) = fd ∧ s_isClosed s = false ∧ s_isReadable s = false ∧ s_isWritable s = false.

(** The map of the server and the sessions of the manager correspond one to one, every
    connection is open and watched, and every session is idle. *)
Record echo_inv e : Prop := {
  einv_watched : dom (conns e) ⊆ watched (ekern e);
  einv_listen : conns e !! elistenFd e = None;
  einv_listen_open : elistenFd e ∈ watched (ekern e);
  einv_next : (0 ≤ enextConnId e)%Z;
  einv_conns fd id : conns e !! fd = Some id →
    (0 < id ≤ enextConnId e)%Z ∧ (id ∈ sessions e) ∧
    ∃ s, sobjs e !! id = Some s ∧ idle_session fd s;
  einv_sessions id : id ∈ sessions e → ∃ fd, conns e !! fd = Some id
}.

(** The state after changes to the kernel and to one session. *)
Definition with_session (id : Z) (s : Session) (k : K) e : Echo K :=
  set_sobjs (<[id := s]> (sobjs e)) (set_ekern k e).

Lemma sderef_eq id s e : sobjs e !! id = Some s → sderef id e = (Ok s, e).
Proof. intros Hs. unfold sderef. run_m. by rewrite Hs. Qed.

Lemma supdate_eq id f s e :
  sobjs e !! id = Some s → supdate id f e = (Ok tt, with_session id (f s) (ekern e) e).
Proof.
  intros Hs. unfold supdate, with_session, modify. f_equal. destruct e; simpl in *. unfold set_sobjs, set_ekern. simpl.
  f_equal. apply map_eq. intros j. rewrite lookup_alter, lookup_insert.
  case_decide; subst; [by rewrite Hs|done].
Qed.

Lemma with_session_twice id s s' k k' e :
  with_session id s' k' (with_session id s k e) = with_session id s' k' e.
Proof. unfold with_session, set_sobjs, set_ekern. simpl. by rewrite insert_insert_eq. Qed.

Lemma with_session_lookup id s k e : sobjs (with_session id s k e) !! id = Some s.
Proof. simpl. apply lookup_insert_eq. Qed.

Lemma inv_session fd id s k e :
  echo_inv e → conns e !! fd = Some id → idle_session fd s →
  watched k = watched (ekern e) → echo_inv (with_session id s k e).
Proof.
  intros [Hw Hl Hlo Hn Hc Hs] Hfd Hid Hk. split; simpl; rewrite ?Hk; auto.
  intros fd' id' H'. destruct (Hc fd' id' H') as (H1 & H2 & s' & H3 & H4).
  split_and!; [lia..|done|]. rewrite lookup_insert. case_decide as Hd; [|eauto]. subst id'.
  exists s. split; [done|]. destruct (Hc fd id Hfd) as (_ & _ & s0 & H5 & H6).
  rewrite H3 in H5. injection H5 as ->. destruct H4 as [H4 _], H6 as [H6 _].
  replace fd' with fd by congruence. done.
Qed.

(** ** Closing *)

Definition closed_state (fd id : Z) (s : Session) (k : K) e : Echo K :=
  set_sobjs (<[id := set_isClosed true s]> (sobjs e))
    (set_sessions (sessions e ∖ {[id]}) (set_conns (delete fd (conns e)) (set_ekern k e))).

Lemma close_conn_ok fd e :
  fd ∈ watched (ekern e) →
  ∃ k', Server_closeConn fd e = (Ok tt, set_conns (delete fd (conns e)) (set_ekern k' e)) ∧
    fds k' = fds (ekern e) ∖ {[fd]} ∧ watched k' = watched (ekern e) ∖ {[fd]} ∧
    ∀ fd', sent fd' k' = sent fd' (ekern e).
Proof.
  intros Hw. destruct (ctl_del_ok (eepollFd e) fd (ekern e) Hw) as (k1 & E1 & Hf1 & Hw1).
  assert (Ho : fd ∈ fds k1) by (rewrite Hf1; by apply watched_open).
  destruct (close_ok fd k1 Ho) as (k2 & E2 & Hf2 & Hw2).
  pose proof (ctl_del_sent _ _ _ _ _ E1) as Hs1. pose proof (close_sent _ _ _ _ E2) as Hs2.
  exists k2. split; [|split_and!; [by rewrite Hf2, Hf1 | rewrite Hw2, Hw1; set_solver|]].
  2: { intros fd'. by rewrite Hs2, Hs1. }
  unfold Server_closeConn, Epoll_DeleteFd, Server_CloseFd, ecall, zoom, syscall, check. run_m.
  rewrite E1. simpl. by rewrite E2.
Qed.

Lemma session_close_ok fd id s e :
  fd ∈ watched (ekern e) → id ∈ sessions e → sobjs e !! id = Some s →
  ch_fd (s_conn s) = fd → s_isClosed s = false →
  ∃ k', Session_Close id e = (Ok tt, closed_state fd id s k' e) ∧
    fds k' = fds (ekern e) ∖ {[fd]} ∧ watched k' = watched (ekern e) ∖ {[fd]} ∧
    ∀ fd', sent fd' k' = sent fd' (ekern e).
Proof.
  intros Hw Hid Hs Hfd Hc. destruct (close_conn_ok fd e Hw) as (k' & E & Hf & Hw').
  exists k'. split; [|done]. unfold Session_Close.
  rewrite (bind_ok _ _ e s e) by by apply sderef_eq. rewrite Hc, Hfd, (bind_ok _ _ _ _ _ E).
  unfold ReleaseSession, VerifySessionExist, mbind, M_bind, get. simpl.
  rewrite decide_True by done. simpl. by rewrite (supdate_eq id _ s) by done.
Qed.

Lemma inv_closed fd id s k e :
  echo_inv e → conns e !! fd = Some id → watched k = watched (ekern e) ∖ {[fd]} →
  echo_inv (closed_state fd id s k e).
Proof.
  intros Hi Hfd Hk. destruct Hi as [Hw Hl Hlo Hn Hc Hs].
  assert (Hinj : ∀ fd' , conns e !! fd' = Some id → fd' = fd).
  { intros fd' H'. destruct (Hc fd' id H') as (_ & _ & s1 & H1 & [H2 _]).
    destruct (Hc fd id Hfd) as (_ & _ & s2 & H3 & [H4 _]). congruence. }
  split; simpl.
  - rewrite dom_delete_L, Hk. set_solver.
  - rewrite lookup_delete. by case_decide.
  - rewrite Hk. assert (elistenFd e ≠ fd) by congruence. set_solver.
  - done.
  - intros fd' id' [Hne H']%lookup_delete_Some. destruct (Hc fd' id' H') as (H1 & H2 & s1 & H3 & H4).
    assert (id' ≠ id) by (intros ->; by apply Hne, eq_sym, Hinj).
    split_and!; [lia..|set_solver|]. exists s1. by rewrite lookup_insert_ne.
  - intros id' [Hin Hne]%elem_of_difference. destruct (Hs id' Hin) as [fd' H'].
    exists fd'. apply lookup_delete_Some. split; [|done]. intros <-. rewrite Hfd in H'. set_solver.
Qed.

(** What closing a connection of a good state does. *)
Lemma close_idle fd id e :
  echo_inv e → conns e !! fd = Some id →
  ∃ e', Session_Close id e = (Ok tt, e') ∧ echo_inv e' ∧ conns e' = delete fd (conns e) ∧
    sessions e' = sessions e ∖ {[id]} ∧ elistenFd e' = elistenFd e ∧
    fds (ekern e') = fds (ekern e) ∖ {[fd]} ∧ enextConnId e' = enextConnId e ∧ eepollFd e' = eepollFd e ∧
    ∀ fd', sent fd' (ekern e') = sent fd' (ekern e).
Proof.
  intros Hi Hfd. destruct (einv_conns e Hi fd id Hfd) as (_ & Hid & s & Hs & (H1 & H2 & _)).
  assert (Hw : fd ∈ watched (ekern e)) by (apply (einv_watched e Hi), elem_of_dom; eauto).
  destruct (session_close_ok fd id s e Hw Hid Hs H1 H2) as (k' & E & Hf & Hw' & Hse).
  eexists. split; [exact E|]. split; [by apply inv_closed|]. done.
Qed.

Lemma first_entry_spec (m : gmap Z Z) :
  match first_entry m with None => m = ∅ | Some (fd, id) => m !! fd = Some id end.
Proof.
  unfold first_entry. destruct (merge_sort key_le (map_to_list m)) as [|[fd id] l] eqn:E.
  - apply map_to_list_empty_iff, Permutation_nil. by rewrite <- (merge_sort_Permutation key_le (map_to_list m)), E.
  - apply elem_of_map_to_list. rewrite <- (merge_sort_Permutation key_le (map_to_list m)), E. set_solver.
Qed.

Lemma TimeToExit_eq fd id e :
  echo_inv e → conns e !! fd = Some id → SessionManager_TimeToExit id e = Session_Close id e.
Proof.
  intros Hi Hfd. destruct (einv_conns e Hi fd id Hfd) as (_ & Hid & _).
  unfold SessionManager_TimeToExit, VerifySessionExist, mbind, M_bind, get. by rewrite decide_True.
Qed.

(** The loop of [Release] closes one connection per turn. *)
Lemma Release_loop_ok fuel e :
  echo_inv e → size (conns e) < fuel →
  ∃ e', Release_loop fuel e = (Ok tt, e') ∧ echo_inv e' ∧ conns e' = ∅ ∧
    elistenFd e' = elistenFd e ∧ eepollFd e' = eepollFd e ∧ fds (ekern e') = fds (ekern e) ∖ dom (conns e).
Proof.
  revert e. induction fuel as [|fuel IH]; intros e Hi Hf; [lia|].
  cbn [Release_loop]. unfold mbind at 1, M_bind at 1, get.
  pose proof (first_entry_spec (conns e)) as Hfe. destruct (first_entry (conns e)) as [[fd id]|].
  - rewrite (bind_ok _ _ e tt) with (s' := (Session_Close id e).2).
    2: { rewrite (TimeToExit_eq fd) by done.
         destruct (close_idle fd id e Hi Hfe) as (e1 & E & _). by rewrite E. }
    destruct (close_idle fd id e Hi Hfe) as (e1 & E & Hi1 & Hc1 & _ & Hl1 & Hf1 & _ & Hep1 & _). rewrite E. simpl.
    assert (size (conns e1) < fuel).
    { rewrite Hc1. pose proof (map_size_delete_Some fd (conns e) ltac:(eauto)).
      pose proof (map_size_non_empty_iff (conns e)) as Hne. destruct (decide (conns e = ∅)) as [He|He].
      - by rewrite He in Hfe. - apply Hne in He. lia. }
    destruct (IH e1 Hi1 ltac:(done)) as (e' & E' & Hi' & Hc' & Hl' & Hep' & Hf').
    exists e'. split_and!; [done..|congruence|congruence|]. rewrite Hf', Hf1, Hc1, dom_delete_L.
    apply elem_of_dom_2 in Hfe.
    apply set_eq. intros x. destruct (decide (x = fd)); set_solver.
  - eexists. split; [done|]. split_and!; auto. rewrite Hfe, dom_empty_L. set_solver.
Qed.

(** ** Events *)

Lemma VerifySessionExist_ok id e : id ∈ sessions e → VerifySessionExist id e = (Ok tt, e).
Proof. intros Hid. unfold VerifySessionExist, mbind, M_bind, get. by rewrite decide_True. Qed.

(** A session that is not writable writes nothing. *)
Lemma Session_Write_idle id s e :
  sobjs e !! id = Some s → s_isWritable s = false → Session_Write id e = (Ok tt, e).
Proof.
  intros Hs Hw. unfold Session_Write. rewrite (bind_ok _ _ e s e) by by apply sderef_eq.
  by rewrite Hw.
Qed.

Lemma ConnHandler_Read_eq id s e :
  sobjs e !! id = Some s →
  ConnHandler_Read read_fuel id e =
  match read_all READ_BUF_SIZE READ_BUF_SIZE read_fuel (ch_fd (s_conn s)) [] (ekern e) with
  | (Ok (t, eof), k') =>
      (Ok t, with_session id (if eof : bool then set_isEof true s else s) k' e)
  | (Throw x, k') => (Throw x, with_session id s k' e)
  | (Undef, k') => (Undef, with_session id s k' e)
  | (OutOfFuel, k') => (OutOfFuel, with_session id s k' e)
  end.
Proof.
  intros Hs.
  assert (Hk : ∀ k', set_ekern k' e = with_session id s k' e).
  { intros k'. unfold with_session. destruct e; simpl in *. unfold set_ekern, set_sobjs. simpl.
    by rewrite insert_id. }
  unfold ConnHandler_Read. rewrite (bind_ok _ _ _ _ _ (sderef_eq id s e Hs)).
  destruct (read_all _ _ _ _ [] (ekern e)) as [r k'] eqn:E.
  assert (Hz : zoom ekern set_ekern (read_all READ_BUF_SIZE READ_BUF_SIZE read_fuel
    (ch_fd (s_conn s)) []) e = (r, with_session id s k' e)) by (unfold zoom; by rewrite E, Hk).
  destruct r as [[t eof]|x| |]; [|unfold mbind, M_bind; by rewrite Hz..].
  rewrite (bind_ok _ _ _ _ _ Hz). unfold when. cbn [fst snd]. destruct eof; [|done].
  rewrite (bind_ok _ _ _ _ _ (supdate_eq id _ s _ (with_session_lookup id s k' e))).
  by rewrite with_session_twice.
Qed.

(** What one event of reading does: the text read goes through the session's text
    processing; the end of the input is remembered. *)
Lemma CanRead_eq fd id s e :
  echo_inv e → conns e !! fd = Some id → sobjs e !! id = Some s →
  SessionManager_CanRead read_fuel id e =
  let s1 := set_isReadable true s in
  match read_all READ_BUF_SIZE READ_BUF_SIZE read_fuel fd [] (ekern e) with
  | (Ok (t, eof), k') =>
      let s2 := if eof : bool then set_isEof true s1 else s1 in
      match feed_text t (s_input s, s_output s) with
      | Ok (i, o) => (Ok tt, with_session id (set_isReadable false (set_output o (set_input i s2))) k' e)
      | Throw x => (Throw x, with_session id s2 k' e)
      | Undef => (Undef, with_session id s2 k' e)
      | OutOfFuel => (OutOfFuel, with_session id s2 k' e)
      end
  | (Throw x, k') => (Throw x, with_session id s1 k' e)
  | (Undef, k') => (Undef, with_session id s1 k' e)
  | (OutOfFuel, k') => (OutOfFuel, with_session id s1 k' e)
  end.
Proof.
  intros Hi Hfd Hs. destruct (einv_conns e Hi fd id Hfd) as (_ & Hid & s' & Hs' & Hidle).
  rewrite Hs in Hs'. injection Hs' as <-. destruct Hidle as (Hfds & Hcl & Hr & Hw).
  unfold SessionManager_CanRead. rewrite (bind_ok _ _ _ _ _ (VerifySessionExist_ok id e Hid)).
  rewrite (bind_ok _ _ _ _ _ (supdate_eq id _ s e Hs)).
  set (s1 := set_isReadable true s). set (e1 := with_session id s1 (ekern e) e).
  assert (H1 : sobjs e1 !! id = Some s1) by apply with_session_lookup.
  unfold Session_Read. rewrite (bind_ok _ _ _ _ _ (sderef_eq id s1 e1 H1)).
  change (s_isReadable s1) with true. cbn [negb].
  pose proof (ConnHandler_Read_eq id s1 e1 H1) as Hread.
  change (ch_fd (s_conn s1)) with (ch_fd (s_conn s)) in Hread. rewrite Hfds in Hread.
  change (ekern e1) with (ekern e) in Hread.
  destruct (read_all _ _ _ fd [] (ekern e)) as [[[t eof]|x| |] k'].
  2-4: unfold mbind, M_bind; rewrite Hread; unfold e1; by rewrite with_session_twice.
  rewrite (bind_ok _ _ _ _ _ Hread). unfold e1. rewrite with_session_twice.
  set (s2 := if eof then set_isEof true s1 else s1). cbv zeta.
  change (split_input (S (length (s_input s1 ++ t))) (s_input s1 ++ t) (s_output s1))
    with (feed_text t (s_input s, s_output s)).
  unfold mbind at 1, M_bind at 1, lift.
  destruct (feed_text t (s_input s, s_output s)) as [[i o]|x| |]; try done. cbn [fst snd].
  rewrite (bind_ok _ _ _ _ _ (supdate_eq id _ s2 _ (with_session_lookup id s2 k' e))).
  rewrite with_session_twice.
  eapply Session_Write_idle; [apply with_session_lookup|]. unfold s2. by destruct eof.
Qed.

Lemma feed_text_ok t i o : ∃ i' o', feed_text t (i, o) = Ok (i', o').
Proof.
  destruct (text_split (i ++ t)) as (ws & rest & Hws & Hrest & Ht).
  rewrite (feed_text_of t i o ws rest) by done. eauto.
Qed.

Lemma CanRead_inv fd id e e' :
  echo_inv e → conns e !! fd = Some id →
  SessionManager_CanRead read_fuel id e = (Ok tt, e') →
  echo_inv e' ∧ conns e' = conns e ∧ enextConnId e' = enextConnId e ∧ elistenFd e' = elistenFd e ∧
  eepollFd e' = eepollFd e ∧ fds (ekern e') = fds (ekern e) ∧ ∀ fd', sent fd' (ekern e') = sent fd' (ekern e).
Proof.
  intros Hi Hfd. destruct (einv_conns e Hi fd id Hfd) as (_ & Hid & s & Hs & Hidle).
  rewrite (CanRead_eq fd id s e Hi Hfd Hs). cbv zeta.
  destruct (read_all _ _ _ fd [] (ekern e)) as [[[t eof]|x| |] k'] eqn:E; try done.
  apply read_all_frame in E as (Hf & Hw & Hse).
  destruct (feed_text_ok t (s_input s) (s_output s)) as (i & o & ->). intros [= <-].
  split_and!; [|done..].
  apply (inv_session fd); [done|done| |done]. destruct Hidle as (H1 & H2 & H3 & H4).
  by destruct eof.
Qed.

(** What one event of writing does. *)
Lemma CanWrite_cases fd id s e :
  echo_inv e → conns e !! fd = Some id → sobjs e !! id = Some s →
  ∃ r e', SessionManager_CanWrite id e = (r, e') ∧
    match r with
    | Ok _ => ∃ done_ rest, s_output s = done_ ++ rest ∧ echo_inv e' ∧
        enextConnId e' = enextConnId e ∧ elistenFd e' = elistenFd e ∧ eepollFd e' = eepollFd e ∧
        sent fd (ekern e') = sent fd (ekern e) ++ done_ ∧
        (if ch_isEof (s_conn s) && bool_decide (rest = [])
         then conns e' = delete fd (conns e) ∧ (id ∉ sessions e') ∧ fds (ekern e') = fds (ekern e) ∖ {[fd]}
         else conns e' = conns e ∧ fds (ekern e') = fds (ekern e) ∧ sobjs e' !! id = Some (set_output rest s))
    | Throw x => x = RuntimeError
    | _ => False
    end.
Proof.
  intros Hi Hfd Hs. destruct (einv_conns e Hi fd id Hfd) as (_ & Hid & s' & Hs' & Hidle).
  rewrite Hs in Hs'. injection Hs' as <-. pose proof Hidle as (Hfds & Hcl & Hr & Hwr).
  unfold SessionManager_CanWrite. rewrite (bind_ok _ _ _ _ _ (VerifySessionExist_ok id e Hid)).
  rewrite (bind_ok _ _ _ _ _ (supdate_eq id _ s e Hs)).
  set (s1 := set_isWritable true s). set (e1 := with_session id s1 (ekern e) e).
  assert (H1 : sobjs e1 !! id = Some s1) by apply with_session_lookup.
  unfold Session_Write. rewrite (bind_ok _ _ _ _ _ (sderef_eq id s1 e1 H1)).
  change (s_isWritable s1) with true. cbn [negb].
  change (ch_fd (s_conn s1)) with (ch_fd (s_conn s)). change (s_output s1) with (s_output s).
  rewrite Hfds.
  assert (Hwrite : ∃ r k', ConnHandler_Write fd (s_output s) e1 = (r, set_ekern k' e1) ∧
    fds k' = fds (ekern e) ∧ watched k' = watched (ekern e) ∧
    match r with
    | Ok rest => ∃ done_, s_output s = done_ ++ rest ∧ sent fd k' = sent fd (ekern e) ++ done_
    | Throw x => x = RuntimeError
    | _ => False
    end).
  { unfold ConnHandler_Write. case_bool_decide as Hnil.
    - exists (Ok []), (ekern e). split; [done|]. split_and!; [done..|]. exists [].
      split; [done|by rewrite app_nil_r].
    - destruct (write_all_spec fd (s_output s) (S (length (s_output s))) (ekern e) ltac:(lia))
        as (r & k' & E & Hf & Hw & Hsp).
      exists r, k'. unfold zoom. change (ekern e1) with (ekern e). rewrite E.
      split; [done|]. split_and!; [done..|]. destruct r; [done|by destruct Hsp|done..]. }
  destruct Hwrite as (r & k' & E & Hf & Hw & Hr'). unfold mbind at 1, M_bind at 1. rewrite E.
  destruct r as [rest|x| |]; [|by eexists _, _|done..].
  destruct Hr' as (d & Hd & Hsent).
  assert (He : set_ekern k' e1 = with_session id s1 k' e) by done. rewrite He.
  rewrite (bind_ok _ _ _ _ _ (supdate_eq id _ s1 _ (with_session_lookup id s1 k' e))).
  rewrite with_session_twice.
  set (s2 := set_isWritable false (set_output rest s1)).
  assert (Hs2 : s2 = set_output rest s).
  { unfold s2, s1. destruct s; simpl in *. by subst. }
  set (e2 := with_session id s2 k' e). change (ekern (with_session id s1 k' e)) with k'. fold e2.
  rewrite (bind_ok _ _ _ _ _ (sderef_eq id s2 e2 (with_session_lookup _ _ _ _))).
  assert (Hi2 : echo_inv e2).
  { apply (inv_session fd); [done|done| |done]. rewrite Hs2. done. }
  change (ch_isEof (s_conn s2)) with (ch_isEof (s_conn s)). change (s_output s2) with rest.
  destruct (ch_isEof (s_conn s) && bool_decide (rest = [])) eqn:Hb; unfold when.
  - destruct (close_idle fd id e2 Hi2 Hfd) as (e3 & E3 & Hi3 & Hc3 & Hs3 & Hl3 & Hf3 & Hn3 & Hep3 & Hse3).
    rewrite E3. exists (Ok tt), e3. split; [done|]. exists d, rest.
    rewrite Hb, Hse3, Hs3. split_and!; [exact Hd|exact Hi3|exact Hn3|exact Hl3|exact Hep3|exact Hsent|exact Hc3|set_solver|].
    rewrite Hf3. simpl. by rewrite Hf.
  - exists (Ok tt), e2. split; [done|]. exists d, rest.
    rewrite Hb. split_and!; [exact Hd|exact Hi2|done|done|done|exact Hsent|done|exact Hf|].
    unfold e2. rewrite with_session_lookup, Hs2. done.
Qed.

(** What is fixed when the loop begins: the listening and the epoll descriptor, and all descriptors that are open then. *)
Record Setup := mkSetup { su_listen : Z; su_epoll : Z; su_base : gset Z }.

(** The descriptors that are open are those and the connections'. *)
Record owns (l : Setup) e : Prop := {
  owns_listen : elistenFd e = su_listen l;
  owns_epoll : eepollFd e = su_epoll l;
  owns_fds : fds (ekern e) = su_base l ∪ dom (conns e);
  owns_apart : su_base l ## dom (conns e)
}.

Lemma owns_same l e e' :
  owns l e → conns e' = conns e → elistenFd e' = elistenFd e → eepollFd e' = eepollFd e →
  fds (ekern e') = fds (ekern e) → owns l e'.
Proof. intros [] Hc Hl He Hf. split; rewrite ?Hc, ?Hl, ?He, ?Hf; done. Qed.

Lemma owns_close l fd id e e' :
  owns l e → conns e !! fd = Some id → conns e' = delete fd (conns e) → elistenFd e' = elistenFd e →
  eepollFd e' = eepollFd e → fds (ekern e') = fds (ekern e) ∖ {[fd]} → owns l e'.
Proof.
  intros [Hl He Hf Ha] Hfd%elem_of_dom_2 Hc Hl' He' Hf'.
  split; [congruence..| |]; rewrite ?Hc, ?Hf', ?Hf, dom_delete_L; set_solver.
Qed.

Lemma owns_open l fd id e e' :
  owns l e → fd ∉ fds (ekern e) → conns e' = <[fd := id]> (conns e) → elistenFd e' = elistenFd e →
  eepollFd e' = eepollFd e → fds (ekern e') = fds (ekern e) ∪ {[fd]} → owns l e'.
Proof.
  intros [Hl He Hf Ha] Hfd Hc Hl' He' Hf'.
  split; [congruence..| |]; rewrite ?Hc, ?Hf', ?Hf, dom_insert_L; set_solver.
Qed.

(** What holds between two events; [n] connections have been accepted. *)
Definition good (l : Setup) (n : Z) e : Prop := echo_inv e ∧ owns l e ∧ enextConnId e = n.

Lemma zero_no_session e : echo_inv e → 0%Z ∉ sessions e.
Proof.
  intros Hi H0. destruct (einv_sessions e Hi 0 H0) as [fd Hfd].
  destruct (einv_conns e Hi fd 0 Hfd) as [? _]. lia.
Qed.

(** One flag of an event: the id is looked up again, so that after a close it is 0. *)
Lemma flag_good l n b fd (f : Z → M (Echo K) unit) e e' :
  (∀ id e e', good l n e → conns e !! fd = Some id → f id e = (Ok tt, e') → good l n e') →
  (∀ e, 0%Z ∉ sessions e → f 0%Z e = (Throw RuntimeError, e)) →
  good l n e → when b (id ← conns_at fd; f id) e = (Ok tt, e') → good l n e'.
Proof.
  intros Hf H0 Hg. destruct b; simpl; [|by intros [= <-]].
  unfold mbind, M_bind, conns_at. run_m. destruct (conns e !! fd) as [id|] eqn:E.
  - intros Hr. by apply (Hf id e).
  - rewrite H0; [done|]. simpl. apply zero_no_session, Hg.
Qed.

Lemma verify_zero e : 0%Z ∉ sessions e → VerifySessionExist 0 e = (Throw RuntimeError, e).
Proof. intros H0. unfold VerifySessionExist, mbind, M_bind, get. by rewrite decide_False. Qed.

(** What the three callbacks keep, and that they refuse the id 0. *)
Lemma CanRead_good l n fd id e e' :
  good l n e → conns e !! fd = Some id → SessionManager_CanRead read_fuel id e = (Ok tt, e') → good l n e'.
Proof.
  intros (Hi & Hl & Hn) Hfd Hr. destruct (CanRead_inv fd id e e' Hi Hfd Hr) as (? & ? & ? & ? & ? & ? & _).
  split_and!; [done|by eapply owns_same|congruence].
Qed.

Lemma CanWrite_good l n fd id e e' :
  good l n e → conns e !! fd = Some id → SessionManager_CanWrite id e = (Ok tt, e') → good l n e'.
Proof.
  intros (Hi & Hl & Hn) Hfd Hr. destruct (einv_conns e Hi fd id Hfd) as (_ & _ & s & Hs & _).
  destruct (CanWrite_cases fd id s e Hi Hfd Hs) as (r & e3 & Hr' & Hc).
  rewrite Hr in Hr'. injection Hr' as <- <-. destruct Hc as (d & rest & _ & Hi' & Hn' & Hl' & He' & _ & Hc).
  split_and!; [done| |congruence]. destruct (_ && _); destruct Hc as (Hc & Hf).
  - destruct Hf as [_ Hf]. by eapply owns_close.
  - destruct Hf as [Hf _]. by eapply owns_same.
Qed.

Lemma ErrorOccurred_good l n fd id e :
  good l n e → conns e !! fd = Some id → ∃ e', SessionManager_ErrorOccurred id e = (Ok tt, e') ∧ good l n e'.
Proof.
  intros (Hi & Hl & Hn) Hfd. destruct (einv_conns e Hi fd id Hfd) as (_ & Hid & _).
  unfold SessionManager_ErrorOccurred. rewrite (bind_ok _ _ _ _ _ (VerifySessionExist_ok id e Hid)).
  destruct (close_idle fd id e Hi Hfd) as (e3 & E3 & Hi3 & Hc3 & _ & Hl3 & Hf3 & Hn3 & He3 & _).
  exists e3. split; [done|]. split_and!; [done|by eapply owns_close|congruence].
Qed.

Lemma callbacks_zero e :
  0%Z ∉ sessions e →
  SessionManager_CanRead read_fuel 0 e = (Throw RuntimeError, e) ∧
  SessionManager_CanWrite 0 e = (Throw RuntimeError, e) ∧ SessionManager_ErrorOccurred 0 e = (Throw RuntimeError, e).
Proof.
  intros H0. unfold SessionManager_CanRead, SessionManager_CanWrite, SessionManager_ErrorOccurred, mbind, M_bind.
  by rewrite verify_zero.
Qed.

Lemma ProcessEvent_good l n fd mask e e' :
  good l n e → Server_ProcessEvent read_fuel fd mask e = (Ok tt, e') → good l n e'.
Proof.
  intros Hg. unfold Server_ProcessEvent. unfold mbind at 1, M_bind at 1, get.
  case_bool_decide; [done|]. intros Hr.
  apply bind_inv_ok in Hr as ([] & e1 & H1 & Hr). apply bind_inv_ok in Hr as ([] & e2 & H2 & H3).
  apply flag_good with (l := l) (n := n) in H1; [|intros; by eapply CanRead_good|apply callbacks_zero|done].
  apply flag_good with (l := l) (n := n) in H2; [|intros; by eapply CanWrite_good|apply callbacks_zero|done].
  apply flag_good with (l := l) (n := n) in H3; [done| |apply callbacks_zero|done].
  intros id e0 e0' Hg0 Hfd Hr. destruct (ErrorOccurred_good l n fd id e0 Hg0 Hfd) as (e3 & E3 & Hg3).
  rewrite Hr in E3. by injection E3 as ->.
Qed.

Lemma Echo_SetNonBlocking_frame fd e :
  ∃ k', SetNonBlocking fd e = (Ok tt, set_ekern k' e) ∧ fds k' = fds (ekern e) ∧ watched k' = watched (ekern e).
Proof.
  unfold SetNonBlocking, ecall, zoom, syscall. run_m.
  destruct (sys_fcntl fd F_GETFL 0 (ekern e)) as [o k1] eqn:E1. simpl.
  apply fcntl_frame in E1 as [Hf1 Hw1].
  destruct (sys_fcntl fd F_SETFL _ k1) as [o2 k2] eqn:E2. simpl.
  apply fcntl_frame in E2 as [Hf2 Hw2]. exists k2. split; [done|]. split; congruence.
Qed.

Lemma inv_new fd id c k e :
  echo_inv e → id = (enextConnId e + 1)%Z → conns e !! fd = None → fd ≠ elistenFd e →
  ch_fd c = fd → watched k = watched (ekern e) ∪ {[fd]} →
  echo_inv (set_conns (<[fd := id]> (conns e))
    (set_sessions (sessions e ∪ {[id]}) (set_sobjs (<[id := Session_Session id c]> (sobjs e))
      (set_enextConnId id (set_ekern k e))))).
Proof.
  intros [Hw Hl Hlo Hn Hc Hs] -> Hfd Hne Hch Hk. split; simpl.
  - rewrite dom_insert_L, Hk. set_solver.
  - by rewrite lookup_insert_ne.
  - rewrite Hk. set_solver.
  - lia.
  - intros fd' id'. rewrite lookup_insert. case_decide as Hd.
    + intros [= <-]. subst fd'. split_and!; [lia..|set_solver|].
      rewrite lookup_insert_eq. eexists. by split.
    + intros H'. destruct (Hc fd' id' H') as (H1 & H2 & s & H3 & H4).
      split_and!; [lia..|set_solver|]. exists s. rewrite lookup_insert_ne by lia. done.
  - intros id' [Hin| ->%elem_of_singleton]%elem_of_union.
    + destruct (Hs id' Hin) as [fd' H']. exists fd'. rewrite lookup_insert_ne; [done|congruence].
    + exists fd. apply lookup_insert_eq.
Qed.

Lemma ProcessNewConnection_good l n e e' :
  good l n e → (n + 1 < 2 ^ 64)%Z →
  Server_ProcessNewConnection e = (Ok tt, e') → good l (n + 1) e'.
Proof.
  intros (Hi & Hl & Hn) Hb. pose proof (einv_next e Hi) as Hpos.
  unfold Server_ProcessNewConnection, Server_Accept, ecall, zoom, syscall, check.
  unfold mbind, M_bind, get, mret, M_ret, throw.
  destruct (sys_accept (elistenFd e) (ekern e)) as [[x|[[fd addr] p]] k1] eqn:Ea; [done|].
  apply accept_fresh in Ea as (Hfresh & Hf1 & Hw1).
  destruct (lib_inet_ntop addr) as [x|text]; [done|].
  assert (Hnone : conns e !! fd = None).
  { apply not_elem_of_dom. pose proof (einv_watched e Hi). pose proof (watched_open (ekern e)).
    set_solver. }
  assert (Hlf : fd ≠ elistenFd e).
  { intros ->. apply Hfresh, watched_open, (einv_listen_open e Hi). }
  simpl. rewrite bool_decide_false by (rewrite Hnone; by intros []).
  unfold modify. simpl.
  assert (Hu : u64 (enextConnId e + 1) = (n + 1)%Z) by (rewrite Hn; apply wrap_small; lia).
  rewrite Hu.
  destruct (Echo_SetNonBlocking_frame fd (set_enextConnId (n + 1) (set_ekern k1 e))) as (k2 & -> & Hf2 & Hw2).
  simpl in Hf2, Hw2. unfold Epoll_Add, ecall, zoom, syscall, check, mbind, M_bind, get. simpl.
  destruct (sys_epoll_ctl_add _ fd _ k2) as [[x|[]] k3] eqn:Ec; [done|].
  apply ctl_add_ok in Ec as [Hf3 Hw3]. unfold gets, mret, M_ret. simpl.
  unfold SessionManager_NewConnection, VerifySessionNotExist, mbind, M_bind, get, modify. simpl.
  rewrite decide_False.
  2: { intros Hin. destruct (einv_sessions e Hi _ Hin) as [fd' H'].
       destruct (einv_conns e Hi _ _ H') as [? _]. lia. }
  intros [= <-]. split_and!; [| |done].
  2: { eapply owns_open; [exact Hl|exact Hfresh|done..|]. simpl. congruence. }
  apply (inv_new fd (n + 1)%Z _ k3); auto; [lia|]. by rewrite Hw3, Hw2, Hw1.
Qed.

Lemma ProcessEvents_good l evs n e e' :
  good l n e → (n + Z.of_nat (length evs) < 2 ^ 64)%Z →
  Server_ProcessEvents read_fuel evs e = (Ok tt, e') →
  ∃ n', good l n' e' ∧ (n ≤ n' ≤ n + Z.of_nat (length evs))%Z.
Proof.
  unfold Server_ProcessEvents. revert n e. induction evs as [|ev evs IH]; intros n e Hg Hb.
  { intros [= <-]. exists n. split; [done|simpl; lia]. }
  simpl (length _) in *. cbn [for_each]. intros Hr.
  apply bind_inv_ok in Hr as ([] & e1 & H1 & H2).
  unfold mbind, M_bind, get in H1. pose proof Hg as (Hi & Hl & Hn). rewrite (owns_listen _ _ Hl) in H1.
  assert (Hstep : ∃ n1, good l n1 e1 ∧ (n ≤ n1 ≤ n + 1)%Z).
  { destruct (ev.1 =? su_listen l)%Z.
    - exists (n + 1)%Z. split; [|lia]. eapply ProcessNewConnection_good; eauto. lia.
    - exists n. split; [|lia]. by eapply ProcessEvent_good. }
  destruct Hstep as (n1 & Hg1 & Hn1).
  destruct (IH n1 e1 Hg1 ltac:(lia) H2) as (n' & Hg' & Hn'). exists n'. split; [done|lia].
Qed.

Lemma Release_ok e :
  echo_inv e →
  ∃ e', Server_Release e = (Ok tt, e') ∧ conns e' = ∅ ∧ sessions e' = ∅ ∧ elistenFd e' = elistenFd e ∧
    eepollFd e' = eepollFd e ∧ fds (ekern e') = fds (ekern e) ∖ (dom (conns e) ∪ {[elistenFd e]}).
Proof.
  intros Hi. unfold Server_Release. unfold mbind at 1, M_bind at 1, get at 1.
  destruct (Release_loop_ok (S (size (conns e))) e Hi ltac:(lia)) as (e1 & E1 & Hi1 & Hc1 & Hl1 & Hep1 & Hf1).
  rewrite (bind_ok _ _ _ _ _ E1). unfold mbind at 1, M_bind at 1, get at 1.
  pose proof (einv_listen_open e1 Hi1) as Hw.
  destruct (ctl_del_ok (eepollFd e1) (elistenFd e1) (ekern e1) Hw) as (k2 & E2 & Hf2 & Hw2).
  assert (Ho : elistenFd e1 ∈ fds k2) by (rewrite Hf2; by apply watched_open).
  destruct (close_ok (elistenFd e1) k2 Ho) as (k3 & E3 & Hf3 & _).
  unfold Epoll_DeleteFd, Server_CloseFd, ecall, zoom, syscall, check. run_m.
  rewrite E2. simpl. rewrite E3. simpl. eexists. split; [done|]. simpl. split_and!; [done| |done|done|].
  - apply set_eq. intros id. split; [|set_solver]. intros Hin.
    destruct (einv_sessions e1 Hi1 id Hin) as [fd Hfd]. by rewrite Hc1 in Hfd.
  - rewrite Hf3, Hf2, Hf1, Hl1. set_solver.
Qed.

Lemma Epoll_Wait_good l n t e :
  good l n e →
  match Epoll_Wait t e with
  | (Ok evs, e') => good l n e' ∧ length evs ≤ MAX_EVENTS
  | (Throw _, _) => True
  | _ => False
  end.
Proof.
  intros (Hi & Hl & Hn). unfold Epoll_Wait, ecall, zoom, syscall, mbind, M_bind, get. simpl.
  destruct (sys_epoll_wait (eepollFd e) MAX_EVENTS t (ekern e)) as [o k'] eqn:E. simpl.
  pose proof (epoll_wait_frame _ _ _ _ _ _ E) as [Hf Hwk].
  assert (good l n (set_ekern k' e)) as Hg.
  { split_and!; [|by eapply owns_same|done]. destruct Hi as [Hw0 Hl0 Hlo Hn0 Hc0 Hs0]. split; simpl; rewrite ?Hwk; auto. }
  destruct o as [code|evs].
  - destruct (code =? EINTR)%Z; [|done]. split; [done|simpl; lia].
  - split; [done|]. by eapply epoll_wait_len.
Qed.

(** When the event loop returns, every connection was closed, no session and no entry is left, and of the descriptors
    only those are open that were open when it began, less the listening socket: the loop of [Release], which closes
    one connection per turn, ends. *)
Lemma loop_releases l n flags e e' :
  good l n e → (n + Z.of_nat (length flags * MAX_EVENTS) < 2 ^ 64)%Z →
  Server_loop read_fuel flags e = (Ok tt, e') →
  conns e' = ∅ ∧ sessions e' = ∅ ∧ eepollFd e' = su_epoll l ∧ fds (ekern e') = su_base l ∖ {[su_listen l]}.
Proof.
  revert n e. induction flags as [|b flags IH]; intros n e Hg Hb; [done|].
  cbn [Server_loop]. intros Hr. apply bind_inv_ok in Hr as (evs & e1 & H1 & Hr).
  apply bind_inv_ok in Hr as ([] & e2 & H2 & H3).
  pose proof (Epoll_Wait_good l n TIMEOUT_MS e Hg) as Hw. rewrite H1 in Hw. destruct Hw as [Hg1 Hlen].
  cbn [length] in Hb. unfold MAX_EVENTS in Hb, Hlen |- *.
  assert (Hstep : ∃ n2, good l n2 e2 ∧ (n ≤ n2 ≤ n + 10)%Z).
  { unfold when in H2. destruct (0 <? Z.of_nat (length evs))%Z.
    - destruct (ProcessEvents_good l evs n e1 e2 Hg1) as (n2 & ? & ?); [lia|done|].
      exists n2. split; [done|lia].
    - injection H2 as <-. exists n. split; [done|lia]. }
  destruct Hstep as (n2 & Hg2 & Hn2). destruct b.
  - destruct Hg2 as (Hi2 & [Hl2 He2 Hf2 Ha2] & _). destruct (Release_ok e2 Hi2) as (e3 & E3 & Hc3 & Hs3 & _ & He3 & Hf3).
    rewrite H3 in E3. injection E3 as ->. split_and!; [done|done|congruence|].
    rewrite Hf3, Hf2, Hl2. set_solver.
  - apply (IH n2 e2); [done|unfold MAX_EVENTS; lia|done].
Qed.

(** ** Properties *)

(** C11: however the text a client sends is cut into reads, the session keeps what follows the
    last full stop and has queued, in order, every sentence reversed and in brackets. *)
Theorem session_replies ts ws rest :
  concat ts = text_of ws rest → Forall no_stop ws → no_stop rest →
  feed_texts ts ([], []) = Ok (rest, concat (map reply ws)).
Proof. intros Ht Hws Hrest. apply (feed_texts_of ts [] [] ws rest); auto. apply not_elem_of_nil. Qed.

(** One read event passes the text the socket delivers through the session and keeps
    the session idle; it writes nothing, because a session is never writable between events. *)
Theorem CanRead_text fd id s e bss eof k' :
  echo_inv e → conns e !! fd = Some id → sobjs e !! id = Some s →
  reads READ_BUF_SIZE fd (ekern e) bss eof k' →
  Forall (λ bs, length bs < READ_BUF_SIZE ∧ Ascii.zero ∉ bs) bss → length bss < read_fuel →
  ∃ i o e', feed_text (concat bss) (s_input s, s_output s) = Ok (i, o) ∧
    SessionManager_CanRead read_fuel id e = (Ok tt, e') ∧ echo_inv e' ∧
    (∃ s', sobjs e' !! id = Some s' ∧ s_input s' = i ∧ s_output s' = o ∧
       ch_isEof (s_conn s') = eof || ch_isEof (s_conn s)) ∧
    ∀ fd', sent fd' (ekern e') = sent fd' (ekern e).
Proof.
  intros Hi Hfd Hs Hr Hall Hf. pose proof (CanRead_eq fd id s e Hi Hfd Hs) as Heq.
  rewrite (read_all_text _ _ fd _ bss eof k' [] read_fuel) in Heq by done.
  destruct (feed_text_ok (concat bss) (s_input s) (s_output s)) as (i & o & Hio).
  cbv zeta in Heq. simpl app in Heq. rewrite Hio in Heq. eexists i, o, _.
  destruct (CanRead_inv fd id e _ Hi Hfd Heq) as (Hi' & _ & _ & _ & _ & _ & Hse).
  split_and!; [done|exact Heq|done| |exact Hse]. eexists. split; [apply with_session_lookup|].
  by destruct eof.
Qed.

(** One write event sends a prefix of the queued output and keeps the rest; when the client
    has closed its side and nothing is left the session is closed and forgotten; the only
    other outcome is an exception. *)
Theorem CanWrite_step fd id s e :
  echo_inv e → conns e !! fd = Some id → sobjs e !! id = Some s →
  ∃ r e', SessionManager_CanWrite id e = (r, e') ∧
    match r with
    | Ok _ => ∃ done_ rest, s_output s = done_ ++ rest ∧ echo_inv e' ∧
        enextConnId e' = enextConnId e ∧ elistenFd e' = elistenFd e ∧ eepollFd e' = eepollFd e ∧
        sent fd (ekern e') = sent fd (ekern e) ++ done_ ∧
        (if ch_isEof (s_conn s) && bool_decide (rest = [])
         then conns e' = delete fd (conns e) ∧ (id ∉ sessions e') ∧ fds (ekern e') = fds (ekern e) ∖ {[fd]}
         else conns e' = conns e ∧ fds (ekern e') = fds (ekern e) ∧ sobjs e' !! id = Some (set_output rest s))
    | Throw x => x = RuntimeError
    | _ => False
    end.
Proof. apply CanWrite_cases. Qed.

(** An event that carries both EPOLLOUT and EPOLLERR, for a session whose client is gone
    and whose output is sent, closes the session and then looks its socket up again: the
    lookup inserts the id 0, and the exception for the unknown session leaves [Start]. *)
Theorem close_then_error_throws fd id s mask e :
  echo_inv e → conns e !! fd = Some id → sobjs e !! id = Some s →
  ch_isEof (s_conn s) = true → s_output s = [] →
  has_flag mask EPOLLIN = false → has_flag mask EPOLLOUT = true → has_flag mask EPOLLERR = true →
  ∃ e', Server_ProcessEvent read_fuel fd mask e = (Throw RuntimeError, e') ∧
    conns e' = <[fd := 0%Z]> (conns e) ∧ id ∉ sessions e'.
Proof.
  intros Hi Hfd Hs Heof Hout H1 H2 H3.
  destruct (CanWrite_cases fd id s e Hi Hfd Hs) as (r & e1 & Hr & Hc).
  assert (Hok : r = Ok tt).
  { revert Hr. destruct (einv_conns e Hi fd id Hfd) as (_ & Hid & s' & Hs' & Hidle).
    rewrite Hs in Hs'. injection Hs' as <-. pose proof Hidle as (Hfds & Hcl & Hr & Hwr).
    unfold SessionManager_CanWrite. rewrite (bind_ok _ _ _ _ _ (VerifySessionExist_ok id e Hid)).
    rewrite (bind_ok _ _ _ _ _ (supdate_eq id _ s e Hs)). unfold Session_Write.
    rewrite (bind_ok _ _ _ _ _ (sderef_eq id (set_isWritable true s) _ (with_session_lookup _ _ _ _))).
    cbn [s_isWritable set_isWritable negb]. unfold ConnHandler_Write. simpl s_output. rewrite Hout.
    rewrite bool_decide_true by done. rewrite bind_ret_l.
    rewrite (bind_ok _ _ _ _ _ (supdate_eq id _ _ _ (with_session_lookup _ _ _ _))).
    rewrite with_session_twice. simpl ekern.
    set (s2 := set_isWritable false (set_output [] (set_isWritable true s))).
    rewrite (bind_ok _ _ _ _ _ (sderef_eq id s2 _ (with_session_lookup _ _ _ _))).
    assert (Hi2 : echo_inv (with_session id s2 (ekern e) e)) by by apply (inv_session fd).
    simpl ch_isEof. rewrite Heof. simpl. destruct (close_idle fd id _ Hi2 Hfd) as (e3 & E3 & _).
    rewrite E3. by intros [= <- _]. }
  subst r. destruct Hc as (d & rest & Hd & Hi1 & _ & _ & _ & _ & Hcl).
  rewrite Hout in Hd. symmetry in Hd. apply app_nil in Hd as [_ ->]. rewrite Heof in Hcl.
  simpl in Hcl. destruct Hcl as (Hc1 & Hs1 & _).
  unfold Server_ProcessEvent. unfold mbind at 1, M_bind at 1, get.
  rewrite bool_decide_false by congruence. rewrite H1, H2, H3. unfold when. rewrite bind_ret_l.
  assert (Hat : conns_at fd e = (Ok id, e)) by (unfold conns_at; run_m; by rewrite Hfd).
  rewrite (bind_ok _ _ e tt e1) by (rewrite (bind_ok _ _ _ _ _ Hat); exact Hr).
  unfold conns_at, mbind, M_bind, get, modify, mret, M_ret. simpl.
  rewrite Hc1, lookup_delete_eq. unfold SessionManager_ErrorOccurred, mbind, M_bind.
  rewrite verify_zero by (simpl; by apply zero_no_session).
  eexists. split; [done|]. simpl. rewrite Hc1, insert_delete_eq. done.
Qed.

(** Three bytes of text, the size of the buffer, make [ConnHandler::Read] append an
    array without a terminator: the behaviour of almost any real exchange is undefined. *)
Theorem three_bytes_undefined fd id s e bs k' :
  echo_inv e → conns e !! fd = Some id → sobjs e !! id = Some s →
  sys_read fd READ_BUF_SIZE (ekern e) = (inr bs, k') → length bs = 3 → Ascii.zero ∉ bs →
  0 < read_fuel → (SessionManager_CanRead read_fuel id e).1 = Undef.
Proof.
  intros Hi Hfd Hs Hr Hl Hz Hf. rewrite (CanRead_eq fd id s e Hi Hfd Hs).
  destruct read_fuel as [|f]; [lia|]. cbn [read_all]. unfold mbind, M_bind, syscall. rewrite Hr.
  destruct bs as [|b bs]; [done|]. by rewrite filled_full.
Qed.
End echo_lemmas.

(** ** Witnesses *)

(** One session, number 1, on descriptor 5, whose client has sent [input]. *)
Definition sample_echo (input : list bytes) (output : bytes) (eof : bool)
    (events : list (list (Z * Z))) : Echo ref_kernel :=
  mkEcho (mkRef {[3%Z; 4%Z; 5%Z]} {[4%Z; 5%Z]} {[5%Z := input]} {[5%Z := 100]} ∅ [] events)
    3 4 {[5%Z := 1%Z]} 1 {[1%Z]}
    {[1%Z := mkSession 1 [] output false false false (mkConnHandler 5 (str "127.0.0.1") 443 eof)]}.

Lemma sample_echo_inv input output eof events : echo_inv (sample_echo input output eof events).
Proof.
  split; try done; try decide_closed.
  - intros fd id H. simpl in H. apply lookup_singleton_Some in H as [<- <-]. simpl.
    split_and!; [lia|lia|set_solver|]. eexists. split; [apply lookup_singleton_eq|done].
  - intros id Hid. simpl in Hid. apply elem_of_singleton in Hid as ->. exists 5%Z. done.
Qed.

Lemma session_replies_witness :
  feed_texts [str "ab"; str ".c"; str "d.e"] ([], []) = Ok (str "e", str "[ba][dc]").
Proof.
  apply (session_replies [str "ab"; str ".c"; str "d.e"] [str "ab"; str "cd"] (str "e"));
    [reflexivity|repeat constructor; decide_closed|decide_closed].
Defined.

Lemma CanRead_text_witness :
  ∃ i o e', feed_text (str "ab.") ([], []) = Ok (i, o) ∧
    SessionManager_CanRead 10 1 (sample_echo [str "ab"; str "."] [] false []) = (Ok tt, e') ∧ echo_inv e'.
Proof.
  assert (Hr : ∃ k', reads READ_BUF_SIZE 5 (ekern (sample_echo [str "ab"; str "."] [] false []))
    [str "ab"; str "."] false k').
  { eexists. eapply reads_more; [reflexivity|done|]. eapply reads_more; [reflexivity|done|].
    apply reads_again. reflexivity. }
  destruct Hr as [k' Hr].
  destruct (CanRead_text 10 5 1 _ (sample_echo [str "ab"; str "."] [] false [])
    [str "ab"; str "."] false k' (sample_echo_inv _ _ _ _) ltac:(reflexivity) ltac:(reflexivity) Hr)
    as (i & o & e' & H1 & H2 & H3 & _).
  - repeat constructor; try (vm_compute; lia); decide_closed.
  - simpl. lia.
  - by exists i, o, e'.
Defined.

Lemma CanWrite_step_witness :
  ∃ r e', SessionManager_CanWrite 1 (sample_echo [] (str "[ba]") false []) = (r, e').
Proof.
  destruct (CanWrite_step 5 1 _ (sample_echo [] (str "[ba]") false [])
    (sample_echo_inv _ _ _ _) ltac:(reflexivity) ltac:(reflexivity)) as (r & e' & H & _).
  by exists r, e'.
Defined.

Lemma close_then_error_throws_witness :
  ∃ e', Server_ProcessEvent 10 5 12 (sample_echo [] [] true []) = (Throw RuntimeError, e') ∧
    conns e' = {[5%Z := 0%Z]}.
Proof.
  destruct (close_then_error_throws 10 5 1 _ 12 (sample_echo [] [] true [])
    (sample_echo_inv _ _ _ _) ltac:(reflexivity) ltac:(reflexivity) ltac:(reflexivity)
    ltac:(reflexivity) ltac:(reflexivity) ltac:(reflexivity) ltac:(reflexivity))
    as (e' & H1 & H2 & _).
  exists e'. split; [exact H1|]. rewrite H2. vm_compute. reflexivity.
Defined.

Lemma three_bytes_undefined_witness :
  (SessionManager_CanRead 10 1 (sample_echo [str "abc"] [] false [])).1 = Undef.
Proof.
  eapply (three_bytes_undefined 10 5 1 _ (sample_echo [str "abc"] [] false []) (str "abc"));
    [apply sample_echo_inv|reflexivity|reflexivity|reflexivity|reflexivity|decide_closed|lia].
Defined.
