(* ===== verification/GrpcEvent.v ===== *)
(** * Events and their handlers (learn_grpc/hello_world/src/lib/event)

    [Event] of event.h packs the key of a handler and the operation it waits for into the
    64-bit tag given to a completion queue.  [EventHandlerManager] of event_handler_manager.h
    hands out the keys.  The server and the client use both; the type of the handlers
    is a parameter. *)

From S2P Require Import Prelude CppString.

(** ** Messages *)

(** The two text fields of a request: first and last name, or time stamp and content;
    and the responses. *)
Record request := mkRequest { field1 : bytes; field2 : bytes }.

Inductive response :=
  | Greeting (greeting : bytes)
  | ServerWords (timestamp content : bytes).

(** ** Event *)

(** The union on a little-endian machine: the key in the low half, the operation in the high. *)
Definition Event_key (key : Z) : Z := u32 key.

Definition getToken (token : Z) : Z := token.
Definition getKey (token : Z) : Z := u32 token.
Definition getOpt (token : Z) : Z := u32 (Z.shiftr token 32).
Definition setOpt (opt : Z) (token : Z) : Z := Z.lor (u32 token) (Z.shiftl (u32 opt) 32).

(** ** EventHandlerManager *)

Section manager.
  Context {H : Type}.

Record EventHandlerManager := mkManager {
  handlers : gmap Z H;
  lastKey : Z
}.

Definition EventHandlerManager_EventHandlerManager : EventHandlerManager := mkManager ∅ 0.

Definition set_handlers (h : gmap Z H) (m : EventHandlerManager) : EventHandlerManager :=
  mkManager h (lastKey m).
Definition set_lastKey (k : Z) (m : EventHandlerManager) : EventHandlerManager :=
  mkManager (handlers m) k.

(** [while (handlers.count(++lastKey) > 0)]: the key is incremented before each test. *)
Fixpoint add_loop (fuel : nat) (old : Z) : M EventHandlerManager unit :=
  match fuel with
  | O => lift OutOfFuel
  | S fuel' =>
      modify (λ m, set_lastKey (u32 (lastKey m + 1)) m);;
      m ← get;
      match handlers m !! lastKey m with
      | None => mret tt
      | Some _ => if (lastKey m =? old)%Z then throw RuntimeError else add_loop fuel' old
      end
  end.

(** The fuel: every turn but the last meets another key that is taken. *)
Definition EventHandlerManager_add (handler : H) : M EventHandlerManager Z :=
  m ← get;
  add_loop (S (size (handlers m))) (lastKey m);;
  modify (λ m, set_handlers (<[lastKey m := handler]> (handlers m)) m);;
  m ← get;
  mret (Event_key (lastKey m)).

Definition EventHandlerManager_contains (key : Z) (m : EventHandlerManager) : bool :=
  bool_decide (is_Some (handlers m !! key)).

Definition EventHandlerManager_get (key : Z) : M EventHandlerManager H :=
  m ← get; match handlers m !! key with None => throw RuntimeError | Some h => mret h end.

Definition EventHandlerManager_count (m : EventHandlerManager) : nat := size (handlers m).

Definition EventHandlerManager_remove (key : Z) : M EventHandlerManager unit :=
  modify (λ m, set_handlers (delete key (handlers m)) m).

Definition EventHandlerManager_clear : M EventHandlerManager unit :=
  modify (λ m, set_handlers ∅ m).

(** Keys are 32-bit. *)
Definition manager_inv (m : EventHandlerManager) : Prop :=
  (0 ≤ lastKey m < 2 ^ 32)%Z ∧ ∀ k, is_Some (handlers m !! k) → (0 ≤ k < 2 ^ 32)%Z.
End manager.
Arguments EventHandlerManager H : clear implicits.

(** ** Packing *)

Lemma u32_range z : (0 ≤ u32 z < 2 ^ 32)%Z.
Proof. apply wrap_range. lia. Qed.

Lemma u32_small z : (0 ≤ z < 2 ^ 32)%Z → u32 z = z.
Proof. apply wrap_small. Qed.

Lemma setOpt_sum opt token : setOpt opt token = (u32 token + u32 opt * 2 ^ 32)%Z.
Proof.
  unfold setOpt. rewrite Z.shiftl_mul_pow2 by lia. pose proof (u32_range token).
  rewrite <- Z.lxor_lor, <- Z.add_nocarry_lxor; try reflexivity.
  all: apply Z.bits_inj'; intros n Hn; rewrite Z.land_spec, Z.bits_0.
  all: destruct (decide (n < 32)%Z) as [Hlt|Hge].
  all: try (rewrite Z.mul_pow2_bits_low by lia; apply andb_false_r).
  all: rewrite (Z.bits_above_log2 (u32 token)); [done|lia|].
  all: destruct (decide (u32 token = 0)%Z) as [->|Hne]; [simpl; lia|].
  all: apply Z.log2_lt_pow2; [lia|]; eapply Z.lt_le_trans; [apply u32_range|].
  all: apply Z.pow_le_mono_r; lia.
Qed.

Lemma getKey_setOpt opt token : getKey (setOpt opt token) = getKey token.
Proof.
  rewrite setOpt_sum. unfold getKey, u32, wrap. rewrite Z.mod_add by lia. by rewrite Z.mod_mod by lia.
Qed.

Lemma getOpt_setOpt opt token : getOpt (setOpt opt token) = u32 opt.
Proof.
  rewrite setOpt_sum. unfold getOpt. rewrite Z.shiftr_div_pow2 by lia.
  rewrite Z.div_add by lia. rewrite (Z.div_small (u32 token)) by apply u32_range. simpl.
  apply u32_small, u32_range.
Qed.

Lemma setOpt_setOpt o1 o2 token : setOpt o2 (setOpt o1 token) = setOpt o2 token.
Proof.
  rewrite !(setOpt_sum o2). f_equal. change (getKey (setOpt o1 token) = getKey token).
  apply getKey_setOpt.
Qed.

(** ** Allocation of keys *)

Section add_lemmas.
  Context {H : Type}.
  Implicit Types m : EventHandlerManager H.

(** The keys tried, in order. *)
Definition tried (last : Z) (n : nat) : list Z := (λ i, u32 (last + Z.of_nat (S i))) <$> seq 0 n.

Lemma tried_NoDup last n : (Z.of_nat n ≤ 2 ^ 32)%Z → NoDup (tried last n).
Proof.
  intros Hn. unfold tried. apply NoDup_fmap_2_strong; [|apply NoDup_seq].
  intros i j Hi Hj. rewrite elem_of_seq in Hi, Hj. unfold u32, wrap. intros Heq.
  assert (Hd : ((last + Z.of_nat (S i) - (last + Z.of_nat (S j))) mod 2 ^ 32 = 0)%Z).
  { rewrite Zminus_mod, Heq, Z.sub_diag. done. }
  apply Z.mod_divide in Hd as [q Hq]; [|lia]. nia.
Qed.

(** A run of keys that are all taken is no longer than the map. *)
Lemma taken_length m last n :
  (Z.of_nat n ≤ 2 ^ 32)%Z → (∀ k, k ∈ tried last n → is_Some (handlers m !! k)) →
  n ≤ size (handlers m).
Proof.
  intros Hn Hall. rewrite <- size_dom.
  assert (Hs : list_to_set (tried last n) ⊆ dom (handlers m)).
  { intros k Hk. apply elem_of_list_to_set in Hk. apply elem_of_dom. auto. }
  apply subseteq_size in Hs. rewrite size_list_to_set in Hs by by apply tried_NoDup.
  unfold tried in Hs. by rewrite length_fmap, length_seq in Hs.
Qed.

Lemma tried_cons last n :
  (0 ≤ last < 2 ^ 32)%Z → tried last (S n) = u32 (last + 1) :: tried (u32 (last + 1)) n.
Proof.
  intros Hl. unfold tried. simpl. f_equal. rewrite <- seq_shift, <- list_fmap_compose.
  apply list_fmap_ext. intros i x _. simpl. unfold u32, wrap. rewrite Zplus_mod_idemp_l. f_equal. lia.
Qed.

Lemma tried_snoc last n : tried last (S n) = tried last n ++ [u32 (last + Z.of_nat (S n))].
Proof. unfold tried. by rewrite seq_S, fmap_app. Qed.

(** The loop stops at the first free key, or when it is back at the key it began with. *)
Lemma add_loop_spec fuel old m :
  (0 ≤ lastKey m < 2 ^ 32)%Z →
  (∃ n, n < fuel ∧ (∀ k, k ∈ tried (lastKey m) n → is_Some (handlers m !! k) ∧ k ≠ old) ∧
     let k := u32 (lastKey m + Z.of_nat (S n)) in
     (handlers m !! k = None ∧ add_loop fuel old m = (Ok tt, set_lastKey k m) ∨
      is_Some (handlers m !! k) ∧ k = old ∧ add_loop fuel old m = (Throw RuntimeError, set_lastKey k m)))
  ∨ ((∀ k, k ∈ tried (lastKey m) fuel → is_Some (handlers m !! k) ∧ k ≠ old) ∧
     (add_loop fuel old m).1 = OutOfFuel).
Proof.
  revert m. induction fuel as [|fuel IH]; intros m Hl.
  { right. split; [|done]. intros k Hk. by apply elem_of_nil in Hk. }
  set (k1 := u32 (lastKey m + 1)). set (m1 := set_lastKey k1 m).
  assert (Heq : add_loop (S fuel) old m =
    match handlers m !! k1 with
    | None => (Ok tt, m1)
    | Some _ => if (k1 =? old)%Z then (Throw RuntimeError, m1) else add_loop fuel old m1
    end).
  { cbn [add_loop]. unfold mbind, M_bind, modify, get. simpl. fold k1. fold m1.
    destruct (handlers m !! k1); [by destruct (k1 =? old)%Z|done]. }
  rewrite Heq. clear Heq. destruct (handlers m !! k1) as [h|] eqn:Hk1.
  2: { left. exists 0. split; [lia|]. split; [intros k Hk; by apply elem_of_nil in Hk|]. by left. }
  destruct (Z.eqb_spec k1 old) as [He|Hne].
  { left. exists 0. split; [lia|]. split; [intros k Hk; by apply elem_of_nil in Hk|]. right. eauto. }
  assert (Hl1 : (0 ≤ lastKey m1 < 2 ^ 32)%Z) by apply u32_range.
  assert (Hcons : ∀ n, (∀ k, k ∈ tried (lastKey m1) n → is_Some (handlers m !! k) ∧ k ≠ old) →
    ∀ k, k ∈ tried (lastKey m) (S n) → is_Some (handlers m !! k) ∧ k ≠ old).
  { intros n Hn k. rewrite tried_cons by done. intros [->|Hk]%elem_of_cons; [by eauto|]. by apply Hn. }
  destruct (IH m1 Hl1) as [(n & Hn & Hall & Hcase)|[Hall Hout]].
  - left. exists (S n). split; [lia|]. split; [by apply Hcons|].
    replace (u32 (lastKey m + Z.of_nat (S (S n)))) with (u32 (lastKey m1 + Z.of_nat (S n))); [exact Hcase|].
    simpl. unfold k1, u32, wrap. rewrite Zplus_mod_idemp_l. f_equal. lia.
  - right. split; [by apply Hcons|done].
Qed.

(** The size of the map bounds the number of turns. *)
Lemma add_loop_ends m :
  manager_inv m →
  (∃ k, (0 ≤ k < 2 ^ 32)%Z ∧ handlers m !! k = None ∧
     add_loop (S (size (handlers m))) (lastKey m) m = (Ok tt, set_lastKey k m)) ∨
  (Z.of_nat (size (handlers m)) = 2 ^ 32)%Z ∧
     add_loop (S (size (handlers m))) (lastKey m) m = (Throw RuntimeError, m).
Proof.
  intros [Hl Hk].
  assert (Hsz : (Z.of_nat (size (handlers m)) ≤ 2 ^ 32)%Z).
  { rewrite <- size_dom.
    assert (Hs : dom (handlers m) ⊆ list_to_set (seqZ 0 (2 ^ 32))).
    { intros k Hin%elem_of_dom. apply elem_of_list_to_set, elem_of_seqZ. apply Hk in Hin. lia. }
    apply subseteq_size in Hs. rewrite size_list_to_set in Hs by apply NoDup_seqZ.
    rewrite length_seqZ in Hs. lia. }
  assert (Hback : ∀ n, (Z.of_nat n < 2 ^ 32)%Z →
    u32 (lastKey m + Z.of_nat (S n)) = lastKey m → (Z.of_nat (S n) = 2 ^ 32)%Z).
  { intros n Hn Heq. unfold u32, wrap in Heq.
    assert (Hd : (Z.of_nat (S n) mod 2 ^ 32 = 0)%Z).
    { rewrite <- (Z.mod_small (lastKey m) (2 ^ 32)) in Heq at 2 by lia.
      replace (Z.of_nat (S n)) with (lastKey m + Z.of_nat (S n) - lastKey m)%Z by lia.
      rewrite Zminus_mod, Heq, Z.sub_diag. done. }
    apply Z.mod_divide in Hd as [q Hq]; [|lia]. nia. }
  destruct (add_loop_spec (S (size (handlers m))) (lastKey m) m Hl)
    as [(n & Hn & Hall & [[Hnone Hok]|(Hsome & Hold & Hthrow)])|[Hall Hout]].
  - left. eexists. split; [apply u32_range|]. split; [exact Hnone|exact Hok].
  - right. assert (Hn' : (Z.of_nat n < 2 ^ 32)%Z).
    { apply Z.lt_nge. intros Hge.
      assert (Hin : lastKey m ∈ tried (lastKey m) n).
      { unfold tried. apply list_elem_of_fmap. exists (Z.to_nat (2 ^ 32 - 1)).
        split; [|apply elem_of_seq; lia].
        unfold u32, wrap. replace (lastKey m + Z.of_nat (S (Z.to_nat (2 ^ 32 - 1))))%Z
          with (lastKey m + 1 * 2 ^ 32)%Z by lia.
        by rewrite Z.mod_add, Z.mod_small by lia. }
      by apply Hall in Hin as [_ ?]. }
    pose proof (Hback n Hn' Hold) as Hfull. split.
    { assert (S n ≤ size (handlers m)); [|lia]. apply (taken_length m (lastKey m)); [lia|].
      intros k. rewrite tried_snoc. intros [Hin| ->%list_elem_of_singleton]%elem_of_app; [|done].
      by apply Hall. } rewrite Hthrow, Hold. by destruct m.
  - exfalso. destruct (decide (Z.of_nat (S (size (handlers m))) ≤ 2 ^ 32)%Z) as [Hle|Hgt].
    + pose proof (taken_length m (lastKey m) (S (size (handlers m))) Hle
        (λ k Hin, proj1 (Hall k Hin))). lia.
    + assert (Hin : lastKey m ∈ tried (lastKey m) (S (size (handlers m)))); [|by apply Hall in Hin as [_ ?]].
      unfold tried. apply list_elem_of_fmap. exists (Z.to_nat (2 ^ 32 - 1)).
      split; [|apply elem_of_seq; lia].
      unfold u32, wrap. replace (lastKey m + Z.of_nat (S (Z.to_nat (2 ^ 32 - 1))))%Z
        with (lastKey m + 1 * 2 ^ 32)%Z by lia.
      by rewrite Z.mod_add, Z.mod_small by lia.
Qed.

(** What [add] does to a manager whose keys are 32-bit. *)
Lemma add_cases h m :
  manager_inv m →
  (∃ k m', EventHandlerManager_add h m = (Ok k, m') ∧ handlers m !! k = None ∧
     (0 ≤ k < 2 ^ 32)%Z ∧ handlers m' = <[k := h]> (handlers m) ∧ manager_inv m') ∨
  ((Z.of_nat (size (handlers m)) = 2 ^ 32)%Z ∧
     EventHandlerManager_add h m = (Throw RuntimeError, m)).
Proof.
  intros Hi. pose proof Hi as [Hl Hk]. unfold EventHandlerManager_add.
  unfold mbind at 1, M_bind at 1, get at 1.
  destruct (add_loop_ends m Hi) as [(k & Hr & Hnone & Hok)|[Hfull Hthrow]].
  - left. exists k. rewrite (bind_ok _ _ _ _ _ Hok). unfold mbind, M_bind, modify, get, mret, M_ret.
    simpl. eexists. split; [unfold Event_key; by rewrite u32_small|]. split_and!; try done; simpl; try lia.
    split; [done|]. intros k'. simpl. rewrite lookup_insert. case_decide as Hd; [subst; lia|apply Hk].
  - right. split; [done|]. unfold mbind at 1, M_bind at 1, get at 1. by rewrite (bind_throw _ _ _ _ _ Hthrow).
Qed.

(** ** Properties *)

(** [add] always ends. It gives the handler a 32-bit key no handler has and changes no
    other entry; it throws only when all 2^32 keys are taken, and then changes nothing. *)
Theorem add_fresh_or_full h m :
  manager_inv m →
  (∃ k m', EventHandlerManager_add h m = (Ok k, m') ∧ handlers m !! k = None ∧
     (0 ≤ k < 2 ^ 32)%Z ∧ handlers m' = <[k := h]> (handlers m) ∧ manager_inv m') ∨
  ((Z.of_nat (size (handlers m)) = 2 ^ 32)%Z ∧
     EventHandlerManager_add h m = (Throw RuntimeError, m)).
Proof. apply add_cases. Qed.
End add_lemmas.

(** Key and operation survive the trip through the completion queue's tag, and setting
    the operation replaces the old one and keeps the key. *)
Theorem event_roundtrip key opt opt' :
  (0 ≤ key < 2 ^ 32)%Z → (0 ≤ opt < 2 ^ 32)%Z →
  getKey (setOpt opt (Event_key key)) = key ∧ getOpt (setOpt opt (Event_key key)) = opt ∧
  (0 ≤ getToken (setOpt opt (Event_key key)) < 2 ^ 64)%Z ∧
  setOpt opt (setOpt opt' (Event_key key)) = setOpt opt (Event_key key).
Proof.
  intros Hk Ho. rewrite getKey_setOpt, getOpt_setOpt, setOpt_setOpt. unfold getKey, Event_key, getToken.
  rewrite setOpt_sum, !(u32_small key), !(u32_small opt) by done. split_and!; [done|done|lia|lia|done].
Qed.

(** ** Witnesses *)

(** The next key is taken, and the counter wraps. *)
Lemma add_fresh_or_full_witness :
  ∃ m', EventHandlerManager_add tt (mkManager {[0%Z := tt]} (2 ^ 32 - 1)) = (Ok 1%Z, m').
Proof.
  destruct (add_fresh_or_full tt (mkManager {[0%Z := tt]} (2 ^ 32 - 1)))
    as [(k & m' & H & Hk & _)|[H _]].
  - split; [simpl; lia|]. intros k Hk. simpl in Hk. rewrite lookup_singleton_is_Some in Hk. by subst.
  - exists m'. assert (Hk1 : k = 1%Z) by (revert H; vm_compute; congruence). rewrite Hk1 in H. exact H.
  - vm_compute in H. discriminate H.
Defined.

Lemma event_roundtrip_witness :
  getKey (setOpt 4 (Event_key 7)) = 7%Z ∧ getOpt (setOpt 4 (Event_key 7)) = 4%Z.
Proof. destruct (event_roundtrip 7 4 1) as (H1 & H2 & _); [lia|lia|]. split; [exact H1|exact H2]. Defined.
