(* ===== verification/GrpcServer.v ===== *)
(** * The asynchronous gRPC server (learn_grpc/hello_world/src/server/async)

    [ServerProactor] of server_proactor.h and server_proactor.cpp and the eight handler
    classes of event_handler/.  A handler is a state machine driven by the completions of
    the operations it issued; an operation carries the tag (key and next step) that
    comes back with its completion.

    gRPC itself is not modelled: [outstanding] are the operations it was given and has not
    completed, and a step of the system delivers any one of them, with either outcome and,
    for an operation that receives, any message. *)

From S2P Require Import Prelude CppString GrpcEvent.

(** [enum SERVER_EVENT_OPT]. *)
Definition RECEIVE : Z := 1.
Definition FINISH : Z := 2.
Definition WRITE : Z := 3.
Definition READ : Z := 4.

Inductive rpc :=
  | Hello | HelloAgain | Goodbye | GoodbyeAgain
  | ChatGreet | ChatListen | ChatSpeak | ChatTalk.

#[global] Instance rpc_eq_dec : EqDecision rpc.
Proof. solve_decision. Defined.

(** Operations given to gRPC: [Request...], [Read], [Write], [Finish] with or without a
    response and with status OK or not. *)
Inductive op :=
  | ORequest (r : rpc) (cq : nat)
  | ORead
  | OWrite (m : response)
  | OFinish (m : option response) (ok : bool).

Record handler := mkHandler {
  h_rpc : rpc;
  h_cq : nat;
  h_request : request;
  h_responses : list response;
  h_finish : bool
}.

Definition new_handler (r : rpc) (cq : nat) : handler := mkHandler r cq (mkRequest [] []) [] false.

Record Proactor := mkProactor {
  handlerManager : EventHandlerManager handler;
  stopped : bool;
  cqIdx : nat;
  outstanding : list (Z * op)
}.

Definition set_handlerManager m p := mkProactor m (stopped p) (cqIdx p) (outstanding p).
Definition set_stopped b p := mkProactor (handlerManager p) b (cqIdx p) (outstanding p).
Definition set_cqIdx n p := mkProactor (handlerManager p) (stopped p) n (outstanding p).
Definition set_outstanding l p := mkProactor (handlerManager p) (stopped p) (cqIdx p) l.

Definition ServerProactor_ServerProactor : Proactor :=
  mkProactor EventHandlerManager_EventHandlerManager false 0 [].

(** ** Operations of the proactor and of a handler *)

Definition on_manager {A} (m : M (EventHandlerManager handler) A) : M Proactor A :=
  zoom handlerManager set_handlerManager m.

Definition issue (token : Z) (o : op) : M Proactor unit :=
  modify (λ p, set_outstanding (outstanding p ++ [(token, o)]) p).

(** [registerHandler] with the request function of method [r]. *)
Definition registerHandler (r : rpc) (cq : nat) : M Proactor unit :=
  p ← get;
  if stopped p then mret tt
  else
    key ← on_manager (EventHandlerManager_add (new_handler r cq));
    issue (setOpt RECEIVE (Event_key key)) (ORequest r cq).

(** The constructors of the handler classes register the object. *)
Definition HelloEventHandler (cq : nat) : M Proactor unit := registerHandler Hello cq.
Definition HelloAgainEventHandler (cq : nat) : M Proactor unit := registerHandler HelloAgain cq.
Definition GoodbyeEventHandler (cq : nat) : M Proactor unit := registerHandler Goodbye cq.
Definition GoodbyeAgainEventHandler (cq : nat) : M Proactor unit := registerHandler GoodbyeAgain cq.
Definition ChatGreetEventHandler (cq : nat) : M Proactor unit := registerHandler ChatGreet cq.
Definition ChatListenEventHandler (cq : nat) : M Proactor unit := registerHandler ChatListen cq.
Definition ChatSpeakEventHandler (cq : nat) : M Proactor unit := registerHandler ChatSpeak cq.
Definition ChatTalkEventHandler (cq : nat) : M Proactor unit := registerHandler ChatTalk cq.

Definition construct (r : rpc) : nat → M Proactor unit :=
  match r with
  | Hello => HelloEventHandler
  | HelloAgain => HelloAgainEventHandler
  | Goodbye => GoodbyeEventHandler
  | GoodbyeAgain => GoodbyeAgainEventHandler
  | ChatGreet => ChatGreetEventHandler
  | ChatListen => ChatListenEventHandler
  | ChatSpeak => ChatSpeakEventHandler
  | ChatTalk => ChatTalkEventHandler
  end.

Definition this (key : Z) : M Proactor handler :=
  p ← get; match handlers (handlerManager p) !! key with Some h => mret h | None => undef end.

Definition update_this (key : Z) (f : handler → handler) : M Proactor unit :=
  on_manager (modify (λ m, set_handlers (alter f key (handlers m)) m)).

Definition set_finish (h : handler) : handler :=
  mkHandler (h_rpc h) (h_cq h) (h_request h) (h_responses h) true.
Definition set_responses (l : list response) (h : handler) : handler :=
  mkHandler (h_rpc h) (h_cq h) (h_request h) l (h_finish h).
Definition set_request (q : request) (h : handler) : handler :=
  mkHandler (h_rpc h) (h_cq h) q (h_responses h) (h_finish h).

Definition isComplete (h : handler) : bool := h_finish h.

Section process.
  (** The text of the current time, at each call in one [process]. *)
  Context (GetCurrentTimeString : nat → bytes).

(** The [process] that the four name services and [ChatGreet] share: only the handler
    created and the response differ. *)
Definition unary_process (create : nat → M Proactor unit) (respond : request → response) (optOk : bool) (event : Z)
    : M Proactor unit :=
  let key := getKey event in
  if (getOpt event =? RECEIVE)%Z then
    h ← this key;
    create (h_cq h);;
    if optOk then issue (setOpt FINISH event) (OFinish (Some (respond (h_request h))) true)
    else update_this key set_finish
  else if (getOpt event =? FINISH)%Z then update_this key set_finish
  else mret tt.

Definition names (q : request) : bytes := field1 q ++ str " " ++ field2 q.

Definition HelloEventHandler_process : bool → Z → M Proactor unit :=
  unary_process HelloEventHandler (λ q, Greeting (str "Hello, " ++ names q)).
Definition HelloAgainEventHandler_process : bool → Z → M Proactor unit :=
  unary_process HelloAgainEventHandler (λ q, Greeting (str "Hello, " ++ names q)).
Definition GoodbyeEventHandler_process : bool → Z → M Proactor unit :=
  unary_process GoodbyeEventHandler (λ q, Greeting (str "Goodbye, " ++ names q)).
Definition GoodbyeAgainEventHandler_process : bool → Z → M Proactor unit :=
  unary_process GoodbyeAgainEventHandler (λ q, Greeting (str "Goodbye, " ++ names q)).
Definition ChatGreetEventHandler_process : bool → Z → M Proactor unit :=
  unary_process ChatGreetEventHandler (λ _, ServerWords (GetCurrentTimeString 0) (str "Me too!")).

(** [asyncWriter.Write(responses.front(), ...); responses.pop();] *)
Definition write_front (event : Z) : M Proactor unit :=
  let key := getKey event in
  h ← this key;
  match h_responses h with
  | [] => undef
  | m :: l => issue (setOpt WRITE event) (OWrite m);; update_this key (set_responses l)
  end.

Definition ChatListenEventHandler_process (optOk : bool) (event : Z) : M Proactor unit :=
  let key := getKey event in
  if (getOpt event =? RECEIVE)%Z then
    h ← this key;
    ChatListenEventHandler (h_cq h);;
    if optOk then
      update_this key (λ h, set_responses (h_responses h ++
        [ServerWords (GetCurrentTimeString 0) (str "aaa");
         ServerWords (GetCurrentTimeString 1) (str "bbb");
         ServerWords (GetCurrentTimeString 2) (str "ccc")]) h);;
      write_front event
    else update_this key set_finish
  else if (getOpt event =? WRITE)%Z then
    if optOk then
      h ← this key;
      if bool_decide (h_responses h = []) then issue (setOpt FINISH event) (OFinish None true)
      else write_front event
    else update_this key set_finish
  else if (getOpt event =? FINISH)%Z then update_this key set_finish
  else mret tt.

Definition ChatSpeakEventHandler_process (optOk : bool) (event : Z) : M Proactor unit :=
  let key := getKey event in
  if (getOpt event =? RECEIVE)%Z then
    h ← this key;
    ChatSpeakEventHandler (h_cq h);;
    if optOk then issue (setOpt READ event) ORead else update_this key set_finish
  else if (getOpt event =? READ)%Z then
    if optOk then issue event ORead
    else issue (setOpt FINISH event)
           (OFinish (Some (ServerWords (GetCurrentTimeString 0) (str "OK."))) true)
  else if (getOpt event =? FINISH)%Z then update_this key set_finish
  else mret tt.

(** After a failed write [Finish] is issued with the tag as it is: the step stays WRITE. *)
Definition ChatTalkEventHandler_process (optOk : bool) (event : Z) : M Proactor unit :=
  let key := getKey event in
  if (getOpt event =? RECEIVE)%Z then
    h ← this key;
    ChatTalkEventHandler (h_cq h);;
    if optOk then issue (setOpt READ event) ORead else update_this key set_finish
  else if (getOpt event =? READ)%Z then
    if optOk then
      h ← this key;
      issue (setOpt WRITE event)
        (OWrite (ServerWords (GetCurrentTimeString 0) (field2 (h_request h))))
    else issue (setOpt FINISH event) (OFinish None true)
  else if (getOpt event =? WRITE)%Z then
    if optOk then issue (setOpt READ event) ORead
    else issue event (OFinish None false)
  else if (getOpt event =? FINISH)%Z then update_this key set_finish
  else update_this key set_finish.

(** [EventHandler::process] is virtual. *)
Definition process (r : rpc) : bool → Z → M Proactor unit :=
  match r with
  | Hello => HelloEventHandler_process
  | HelloAgain => HelloAgainEventHandler_process
  | Goodbye => GoodbyeEventHandler_process
  | GoodbyeAgain => GoodbyeAgainEventHandler_process
  | ChatGreet => ChatGreetEventHandler_process
  | ChatListen => ChatListenEventHandler_process
  | ChatSpeak => ChatSpeakEventHandler_process
  | ChatTalk => ChatTalkEventHandler_process
  end.

(** ** The demultiplexer *)

(** What a thread does first: one handler of each class on its queue. *)
Definition demultiplex_start : M Proactor unit :=
  p ← get;
  let cq := cqIdx p in
  modify (set_cqIdx (S cq));;
  for_each (λ r, construct r cq)
    [Hello; HelloAgain; Goodbye; GoodbyeAgain; ChatGreet; ChatListen; ChatSpeak; ChatTalk].

(** A completion taken from the queue. *)
Definition demultiplex_event (token : Z) (ok : bool) : M Proactor unit :=
  let key := getKey token in
  p ← get;
  if negb (EventHandlerManager_contains key (handlerManager p)) then mret tt
  else
    h ← on_manager (EventHandlerManager_get key);
    process (h_rpc h) ok token;;
    h ← this key;
    when (isComplete h) (on_manager (EventHandlerManager_remove key)).

Inductive NextStatus := SHUTDOWN | TIMEOUT | GOT_EVENT (token : Z) (ok : bool).

(** One turn of a thread's loop, with what [AsyncNext] returned; [true]: it leaves the loop. *)
Definition demultiplex_next (status : NextStatus) : M Proactor bool :=
  match status with
  | SHUTDOWN => mret true
  | TIMEOUT => p ← get; mret (EventHandlerManager_count (handlerManager p) =? 0)%nat
  | GOT_EVENT token ok => demultiplex_event token ok;; mret false
  end.

Definition ServerProactor_stop : M Proactor unit := modify (set_stopped true).

(** ** The system *)

(** The message a receiving operation stores in the handler. *)
Definition receives (o : op) : bool :=
  match o with ORequest _ _ | ORead => true | _ => false end.

Definition deliver (token : Z) (o : op) (ok : bool) (q : request) : M Proactor unit :=
  when (ok && receives o) (update_this (getKey token) (set_request q));;
  demultiplex_event token ok.

Inductive server_step : Proactor → Proactor → Prop :=
  | step_start p p' : demultiplex_start p = (Ok tt, p') → server_step p p'
  | step_stop p p' : ServerProactor_stop p = (Ok tt, p') → server_step p p'
  | step_deliver p l1 token o l2 ok q p' :
      outstanding p = l1 ++ (token, o) :: l2 →
      deliver token o ok q (set_outstanding (l1 ++ l2) p) = (Ok tt, p') → server_step p p'.

Definition server_reachable : Proactor → Prop := rtc server_step ServerProactor_ServerProactor.
End process.

(** ** The invariant *)

Definition is_request (r : rpc) (cq : nat) (o : op) : bool :=
  match o with ORequest r' cq' => bool_decide (r' = r ∧ cq' = cq) | _ => false end.

(** How many requests for calls of [r] wait on queue [cq]. *)
Definition armed (r : rpc) (cq : nat) (l : list (Z * op)) : nat :=
  sum_list_with (λ x, Nat.b2n (is_request r cq x.2)) l.

Definition op_keys (l : list (Z * op)) : list Z := (λ x, getKey x.1) <$> l.

(** The step in a tag is the one its operation stands for; [Talk] breaks the rule after a
    failed write. *)
Definition op_matches (r : rpc) (cq : nat) (opt : Z) (o : op) : Prop :=
  match o with
  | ORequest r' cq' => opt = RECEIVE ∧ r' = r ∧ cq' = cq
  | ORead => opt = READ ∧ (r = ChatSpeak ∨ r = ChatTalk)
  | OWrite _ => opt = WRITE ∧ (r = ChatListen ∨ r = ChatTalk)
  | OFinish _ ok => opt = FINISH ∨ (r = ChatTalk ∧ opt = WRITE ∧ ok = false)
  end.

(** [busy]: the handler whose operation was just delivered; [gap]: the requests still to
    be issued. *)
Record srv_inv (busy : option Z) (gap : list (rpc * nat)) (p : Proactor) : Prop := {
  si_manager : manager_inv (handlerManager p);
  si_nodup : NoDup (op_keys (outstanding p));
  si_dom k : is_Some (handlers (handlerManager p) !! k) ↔
    busy = Some k ∨ k ∈ op_keys (outstanding p);
  si_busy k : busy = Some k → k ∉ op_keys (outstanding p);
  si_match tok o h : (tok, o) ∈ outstanding p →
    handlers (handlerManager p) !! getKey tok = Some h →
    op_matches (h_rpc h) (h_cq h) (getOpt tok) o;
  si_running k h : handlers (handlerManager p) !! k = Some h → h_finish h = false;
  si_cq tok r cq : (tok, ORequest r cq) ∈ outstanding p → cq < cqIdx p;
  si_armed r cq : stopped p = false → cq < cqIdx p →
    armed r cq (outstanding p) = if decide ((r, cq) ∈ gap) then 0 else 1
}.

Lemma armed_app r cq l1 l2 : armed r cq (l1 ++ l2) = armed r cq l1 + armed r cq l2.
Proof. apply sum_list_with_app. Qed.

Lemma op_keys_app l1 l2 : op_keys (l1 ++ l2) = op_keys l1 ++ op_keys l2.
Proof. apply fmap_app. Qed.

Lemma op_keys_elem tok o l : (tok, o) ∈ l → getKey tok ∈ op_keys l.
Proof. intros Hin. apply list_elem_of_fmap. by exists (tok, o). Qed.

Lemma armed_zero r cq l : (∀ tok, (tok, ORequest r cq) ∉ l) → armed r cq l = 0.
Proof.
  intros Hn. induction l as [|[tok o] l IH]; [done|]. unfold armed in *. simpl.
  rewrite IH by set_solver. destruct o; simpl; try done. rewrite bool_decide_false; [done|].
  intros [-> ->]. apply (Hn tok). set_solver.
Qed.

Lemma set_handlers_inv (f : handler → handler) k m :
  manager_inv m → manager_inv (set_handlers (alter f k (handlers m)) m).
Proof.
  intros [Hl Hk]. split; [done|]. intros k'. simpl. rewrite lookup_alter. case_decide; subst; [|apply Hk].
  intros Hs. apply Hk. destruct (handlers m !! k'); [eauto|by destruct Hs].
Qed.

(** Changing the data of a handler, not its class, queue or end. *)
Lemma inv_update b g key f p :
  (∀ h, h_rpc (f h) = h_rpc h ∧ h_cq (f h) = h_cq h ∧ h_finish (f h) = h_finish h) →
  srv_inv b g p →
  ∃ p', update_this key f p = (Ok tt, p') ∧ srv_inv b g p' ∧ outstanding p' = outstanding p ∧
    stopped p' = stopped p ∧
    handlers (handlerManager p') = alter f key (handlers (handlerManager p)).
Proof.
  intros Hf [Hm Hnd Hdom Hb Hma Hr Hcq Ha]. eexists. split; [done|]. split; [|done].
  split; simpl; try done.
  - by apply set_handlers_inv.
  - intros k. rewrite <- Hdom, lookup_alter. case_decide; [|done]. subst.
    by rewrite fmap_is_Some.
  - intros tok o h Hin. rewrite lookup_alter. case_decide; [|by apply Hma].
    destruct (handlers (handlerManager p) !! getKey tok) as [h0|] eqn:E; [|by subst; rewrite E].
    subst. rewrite E. intros [= <-]. destruct (Hf h0) as (-> & -> & _). by apply (Hma tok o h0).
  - intros k h. rewrite lookup_alter. case_decide; [|apply Hr]. subst.
    destruct (handlers (handlerManager p) !! k) as [h0|] eqn:E; [|done]. simpl. intros [= <-].
    destruct (Hf h0) as (_ & _ & ->). by apply (Hr k).
Qed.

(** A handler whose operation was delivered issues the next one. *)
Lemma inv_issue k g h tok o p :
  srv_inv (Some k) g p → handlers (handlerManager p) !! k = Some h → getKey tok = k →
  op_matches (h_rpc h) (h_cq h) (getOpt tok) o → (∀ r cq, o ≠ ORequest r cq) →
  ∃ p', issue tok o p = (Ok tt, p') ∧ srv_inv None g p' ∧ stopped p' = stopped p ∧
    outstanding p' = outstanding p ++ [(tok, o)] ∧ handlerManager p' = handlerManager p.
Proof.
  intros [Hm Hnd Hdom Hb Hma Hr Hcq Ha] Hk Hkey Hop Hnr. eexists. split; [done|]. split; [|done].
  split; simpl; try done.
  - rewrite op_keys_app. apply NoDup_app. split_and!; [done| |apply NoDup_singleton].
    intros x Hx ->%list_elem_of_singleton. simpl in Hx. rewrite Hkey in Hx. by apply (Hb k).
  - intros k'. rewrite op_keys_app, Hdom. unfold op_keys at 2. simpl. rewrite Hkey. set_solver.
  - intros tok' o' h'. rewrite elem_of_app, list_elem_of_singleton. intros [Hin|[= -> ->]]; [by apply Hma|].
    rewrite Hkey, Hk. by intros [= <-].
  - intros tok' r cq. rewrite elem_of_app, list_elem_of_singleton. intros [Hin|[= _ <-]]; [by eapply Hcq|].
    by destruct (Hnr r cq).
  - intros r cq Hst Hlt. rewrite armed_app. unfold armed at 2. simpl.
    destruct o; simpl; rewrite ?Nat.add_0_r; auto. by destruct (Hnr r0 cq0).
Qed.

Lemma alter_delete {A} (f : A → A) k (m : gmap Z A) : delete k (alter f k m) = delete k m.
Proof.
  apply map_eq. intros j. rewrite !lookup_delete. case_decide; [done|]. by rewrite lookup_alter_ne.
Qed.

(** A handler that ends is removed. *)
Lemma inv_remove k g p m' :
  srv_inv (Some k) g p → handlers m' = delete k (handlers (handlerManager p)) →
  lastKey m' = lastKey (handlerManager p) → srv_inv None g (set_handlerManager m' p).
Proof.
  intros [[Hl Hk] Hnd Hdom Hb Hma Hr Hcq Ha] Hh Hla. split; simpl; try done; rewrite ?Hh.
  - split; [by rewrite Hla|]. intros k'. rewrite Hh, lookup_delete. case_decide; [by intros []|apply Hk].
  - intros k'. rewrite lookup_delete. case_decide as Hd.
    + subst k'. split; [by intros []|]. intros [|Hin]; [done|]. by destruct (Hb k).
    + rewrite Hdom. naive_solver.
  - intros tok o h Hin. rewrite lookup_delete. case_decide; [done|]. by apply Hma.
  - intros k' h. rewrite lookup_delete. case_decide; [done|]. apply Hr.
Qed.

(** Registering a handler of class [r] on queue [cq]. *)
Lemma srv_register b g r cq p p' :
  srv_inv b ((r, cq) :: g) p → cq < cqIdx p → (r, cq) ∉ g →
  registerHandler r cq p = (Ok tt, p') →
  srv_inv b g p' ∧ stopped p' = stopped p ∧ cqIdx p' = cqIdx p ∧
  (∀ k h, handlers (handlerManager p) !! k = Some h → handlers (handlerManager p') !! k = Some h).
Proof.
  intros Hi Hcq Hng. unfold registerHandler, mbind, M_bind, get. destruct (stopped p) eqn:Hst.
  { intros [= <-]. split_and!; auto. destruct Hi. split; auto. by rewrite Hst. }
  unfold on_manager, zoom.
  destruct (EventHandlerManager_add (new_handler r cq) (handlerManager p)) as [[k|e| |] m'] eqn:Ea; try done.
  intros [= <-].
  destruct (add_cases (new_handler r cq) (handlerManager p) (si_manager _ _ _ Hi))
    as [(k' & m2 & Ea' & Hnone & Hrange & Hh & Hm')|[_ Ea']]; rewrite Ea in Ea'; [|done].
  injection Ea' as -> ->.
  assert (Hkey : getKey (setOpt RECEIVE (Event_key k')) = k').
  { rewrite getKey_setOpt. unfold getKey, Event_key. rewrite (u32_small k') by done. by apply u32_small. }
  destruct Hi as [Hm Hnd Hdom Hb Hma Hr Hcqs Ha].
  assert (Hfresh : k' ∉ op_keys (outstanding p)).
  { intros Hin. assert (is_Some (handlers (handlerManager p) !! k')) as [? Hs] by (apply Hdom; auto).
    by rewrite Hnone in Hs. }
  split_and!; [|done|done|].
  - split; simpl; try done; rewrite ?Hh.
    + rewrite op_keys_app. apply NoDup_app. split_and!; [done| |apply NoDup_singleton].
      intros x Hx ->%list_elem_of_singleton. simpl in Hx. by rewrite Hkey in Hx.
    + intros k. rewrite op_keys_app, lookup_insert. unfold op_keys at 2. simpl. rewrite Hkey.
      case_decide as Hd.
      * subst. split; [intros _; right; set_solver|eauto].
      * rewrite Hdom. set_solver.
    + intros k Hk. rewrite op_keys_app. unfold op_keys at 2. simpl. rewrite Hkey.
      assert (k ≠ k'). { intros ->. assert (is_Some (handlers (handlerManager p) !! k')) as [? Hs]
        by (apply Hdom; auto). by rewrite Hnone in Hs. }
      specialize (Hb k Hk). set_solver.
    + intros tok o h. rewrite elem_of_app, list_elem_of_singleton. intros [Hin|[= -> ->]].
      * assert (getKey tok ≠ k') by (intros <-; by apply Hfresh; eapply op_keys_elem).
        rewrite lookup_insert_ne by done. by apply Hma.
      * rewrite Hkey, lookup_insert_eq, getOpt_setOpt. by intros [= <-].
    + intros k h. rewrite lookup_insert. case_decide; [by intros [= <-]|apply Hr].
    + intros tok r0 cq0. rewrite elem_of_app, list_elem_of_singleton. intros [Hin|[= _ _ ->]]; [|done].
      by eapply Hcqs.
    + intros r0 cq0 _ Hlt. rewrite armed_app, Ha by done. unfold armed. simpl.
      destruct (decide (r = r0 ∧ cq = cq0)) as [[<- <-]|Hne].
      * rewrite bool_decide_true, (decide_True (P := (r, cq) ∈ _)) by (done || set_solver).
        by rewrite decide_False.
      * rewrite bool_decide_false by done. simpl. rewrite Nat.add_0_r.
        apply decide_ext. rewrite elem_of_cons. naive_solver.
  - intros k h Hk. simpl. rewrite Hh, lookup_insert_ne; [done|]. intros ->. congruence.
Qed.

(** ** Delivering a completion *)

Definition gap_of (o : op) : list (rpc * nat) :=
  match o with ORequest r cq => [(r, cq)] | _ => [] end.

Lemma inv_take l1 tok o l2 p :
  srv_inv None [] p → outstanding p = l1 ++ (tok, o) :: l2 →
  srv_inv (Some (getKey tok)) (gap_of o) (set_outstanding (l1 ++ l2) p) ∧
  (∀ r cq, o = ORequest r cq → cq < cqIdx p) ∧
  ∃ h, handlers (handlerManager p) !! getKey tok = Some h ∧
    op_matches (h_rpc h) (h_cq h) (getOpt tok) o.
Proof.
  intros [Hm Hnd Hdom Hb Hma Hr Hcq Ha] Hout.
  assert (Hperm : op_keys (outstanding p) ≡ₚ getKey tok :: op_keys (l1 ++ l2)).
  { rewrite Hout. unfold op_keys. rewrite !fmap_app. simpl. by rewrite Permutation_middle. }
  assert (Hin : (tok, o) ∈ outstanding p) by (rewrite Hout; set_solver).
  split_and!.
  - split; simpl; try done.
    + rewrite Hperm in Hnd. by apply NoDup_cons in Hnd as [_ ?].
    + intros k. rewrite Hdom, Hperm, elem_of_cons. naive_solver.
    + intros k [= <-]. rewrite Hperm in Hnd. by apply NoDup_cons in Hnd as [? _].
    + intros tok' o' h' Hin'. apply Hma. rewrite Hout. set_solver.
    + intros tok' r cq Hin'. apply (Hcq tok' r). rewrite Hout. set_solver.
    + intros r cq Hst Hlt. specialize (Ha r cq Hst Hlt). rewrite Hout in Ha.
      rewrite armed_app in Ha. unfold armed at 2 in Ha. simpl in Ha. fold (armed r cq l2) in Ha.
      rewrite armed_app. unfold gap_of. destruct o as [r0 cq0| | |]; simpl in Ha; try (simpl; lia).
      destruct (decide (r0 = r ∧ cq0 = cq)) as [[-> ->]|Hne].
      * rewrite bool_decide_true in Ha by done. rewrite decide_True by set_solver. simpl in Ha. lia.
      * rewrite bool_decide_false in Ha by done. rewrite decide_False by set_solver. simpl in Ha. lia.
  - intros r cq ->. by apply (Hcq tok r cq).
  - assert (is_Some (handlers (handlerManager p) !! getKey tok)) as [h Hh].
    { apply Hdom. right. by eapply op_keys_elem. }
    exists h. split; [done|]. by apply (Hma tok o h).
Qed.

(** What a handler's [process] leaves: the next operation issued, or the handler ended. *)
Definition outcome (k : Z) (p' : Proactor) : Prop :=
  srv_inv None [] p' ∨ ∃ p1, srv_inv (Some k) [] p1 ∧ update_this k set_finish p1 = (Ok tt, p').

Section deliver.
  Context (now : nat → bytes).

Lemma out_finish k p p' :
  srv_inv (Some k) [] p → update_this k set_finish p = (Ok tt, p') → outcome k p'.
Proof. intros Hi Hu. right. eauto. Qed.

Lemma out_issue k h tok o p p' :
  srv_inv (Some k) [] p → handlers (handlerManager p) !! k = Some h → getKey tok = k →
  op_matches (h_rpc h) (h_cq h) (getOpt tok) o → (∀ r cq, o ≠ ORequest r cq) →
  issue tok o p = (Ok tt, p') → outcome k p'.
Proof.
  intros Hi Hk Ht Ho Hn Hu. destruct (inv_issue k [] h tok o p Hi Hk Ht Ho Hn) as (p1 & E & Hi1 & _).
  rewrite Hu in E. injection E as ->. by left.
Qed.

Lemma construct_eq r : construct r = registerHandler r.
Proof. by destruct r. Qed.

(** The first two statements of the RECEIVE step. *)
Lemma receive_run k h r g (f : handler → M Proactor unit) p p' :
  srv_inv (Some k) g p → handlers (handlerManager p) !! k = Some h →
  g = [(r, h_cq h)] → h_cq h < cqIdx p →
  (h0 ← this k; construct r (h_cq h0);; f h0) p = (Ok tt, p') →
  ∃ p1, srv_inv (Some k) [] p1 ∧ handlers (handlerManager p1) !! k = Some h ∧ f h p1 = (Ok tt, p').
Proof.
  intros Hi Hk -> Hcq Hr. rewrite construct_eq in Hr.
  assert (Ht : this k p = (Ok h, p)) by (unfold this; run_m; by rewrite Hk).
  rewrite (bind_ok _ _ _ _ _ Ht) in Hr. apply bind_inv_ok in Hr as ([] & p1 & H1 & H2).
  destruct (srv_register _ _ _ _ _ _ Hi Hcq (not_elem_of_nil _) H1) as (Hi1 & _ & _ & Hh). eauto.
Qed.

Lemma this_run {A} k h (f : handler → M Proactor A) p :
  handlers (handlerManager p) !! k = Some h → (h0 ← this k; f h0) p = f h p.
Proof. intros Hk. unfold this, mbind, M_bind, get. by rewrite Hk. Qed.

(** The tag with its step replaced. *)
Lemma next_opt opt tok : (0 ≤ opt < 2 ^ 32)%Z → getOpt (setOpt opt tok) = opt.
Proof. intros Ho. rewrite getOpt_setOpt. by apply u32_small. Qed.

(** A handler issues its next operation with the step that stands for it. *)
Lemma out_next opt h tok o p p' :
  srv_inv (Some (getKey tok)) [] p → handlers (handlerManager p) !! getKey tok = Some h →
  (0 ≤ opt < 2 ^ 32)%Z → op_matches (h_rpc h) (h_cq h) opt o → (∀ r cq, o ≠ ORequest r cq) →
  issue (setOpt opt tok) o p = (Ok tt, p') → outcome (getKey tok) p'.
Proof.
  intros Hi Hk Ho Hm Hn Hr. eapply (out_issue _ h); [done|done|apply getKey_setOpt| |done|exact Hr].
  by rewrite next_opt.
Qed.

Lemma write_front_outcome h tok p p' :
  srv_inv (Some (getKey tok)) [] p → handlers (handlerManager p) !! getKey tok = Some h →
  h_rpc h = ChatListen → write_front tok p = (Ok tt, p') → outcome (getKey tok) p'.
Proof.
  intros Hi Hh Hr. unfold write_front. rewrite (this_run _ h) by done.
  destruct (h_responses h) as [|m l]; [done|]. intros Hw.
  apply bind_inv_ok in Hw as ([] & p1 & H1 & H2).
  destruct (inv_issue (getKey tok) [] h (setOpt WRITE tok) (OWrite m) p Hi Hh
    (getKey_setOpt _ _)) as (p2 & E & Hi2 & _); [|done|].
  { rewrite next_opt by done. split; [done|by left]. }
  rewrite H1 in E. injection E as <-.
  destruct (inv_update None [] (getKey tok) (set_responses l) p1 (λ h, conj eq_refl (conj eq_refl eq_refl)) Hi2)
    as (p3 & E3 & Hi3 & _).
  rewrite H2 in E3. injection E3 as ->. by left.
Qed.

(** Each [process], on a completion whose tag matches its operation. *)
Definition process_sound (f : bool → Z → M Proactor unit) (r : rpc) : Prop :=
  ∀ ok tok o h p p', srv_inv (Some (getKey tok)) (gap_of o) p →
    handlers (handlerManager p) !! getKey tok = Some h → h_rpc h = r →
    op_matches (h_rpc h) (h_cq h) (getOpt tok) o → (∀ r cq, o = ORequest r cq → cq < cqIdx p) →
    f ok tok p = (Ok tt, p') → outcome (getKey tok) p'.

Ltac next_ok := eauto; try done; simpl;
  repeat match goal with H : h_rpc _ = _ |- _ => rewrite H end; auto.

Ltac step_of Hopt := rewrite Hopt; cbn [Z.eqb Pos.eqb RECEIVE FINISH WRITE READ].

Definition is_unary (r : rpc) : bool :=
  match r with ChatListen | ChatSpeak | ChatTalk => false | _ => true end.

Lemma unary_sound r respond :
  is_unary r = true →
  process_sound (unary_process (construct r) respond) r.
Proof.
  intros Hr ok tok o h p p' Hi Hh <- Hop Hcq. unfold unary_process.
  destruct o as [r0 cq0| |m|m b]; simpl in Hop.
  - destruct Hop as (Hopt & -> & ->). step_of Hopt. intros Hrun.
    destruct (receive_run _ _ _ _ _ _ _ Hi Hh eq_refl (Hcq _ _ eq_refl) Hrun) as (p1 & Hi1 & Hh1 & H2).
    destruct ok; [|by eapply out_finish]. by eapply (out_next FINISH h); next_ok.
  - destruct Hop as [_ [Hx|Hx]]; by rewrite Hx in Hr.
  - destruct Hop as [_ [Hx|Hx]]; by rewrite Hx in Hr.
  - destruct Hop as [Hopt|[Hx _]]; [|by rewrite Hx in Hr]. step_of Hopt.
    intros Hrun. by eapply out_finish.
Qed.

Lemma listen_sound : process_sound (ChatListenEventHandler_process now) ChatListen.
Proof.
  intros ok tok o h p p' Hi Hh Hr Hop Hcq. unfold ChatListenEventHandler_process.
  change (ChatListenEventHandler) with (construct ChatListen).
  destruct o as [r0 cq0| |m|m b]; simpl in Hop; rewrite ?Hr in Hop.
  - destruct Hop as (Hopt & -> & ->). step_of Hopt. intros Hrun.
    destruct (receive_run _ _ _ _ _ _ _ Hi Hh eq_refl (Hcq _ _ eq_refl) Hrun) as (p1 & Hi1 & Hh1 & H2).
    destruct ok; [|by eapply out_finish]. apply bind_inv_ok in H2 as ([] & p2 & H2 & H3).
    match type of H2 with update_this _ ?f _ = _ => 
      destruct (inv_update _ _ (getKey tok) f p1 (λ h, conj eq_refl (conj eq_refl eq_refl)) Hi1)
        as (p3 & E3 & Hi3 & _ & _ & Hh3) end.
    rewrite H2 in E3. injection E3 as <-.
    eapply write_front_outcome; [exact Hi3|by rewrite Hh3, lookup_alter_eq, Hh1|exact Hr|exact H3].
  - by destruct Hop as [_ [Hx|Hx]].
  - destruct Hop as [Hopt _]. step_of Hopt. destruct ok; [|by intros; eapply out_finish].
    rewrite (this_run _ h) by done. case_bool_decide.
    + intros Hrun. eapply (out_next FINISH h); next_ok.
    + intros Hrun. by eapply write_front_outcome.
  - destruct Hop as [Hopt|[Hx _]]; [|done]. step_of Hopt. intros Hrun. by eapply out_finish.
Qed.

Lemma speak_sound : process_sound (ChatSpeakEventHandler_process now) ChatSpeak.
Proof.
  intros ok tok o h p p' Hi Hh Hr Hop Hcq. unfold ChatSpeakEventHandler_process.
  change (ChatSpeakEventHandler) with (construct ChatSpeak).
  destruct o as [r0 cq0| |m|m b]; simpl in Hop; rewrite ?Hr in Hop.
  - destruct Hop as (Hopt & -> & ->). step_of Hopt. intros Hrun.
    destruct (receive_run _ _ _ _ _ _ _ Hi Hh eq_refl (Hcq _ _ eq_refl) Hrun) as (p1 & Hi1 & Hh1 & H2).
    destruct ok; [|by eapply out_finish].
    eapply (out_next READ h); next_ok.
  - destruct Hop as [Hopt _]. step_of Hopt. destruct ok; intros Hrun.
    + eapply (out_issue _ h); next_ok.
    + eapply (out_next FINISH h); next_ok.
  - by destruct Hop as [_ [Hx|Hx]].
  - destruct Hop as [Hopt|[Hx _]]; [|done]. step_of Hopt. intros Hrun. by eapply out_finish.
Qed.

Lemma talk_sound : process_sound (ChatTalkEventHandler_process now) ChatTalk.
Proof.
  intros ok tok o h p p' Hi Hh Hr Hop Hcq. unfold ChatTalkEventHandler_process.
  change (ChatTalkEventHandler) with (construct ChatTalk).
  assert (Hw : getOpt tok = WRITE → gap_of o = [] →
    (if ok then issue (setOpt READ tok) ORead else issue tok (OFinish None false)) p = (Ok tt, p') →
    outcome (getKey tok) p').
  { intros Hopt Hg Hrun. rewrite Hg in Hi. destruct ok.
    - eapply (out_next READ h); next_ok.
    - eapply (out_issue _ h tok (OFinish None false)); [exact Hi|exact Hh|reflexivity| |by intros|exact Hrun]. simpl. rewrite Hr. auto. }
  destruct o as [r0 cq0| |m|m b]; simpl in Hop; rewrite ?Hr in Hop.
  - destruct Hop as (Hopt & -> & ->). step_of Hopt. intros Hrun.
    destruct (receive_run _ _ _ _ _ _ _ Hi Hh eq_refl (Hcq _ _ eq_refl) Hrun) as (p1 & Hi1 & Hh1 & H2).
    destruct ok; [|by eapply out_finish].
    eapply (out_next READ h); next_ok.
  - destruct Hop as [Hopt _]. step_of Hopt. destruct ok.
    + rewrite (this_run _ h) by done. intros Hrun.
      eapply (out_next WRITE h); next_ok.
    + intros Hrun. eapply (out_next FINISH h); next_ok.
  - destruct Hop as [Hopt _]. step_of Hopt. by apply Hw.
  - destruct Hop as [Hopt|(_ & Hopt & _)]; step_of Hopt; [|by apply Hw].
    intros Hrun. by eapply out_finish.
Qed.

Lemma process_all_sound r : process_sound (process now r) r.
Proof.
  destruct r; cbn [process];
    [eapply (unary_sound Hello)|eapply (unary_sound HelloAgain)|eapply (unary_sound Goodbye)
    |eapply (unary_sound GoodbyeAgain)|eapply (unary_sound ChatGreet)
    |apply listen_sound|apply speak_sound|apply talk_sound]; reflexivity.
Qed.

Lemma demultiplex_inv tok o ok h p p' :
  srv_inv (Some (getKey tok)) (gap_of o) p → handlers (handlerManager p) !! getKey tok = Some h →
  op_matches (h_rpc h) (h_cq h) (getOpt tok) o → (∀ r cq, o = ORequest r cq → cq < cqIdx p) →
  demultiplex_event now tok ok p = (Ok tt, p') → srv_inv None [] p'.
Proof.
  intros Hi Hh Hop Hcq. unfold demultiplex_event. unfold mbind at 1, M_bind at 1, get.
  unfold EventHandlerManager_contains. rewrite Hh, bool_decide_true by eauto. cbn [negb].
  assert (Hget : on_manager (EventHandlerManager_get (getKey tok)) p = (Ok h, p)).
  { unfold on_manager, zoom, EventHandlerManager_get, mbind, M_bind, get. rewrite Hh. by destruct p. }
  rewrite (bind_ok _ _ _ _ _ Hget). intros Hrun. apply bind_inv_ok in Hrun as ([] & p1 & H1 & H2).
  apply bind_inv_ok in H2 as (h1 & p2 & H2 & H3).
  assert (Hp2 : p2 = p1 ∧ handlers (handlerManager p1) !! getKey tok = Some h1).
  { revert H2. unfold this, mbind, M_bind, get.
    destruct (handlers (handlerManager p1) !! getKey tok) as [h2|]; [|done]. by intros [= -> ->]. }
  destruct Hp2 as [-> Hh1].
  destruct (process_all_sound (h_rpc h) ok tok o h p p1 Hi Hh eq_refl Hop Hcq H1) as [Hi1|(p0 & Hi0 & Hu)].
  - unfold isComplete in H3. rewrite (si_running _ _ _ Hi1 _ _ Hh1) in H3. by injection H3 as <-.
  - unfold update_this, on_manager, zoom, modify in Hu. injection Hu as <-. simpl in Hh1.
    rewrite lookup_alter_eq in Hh1.
    assert (Hc : isComplete h1 = true).
    { destruct (handlers (handlerManager p0) !! getKey tok); [|done]. by injection Hh1 as <-. }
    rewrite Hc in H3. injection H3 as <-.
    apply (inv_remove (getKey tok) [] p0); [done| |done]. simpl. apply alter_delete.
Qed.

Lemma deliver_inv l1 tok o l2 ok q p p' :
  srv_inv None [] p → outstanding p = l1 ++ (tok, o) :: l2 →
  deliver now tok o ok q (set_outstanding (l1 ++ l2) p) = (Ok tt, p') → srv_inv None [] p'.
Proof.
  intros Hi Hout. destruct (inv_take l1 tok o l2 p Hi Hout) as (Hi0 & Hcq & h & Hh & Hop).
  unfold deliver. intros Hr. apply bind_inv_ok in Hr as ([] & p1 & H1 & H2).
  unfold when in H1. destruct (ok && receives o).
  - destruct (inv_update _ _ (getKey tok) (set_request q) _ (λ h, conj eq_refl (conj eq_refl eq_refl)) Hi0)
      as (p2 & E & Hi2 & _ & _ & Hh2).
    assert (Hcq2 : cqIdx p2 = cqIdx p) by (unfold update_this in E; by injection E as <-).
    rewrite H1 in E. injection E as <-.
    eapply (demultiplex_inv tok o ok (set_request q h)); [exact Hi2| |exact Hop| |exact H2].
    + rewrite Hh2. simpl. by rewrite lookup_alter_eq, Hh.
    + intros r cq Ho. rewrite Hcq2. by eapply Hcq.
  - injection H1 as <-. by eapply demultiplex_inv.
Qed.

Definition all_rpcs : list rpc :=
  [Hello; HelloAgain; Goodbye; GoodbyeAgain; ChatGreet; ChatListen; ChatSpeak; ChatTalk].

Lemma register_all_inv cq rs p p' :
  NoDup rs → srv_inv None ((λ r, (r, cq)) <$> rs) p → cq < cqIdx p →
  for_each (λ r, construct r cq) rs p = (Ok tt, p') → srv_inv None [] p'.
Proof.
  intros Hnd. revert p. induction Hnd as [|r rs Hr Hnd IH]; intros p Hi Hcq; simpl.
  { by intros [= <-]. }
  rewrite construct_eq. intros Hrun. apply bind_inv_ok in Hrun as ([] & p1 & H1 & H2).
  assert (Hn : (r, cq) ∉ ((λ r, (r, cq)) <$> rs)).
  { intros (r' & [= <-] & Hin)%list_elem_of_fmap. done. }
  destruct (srv_register _ _ _ _ _ _ Hi Hcq Hn H1) as (Hi1 & _ & Hc1 & _).
  eapply IH; [exact Hi1|by rewrite Hc1|exact H2].
Qed.

Lemma all_rpcs_NoDup : NoDup all_rpcs.
Proof. apply (bool_decide_eq_true_1 _). reflexivity. Qed.

Lemma elem_of_all_rpcs r : r ∈ all_rpcs.
Proof. unfold all_rpcs. destruct r; repeat (first [apply list_elem_of_here|apply list_elem_of_further]). Qed.

Lemma start_inv p p' : srv_inv None [] p → demultiplex_start p = (Ok tt, p') → srv_inv None [] p'.
Proof.
  intros [Hm Hnd Hdom Hb Hma Hr Hcq Ha]. unfold demultiplex_start. unfold mbind at 1, M_bind at 1, get.
  intros Hrun. apply bind_inv_ok in Hrun as ([] & p1 & [= <-] & H2).
  apply (register_all_inv (cqIdx p) all_rpcs (set_cqIdx (S (cqIdx p)) p)); [apply all_rpcs_NoDup| |simpl; lia|exact H2].
  split; simpl; try done.
  - intros tok r cq Hin. specialize (Hcq _ _ _ Hin). lia.
  - intros r cq Hst Hlt. destruct (decide (cq = cqIdx p)) as [->|Hne].
    + rewrite armed_zero.
      * rewrite decide_True; [done|].
        refine (proj2 (list_elem_of_fmap (λ r, (r, cqIdx p)) all_rpcs (r, cqIdx p)) _). exists r. split; [done|apply elem_of_all_rpcs].
      * intros tok Hin. specialize (Hcq _ _ _ Hin). lia.
    + rewrite Ha by (done || lia). rewrite !decide_False; [done| |by apply not_elem_of_nil].
      change (((r, cq) ∉ (λ r, (r, cqIdx p)) <$> all_rpcs)).
      intros (r' & [= _ ?] & _)%list_elem_of_fmap. done.
Qed.

Lemma server_step_inv p p' : srv_inv None [] p → server_step now p p' → srv_inv None [] p'.
Proof.
  intros Hi Hs. destruct Hs as [p p' H|p p' H|p l1 tok o l2 ok q p' Hout H].
  - by eapply start_inv.
  - injection H as <-. destruct Hi. by split.
  - by eapply deliver_inv.
Qed.

Lemma server_init_inv : srv_inv None [] ServerProactor_ServerProactor.
Proof.
  split; simpl; try done.
  - split; [simpl; lia|]. intros k [h Hh]. done.
  - constructor.
  - intros k. rewrite lookup_empty. split; [by intros []|]. intros [|Hin]; [done|]. by apply elem_of_nil in Hin.
  - by intros tok r cq Hin%elem_of_nil.
  - intros. lia.
Qed.

Lemma server_reachable_inv p : server_reachable now p → srv_inv None [] p.
Proof. apply rtc_invariant; [apply server_step_inv|apply server_init_inv]. Qed.

(** ** Properties *)

(** C13: in every reachable state of the server each registered handler has exactly one
    operation with gRPC, and each operation a registered handler, whatever completions
    arrived, in whatever order and with whatever outcome. *)
Theorem one_operation_per_handler p :
  server_reachable now p →
  NoDup (op_keys (outstanding p)) ∧
  ∀ k, is_Some (handlers (handlerManager p) !! k) ↔ k ∈ op_keys (outstanding p).
Proof.
  intros Hr. apply server_reachable_inv in Hr as Hi. split; [apply (si_nodup _ _ _ Hi)|].
  intros k. rewrite (si_dom _ _ _ Hi). naive_solver.
Qed.

(** C14: until it is stopped the server can take a call of every method on every queue: exactly
    one request for it is with gRPC. *)
Theorem always_armed p r cq :
  server_reachable now p → stopped p = false → cq < cqIdx p →
  armed r cq (outstanding p) = 1.
Proof.
  intros Hr Hst Hcq. apply server_reachable_inv in Hr as Hi.
  rewrite (si_armed _ _ _ Hi r cq Hst Hcq). by rewrite decide_False by apply not_elem_of_nil.
Qed.

(** When gRPC has returned every operation, no handler is left, so that the threads
    leave their loops at the next time-out; as long as an operation is out, they stay. *)
Theorem demultiplexers_leave p :
  server_reachable now p →
  (demultiplex_next now TIMEOUT p = (Ok true, p) ↔ outstanding p = []).
Proof.
  intros Hr. apply server_reachable_inv in Hr as Hi.
  unfold demultiplex_next, EventHandlerManager_count, mbind, M_bind, get. split.
  - intros [= Hs%Nat.eqb_eq%map_size_empty_iff]. destruct (outstanding p) as [|[tok o] l] eqn:E; [done|].
    assert (is_Some (handlers (handlerManager p) !! getKey tok)) as [h Hh].
    { apply (si_dom _ _ _ Hi). right. rewrite E. set_solver. }
    by rewrite Hs in Hh.
  - intros E. assert (Hs : size (handlers (handlerManager p)) = 0); [|by rewrite Hs].
    apply map_size_empty_iff, map_eq. intros k. rewrite lookup_empty.
    destruct (handlers (handlerManager p) !! k) as [h|] eqn:Hh; [|done].
    assert (Hk : is_Some (handlers (handlerManager p) !! k)) by eauto.
    apply (si_dom _ _ _ Hi) in Hk as [|Hk]; [done|]. rewrite E in Hk. by apply elem_of_nil in Hk.
Qed.

(** A handler that has issued [Finish] issues nothing more: its completion, ok or not, only
    removes it.  This holds for all classes but [ChatTalk]. *)
Theorem finish_is_last p l1 tok m b l2 ok q h :
  server_reachable now p → outstanding p = l1 ++ (tok, OFinish m b) :: l2 →
  handlers (handlerManager p) !! getKey tok = Some h → h_rpc h ≠ ChatTalk →
  ∃ p', deliver now tok (OFinish m b) ok q (set_outstanding (l1 ++ l2) p) = (Ok tt, p') ∧
    outstanding p' = l1 ++ l2 ∧
    handlers (handlerManager p') = delete (getKey tok) (handlers (handlerManager p)).
Proof.
  intros Hr Hout Hh Hne. apply server_reachable_inv in Hr as Hi.
  assert (Hopt : getOpt tok = FINISH).
  { destruct (si_match _ _ _ Hi tok (OFinish m b) h) as [?|[? _]]; try done. rewrite Hout. set_solver. }
  assert (Hproc : process now (h_rpc h) ok tok (set_outstanding (l1 ++ l2) p) =
    update_this (getKey tok) set_finish (set_outstanding (l1 ++ l2) p)).
  { destruct (h_rpc h); try done; cbn [process];
      unfold HelloEventHandler_process, HelloAgainEventHandler_process, GoodbyeEventHandler_process,
        GoodbyeAgainEventHandler_process, ChatGreetEventHandler_process, unary_process,
        ChatListenEventHandler_process, ChatSpeakEventHandler_process; by rewrite Hopt. }
  unfold deliver. rewrite andb_false_r. unfold when. rewrite bind_ret_l.
  unfold demultiplex_event, EventHandlerManager_contains. unfold mbind at 1, M_bind at 1, get.
  cbn [handlerManager set_outstanding]. rewrite Hh, bool_decide_true by eauto. cbn [negb].
  assert (Hget : on_manager (EventHandlerManager_get (getKey tok)) (set_outstanding (l1 ++ l2) p)
    = (Ok h, set_outstanding (l1 ++ l2) p)).
  { unfold on_manager, zoom, EventHandlerManager_get, mbind, M_bind, get. simpl. rewrite Hh. by destruct p. }
  rewrite (bind_ok _ _ _ _ _ Hget).
  rewrite (bind_ok _ _ _ tt _ Hproc). simpl snd.
  unfold this, mbind, M_bind, get. simpl. rewrite lookup_alter_eq, Hh. simpl.
  eexists. split; [done|]. split; [done|]. simpl. apply alter_delete.
Qed.

(** ** Runs *)

(** A run of the server given by the positions of the completions delivered. *)
Fixpoint run_script (l : list (nat * bool * request)) : M Proactor unit :=
  match l with
  | [] => mret tt
  | (i, ok, q) :: l =>
    p ← get;
    match outstanding p !! i with
    | Some (tok, o) =>
      modify (set_outstanding (take i (outstanding p) ++ drop (S i) (outstanding p)));;
      deliver now tok o ok q;; run_script l
    | None => undef
    end
  end.

Lemma run_script_steps l p p' : run_script l p = (Ok tt, p') → rtc (server_step now) p p'.
Proof.
  revert p. induction l as [|[[i ok] q] l IH]; intros p; cbn [run_script].
  { intros [= <-]. apply rtc_refl. }
  unfold mbind at 1, M_bind at 1, get. destruct (outstanding p !! i) as [[tok o]|] eqn:E; [|done].
  intros Hr. apply bind_inv_ok in Hr as ([] & p1 & [= <-] & H2).
  apply bind_inv_ok in H2 as ([] & p2 & H2 & H3).
  eapply rtc_l; [|by apply IH]. eapply step_deliver; [|exact H2].
  by apply take_drop_middle in E.
Qed.

(** The state after one thread has started; the states of the runs are written out, so that each
    is computed once. *)
Definition boot_requests : list (Z * op) :=
  imap (λ i r, (setOpt RECEIVE (Event_key (Z.of_nat (S i))), ORequest r 0)) all_rpcs.

Definition boot_state : Proactor :=
  mkProactor (mkManager (list_to_map (imap (λ i r, (Z.of_nat (S i), new_handler r 0)) all_rpcs)) 8)
    false 1 boot_requests.

Lemma boot_reachable : server_reachable now boot_state.
Proof. eapply rtc_l; [|apply rtc_refl]. apply step_start. vm_compute. reflexivity. Qed.

Lemma run_script_reachable l p : run_script l boot_state = (Ok tt, p) → server_reachable now p.
Proof. intros Hr. unfold server_reachable. etransitivity; [apply boot_reachable|]. by eapply run_script_steps. Qed.

Definition jane : request := mkRequest (str "Jane") (str "Doe").

(** A [ChatTalk] call whose first answer could not be written. *)
Definition talk_requests : list (Z * op) :=
  take 7 boot_requests ++ [(setOpt RECEIVE (Event_key 9), ORequest ChatTalk 0)].

Definition talk_handler : handler := mkHandler ChatTalk 0 jane [] false.

Definition talk_state : Proactor :=
  mkProactor (mkManager (<[9%Z := new_handler ChatTalk 0]> (<[8%Z := talk_handler]>
      (handlers (handlerManager boot_state)))) 9) false 1
    (talk_requests ++ [(setOpt WRITE (Event_key 8), OFinish None false)]).

Lemma talk_reachable : server_reachable now talk_state.
Proof.
  apply (run_script_reachable [(7, true, jane); (8, true, jane); (8, false, jane)]).
  vm_compute. reflexivity.
Qed.

Lemma talk_lookup : handlers (handlerManager talk_state) !! 8%Z = Some talk_handler.
Proof. simpl. rewrite lookup_insert_ne by done. apply lookup_insert_eq. Qed.

(** After a failed write [ChatTalk] breaks the rule that [Finish] comes last: its [Finish] is
    out with the step WRITE, so that its completion makes the handler read again, or, when
    it reports a failure, finish again. *)
Theorem talk_failed_write :
  ∃ p tok l h, server_reachable now p ∧ outstanding p = l ++ [(tok, OFinish None false)] ∧
    handlers (handlerManager p) !! getKey tok = Some h ∧ h_rpc h = ChatTalk ∧
    (∃ tok1 p1, deliver now tok (OFinish None false) true jane (set_outstanding l p) = (Ok tt, p1) ∧
      outstanding p1 = l ++ [(tok1, ORead)] ∧ getKey tok1 = getKey tok) ∧
    (∃ p2, deliver now tok (OFinish None false) false jane (set_outstanding l p) = (Ok tt, p2) ∧
      outstanding p2 = l ++ [(tok, OFinish None false)]).
Proof.
  exists talk_state, (setOpt WRITE (Event_key 8)), talk_requests, talk_handler.
  assert (Hd : ∀ ok, deliver now (setOpt WRITE (Event_key 8)) (OFinish None false) ok jane
    (set_outstanding talk_requests talk_state) =
    (if ok then issue (setOpt READ (setOpt WRITE (Event_key 8))) ORead
     else issue (setOpt WRITE (Event_key 8)) (OFinish None false)) (set_outstanding talk_requests talk_state)).
  { intros ok. unfold deliver. rewrite andb_false_r. unfold when. rewrite bind_ret_l.
    unfold demultiplex_event, EventHandlerManager_contains. unfold mbind at 1, M_bind at 1, get.
    change (getKey (setOpt WRITE (Event_key 8))) with 8%Z. cbn [handlerManager set_outstanding].
    rewrite talk_lookup, bool_decide_true by eauto. cbn [negb].
    assert (Hget : on_manager (EventHandlerManager_get 8) (set_outstanding talk_requests talk_state)
      = (Ok talk_handler, set_outstanding talk_requests talk_state)).
    { unfold on_manager, zoom, EventHandlerManager_get, mbind, M_bind, get.
      cbn [handlerManager set_outstanding]. by rewrite talk_lookup. }
    rewrite (bind_ok _ _ _ _ _ Hget). unfold this, mbind, M_bind, get.
    cbn [process h_rpc talk_handler]. unfold ChatTalkEventHandler_process.
    change (getOpt (setOpt WRITE (Event_key 8))) with WRITE.
    cbn [WRITE RECEIVE READ FINISH Z.eqb Pos.eqb].
    destruct ok; unfold issue, modify; cbn [handlerManager set_outstanding]; by rewrite talk_lookup. }
  split; [exact talk_reachable|]. split; [done|]. split; [exact talk_lookup|]. split; [done|].
  split; [|exists (issue (setOpt WRITE (Event_key 8)) (OFinish None false)
    (set_outstanding talk_requests talk_state)).2; by rewrite Hd].
  exists (setOpt READ (setOpt WRITE (Event_key 8))). eexists. rewrite Hd. split; [done|].
  split; [done|]. apply getKey_setOpt.
Qed.
End deliver.

(** ** Witnesses *)

Definition no_time : nat → bytes := λ _, [].
(** One call of [Hello] has arrived and its answer is out; the last operation is its
    [Finish]. *)
Definition hello_requests : list (Z * op) :=
  drop 1 boot_requests ++ [(setOpt RECEIVE (Event_key 9), ORequest Hello 0)].

Definition hello_finish : Z * op :=
  (setOpt FINISH (Event_key 1), OFinish (Some (Greeting (str "Hello, Jane Doe"))) true).

Definition hello_state : Proactor :=
  mkProactor (mkManager (<[9%Z := new_handler Hello 0]> (<[1%Z := mkHandler Hello 0 jane [] false]>
      (handlers (handlerManager boot_state)))) 9) false 1
    (hello_requests ++ [hello_finish]).

Lemma hello_reachable : server_reachable no_time hello_state.
Proof. apply (run_script_reachable no_time [(0, true, jane)]). vm_compute. reflexivity. Qed.

Lemma one_operation_per_handler_witness :
  length (outstanding hello_state) = 9 ∧ NoDup (op_keys (outstanding hello_state)).
Proof.
  split; [reflexivity|].
  exact (proj1 (one_operation_per_handler no_time hello_state hello_reachable)).
Defined.

Lemma always_armed_witness : armed Hello 0 (outstanding hello_state) = 1.
Proof. apply (always_armed no_time hello_state Hello 0 hello_reachable); simpl; [reflexivity|lia]. Defined.

Lemma demultiplexers_leave_witness :
  demultiplex_next no_time TIMEOUT hello_state ≠ (Ok true, hello_state).
Proof.
  intros H. apply (demultiplexers_leave no_time hello_state hello_reachable) in H. discriminate H.
Defined.

Lemma finish_is_last_witness :
  ∃ p', deliver no_time hello_finish.1 hello_finish.2 true jane
      (set_outstanding hello_requests hello_state) = (Ok tt, p') ∧
    outstanding p' = hello_requests.
Proof.
  destruct (finish_is_last no_time hello_state hello_requests
    (setOpt FINISH (Event_key 1)) (Some (Greeting (str "Hello, Jane Doe"))) true [] true jane
    (mkHandler Hello 0 jane [] false)) as (p' & E & Eo & _).
  - exact hello_reachable.
  - reflexivity.
  - simpl. rewrite lookup_insert_ne by discriminate. apply lookup_insert_eq.
  - discriminate.
  - exists p'. rewrite app_nil_r in E, Eo. split; [exact E|exact Eo].
Defined.
