(* ===== verification/Semaphore.v ===== *)
(** * The semaphore (learn_grpc/hello_world/src/lib/utils/semaphore.h)

    [utils::Semaphore], which thread/semaphore/main.cpp tests in a copy of the same text.
    Every access to shared memory is a step: [thread_step] runs the next one of a
    thread inside [acquire] or [release], and the system interleaves any number of threads that
    call the two as they like.  Atomics are sequentially consistent, as the defaults of
    [std::atomic] are; [compare_exchange_weak] may fail spuriously, and a wait may end
    spuriously. *)

From S2P Require Import Prelude.

(** The mutex is the thread that holds it; the threads that wait for [cv] are the ones
    in [AcquireBlocked]. *)
Record Semaphore := mkSemaphore {
  capacity : Z;
  remaining : Z;
  waited : Z;
  mtx : option nat
}.

Definition set_remaining z s := mkSemaphore (capacity s) z (waited s) (mtx s).
Definition set_waited z s := mkSemaphore (capacity s) (remaining s) z (mtx s).
Definition set_mtx o s := mkSemaphore (capacity s) (remaining s) (waited s) o.

Definition Semaphore_Semaphore (capacity : Z) : Semaphore := mkSemaphore capacity capacity 0 None.

(** The next access of a thread, with its local [expected]. *)
Inductive pc :=
  | Outside
  | AcquireLoad | AcquireCas (expected : Z) | AcquireLock | AcquireIncr | AcquireTest
  | AcquireBlocked | AcquireRelock | AcquireDecr | AcquireUnlock
  | ReleaseLoad | ReleaseCas (expected : Z) | ReleaseTest | ReleaseLock | ReleaseNotify
  | ReleaseUnlock.

#[global] Instance pc_eq_dec : EqDecision pc.
Proof. solve_decision. Defined.

(** What a step shows outside: a call returns, or one waiting thread is notified. *)
Inductive effect := Silent | Acquired | Released (b : bool) | Notified.

(** [remaining.compare_exchange_weak(expected, desired)]: success, the new [expected]. *)
Definition compare_exchange_weak (spurious : bool) (expected desired : Z) (s : Semaphore)
    : bool * Z * Semaphore :=
  if (remaining s =? expected)%Z && negb spurious then (true, expected, set_remaining desired s)
  else (false, remaining s, s).

(** After the loop of [acquire]. *)
Definition acquire_exit (expected : Z) : pc * effect :=
  if (expected =? 0)%Z then (AcquireLock, Silent) else (Outside, Acquired).

(** After the loop of [release]. *)
Definition release_exit (expected : Z) (s : Semaphore) : pc * effect :=
  if (expected =? capacity s)%Z then (Outside, Released false) else (ReleaseTest, Silent).

Definition lock (me : nat) (s : Semaphore) : option Semaphore :=
  match mtx s with None => Some (set_mtx (Some me) s) | Some _ => None end.

(** One access; [None]: the thread has to wait. *)
Definition thread_step (me : nat) (spurious : bool) (s : Semaphore) (c : pc)
    : option (Semaphore * pc * effect) :=
  match c with
  | Outside => None
  (* acquire *)
  | AcquireLoad => Some (s, AcquireCas (remaining s), Silent)
  | AcquireCas expected =>
      if (0 <? expected)%Z then
        let '(ok, expected, s) := compare_exchange_weak spurious expected (expected - 1) s in
        if ok then let '(c, e) := acquire_exit expected in Some (s, c, e)
        else Some (s, AcquireCas expected, Silent)
      else let '(c, e) := acquire_exit expected in Some (s, c, e)
  | AcquireLock => s ← lock me s; Some (s, AcquireIncr, Silent)
  | AcquireIncr => Some (set_waited (waited s + 1) s, AcquireTest, Silent)
  | AcquireTest =>
      if (0 <? remaining s)%Z then Some (s, AcquireDecr, Silent)
      else Some (set_mtx None s, AcquireBlocked, Silent)
  | AcquireBlocked => if spurious then Some (s, AcquireRelock, Silent) else None
  | AcquireRelock => s ← lock me s; Some (s, AcquireTest, Silent)
  | AcquireDecr => Some (set_waited (waited s - 1) s, AcquireUnlock, Silent)
  | AcquireUnlock => Some (set_mtx None s, AcquireLoad, Silent)
  (* release *)
  | ReleaseLoad => Some (s, ReleaseCas (remaining s), Silent)
  | ReleaseCas expected =>
      if (expected <? capacity s)%Z then
        let '(ok, expected, s) := compare_exchange_weak spurious expected (expected + 1) s in
        if ok then let '(c, e) := release_exit expected s in Some (s, c, e)
        else Some (s, ReleaseCas expected, Silent)
      else let '(c, e) := release_exit expected s in Some (s, c, e)
  | ReleaseTest =>
      if (0 <? waited s)%Z then Some (s, ReleaseLock, Silent) else Some (s, Outside, Released true)
  | ReleaseLock => s ← lock me s; Some (s, ReleaseNotify, Silent)
  | ReleaseNotify => Some (s, ReleaseUnlock, Notified)
  | ReleaseUnlock => Some (set_mtx None s, Outside, Released true)
  end.

(** ** The system *)

(** The threads, and how many calls of [acquire] have returned and of [release] have
    returned [true]. *)
Record System := mkSystem {
  sem : Semaphore;
  threads : list pc;
  acquired : nat;
  released : nat
}.

Definition init (capacity : Z) (n : nat) : System :=
  mkSystem (Semaphore_Semaphore capacity) (replicate n Outside) 0 0.

Definition count_call (e : effect) (st : System) : System :=
  match e with
  | Acquired => mkSystem (sem st) (threads st) (S (acquired st)) (released st)
  | Released true => mkSystem (sem st) (threads st) (acquired st) (S (released st))
  | _ => st
  end.

Definition set_thread (i : nat) (c : pc) (st : System) : System :=
  mkSystem (sem st) (<[i := c]> (threads st)) (acquired st) (released st).

Definition set_sem (s : Semaphore) (st : System) : System :=
  mkSystem s (threads st) (acquired st) (released st).

(** The thread a notification wakes: one of the blocked ones, if there is one. *)
Inductive notify : System → System → Prop :=
  | notify_one st j : threads st !! j = Some AcquireBlocked →
      notify st (set_thread j AcquireRelock st)
  | notify_none st : AcquireBlocked ∉ threads st → notify st st.

(** A step of a thread inside a call. *)
Inductive inner_step (spurious : bool) : System → System → Prop :=
  | step_run i st c s c' e :
      threads st !! i = Some c → thread_step i spurious (sem st) c = Some (s, c', e) →
      e ≠ Notified →
      inner_step spurious st (count_call e (set_thread i c' (set_sem s st)))
  | step_notify i st c s c' st' :
      threads st !! i = Some c → thread_step i spurious (sem st) c = Some (s, c', Notified) →
      notify (set_thread i c' (set_sem s st)) st' →
      inner_step spurious st st'.

Inductive step : System → System → Prop :=
  | step_acquire st i : threads st !! i = Some Outside → step st (set_thread i AcquireLoad st)
  | step_release st i : threads st !! i = Some Outside → step st (set_thread i ReleaseLoad st)
  | step_inner spurious st st' : inner_step spurious st st' → step st st'.

Definition reachable (capacity : Z) (n : nat) : System → Prop := rtc step (init capacity n).

(** ** The invariant *)

(** Inside the wait: counted by [waited]. *)
Definition waiting (c : pc) : nat :=
  match c with AcquireTest | AcquireBlocked | AcquireRelock | AcquireDecr => 1 | _ => 0 end.

Definition holds (c : pc) : bool :=
  match c with
  | AcquireIncr | AcquireTest | AcquireDecr | AcquireUnlock | ReleaseNotify | ReleaseUnlock => true
  | _ => false
  end.

(** A [release] that has put its permit back and not returned. *)
Definition flying (c : pc) : nat :=
  match c with ReleaseTest | ReleaseLock | ReleaseNotify | ReleaseUnlock => 1 | _ => 0 end.

(** A thread that will look at [remaining] again, or wake one that will. *)
Definition active (c : pc) : nat :=
  match c with
  | AcquireLoad | AcquireCas _ | AcquireLock | AcquireIncr | AcquireTest
  | AcquireRelock | AcquireDecr | AcquireUnlock
  | ReleaseTest | ReleaseLock | ReleaseNotify => 1
  | _ => 0
  end.

Definition pc_ok (cap : Z) (c : pc) : Prop :=
  match c with
  | AcquireCas e => (0 ≤ e)%Z
  | ReleaseCas e => (e ≤ cap)%Z
  | _ => True
  end.

Definition total (f : pc → nat) (st : System) : Z := Z.of_nat (sum_list_with f (threads st)).

(** [debt]: notifications sent and not yet received. *)
Record inv (cap : Z) (debt : nat) (st : System) : Prop := {
  inv_capacity : capacity (sem st) = cap;
  inv_remaining : (remaining (sem st) =
    cap - Z.of_nat (acquired st) + Z.of_nat (released st) + total flying st)%Z;
  inv_bounds : (0 ≤ remaining (sem st) ≤ cap)%Z;
  inv_waited : waited (sem st) = total waiting st;
  inv_mtx i : mtx (sem st) = Some i ↔ ∃ c, threads st !! i = Some c ∧ holds c = true;
  inv_expected : Forall (pc_ok cap) (threads st);
  inv_wake : AcquireBlocked ∈ threads st → (remaining (sem st) ≤ total active st + Z.of_nat debt)%Z
}.

Lemma total_set f i c c' st :
  threads st !! i = Some c →
  (total f (set_thread i c' st) + Z.of_nat (f c) = total f st + Z.of_nat (f c'))%Z.
Proof.
  intros Hi. unfold total. pose proof (sum_list_with_insert f (threads st) i c c' Hi). simpl. lia.
Qed.

Lemma total_ge f i c st : threads st !! i = Some c → (Z.of_nat (f c) ≤ total f st)%Z.
Proof. intros Hi. pose proof (sum_list_with_ge f _ _ _ Hi). unfold total. lia. Qed.

Lemma elem_of_set i (x y : pc) (l : list pc) : x ∈ <[i := y]> l → x = y ∨ x ∈ l.
Proof.
  intros (k & [(_ & -> & _)|(_ & Hk)]%list_lookup_insert_Some)%list_elem_of_lookup; [by left|].
  right. by apply list_elem_of_lookup_2 in Hk.
Qed.

Definition calls (e : effect) : Z :=
  match e with Acquired => -1 | Released true => 1 | _ => 0 end.

(** What a step of one thread has to do to keep the invariant. *)
Record keeps (cap : Z) (debt debt' : nat) (i : nat) (s s' : Semaphore) (c c' : pc) (e : effect)
    : Prop := {
  k_capacity : capacity s' = capacity s;
  k_remaining : (remaining s' + Z.of_nat (flying c) =
    remaining s + Z.of_nat (flying c') + calls e)%Z;
  k_bounds : (0 ≤ remaining s' ≤ cap)%Z;
  k_waited : (waited s' + Z.of_nat (waiting c) = waited s + Z.of_nat (waiting c'))%Z;
  k_mtx : (mtx s' = mtx s ∧ holds c = holds c') ∨
    (mtx s = None ∧ mtx s' = Some i ∧ holds c' = true) ∨
    (holds c = true ∧ mtx s' = None ∧ holds c' = false);
  k_expected : pc_ok cap c';
  k_wake : (waited s' = 0%Z ∧ waiting c' = 0) ∨ (remaining s' ≤ 0)%Z ∨
    (c' ≠ AcquireBlocked ∧ (remaining s' + Z.of_nat (active c) + Z.of_nat debt ≤
      remaining s + Z.of_nat (active c') + Z.of_nat debt')%Z)
}.

Lemma total_count f e st : total f (count_call e st) = total f st.
Proof. by destruct e as [| |[]|]. Qed.

Lemma total_sem f s st : total f (set_sem s st) = total f st.
Proof. done. Qed.

Lemma blocked_waits c st : c ∈ threads st → waiting c = 1 → (1 ≤ total waiting st)%Z.
Proof.
  intros (k & Hk)%list_elem_of_lookup Hw. pose proof (total_ge waiting _ _ _ Hk). lia.
Qed.

Lemma mtx_set i c c' st s :
  threads st !! i = Some c →
  (∀ j, mtx (sem st) = Some j ↔ ∃ c, threads st !! j = Some c ∧ holds c = true) →
  (mtx s = mtx (sem st) ∧ holds c = holds c') ∨
    (mtx (sem st) = None ∧ mtx s = Some i ∧ holds c' = true) ∨
    (holds c = true ∧ mtx s = None ∧ holds c' = false) →
  ∀ j, mtx s = Some j ↔ ∃ d, <[i := c']> (threads st) !! j = Some d ∧ holds d = true.
Proof.
  intros Hi Hm Hk j. pose proof (lookup_lt_Some _ _ _ Hi) as Hlt.
  destruct (decide (j = i)) as [->|Hne].
  - rewrite list_lookup_insert_eq by done. specialize (Hm i). rewrite Hi in Hm.
    destruct Hk as [(-> & Hh)|[(H1 & -> & H3)|(H1 & -> & H3)]].
    + rewrite Hm. split; (intros (d & [= <-] & Hd); eexists; split; [done|congruence]).
    + split; [|done]. intros _. by exists c'.
    + split; [done|]. intros (d & [= <-] & Hd). congruence.
  - rewrite list_lookup_insert_ne by done. rewrite <- Hm.
    destruct Hk as [(-> & Hh)|[(-> & -> & H3)|(H1 & -> & H3)]]; [done|split; congruence|].
    assert (mtx (sem st) = Some i) as -> by (apply Hm; eauto). split; congruence.
Qed.

Lemma keeps_inv cap debt debt' i st s' c c' e :
  inv cap debt st → threads st !! i = Some c → keeps cap debt debt' i (sem st) s' c c' e →
  inv cap debt' (count_call e (set_thread i c' (set_sem s' st))).
Proof.
  intros [Ic Ir Ib Iw Im Ie Ik] Hi [Kc Kr Kb Kw Km Ke Kk].
  assert (Hi' : threads (set_sem s' st) !! i = Some c) by done.
  assert (Hsem : sem (count_call e (set_thread i c' (set_sem s' st))) = s') by (by destruct e as [| |[]|]).
  assert (Hth : threads (count_call e (set_thread i c' (set_sem s' st))) = <[i := c']> (threads st))
    by (by destruct e as [| |[]|]).
  pose proof (total_set flying _ _ c' _ Hi') as Tf. pose proof (total_set waiting _ _ c' _ Hi') as Tw.
  pose proof (total_set active _ _ c' _ Hi') as Ta. rewrite !total_sem in *.
  split; rewrite ?Hsem, ?total_count; [congruence| |done|lia| |by rewrite Hth; apply Forall_insert|].
  - unfold calls in Kr. destruct e as [| |[]|]; simpl in *; lia.
  - rewrite Hth. by eapply mtx_set.
  - intros Hbl. assert (Hb0 := Hbl). rewrite Hth in Hbl.
    destruct Kk as [(Hw & Hc)|[Hr|(Hne & Hle)]].
    + apply blocked_waits in Hb0; [|done]. rewrite total_count in Hb0. lia.
    + unfold total. lia.
    + apply elem_of_set in Hbl as [Hbl|Hbl]; [by subst|]. specialize (Ik Hbl). lia.
Qed.

Definition debt_of (e : effect) : nat := match e with Notified => 1 | _ => 0 end.

Lemma keeps_case cap debt i s s' c c' e :
  capacity s' = capacity s →
  (remaining s' + Z.of_nat (flying c) = remaining s + Z.of_nat (flying c') + calls e)%Z →
  (0 ≤ remaining s' ≤ cap)%Z ∧
  (waited s' + Z.of_nat (waiting c) = waited s + Z.of_nat (waiting c'))%Z ∧
  ((mtx s' = mtx s ∧ holds c = holds c') ∨ (mtx s = None ∧ mtx s' = Some i ∧ holds c' = true) ∨
    (holds c = true ∧ mtx s' = None ∧ holds c' = false)) ∧ pc_ok cap c' ∧
  ((waited s' = 0%Z ∧ waiting c' = 0) ∨ (remaining s' ≤ 0)%Z ∨
    (c' ≠ AcquireBlocked ∧ (remaining s' + Z.of_nat (active c) ≤
      remaining s + Z.of_nat (active c') + Z.of_nat debt)%Z)) →
  keeps cap 0 debt i s s' c c' e.
Proof.
  intros H1 H2 (H3 & H4 & H5 & H6 & H7). split; try done.
  destruct H7 as [|[|[]]]; [by left|by right; left|]. right; right. split; [done|lia].
Qed.

(** A step keeps the invariant, but for the notification it may leave behind. *)
Lemma thread_step_keeps cap i sp st c s' c' e :
  inv cap 0 st → threads st !! i = Some c → thread_step i sp (sem st) c = Some (s', c', e) →
  keeps cap 0 (debt_of e) i (sem st) s' c c' e.
Proof.
  intros [Ic _ Ib Iw Im Ie _] Hi Hs.
  assert (Hok : pc_ok cap c) by (eapply Forall_lookup_1; eauto).
  assert (Hm : holds c = true → mtx (sem st) = Some i) by (intros; apply Im; eauto).
  pose proof (total_ge waiting _ _ _ Hi) as Hw. rewrite <- Iw in Hw. clear Iw Im Ie Hi.
  destruct (sem st) as [cap0 rem wt mt]; simpl in *. subst cap0.
  destruct c; simpl in Hs, Hok, Hw;
    unfold compare_exchange_weak, acquire_exit, release_exit, lock in Hs; simpl in Hs;
    repeat (case_match; simplify_eq/=); try discriminate; simplify_eq/=;
    apply keeps_case; simpl; try done; try lia; (split; [lia|split; [lia|]]);
    (split; [first [by left|by right; left|by right; right; auto]|split; [done || lia|]]);
    first [left; split; [lia|done]|right; left; lia|right; right; split; [done|lia]].
Qed.

Lemma wake_one cap debt j st :
  inv cap 1 st → threads st !! j = Some AcquireBlocked →
  debt = 0 → inv cap debt (set_thread j AcquireRelock st).
Proof.
  intros Hi Hj ->. change (set_thread j AcquireRelock st) with
    (count_call Silent (set_thread j AcquireRelock (set_sem (sem st) st))).
  eapply keeps_inv; [exact Hi|exact Hj|]. destruct Hi as [Ic _ Ib _ _ _ _].
  split; simpl; try done; try lia; [by left|]. right; right. split; [done|lia].
Qed.

Lemma sem_step_inv cap sp st st' : inv cap 0 st → inner_step sp st st' → inv cap 0 st'.
Proof.
  intros Hi Hs. destruct Hs as [i st c s c' e Hc Hs Hne|i st c s c' st' Hc Hs Hn].
  - pose proof (thread_step_keeps _ _ _ _ _ _ _ _ Hi Hc Hs) as Hk.
    replace (debt_of e) with 0 in Hk by (by destruct e). by eapply keeps_inv.
  - pose proof (thread_step_keeps _ _ _ _ _ _ _ _ Hi Hc Hs) as Hk.
    pose proof (keeps_inv _ _ _ _ _ _ _ _ _ Hi Hc Hk) as H1. simpl in H1.
    destruct Hn as [st1 j Hj|st1 Hn]; [by eapply wake_one|].
    destruct H1 as [H1 H2 H3 H4 H5 H6 H7]. by split.
Qed.

Lemma sem_start_inv cap st i c :
  inv cap 0 st → threads st !! i = Some Outside → c = AcquireLoad ∨ c = ReleaseLoad →
  inv cap 0 (set_thread i c st).
Proof.
  intros Hi Hj Hc. change (set_thread i c st) with
    (count_call Silent (set_thread i c (set_sem (sem st) st))).
  eapply keeps_inv; [exact Hi|exact Hj|]. destruct Hi as [Ic _ Ib _ _ _ _].
  destruct Hc as [-> | ->]; (split; simpl; try done; try lia; [by left|]);
    right; right; (split; [done|lia]).
Qed.

Lemma total_outside f n : f Outside = 0 → total f (init 0 n) = 0%Z.
Proof.
  intros Hf. unfold total. rewrite sum_list_with_0; [done|]. simpl.
  apply Forall_replicate. exact Hf.
Qed.

Lemma sem_init_inv cap n : (0 ≤ cap)%Z → inv cap 0 (init cap n).
Proof.
  intros Hc. split; simpl; try done; try lia.
  - pose proof (total_outside flying n eq_refl). unfold total in *. simpl in *. lia.
  - symmetry. by apply (total_outside waiting n).
  - intros i. split; [done|]. intros (c & [-> _]%lookup_replicate & Hh). done.
  - by apply Forall_replicate.
  - intros [H _]%elem_of_replicate. done.
Qed.

Lemma sem_any_step_inv cap st st' : inv cap 0 st → step st st' → inv cap 0 st'.
Proof.
  intros Hi Hs. destruct Hs as [? i H|? i H|sp ? ? H].
  - apply sem_start_inv; [done..|by left].
  - apply sem_start_inv; [done..|by right].
  - by eapply sem_step_inv.
Qed.

Lemma sem_reachable_inv cap n st : (0 ≤ cap)%Z → reachable cap n st → inv cap 0 st.
Proof. intros Hc. apply rtc_invariant; [apply sem_any_step_inv|by apply sem_init_inv]. Qed.

(** ** Progress *)




(** ** Properties *)

(** C19: whatever the interleaving, the permits add up: what remains is the capacity less the
    calls of [acquire] that returned plus the permits put back.  So at most [capacity]
    calls more than were released ever return, and the count never leaves its range. *)
Theorem permits_conserved cap n st :
  (0 ≤ cap)%Z → reachable cap n st →
  (0 ≤ remaining (sem st) ≤ cap)%Z ∧
  (Z.of_nat (acquired st) + remaining (sem st) =
    cap + Z.of_nat (released st) + total flying st)%Z.
Proof.
  intros Hc Hr. apply (sem_reachable_inv _ _ _ Hc) in Hr as [_ H1 H2 _ _ _ _]. split; [done|lia].
Qed.


(** ** Witnesses *)

(** The next access of thread [i]. *)
Definition advance (st : System) (i : nat) : option System :=
  c ← threads st !! i;
  match thread_step i false (sem st) c with
  | Some (s, c', Notified) => None
  | Some (s, c', e) => Some (count_call e (set_thread i c' (set_sem s st)))
  | None => None
  end.

Fixpoint advance_all (l : list nat) (st : System) : option System :=
  match l with [] => Some st | i :: l => st ← advance st i; advance_all l st end.

Lemma advance_steps l st st' : advance_all l st = Some st' → rtc step st st'.
Proof.
  revert st. induction l as [|i l IH]; intros st; simpl; [by intros [= <-]|].
  destruct (advance st i) as [st1|] eqn:E; [|done]. simpl.
  intros Hl. eapply rtc_l; [|by apply IH]. unfold advance in E.
  destruct (threads st !! i) as [c|] eqn:Ec; [|done]. simpl in E.
  destruct (thread_step i false (sem st) c) as [[[s c'] e]|] eqn:Es; [|done].
  eapply (step_inner false). destruct e; simplify_eq; by eapply step_run.
Qed.

(** Thread 0 has the only permit, thread 1 waits for it. *)
Definition one_waits : System :=
  mkSystem (mkSemaphore 1 0 1 None) [Outside; AcquireBlocked] 1 0.

Lemma one_waits_reachable : reachable 1 2 one_waits.
Proof.
  eapply rtc_l; [by apply (step_acquire _ 0)|].
  eapply rtc_l; [by apply (step_acquire _ 1)|].
  apply (advance_steps [0; 0; 1; 1; 1; 1; 1]). vm_compute. reflexivity.
Qed.

Lemma permits_conserved_witness : remaining (sem one_waits) = 0%Z ∧ (0 ≤ remaining (sem one_waits) ≤ 1)%Z.
Proof. split; [reflexivity|]. apply (permits_conserved 1 2 one_waits); [lia|exact one_waits_reachable]. Defined.

