(* ===== verification/SemaphoreTest.v ===== *)
(** * The tests of the semaphore (thread/semaphore/main.cpp)

    [TestA] and [TestB] as clients of the semaphore of Semaphore.v (the class is the
    same text): a system of threads, each with its own program, whose calls run inside the model of
    the semaphore, access by access. *)

From S2P Require Import Prelude Semaphore.

(** ** Clients of a semaphore *)

Inductive call := DoAcquire | DoRelease.

Definition entry (o : option call) : pc :=
  match o with None => Outside | Some DoAcquire => AcquireLoad | Some DoRelease => ReleaseLoad end.

(** A program: the call a thread is in, the next access of one that is in none ([None]: it has to wait or has
    ended), and where it goes on when the call returns. *)
Class Program (T Sh : Type) := {
  calling : T → option call;
  local : bool → Sh → T → option (Sh * T);
  returned : T → effect → T
}.

Record Clients (T Sh : Type) := mkClients { sys : System; shared : Sh; clients : list T }.
Arguments mkClients {T Sh} sys shared clients.
Arguments sys {T Sh} c.
Arguments shared {T Sh} c.
Arguments clients {T Sh} c.

Definition returns (e : effect) : bool := match e with Acquired | Released _ => true | _ => false end.

Section clients.
  Context {T Sh : Type} `{!Program T Sh}.

Inductive client_step : Clients T Sh → Clients T Sh → Prop :=
  | client_local st i t sp sh t' :
      clients st !! i = Some t → threads (sys st) !! i = Some Outside →
      calling t = None → local sp (shared st) t = Some (sh, t') →
      client_step st (mkClients (set_thread i (entry (calling t')) (sys st)) sh (<[i := t']> (clients st)))
  | client_call st i t c sp s c' e :
      clients st !! i = Some t → threads (sys st) !! i = Some c →
      thread_step i sp (sem (sys st)) c = Some (s, c', e) → e ≠ Notified →
      let t' := if returns e then returned t e else t in
      let c' := if returns e then entry (calling t') else c' in
      client_step st
        (mkClients (count_call e (set_thread i c' (set_sem s (sys st)))) (shared st) (<[i := t']> (clients st)))
  | client_notify st i c sp s c' st' :
      threads (sys st) !! i = Some c → thread_step i sp (sem (sys st)) c = Some (s, c', Notified) →
      notify (set_thread i c' (set_sem s (sys st))) st' →
      client_step st (mkClients st' (shared st) (clients st)).

Definition client_init (cap : Z) (sh : Sh) (ts : list T) : Clients T Sh :=
  mkClients (init cap (length ts)) sh ts.

Definition client_reachable (cap : Z) (sh : Sh) (ts : list T) : Clients T Sh → Prop :=
  rtc client_step (client_init cap sh ts).

(** ** Every run of clients is a run of the semaphore *)

Lemma returns_outside i sp s c s' c' e :
  thread_step i sp s c = Some (s', c', e) → returns e = true → c' = Outside.
Proof.
  destruct c; simpl; unfold compare_exchange_weak, acquire_exit, release_exit, lock;
    intros H Hr; repeat (case_match; simplify_eq/=); simplify_eq/=; done.
Qed.

Lemma enter_steps st i o : threads st !! i = Some Outside → rtc step st (set_thread i (entry o) st).
Proof.
  intros H. destruct o as [[]|]; simpl.
  - by apply rtc_once, step_acquire.
  - by apply rtc_once, step_release.
  - unfold set_thread. rewrite (list_insert_id (threads st) i Outside H). destruct st. apply rtc_refl.
Qed.

Lemma set_thread_twice i c c' st : set_thread i c (set_thread i c' st) = set_thread i c st.
Proof. unfold set_thread. simpl. by rewrite list_insert_insert_eq. Qed.

Lemma count_set e i c st : count_call e (set_thread i c st) = set_thread i c (count_call e st).
Proof. by destruct e as [| |[]|]. Qed.

Lemma count_threads e st : threads (count_call e st) = threads st.
Proof. by destruct e as [| |[]|]. Qed.

Lemma notify_counts st st' : notify st st' → acquired st' = acquired st ∧ released st' = released st.
Proof. by intros []. Qed.

Lemma client_step_sys st st' : client_step st st' → rtc step (sys st) (sys st').
Proof.
  intros [? i t sp sh t' Hi Hc Ht Hl|? i t c sp s c' e Hi Hc Hs Hne t1 c1|? i c sp s c' st'' Hc Hs Hn]; simpl.
  - by apply enter_steps.
  - eapply rtc_l; [by eapply (step_inner sp), step_run|]. subst c1. destruct (returns e) eqn:Er; [|done].
    pose proof (returns_outside _ _ _ _ _ _ _ Hs Er) as ->.
    rewrite <- (set_thread_twice i (entry (calling t1)) Outside), (count_set _ _ (entry (calling t1))).
    apply enter_steps.
    rewrite count_threads. simpl. apply list_lookup_insert_eq. by eapply lookup_lt_Some.
  - by eapply rtc_once, (step_inner sp), step_notify.
Qed.

Lemma client_sem_inv cap sh ts st : (0 ≤ cap)%Z → client_reachable cap sh ts st → inv cap 0 (sys st).
Proof.
  intros Hc Hr. apply (sem_reachable_inv cap (length ts)); [done|]. unfold reachable.
  change (init cap (length ts)) with (sys (client_init cap sh ts)). unfold client_reachable in Hr.
  induction Hr as [|? ? ? Hs _ IH]; [done|]. etrans; [by apply client_step_sys|done].
Qed.

(** ** A thread is inside the call its program says *)

Definition in_acquire (c : pc) : bool :=
  match c with
  | AcquireLoad | AcquireCas _ | AcquireLock | AcquireIncr | AcquireTest | AcquireBlocked
  | AcquireRelock | AcquireDecr | AcquireUnlock => true
  | _ => false
  end.

Definition in_release (c : pc) : bool :=
  match c with
  | ReleaseLoad | ReleaseCas _ | ReleaseTest | ReleaseLock | ReleaseNotify | ReleaseUnlock => true
  | _ => false
  end.

Definition where_said (t : T) (c : pc) : Prop :=
  match calling t with
  | None => c = Outside
  | Some DoAcquire => in_acquire c = true
  | Some DoRelease => in_release c = true
  end.

(** What a step inside a call does: it stays inside, or returns the way the call can. *)
Lemma call_stays i sp s c s' c' e :
  thread_step i sp s c = Some (s', c', e) →
  (returns e = false ∧ in_acquire c' = in_acquire c ∧ in_release c' = in_release c) ∨
  (in_acquire c = true ∧ e = Acquired) ∨ (in_release c = true ∧ ∃ b, e = Released b).
Proof.
  destruct c; simpl; unfold compare_exchange_weak, acquire_exit, release_exit, lock;
    intros H; repeat (case_match; simplify_eq/=); simplify_eq/=; eauto 6.
Qed.

Lemma Forall2_insert_both {A B} (P : A → B → Prop) l k i a b :
  Forall2 P l k → P a b → Forall2 P (<[i := a]> l) (<[i := b]> k).
Proof. apply Forall2_insert. Qed.

Lemma Forall2_insert_right {A B} (P : A → B → Prop) l k i a b :
  Forall2 P l k → l !! i = Some a → P a b → Forall2 P l (<[i := b]> k).
Proof. intros H Hi Hp. rewrite <- (list_insert_id l i a) by done. by apply Forall2_insert. Qed.

Lemma where_said_entry t : where_said t (entry (calling t)).
Proof. unfold where_said. by destruct (calling t) as [[]|]. Qed.

Lemma client_where st st' :
  client_step st st' → Forall2 where_said (clients st) (threads (sys st)) →
  Forall2 where_said (clients st') (threads (sys st')).
Proof.
  intros [? i t sp sh t' Hi Hc Ht Hl|? i t c sp s c' e Hi Hc Hs Hne t1 c1|? i c sp s c' st'' Hc Hs Hn] Hw; simpl.
  - apply Forall2_insert; [done|apply where_said_entry].
  - rewrite count_threads. simpl. apply Forall2_insert; [done|]. subst t1 c1.
    destruct (returns e) eqn:Er; [apply where_said_entry|].
    pose proof (Forall2_lookup_lr _ _ _ _ _ _ Hw Hi Hc) as Ht. unfold where_said in *.
    destruct (call_stays _ _ _ _ _ _ _ Hs) as [(_ & Ha & Hb)|[[_ ->]|[_ [b ->]]]]; [|done..].
    destruct (calling t) as [[]|]; [congruence..|]. by subst c.
  - destruct (Forall2_lookup_r _ _ _ _ _ Hw Hc) as (t & Hi & Ht).
    destruct (call_stays _ _ _ _ _ _ _ Hs) as [(_ & Ha & Hb)|[[_ ?]|[_ [b ?]]]]; [|done..].
    assert (Hw1 : Forall2 where_said (clients st0) (<[i := c']> (threads (sys st0)))).
    { eapply Forall2_insert_right; [done|done|]. unfold where_said in *.
      destruct (calling t) as [[]|]; [congruence..|]. by subst c. }
    inversion Hn as [? j Hj|? Hno]; subst; [|done]. simpl in *.
    destruct (Forall2_lookup_r _ _ _ _ _ Hw1 Hj) as (u & Hu & Hwu).
    eapply Forall2_insert_right; [done|done|]. unfold where_said in *. by destruct (calling u) as [[]|].
Qed.

Lemma client_init_where cap sh ts :
  Forall (λ t, calling t = None) ts → Forall2 where_said ts (threads (sys (client_init cap sh ts))).
Proof.
  intros H. simpl. induction H as [|t ts Ht _ IH]; constructor; [|done]. unfold where_said. by rewrite Ht.
Qed.

(** ** Counting clients *)

Definition counted (f : T → nat) (st : Clients T Sh) : Z := Z.of_nat (sum_list_with f (clients st)).

Definition releasing (t : T) : nat := match calling t with Some DoRelease => 1 | _ => 0 end.

Lemma flying_releases ts cs :
  Forall2 where_said ts cs → sum_list_with flying cs ≤ sum_list_with releasing ts.
Proof.
  induction 1 as [|t c ts cs Hw _ IH]; simpl; [lia|].
  assert (flying c ≤ releasing t); [|lia]. unfold where_said, releasing in *.
  destruct (calling t) as [[]|]; [by destruct c; simpl in *; (done || lia)|destruct c; simpl; lia|by subst c].
Qed.

Lemma counted_set f sys sh i t t' (st : Clients T Sh) :
  clients st !! i = Some t →
  (counted f (mkClients sys sh (<[i := t']> (clients st))) + Z.of_nat (f t) = counted f st + Z.of_nat (f t'))%Z.
Proof. intros Hi. unfold counted. pose proof (sum_list_with_insert f _ i t t' Hi). simpl. lia. Qed.

Lemma counted_ge f i t (st : Clients T Sh) : clients st !! i = Some t → (Z.of_nat (f t) ≤ counted f st)%Z.
Proof. intros Hi. pose proof (sum_list_with_ge f _ _ _ Hi). unfold counted. lia. Qed.
Lemma counted_zero f (st : Clients T Sh) : Forall (λ t, f t = 0) (clients st) → counted f st = 0%Z.
Proof. intros H. unfold counted. by rewrite sum_list_with_0. Qed.

Lemma counted_pos f (st : Clients T Sh) :
  (0 < counted f st)%Z → ∃ i t, clients st !! i = Some t ∧ f t ≠ 0.
Proof.
  intros H. destruct (decide (Forall (λ t, f t = 0) (clients st))) as [Hf|Hf].
  - apply counted_zero in Hf. lia.
  - apply not_Forall_Exists in Hf; [|apply _]. apply Exists_exists in Hf as (t & (i & Hi)%list_elem_of_lookup & Hn).
    eauto.
Qed.

(** ** Running clients *)

(** The next access of thread [i]. *)
Definition client_advance (st : Clients T Sh) (i : nat) : option (Clients T Sh) :=
  t ← clients st !! i;
  c ← threads (sys st) !! i;
  match calling t with
  | None =>
      if decide (c = Outside) then
        '(sh, t') ← local false (shared st) t;
        Some (mkClients (set_thread i (entry (calling t')) (sys st)) sh (<[i := t']> (clients st)))
      else None
  | Some _ =>
      '(s, c', e) ← thread_step i false (sem (sys st)) c;
      let t' := if returns e then returned t e else t in
      let c1 := if returns e then entry (calling t') else c' in
      match e with
      | Notified => None
      | _ => Some (mkClients (count_call e (set_thread i c1 (set_sem s (sys st)))) (shared st)
                     (<[i := t']> (clients st)))
      end
  end.

Fixpoint client_run (l : list nat) (st : Clients T Sh) : option (Clients T Sh) :=
  match l with [] => Some st | i :: l => st ← client_advance st i; client_run l st end.

Lemma client_run_steps l st st' : client_run l st = Some st' → rtc client_step st st'.
Proof.
  revert st. induction l as [|i l IH]; intros st; simpl; [by intros [= <-]|].
  destruct (client_advance st i) as [st1|] eqn:E; [|done]. simpl. intros Hl.
  eapply rtc_l; [|by apply IH]. clear IH Hl. unfold client_advance in E.
  destruct (clients st !! i) as [t|] eqn:Et; [|done]. destruct (threads (sys st) !! i) as [c|] eqn:Ec; [|done].
  simpl in E. destruct (calling t) eqn:Ek.
  - destruct (thread_step i false (sem (sys st)) c) as [[[s c'] e]|] eqn:Es; [|done]. simpl in E.
    destruct e; simplify_eq/=;
      match type of Es with _ = Some (_, _, ?e) => exact (client_call st i t c false s c' e Et Ec Es ltac:(done)) end.
  - case_decide; [subst c|done]. destruct (local false (shared st) t) as [[sh t']|] eqn:El; [|done].
    simplify_eq/=. by eapply client_local.
Qed.
End clients.

(** ** TestA *)

Module TestA.

(** The atomic counters the threads share. *)
Record Counters := mkCounters { number : Z; acquireCount : Z; releaseCount : Z }.

(** The next access of a thread, with its local variables: first those of [aq], then those of [rl].
    [AqError]: [x >= sn], reported and thrown. *)
Inductive tester :=
  | AqLoad | AqCas (ac : Z) | AqAcquire | AqAdd | AqDone | AqError (x : Z)
  | RlLoadA | RlLoadR (ac : Z) | RlCas (ac rc : Z) | RlDec | RlRelease | RlDone.

(** [v.compare_exchange_weak(expected, expected + 1)]: whether it stored, [expected] after it, [v] after it. *)
Definition count_up (spurious : bool) (v expected : Z) : bool * Z * Z :=
  if (v =? expected)%Z && negb spurious then (true, expected, (v + 1)%Z) else (false, v, v).

Section test.
  Context (sn count : Z).

(** After the inner loop of [aq]. *)
Definition aq_exit (ac : Z) : tester := if (ac =? count)%Z then AqDone else AqAcquire.

(** After the inner loop of [rl]. *)
Definition rl_exit (ac rc : Z) : tester :=
  if (rc =? count - sn)%Z then RlDone else if (ac - sn <=? rc)%Z then RlLoadA else RlDec.

Definition tester_local (spurious : bool) (sh : Counters) (t : tester) : option (Counters * tester) :=
  match t with
  | AqLoad => Some (sh, AqCas (acquireCount sh))
  | AqCas ac =>
      if (ac <? count)%Z then
        let '(ok, ac, v) := count_up spurious (acquireCount sh) ac in
        let sh := mkCounters (number sh) v (releaseCount sh) in
        Some (sh, if ok : bool then aq_exit ac else AqCas ac)
      else Some (sh, aq_exit ac)
  | AqAdd =>
      let x := number sh in
      Some (mkCounters (x + 1) (acquireCount sh) (releaseCount sh), if (sn <=? x)%Z then AqError x else AqLoad)
  | RlLoadA => Some (sh, RlLoadR (acquireCount sh))
  | RlLoadR ac => Some (sh, RlCas ac (releaseCount sh))
  | RlCas ac rc =>
      if (rc <? ac - sn)%Z then
        let '(ok, rc, v) := count_up spurious (releaseCount sh) rc in
        let sh := mkCounters (number sh) (acquireCount sh) v in
        Some (sh, if ok : bool then rl_exit ac rc else RlCas ac rc)
      else Some (sh, rl_exit ac rc)
  | RlDec => Some (mkCounters (number sh - 1) (acquireCount sh) (releaseCount sh), RlRelease)
  | AqAcquire | RlRelease | AqDone | AqError _ | RlDone => None
  end.

Definition tester_calling (t : tester) : option call :=
  match t with AqAcquire => Some DoAcquire | RlRelease => Some DoRelease | _ => None end.

(** [while (!s.release()) {}]. *)
Definition tester_returned (t : tester) (e : effect) : tester :=
  match t, e with
  | AqAcquire, Acquired => AqAdd
  | RlRelease, Released true => RlLoadA
  | _, _ => t
  end.

#[local] Instance tester_program : Program tester Counters := {
  calling := tester_calling;
  local := tester_local;
  returned := tester_returned
}.

(** [atn] threads run [aq], [rtn] run [rl]. *)
Definition TestA (atn rtn : nat) : Clients tester Counters → Prop :=
  client_reachable sn (mkCounters 0 0 0) (replicate atn AqLoad ++ replicate rtn RlLoadA).

(** ** The invariant *)

Definition acquiring (t : tester) : nat := match t with AqAcquire => 1 | _ => 0 end.
Definition to_add (t : tester) : nat := match t with AqAdd => 1 | _ => 0 end.
Definition to_release (t : tester) : nat := match t with RlRelease => 1 | _ => 0 end.
Definition to_dec (t : tester) : nat := match t with RlDec => 1 | _ => 0 end.
Definition is_aq (t : tester) : nat :=
  match t with AqLoad | AqCas _ | AqAcquire | AqAdd | AqDone | AqError _ => 1 | _ => 0 end.
Definition is_rl (t : tester) : nat := 1 - is_aq t.

(** What a thread knows of the counters. *)
Definition knows (sh : Counters) (t : tester) : Prop :=
  match t with
  | AqCas ac => (ac ≤ acquireCount sh)%Z
  | AqError _ => False
  | AqDone => acquireCount sh = count
  | RlLoadR ac => (ac ≤ acquireCount sh)%Z
  | RlCas ac rc => (ac ≤ acquireCount sh)%Z ∧ (rc ≤ releaseCount sh)%Z
  | RlDone => releaseCount sh = (count - sn)%Z
  | _ => True
  end.

Record test_inv (aqs rls : nat) (st : Clients tester Counters) : Prop := {
  ti_where : Forall2 where_said (clients st) (threads (sys st));
  ti_acquire : acquireCount (shared st) = (Z.of_nat (acquired (sys st)) + counted acquiring st)%Z;
  ti_number : (number (shared st) + counted to_add st + counted to_release st =
    Z.of_nat (acquired (sys st)) - Z.of_nat (released (sys st)))%Z;
  ti_release : releaseCount (shared st) =
    (Z.of_nat (released (sys st)) + counted to_release st + counted to_dec st)%Z;
  ti_bound : (0 ≤ acquireCount (shared st) ≤ count)%Z;
  ti_behind : (releaseCount (shared st) ≤ Z.max 0 (acquireCount (shared st) - sn))%Z;
  ti_knows : Forall (knows (shared st)) (clients st);
  ti_aqs : counted is_aq st = Z.of_nat aqs;
  ti_rls : counted is_rl st = Z.of_nat rls
}.

Lemma knows_later sh sh' t :
  (acquireCount sh ≤ acquireCount sh' ≤ count)%Z → (releaseCount sh ≤ releaseCount sh' ≤ count - sn)%Z →
  knows sh t → knows sh' t.
Proof. destruct t; simpl; lia. Qed.

Lemma to_release_sum l : sum_list_with releasing l = sum_list_with to_release l.
Proof. induction l as [|t l IH]; [done|]. simpl. rewrite IH. by destruct t. Qed.

(** An acquired permit not yet counted keeps [number] below [sn]. *)
Lemma add_below aqs rls i st :
  inv sn 0 (sys st) → test_inv aqs rls st → clients st !! i = Some AqAdd → (number (shared st) < sn)%Z.
Proof.
  intros Hs [Hw _ Hn _ _ _ _ _ _] Hi.
  pose proof (inv_remaining _ _ _ Hs). pose proof (inv_bounds _ _ _ Hs).
  pose proof (flying_releases _ _ Hw) as Hf. rewrite to_release_sum in Hf.
  pose proof (counted_ge to_add _ _ _ Hi). unfold counted, total in *. simpl in *. lia.
Qed.

(** A thread [i] goes from [t] to [t'], the counters from those of [st] to [sh]. *)
Lemma test_inv_move aqs rls i t t' sy sh st :
  (sn ≤ count)%Z → test_inv aqs rls st → clients st !! i = Some t →
  Forall2 where_said (<[i := t']> (clients st)) (threads sy) →
  is_aq t' = is_aq t →
  (acquireCount (shared st) ≤ acquireCount sh ≤ count)%Z →
  (acquireCount sh - acquireCount (shared st) =
    Z.of_nat (acquired sy) - Z.of_nat (acquired (sys st)) + Z.of_nat (acquiring t') - Z.of_nat (acquiring t))%Z →
  (number sh - number (shared st) + Z.of_nat (to_add t') - Z.of_nat (to_add t)
     + Z.of_nat (to_release t') - Z.of_nat (to_release t) =
    Z.of_nat (acquired sy) - Z.of_nat (acquired (sys st))
      - (Z.of_nat (released sy) - Z.of_nat (released (sys st))))%Z →
  (releaseCount sh - releaseCount (shared st) = Z.of_nat (released sy) - Z.of_nat (released (sys st))
     + Z.of_nat (to_release t') - Z.of_nat (to_release t) + Z.of_nat (to_dec t') - Z.of_nat (to_dec t))%Z →
  (releaseCount (shared st) ≤ releaseCount sh ≤ Z.max 0 (acquireCount sh - sn))%Z →
  knows sh t' →
  test_inv aqs rls (mkClients sy sh (<[i := t']> (clients st))).
Proof.
  intros Hc [Hw Ha Hn Hr Hb Hh Hk Hq Hl] Hi Hw' Ht H1 H2 H3 H4 H5 H6.
  pose proof (counted_set acquiring sy sh _ _ t' _ Hi). pose proof (counted_set to_add sy sh _ _ t' _ Hi).
  pose proof (counted_set to_release sy sh _ _ t' _ Hi). pose proof (counted_set to_dec sy sh _ _ t' _ Hi).
  pose proof (counted_set is_aq sy sh _ _ t' _ Hi). pose proof (counted_set is_rl sy sh _ _ t' _ Hi) as Hrl.
  unfold is_rl in Hrl at 2 4. rewrite Ht in Hrl.
  split; simpl; try done; try lia.
  apply Forall_insert; [|done]. eapply Forall_impl; [exact Hk|]. intros u. apply knows_later; lia.
Qed.

Lemma test_local aqs rls st i sp t sh t' sy :
  (sn ≤ count)%Z → inv sn 0 (sys st) → test_inv aqs rls st → clients st !! i = Some t →
  acquired sy = acquired (sys st) → released sy = released (sys st) →
  tester_calling t = None → tester_local sp (shared st) t = Some (sh, t') →
  Forall2 where_said (<[i := t']> (clients st)) (threads sy) →
  test_inv aqs rls (mkClients sy sh (<[i := t']> (clients st))).
Proof.
  intros Hc Hs Hi Ht Ea Er Hn Hl Hw. pose proof Hi as [_ _ _ _ Hb Hh Hk _ _].
  pose proof (Forall_lookup_1 _ _ _ _ Hk Ht) as Hkt. pose proof (add_below aqs rls i st Hs Hi) as Hadd.
  destruct (shared st) as [nu ac0 rc0] eqn:Esh.
  destruct t; simpl in Hl, Hn, Hkt; try done; unfold count_up, aq_exit, rl_exit in Hl;
    repeat (case_match; simplify_eq/=); simplify_eq/=; try (specialize (Hadd Ht); lia);
    (eapply test_inv_move; [done|exact Hi|exact Ht|exact Hw|..]); rewrite ?Ea, ?Er, ?Esh; simpl; try done; try lia.
Qed.

Lemma test_call aqs rls st i sp t c s c' e :
  (sn ≤ count)%Z → test_inv aqs rls st → clients st !! i = Some t →
  thread_step i sp (sem (sys st)) c = Some (s, c', e) → where_said t c →
  let t' := if returns e then tester_returned t e else t in
  let c1 := if returns e then entry (tester_calling t') else c' in
  let sy := count_call e (set_thread i c1 (set_sem s (sys st))) in
  Forall2 where_said (<[i := t']> (clients st)) (threads sy) →
  test_inv aqs rls (mkClients sy (shared st) (<[i := t']> (clients st))).
Proof.
  intros Hc Hi Ht Hs Hw t' c1 sy Hws. pose proof Hi as [_ _ _ _ Hb Hh Hk _ _].
  pose proof (Forall_lookup_1 _ _ _ _ Hk Ht) as Hkt.
  eapply test_inv_move; [done|exact Hi|exact Ht|exact Hws|..]; try lia; subst t' c1 sy; clear Hws;
    unfold where_said in Hw; simpl in Hw;
    destruct (call_stays _ _ _ _ _ _ _ Hs) as [(Hr & _ & _)|[[Hq ->]|[Hq [b ->]]]]; simpl;
    try rewrite Hr; try (destruct e; done || (simpl; lia));
    destruct t; simpl in *; try (by destruct c); try (by subst c); try destruct b; simpl; try done; try lia.
Qed.

Lemma test_step aqs rls st st' :
  (sn ≤ count)%Z → inv sn 0 (sys st) → test_inv aqs rls st → client_step st st' → test_inv aqs rls st'.
Proof.
  intros Hc Hs Hi Hst. pose proof (client_where _ _ Hst (ti_where _ _ _ Hi)) as Hw.
  destruct Hst as [? i t sp sh t' Ht _ Hn Hl|? i t c sp s c' e Ht Hci Hth Hne t1 c1|? i c sp s c' st1 Hci Hth Hno].
  - by eapply test_local.
  - eapply test_call; [done..| |exact Hw]. by eapply Forall2_lookup_lr; [apply (ti_where _ _ _ Hi)|..].
  - apply notify_counts in Hno as [Ea Er]. destruct Hi. split; simpl in *; rewrite ?Ea, ?Er; done.
Qed.

Lemma counted_replicate f n (t : tester) : sum_list_with f (replicate n t) = n * f t.
Proof. induction n as [|n IH]; simpl; lia. Qed.

Lemma test_init_inv aqs rls :
  (0 ≤ count)%Z →
  test_inv aqs rls (client_init sn (mkCounters 0 0 0) (replicate aqs AqLoad ++ replicate rls RlLoadA)).
Proof.
  intros Hc. split; simpl; unfold counted; simpl;
    rewrite ?sum_list_with_app, ?counted_replicate; unfold is_rl; simpl; try lia.
  - apply (client_init_where sn (mkCounters 0 0 0)), Forall_app. split; by apply Forall_replicate.
  - apply Forall_app. split; by apply Forall_replicate.
Qed.

Lemma testA_inv aqs rls st : (0 ≤ sn ≤ count)%Z → TestA aqs rls st → inv sn 0 (sys st) ∧ test_inv aqs rls st.
Proof.
  intros Hc Hr. split; [eapply client_sem_inv; [lia|exact Hr]|].
  assert (Hg : ∀ x, rtc client_step x st → inv sn 0 (sys x) → test_inv aqs rls x → test_inv aqs rls st).
  { clear Hr. intros x Hx. induction Hx as [|x y z Hs _ IH]; [done|]. intros Hi Ht. apply IH; [|by eapply test_step; [lia|..]].
    eapply rtc_invariant; [|exact Hi|by apply client_step_sys]. apply sem_any_step_inv. }
  apply (Hg _ Hr); [apply sem_init_inv; lia|apply test_init_inv; lia].
Qed.

(** A thread that has ended, sleeps in [cv.wait], or goes round a loop without effect: [rl] with nothing to
    release, or [release] when nothing is acquired. *)
Definition at_rest (st : Clients tester Counters) (t : tester) (c : pc) : Prop :=
  match t with
  | AqDone | RlDone => True
  | AqAcquire => c = AcquireBlocked
  | RlLoadA => (acquireCount (shared st) - sn ≤ releaseCount (shared st))%Z
               ∧ releaseCount (shared st) ≠ (count - sn)%Z
  | RlRelease => c = ReleaseLoad ∧ remaining (sem (sys st)) = sn
  | _ => False
  end.

Definition ended (t : tester) : Prop := t = AqDone ∨ t = RlDone.

(** At rest no thread is about to add or to decrement, and none is waking another. *)
Lemma rest_counts (st : Clients tester Counters) :
  Forall2 (at_rest st) (clients st) (threads (sys st)) →
  Forall2 where_said (clients st) (threads (sys st)) →
  counted to_add st = 0%Z ∧ counted to_dec st = 0%Z ∧ total flying (sys st) = 0%Z ∧ total active (sys st) = 0%Z.
Proof.
  intros Hr Hw. unfold counted, total.
  assert (H : Forall2 (λ t c, to_add t = 0 ∧ to_dec t = 0 ∧ flying c = 0 ∧ active c = 0)
    (clients st) (threads (sys st))).
  { apply Forall2_same_length_lookup. split; [by eapply Forall2_length|]. intros i t c Ht Hc.
    pose proof (Forall2_lookup_lr _ _ _ _ _ _ Hr Ht Hc) as H1.
    pose proof (Forall2_lookup_lr _ _ _ _ _ _ Hw Ht Hc) as H2. unfold where_said in H2.
    destruct t; simpl in *; try done; try (by subst c). by destruct H1 as [-> _]. }
  split_and!; rewrite sum_list_with_0; try done; [eapply Forall2_Forall_l|eapply Forall2_Forall_l|
    eapply Forall2_Forall_r|eapply Forall2_Forall_r]; try exact H; apply Forall_true; tauto.
Qed.

Section rest.
  Context (aqs rls : nat) (st : Clients tester Counters).
  Context (Hc : (0 < sn ≤ count)%Z) (Ha : 0 < aqs) (Hl : 0 < rls).
  Context (Hs : inv sn 0 (sys st)) (Hi : test_inv aqs rls st).
  Context (Hq : Forall2 (at_rest st) (clients st) (threads (sys st))).

Lemma rest_of i t : clients st !! i = Some t →
  ∃ c, threads (sys st) !! i = Some c ∧ at_rest st t c ∧ knows (shared st) t.
Proof.
  intros Ht. destruct (Forall2_lookup_l _ _ _ _ _ Hq Ht) as (c & Hci & Hcr).
  exists c. split_and!; [done|done|]. eapply Forall_lookup_1; [apply (ti_knows _ _ _ Hi)|done].
Qed.

(** The sums of the invariants, at rest. *)
Lemma rest_sums :
  remaining (sem (sys st)) = (sn - Z.of_nat (acquired (sys st)) + Z.of_nat (released (sys st)))%Z ∧
  releaseCount (shared st) = (Z.of_nat (released (sys st)) + counted to_release st)%Z ∧
  (AcquireBlocked ∈ threads (sys st) → (remaining (sem (sys st)) ≤ 0)%Z).
Proof.
  destruct (rest_counts _ Hq (ti_where _ _ _ Hi)) as (_ & Zdec & Zfly & Zact).
  pose proof (inv_remaining _ _ _ Hs). pose proof (ti_release _ _ _ Hi). split_and!; [lia|lia|].
  intros Hb. pose proof (inv_wake _ _ _ Hs Hb). lia.
Qed.

(** A thread going round [release] without effect needs every permit to be there. *)
Lemma rest_no_release : (remaining (sem (sys st)) < sn)%Z → counted to_release st = 0%Z.
Proof.
  intros Hlt. apply counted_zero, Forall_lookup_2. intros i t Ht.
  destruct (rest_of _ _ Ht) as (c & _ & Hr & _). destruct t; try done. simpl in Hr. lia.
Qed.

Lemma rest_no_acquire i : clients st !! i ≠ Some AqAcquire.
Proof.
  intros Ht. destruct (rest_of _ _ Ht) as (c & Hci & -> & _).
  destruct rest_sums as (Sr & Srel & Sb). apply list_elem_of_lookup_2, Sb in Hci.
  pose proof (inv_bounds _ _ _ Hs). pose proof (rest_no_release ltac:(lia)) as Zrel.
  pose proof (counted_ge acquiring _ _ _ Ht) as Hge. simpl in Hge.
  pose proof Hi as [_ Iacq _ _ Ib _ _ _ Irl].
  destruct (counted_pos is_rl st ltac:(lia)) as (r & rt & Hrt & Hris).
  destruct (rest_of _ _ Hrt) as (d & _ & Hdr & Hdk). destruct rt; simpl in *; try done; lia.
Qed.

Lemma rest_all_acquired : Z.of_nat (acquired (sys st)) = count ∧ acquireCount (shared st) = count.
Proof.
  pose proof Hi as [_ Iacq _ _ _ _ _ Iaq _].
  assert (counted acquiring st = 0%Z) as Z0.
  { apply counted_zero, Forall_lookup_2. intros i t Ht. destruct t; try done. by destruct (rest_no_acquire i). }
  destruct (counted_pos is_aq st ltac:(lia)) as (q & qt & Hqt & Hqis).
  destruct (rest_of _ _ Hqt) as (d & _ & Hdr & Hdk).
  destruct qt; simpl in *; try done; [by destruct (rest_no_acquire q)|]. lia.
Qed.

Lemma rest_rl_ended i t : clients st !! i = Some t → ended t.
Proof.
  intros Ht. destruct rest_all_acquired as [Ea Ec]. destruct rest_sums as (Sr & Srel & _).
  destruct (rest_of _ _ Ht) as (c & _ & Hr & _). pose proof (ti_behind _ _ _ Hi).
  pose proof (inv_bounds _ _ _ Hs). pose proof (counted_ge to_release _ _ _ Ht).
  destruct t; simpl in *; try done; try (by left); try (by right); try lia. by destruct (rest_no_acquire i).
Qed.
End rest.

(** ** Properties *)

(** The test never fails: however the threads interleave, the number a thread has read after [acquire] is below
    [sn], so the error is never reported. *)
Theorem testA_never_errs atn rtn st x :
  (0 ≤ sn ≤ count)%Z → TestA atn rtn st → AqError x ∉ clients st.
Proof.
  intros Hc Hr Hx. apply testA_inv in Hr as [_ Hi]; [|done].
  pose proof (proj1 (Forall_forall _ _) (ti_knows _ _ _ Hi) _ Hx) as [].
Qed.

(** The test ends: when each of its threads has ended, sleeps in [acquire], or goes round a loop
    without effect, all have ended, having acquired [count] and released [count - sn] permits. *)
Theorem testA_rests_only_at_end atn rtn st :
  (0 < sn ≤ count)%Z → 0 < atn → 0 < rtn → TestA atn rtn st →
  Forall2 (at_rest st) (clients st) (threads (sys st)) →
  Forall ended (clients st) ∧ Z.of_nat (acquired (sys st)) = count ∧
  Z.of_nat (released (sys st)) = (count - sn)%Z.
Proof.
  intros Hc Ha Hrn Hr Hq. apply testA_inv in Hr as [Hs Hi]; [|lia].
  split; [by apply Forall_lookup_2, (rest_rl_ended atn rtn)|].
  destruct (rest_all_acquired atn rtn st) as [Ea _]; try done. split; [done|].
  destruct (counted_pos is_rl st) as (r & rt & Hrt & Hris); [pose proof (ti_rls _ _ _ Hi); lia|].
  destruct (rest_rl_ended atn rtn st Hc Ha Hrn Hs Hi Hq _ _ Hrt) as [-> | ->]; [done|].
  destruct (rest_of atn rtn st Hi Hq _ _ Hrt) as (c & _ & _ & Hk). simpl in Hk.
  destruct (rest_sums atn rtn st) as (Sr & Srel & _); try done.
  assert (0 ≤ counted to_release st)%Z by (unfold counted; lia).
  rewrite (rest_no_release atn rtn) in Srel; try done; lia.
Qed.

(** C33: TestA passes: however its threads interleave, the number a thread has read after [acquire] is below [sn],
    so the error is never reported; and when each thread has ended, sleeps in [acquire] or goes round a loop without
    effect, all have ended, having acquired [count] and released [count - sn] permits. *)
Theorem testA_passes atn rtn st :
  (0 < sn ≤ count)%Z → 0 < atn → 0 < rtn → TestA atn rtn st →
  (∀ x, AqError x ∉ clients st) ∧
  (Forall2 (at_rest st) (clients st) (threads (sys st)) →
   Forall ended (clients st) ∧ Z.of_nat (acquired (sys st)) = count ∧
   Z.of_nat (released (sys st)) = (count - sn)%Z).
Proof.
  intros Hc Ha Hl Hr. split; [intros x; eapply (testA_never_errs atn rtn); [lia|done]|].
  by apply (testA_rests_only_at_end atn rtn).
Qed.

End test.
End TestA.

(** ** TestB *)

Module TestB.

(** The next access of a thread: those of [aq], then those of the main thread, with its loop variable. *)
Inductive testerB := BqInc | BqAcquire | BqDone | MainWait | MainRelease (i : Z) | MainDone.

Section test.
  Context (sn atn : Z).

(** The head of the loop of releases. *)
Definition main_release (i : Z) : testerB := if (i <? atn - sn)%Z then MainRelease i else MainDone.

(** The shared state is [ac]. *)
Definition testerB_local (spurious : bool) (ac : Z) (t : testerB) : option (Z * testerB) :=
  match t with
  | BqInc => Some ((ac + 1)%Z, BqAcquire)
  | MainWait => Some (ac, if (ac <? atn)%Z then MainWait else main_release 0)
  | BqAcquire | BqDone | MainRelease _ | MainDone => None
  end.

Definition testerB_calling (t : testerB) : option call :=
  match t with BqAcquire => Some DoAcquire | MainRelease _ => Some DoRelease | _ => None end.

Definition testerB_returned (t : testerB) (e : effect) : testerB :=
  match t, e with
  | BqAcquire, Acquired => BqDone
  | MainRelease i, Released true => main_release (i + 1)
  | _, _ => t
  end.

#[local] Instance testerB_program : Program testerB Z := {
  calling := testerB_calling;
  local := testerB_local;
  returned := testerB_returned
}.

(** [ac0]: [std::atomic_int ac;] has no initialiser. *)
Definition TestB (ac0 : Z) : Clients testerB Z → Prop :=
  client_reachable sn ac0 (replicate (Z.to_nat atn) BqInc ++ [MainWait]).

(** ** The invariant *)

Definition done_one (t : testerB) : nat := match t with BqDone => 1 | _ => 0 end.
Definition to_inc (t : testerB) : nat := match t with BqInc => 1 | _ => 0 end.
Definition is_main (t : testerB) : nat :=
  match t with MainWait | MainRelease _ | MainDone => 1 | _ => 0 end.
(** What the main thread has released. *)
Definition put_back (t : testerB) : nat :=
  match t with MainRelease i => Z.to_nat i | MainDone => Z.to_nat (atn - sn) | _ => 0 end.

Definition knowsB (t : testerB) : Prop := match t with MainRelease i => (0 ≤ i < atn - sn)%Z | _ => True end.

Record invB (ac0 : Z) (st : Clients testerB Z) : Prop := {
  bi_where : Forall2 where_said (clients st) (threads (sys st));
  bi_done : Z.of_nat (acquired (sys st)) = counted done_one st;
  bi_put : Z.of_nat (released (sys st)) = counted put_back st;
  bi_ac : (shared st + counted to_inc st = ac0 + atn)%Z;
  bi_main : counted is_main st = 1%Z;
  bi_len : Z.of_nat (length (clients st)) = (atn + 1)%Z;
  bi_knows : Forall knowsB (clients st)
}.

Lemma main_release_put i : (0 ≤ i)%Z → (i ≤ Z.max 0 (atn - sn))%Z →
  Z.of_nat (put_back (main_release i)) = i ∧ knowsB (main_release i) ∧ is_main (main_release i) = 1
  ∧ done_one (main_release i) = 0 ∧ to_inc (main_release i) = 0.
Proof. intros. unfold main_release. destruct (Z.ltb_spec i (atn - sn)); simpl; split_and!; lia || done. Qed.

Lemma invB_move ac0 i t t' sy sh st :
  invB ac0 st → clients st !! i = Some t →
  Forall2 where_said (<[i := t']> (clients st)) (threads sy) →
  is_main t' = is_main t →
  (Z.of_nat (acquired sy) - Z.of_nat (acquired (sys st)) = Z.of_nat (done_one t') - Z.of_nat (done_one t))%Z →
  (Z.of_nat (released sy) - Z.of_nat (released (sys st)) = Z.of_nat (put_back t') - Z.of_nat (put_back t))%Z →
  (sh - shared st = Z.of_nat (to_inc t) - Z.of_nat (to_inc t'))%Z → knowsB t' →
  invB ac0 (mkClients sy sh (<[i := t']> (clients st))).
Proof.
  intros [Hw Ha Hp Hn Hm Hl Hk] Hi Hw' Ht H1 H2 H3 H4.
  pose proof (counted_set done_one sy sh _ _ t' _ Hi). pose proof (counted_set put_back sy sh _ _ t' _ Hi).
  pose proof (counted_set to_inc sy sh _ _ t' _ Hi). pose proof (counted_set is_main sy sh _ _ t' _ Hi).
  split; simpl; rewrite ?length_insert; try done; try lia. by apply Forall_insert.
Qed.

Lemma invB_step ac0 st st' : invB ac0 st → client_step st st' → invB ac0 st'.
Proof.
  intros Hi Hst. pose proof (client_where _ _ Hst (bi_where _ _ Hi)) as Hw.
  destruct Hst as [y i t sp sh t' Ht _ Hn Hl|y i t c sp s c' e Ht Hci Hth Hne t1 c1|y i c sp s c' st1 Hci Hth Hno].
  - eapply invB_move; [exact Hi|exact Ht|exact Hw|..]; clear Hw; simpl in *; destruct t; simpl in *; simplify_eq/=;
      try done; try lia; case_match; simplify_eq/=; try done; try lia;
      destruct (main_release_put 0) as (? & ? & ? & ? & ?); try done; lia.
  - pose proof (Forall2_lookup_lr _ _ _ _ _ _ (bi_where _ _ Hi) Ht Hci) as Hs. unfold where_said in Hs.
    pose proof (Forall_lookup_1 _ _ _ _ (bi_knows _ _ Hi) Ht) as Hk.
    eapply invB_move; [exact Hi|exact Ht|exact Hw|..]; subst t1 c1; clear Hw; simpl in Hs;
      destruct (call_stays _ _ _ _ _ _ _ Hth) as [(Hr & _ & _)|[[Hq ->]|[Hq [b ->]]]]; simpl;
      try rewrite Hr; try (by destruct e); try (destruct e; simpl; done || lia);
      destruct t; simpl in *; try (by destruct c); try (by subst c); try destruct b; simpl; try done; try lia;
      destruct (main_release_put (i0 + 1)) as (? & ? & ? & ? & ?); try done; lia.
  - apply notify_counts in Hno as [Ea Er].
    destruct Hi. split; simpl in *; rewrite ?Ea, ?Er; done.
Qed.

Lemma invB_init ac0 : (0 ≤ atn)%Z →
  invB ac0 (client_init sn ac0 (replicate (Z.to_nat atn) BqInc ++ [MainWait])).
Proof.
  intros Hn. assert (Hr : ∀ f, sum_list_with f (replicate (Z.to_nat atn) BqInc) = Z.to_nat atn * f BqInc).
  { intros f. induction (Z.to_nat atn) as [|m IH]; simpl; lia. }
  split; [|unfold counted; simpl; rewrite ?length_app, ?length_replicate, ?sum_list_with_app, ?Hr; simpl; try lia..].
  - apply (client_init_where sn ac0), Forall_app. split; [by apply Forall_replicate|by repeat constructor].
  - apply Forall_app. split; [by apply Forall_replicate|by repeat constructor].
Qed.

Lemma testB_inv ac0 st : (0 ≤ sn)%Z → (0 ≤ atn)%Z → TestB ac0 st → inv sn 0 (sys st) ∧ invB ac0 st.
Proof.
  intros Hs Hn Hr. split; [by eapply client_sem_inv|].
  eapply rtc_invariant; [|by apply invB_init|exact Hr]. intros a b. apply invB_step.
Qed.

(** Asleep in [acquire], ended, or going round a loop without effect. *)
Definition at_restB (st : Clients testerB Z) (t : testerB) (c : pc) : Prop :=
  match t with
  | BqDone | MainDone => True
  | BqAcquire => c = AcquireBlocked
  | MainWait => (shared st < atn)%Z
  | MainRelease _ => c = ReleaseLoad ∧ remaining (sem (sys st)) = sn
  | BqInc => False
  end.

Section rest.
  Context (ac0 : Z) (st : Clients testerB Z).
  Context (Hsn : (0 < sn)%Z) (Han : (0 ≤ atn)%Z) (Hac : (0 ≤ ac0)%Z).
  Context (Hs : inv sn 0 (sys st)) (Hi : invB ac0 st).
  Context (Hq : Forall2 (at_restB st) (clients st) (threads (sys st))).

Lemma restB_of i t : clients st !! i = Some t → ∃ c, threads (sys st) !! i = Some c ∧ at_restB st t c ∧ where_said t c.
Proof.
  intros Ht. destruct (Forall2_lookup_l _ _ _ _ _ Hq Ht) as (c & Hc & Hr). exists c. split_and!; [done|done|].
  by eapply Forall2_lookup_lr; [apply (bi_where _ _ Hi)|..].
Qed.

Lemma rest_pcs : Forall (λ c, flying c = 0 ∧ active c = 0) (threads (sys st)).
Proof.
  apply Forall_lookup_2. intros i c Hc.
  destruct (Forall2_lookup_r _ _ _ _ _ Hq Hc) as (t & Ht & Hr).
  pose proof (Forall2_lookup_lr _ _ _ _ _ _ (bi_where _ _ Hi) Ht Hc) as Hw. unfold where_said in Hw.
  destruct t; simpl in *; try done; try (by subst c). by destruct Hr as [-> _].
Qed.

Lemma restB_sums :
  remaining (sem (sys st)) = (sn - Z.of_nat (acquired (sys st)) + Z.of_nat (released (sys st)))%Z ∧
  (AcquireBlocked ∈ threads (sys st) → remaining (sem (sys st)) = 0%Z) ∧ (atn ≤ shared st)%Z.
Proof.
  pose proof rest_pcs as Hp. pose proof (inv_remaining _ _ _ Hs). pose proof (inv_bounds _ _ _ Hs).
  pose proof (bi_ac _ _ Hi).
  assert (total flying (sys st) = 0%Z ∧ total active (sys st) = 0%Z ∧ counted to_inc st = 0%Z) as (Z1 & Z2 & Z3).
  { unfold total, counted. split_and!; rewrite sum_list_with_0; try done.
    - eapply Forall_impl; [exact Hp|]. tauto.
    - eapply Forall_impl; [exact Hp|]. tauto.
    - apply Forall_lookup_2. intros i t Ht. destruct (restB_of _ _ Ht) as (c & _ & Hr & _). by destruct t. }
  split_and!; [lia| |lia]. intros Hb. pose proof (inv_wake _ _ _ Hs Hb). lia.
Qed.

(** The main thread has put its permits back, or all are there. *)
Lemma rest_main :
  remaining (sem (sys st)) = sn ∨ (∃ i, clients st !! i = Some MainDone).
Proof.
  destruct (counted_pos is_main st) as (i & t & Ht & Hm); [pose proof (bi_main _ _ Hi); lia|].
  destruct (restB_of _ _ Ht) as (c & _ & Hr & _). destruct restB_sums as (_ & _ & Hg).
  destruct t; simpl in *; try done; [lia|by left; apply Hr|by right; eauto].
Qed.

Lemma rest_put i : clients st !! i = Some MainDone → (atn - sn ≤ Z.of_nat (released (sys st)))%Z.
Proof. intros Hm. pose proof (counted_ge put_back _ _ _ Hm). pose proof (bi_put _ _ Hi). simpl in *. lia. Qed.

(** Threads of [aq] that are not done. *)
Lemma done_below i t : clients st !! i = Some t → is_main t = 0 → done_one t = 0 → (counted done_one st < atn)%Z.
Proof.
  intros Ht Hm Hd. pose proof (bi_main _ _ Hi) as H1. pose proof (bi_len _ _ Hi) as H2. unfold counted in *.
  pose proof (sum_list_with_ge (λ t, 1 - is_main t - done_one t) _ _ _ Ht) as H3. cbv beta in H3. rewrite Hm, Hd in H3.
  assert (sum_list_with (λ t, 1 - is_main t - done_one t) (clients st) + sum_list_with is_main (clients st)
    + sum_list_with done_one (clients st) = length (clients st)); [|simpl in *; lia].
  clear. induction (clients st) as [|u l IH]; [done|]. simpl. destruct u; simpl; lia.
Qed.

Lemma only_main f l i t :
  (∀ u, is_main u = 0 → f u = 0) → l !! i = Some t → is_main t = 1 → sum_list_with is_main l = 1 →
  sum_list_with f l = f t.
Proof.
  intros Hf. revert i. induction l as [|u l IH]; intros [|i] Ht Hm Hl; simplify_eq/=.
  - assert (sum_list_with f l = 0); [|lia]. apply sum_list_with_0, Forall_lookup_2. intros j v Hv.
    apply Hf. pose proof (sum_list_with_ge is_main _ _ _ Hv). lia.
  - pose proof (sum_list_with_ge is_main _ _ _ Ht). rewrite (Hf u) by lia. apply (IH i Ht Hm). lia.
Qed.

(** While the main thread releases, a permit would wake every thread, and then all is acquired. *)
Lemma rest_not_releasing i k : clients st !! i ≠ Some (MainRelease k).
Proof.
  intros Ht. destruct (restB_of _ _ Ht) as (c & _ & [_ Hr] & _). destruct restB_sums as (Sr & Sb & Sg).
  pose proof (bi_done _ _ Hi) as Hd. pose proof (bi_put _ _ Hi) as Hp. pose proof (bi_main _ _ Hi) as Hm.
  pose proof (Forall_lookup_1 _ _ _ _ (bi_knows _ _ Hi) Ht) as Hk. simpl in Hk. unfold counted in *.
  rewrite (only_main put_back _ i (MainRelease k)) in Hp; [|by intros []|exact Ht|done|lia]. simpl in Hp.
  pose proof (bi_len _ _ Hi) as Hlen.
  assert (sum_list_with done_one (clients st) + sum_list_with is_main (clients st) = length (clients st)); [|lia].
  assert (Hall : Forall (λ t, done_one t + is_main t = 1) (clients st)).
  { apply Forall_lookup_2. intros j u Hu. destruct (restB_of _ _ Hu) as (d & Hdd & Hur & _).
    destruct u; simpl in *; try done. subst d. apply list_elem_of_lookup_2, Sb in Hdd. lia. }
  clear -Hall. induction Hall; simpl; lia.
Qed.

Lemma restB_done i t : clients st !! i = Some t → t = BqDone ∨ t = MainDone.
Proof.
  intros Ht. destruct (restB_of _ _ Ht) as (c & Hc & Hr & _). destruct restB_sums as (Sr & Sb & Sg).
  pose proof (bi_done _ _ Hi) as Hd. pose proof (bi_put _ _ Hi) as Hp.
  destruct t; simpl in Hr; try done; [|by left|lia| |by right]; exfalso.
  - subst c. apply list_elem_of_lookup_2, Sb in Hc. pose proof (done_below _ _ Ht eq_refl eq_refl).
    destruct rest_main as [?|(j & Hj)]; [lia|]. pose proof (rest_put _ Hj). lia.
  - by eapply rest_not_releasing.
Qed.
End rest.

(** ** Properties *)

(** Every thread returns from [acquire], wherever the main thread finds them when it starts to release:
    when each thread has ended, sleeps in [acquire] or goes round a loop without effect, all have ended.  The counter the
    main thread waits for has to start at no less than zero. *)
Theorem testB_rests_only_at_end ac0 st :
  (0 < sn)%Z → (0 ≤ atn)%Z → (0 ≤ ac0)%Z → TestB ac0 st →
  Forall2 (at_restB st) (clients st) (threads (sys st)) →
  Forall (λ t, t = BqDone ∨ t = MainDone) (clients st) ∧ Z.of_nat (acquired (sys st)) = atn.
Proof.
  intros Hsn Han Hac Hr Hq. apply testB_inv in Hr as [Hs Hi]; [|lia..].
  pose proof (restB_done ac0 st Hsn Hac Hs Hi Hq) as Hd. split; [by apply Forall_lookup_2|].
  rewrite (bi_done _ _ Hi). pose proof (bi_main _ _ Hi). pose proof (bi_len _ _ Hi). unfold counted in *.
  assert (sum_list_with done_one (clients st) + sum_list_with is_main (clients st) = length (clients st)); [|lia].
  clear -Hd. induction (clients st) as [|u l IH]; [done|]. simpl.
  rewrite <- IH; [destruct (Hd 0 u eq_refl) as [-> | ->]; simpl; lia|]. intros i. apply (Hd (S i)).
Qed.

(** The main thread stays where it is, if the counter is too low. *)
Lemma main_waits ac0 st st' m :
  (ac0 < 0)%Z → invB ac0 st → clients st !! m = Some MainWait → client_step st st' →
  clients st' !! m = Some MainWait.
Proof.
  intros Hac Hi Hm Hst. pose proof (bi_ac _ _ Hi) as Ha.
  destruct Hst as [y i t sp sh t' Ht _ Hn Hl|y i t c sp s c' e Ht Hci Hth Hne t1 c1|y i c sp s c' st1 Hci Hth Hno]; simpl;
    [..|done]; (destruct (decide (i = m)) as [->|Hne']; [|by rewrite list_lookup_insert_ne]);
    pose proof (lookup_lt_Some _ _ _ Hm); simplify_eq/=; rewrite list_lookup_insert_eq by done.
  - case_match; simplify_eq; try done. unfold counted in *. lia.
  - subst t1. by destruct (returns e).
Qed.

(** The counter is not initialised: from a negative value the main thread waits for ever and releases nothing. *)
Theorem testB_negative_start_hangs ac0 st :
  (0 ≤ sn)%Z → (0 ≤ atn)%Z → (ac0 < 0)%Z → TestB ac0 st →
  clients st !! Z.to_nat atn = Some MainWait ∧ released (sys st) = 0.
Proof.
  intros Hsn Han Hac Hr.
  assert (invB ac0 st ∧ clients st !! Z.to_nat atn = Some MainWait) as [Hi Hm].
  { eapply (rtc_invariant client_step (λ st, invB ac0 st ∧ clients st !! Z.to_nat atn = Some MainWait)); [| |exact Hr].
    - intros a b [Ha Hb] Hst. split; [by eapply invB_step|by eapply main_waits].
    - split; [by apply invB_init|]. simpl. rewrite lookup_app_r; rewrite length_replicate; [|lia].
      by rewrite Nat.sub_diag. }
  split; [done|]. pose proof (bi_put _ _ Hi) as Hp. unfold counted in Hp.
  rewrite (only_main put_back _ (Z.to_nat atn) MainWait) in Hp; [simpl in Hp; lia|by intros []|exact Hm|done|].
  pose proof (bi_main _ _ Hi). unfold counted in *. lia.
Qed.
End test.
End TestB.

(** ** The calls of main *)

(** The arguments of the calls of [TestA] and of [TestB]. *)
Definition Test1 : list (Z * nat * nat * Z) :=
  let one sn := [(sn, 1, 1, 10000%Z); (sn, 2, 1, 10000%Z); (sn, 1, 2, 10000%Z); (sn, 5, 3, 10000%Z);
                 (sn, 3, 5, 10000%Z)] in
  one 1%Z ++ one 2%Z ++ one 3%Z ++ one 5%Z.

Definition Test2 : list (Z * Z) :=
  [(1, 1); (1, 2); (1, 3); (1, 8); (2, 1); (2, 2); (2, 3); (2, 8); (3, 1); (3, 2); (3, 3); (3, 8);
   (1, 8); (1, 16); (1, 32); (1, 64); (3, 8); (3, 16); (3, 32); (3, 64)]%Z.

Lemma Test1_args sn atn rtn count :
  (sn, atn, rtn, count) ∈ Test1 → (0 < sn ≤ count)%Z ∧ 0 < atn ∧ 0 < rtn.
Proof.
  revert sn atn rtn count.
  assert (H : Forall (λ '(sn, atn, rtn, count), (0 < sn ≤ count)%Z ∧ 0 < atn ∧ 0 < rtn) Test1)
    by (repeat constructor; lia).
  intros sn atn rtn count Hin. exact (proj1 (Forall_forall _ _) H _ Hin).
Qed.

Lemma Test2_args sn atn : (sn, atn) ∈ Test2 → (0 < sn)%Z ∧ (0 ≤ atn)%Z.
Proof.
  assert (H : Forall (λ '(sn, atn), (0 < sn)%Z ∧ (0 ≤ atn)%Z) Test2) by (repeat constructor; lia).
  intros Hin. exact (proj1 (Forall_forall _ _) H _ Hin).
Qed.

(** Each call of [main] passes, TestB with a counter that starts at no less than zero. *)
Theorem main_passes :
  (∀ sn atn rtn count st, (sn, atn, rtn, count) ∈ Test1 → TestA.TestA sn count atn rtn st →
     (∀ x, TestA.AqError x ∉ clients st) ∧
     (Forall2 (TestA.at_rest sn count st) (clients st) (threads (sys st)) → Forall TestA.ended (clients st))) ∧
  (∀ sn atn ac0 st, (sn, atn) ∈ Test2 → (0 ≤ ac0)%Z → TestB.TestB sn atn ac0 st →
     Forall2 (TestB.at_restB sn atn st) (clients st) (threads (sys st)) →
     Forall (λ t, t = TestB.BqDone ∨ t = TestB.MainDone) (clients st)).
Proof.
  split.
  - intros sn atn rtn count st (Hc & Ha & Hl)%Test1_args Hr. split.
    + intros x. eapply TestA.testA_never_errs; [|exact Hr]. lia.
    + intros Hq. by apply (TestA.testA_rests_only_at_end sn count atn rtn).
  - intros sn atn ac0 st [Hs Ha]%Test2_args Hac Hr Hq. by apply (TestB.testB_rests_only_at_end sn atn ac0).
Qed.

(** ** Witnesses *)

(** TestA(1, 1, 1, 2), run to its end. *)
Definition testA_end : Clients TestA.tester TestA.Counters :=
  mkClients (mkSystem (mkSemaphore 1 0 0 None) [Outside; Outside] 2 1)
    (TestA.mkCounters 1 2 1) [TestA.AqDone; TestA.RlDone].

Lemma testA_end_reachable : TestA.TestA 1 2 1 1 testA_end.
Proof.
  apply (@client_run_steps _ _ (TestA.tester_program 1 2)
    (replicate 7 0 ++ replicate 7 1 ++ replicate 5 0 ++ replicate 3 1)).
  vm_compute. reflexivity.
Qed.

Lemma testA_passes_witness : acquired (sys testA_end) = 2 ∧ Forall TestA.ended (clients testA_end).
Proof.
  split; [reflexivity|].
  destruct (TestA.testA_passes 1 2 1 1 testA_end) as [_ H]; [lia|lia|lia|exact testA_end_reachable|].
  apply H. by repeat constructor.
Defined.

(** TestB(1, 2): one thread waits until the main thread releases. *)
Definition testB_end : Clients TestB.testerB Z :=
  mkClients (mkSystem (mkSemaphore 1 0 0 None) [Outside; Outside; Outside] 2 1) 2%Z
    [TestB.BqDone; TestB.BqDone; TestB.MainDone].

Lemma testB_end_reachable : TestB.TestB 1 2 0 testB_end.
Proof.
  apply (@client_run_steps _ _ (TestB.testerB_program 1 2)
    (replicate 3 0 ++ [1] ++ [2] ++ replicate 3 2 ++ replicate 2 1)).
  vm_compute. reflexivity.
Qed.

Lemma testB_rests_only_at_end_witness : Z.of_nat (acquired (sys testB_end)) = 2%Z ∧ clients testB_end ≠ [].
Proof.
  split; [|done]. apply (TestB.testB_rests_only_at_end 1 2 0); [lia|lia|lia|exact testB_end_reachable|].
  by repeat constructor.
Defined.

Lemma testB_negative_start_hangs_witness :
  let st := client_init 1 (-1)%Z (replicate 2 TestB.BqInc ++ [TestB.MainWait]) in
  clients st !! 2 = Some TestB.MainWait ∧ released (sys st) = 0.
Proof. apply (TestB.testB_negative_start_hangs 1 2 (-1)); [lia|lia|lia|apply rtc_refl]. Defined.
