(* ===== verification/GrpcClient.v ===== *)
(** * The asynchronous gRPC client (learn_grpc/hello_world/src/client/async)

    [ClientProactor] of client_proactor.h and client_proactor.cpp and the call classes of
    async_hello_client.cpp, async_goodbye_client.cpp and async_chat_client.cpp.  A call is driven by
    the completions of its operations; the writers [speak] and [talk] return are used by the
    program, which a semaphore of one permit keeps from writing twice at once.

    gRPC is, as for the server, the list of operations it was given and has not completed.
    The semaphore is its count, taken and put back in one step, which is what
    [Semaphore.v] shows it amounts to; a call of [acquire] that would wait has no step. *)

From S2P Require Import Prelude CppString GrpcEvent.

(** [enum CLIENT_EVENT_OPT]. *)
Definition START_CALL : Z := 0.
Definition FINISH : Z := 1.
Definition READ : Z := 2.
Definition WRITE : Z := 3.
Definition WRITE_DONE : Z := 4.

(** The classes that implement [EventHandler]. *)
Inductive kind :=
  | SayHelloCall | SayHelloAgainCall | SayGoodbyeCall | SayGoodbyeAgainCall
  | GreetCall | ListenCall | SpeakCall | TalkCall.

#[global] Instance kind_eq_dec : EqDecision kind.
Proof. solve_decision. Defined.

(** Operations with a tag. *)
Inductive op := CStart | CRead | CWrite (content : bytes) | CWritesDone | CFinish.

(** What the log shows of a call: its messages and its end. *)
Inductive output :=
  | Response (k : kind) (r : response)
  | RpcFailed (k : kind)
  | NotOk (k : kind) (opt : Z)
  | Unexpected (k : kind) (opt : Z)
  | EndCall (k : kind).

Record call := mkCall {
  c_kind : kind;
  c_key : Z;
  c_cq : Z;
  c_finish : bool;
  c_closed : bool;
  canWrite : Z;
  c_response : response;
  c_status : bool
}.

Definition canWrite_capacity : Z := 1.
Definition no_response : response := ServerWords [] [].
Definition new_call (k : kind) : call := mkCall k 0 0 false false canWrite_capacity no_response true.

Definition set_key z c := mkCall (c_kind c) z (c_cq c) (c_finish c) (c_closed c) (canWrite c) (c_response c) (c_status c).
Definition set_cq z c := mkCall (c_kind c) (c_key c) z (c_finish c) (c_closed c) (canWrite c) (c_response c) (c_status c).
Definition set_finish c := mkCall (c_kind c) (c_key c) (c_cq c) true (c_closed c) (canWrite c) (c_response c) (c_status c).
Definition set_closed c := mkCall (c_kind c) (c_key c) (c_cq c) (c_finish c) true (canWrite c) (c_response c) (c_status c).
Definition set_canWrite z c := mkCall (c_kind c) (c_key c) (c_cq c) (c_finish c) (c_closed c) z (c_response c) (c_status c).
Definition set_response r c := mkCall (c_kind c) (c_key c) (c_cq c) (c_finish c) (c_closed c) (canWrite c) r (c_status c).
Definition set_status b c := mkCall (c_kind c) (c_key c) (c_cq c) (c_finish c) (c_closed c) (canWrite c) (c_response c) b.

Record Client := mkClient {
  handlerManager : EventHandlerManager call;
  cqIdx : Z;
  outstanding : list (Z * op);
  outputs : list output
}.

Definition set_handlerManager m p := mkClient m (cqIdx p) (outstanding p) (outputs p).
Definition set_cqIdx z p := mkClient (handlerManager p) z (outstanding p) (outputs p).
Definition set_outstanding l p := mkClient (handlerManager p) (cqIdx p) l (outputs p).
Definition set_outputs l p := mkClient (handlerManager p) (cqIdx p) (outstanding p) l.

Definition ClientProactor_ClientProactor : Client :=
  mkClient EventHandlerManager_EventHandlerManager 0 [] [].

(** ** Operations *)

Definition on_manager {A} (m : M (EventHandlerManager call) A) : M Client A :=
  zoom handlerManager set_handlerManager m.

Definition issue (token : Z) (o : op) : M Client unit :=
  modify (λ p, set_outstanding (outstanding p ++ [(token, o)]) p).

Definition log (o : output) : M Client unit := modify (λ p, set_outputs (outputs p ++ [o]) p).

Definition this (key : Z) : M Client call :=
  p ← get; match handlers (handlerManager p) !! key with Some c => mret c | None => undef end.

Definition update_this (key : Z) (f : call → call) : M Client unit :=
  on_manager (modify (λ m, set_handlers (alter f key (handlers m)) m)).

(** [canWrite.acquire()], which waits for the permit. *)
Definition acquire (key : Z) : M Client unit :=
  c ← this key;
  if (0 <? canWrite c)%Z then update_this key (set_canWrite (canWrite c - 1)) else lift OutOfFuel.

(** [while (!canWrite.release()) {}], which spins until there is room for the permit. *)
Definition release_loop (key : Z) : M Client unit :=
  c ← this key;
  if (canWrite c =? canWrite_capacity)%Z then lift OutOfFuel
  else update_this key (set_canWrite (canWrite c + 1)).

(** A signed 32-bit counter that wraps. *)
Definition wrap_i32 (z : Z) : Z := ((z + 2 ^ 31) mod 2 ^ 32 - 2 ^ 31)%Z.

Section client.
  Context (threadPoolSize : Z).

(** [&cqs[cqIdx++ % threadPoolSize]]; the elements of [cqs] are the numbers below its size. *)
Definition next_cq : M Client Z :=
  idx ← gets cqIdx;
  modify (set_cqIdx (wrap_i32 (idx + 1)));;
  if (threadPoolSize =? 0)%Z then undef
  else
    let q := Z.rem idx threadPoolSize in
    if ((0 <=? q) && (q <? threadPoolSize))%Z then mret q else undef.

(** The call object is registered, then bound to a queue; [member]: the reference [key] is
    to the field of the call. *)
Definition prepareAsyncCall (member : bool) (c : call) : M Client Z :=
  event ← on_manager (EventHandlerManager_add c);
  let key := getKey event in
  when member (update_this key (set_key key));;
  q ← next_cq;
  update_this key (set_cq q);;
  mret key.

(** [sayHello], [sayHelloAgain], [sayGoodbye], [sayGoodbyeAgain] and [greet]: [StartCall] has no
    tag of its own. *)
Definition unary_call (k : kind) : M Client Z :=
  key ← prepareAsyncCall (bool_decide (k = GreetCall)) (new_call k);
  issue (setOpt FINISH (Event_key key)) CFinish;;
  mret key.

Definition AsyncHelloClient_sayHello : M Client Z := unary_call SayHelloCall.
Definition AsyncHelloClient_sayHelloAgain : M Client Z := unary_call SayHelloAgainCall.
Definition AsyncGoodbyeClient_sayGoodbye : M Client Z := unary_call SayGoodbyeCall.
Definition AsyncGoodbyeClient_sayGoodbyeAgain : M Client Z := unary_call SayGoodbyeAgainCall.
Definition AsyncChatClient_greet : M Client Z := unary_call GreetCall.

(** The member functions of a call; [me] is the object, [c_key] its field [key]. *)
Definition ListenCall_start (me : Z) : M Client unit :=
  c ← this me;
  issue (setOpt START_CALL (Event_key (c_key c))) CStart.

Definition AsyncChatClient_listen : M Client Z :=
  me ← prepareAsyncCall true (new_call ListenCall);
  ListenCall_start me;; mret me.

Definition SpeakCall_start (me : Z) : M Client unit :=
  c ← this me;
  let event := setOpt START_CALL (Event_key (c_key c)) in
  acquire me;;
  issue event CStart;;
  issue (setOpt FINISH event) CFinish.

(** The reference to the call that is returned is [me]. *)
Definition AsyncChatClient_speak : M Client Z :=
  me ← prepareAsyncCall true (new_call SpeakCall);
  SpeakCall_start me;; mret me.

Definition TalkCall_start (me : Z) : M Client unit :=
  c ← this me;
  let event := setOpt START_CALL (Event_key (c_key c)) in
  acquire me;;
  issue event CStart.

Definition AsyncChatClient_talk : M Client Z :=
  me ← prepareAsyncCall true (new_call TalkCall);
  TalkCall_start me;; mret me.

(** The time stamp of the message is not kept. *)
Definition SpeakCall_write (msg : bytes) (me : Z) : M Client unit :=
  c ← this me;
  acquire me;;
  issue (setOpt WRITE (Event_key (c_key c))) (CWrite msg).

Definition SpeakCall_close (me : Z) : M Client unit :=
  c ← this me;
  acquire me;;
  issue (setOpt WRITE_DONE (Event_key (c_key c))) CWritesDone.

Definition TalkCall_write (msg : bytes) (me : Z) : M Client unit :=
  c ← this me;
  acquire me;;
  issue (setOpt WRITE (Event_key (c_key c))) (CWrite msg).

Definition TalkCall_close (me : Z) : M Client unit :=
  c ← this me;
  acquire me;;
  issue (setOpt WRITE_DONE (Event_key (c_key c))) CWritesDone.

(** [AsyncChatWriter::write] and [AsyncChatWriter::close] are virtual. *)
Definition write (msg : bytes) (me : Z) : M Client unit :=
  c ← this me;
  match c_kind c with
  | SpeakCall => SpeakCall_write msg me
  | TalkCall => TalkCall_write msg me
  | _ => undef
  end.

Definition close (me : Z) : M Client unit :=
  c ← this me;
  match c_kind c with
  | SpeakCall => SpeakCall_close me
  | TalkCall => TalkCall_close me
  | _ => undef
  end.

(** ** Completions *)

(** A response, or the error the status holds. *)
Definition report (c : call) (o : output) : M Client unit :=
  log (if c_status c then o else RpcFailed (c_kind c)).

Definition unary_process (optOk : bool) (event : Z) : M Client unit :=
  c ← this (getKey event);
  if optOk then report c (Response (c_kind c) (c_response c))
  else log (NotOk (c_kind c) FINISH).

Definition SayHelloCall_process : bool → Z → M Client unit := unary_process.
Definition SayHelloAgainCall_process : bool → Z → M Client unit := unary_process.
Definition SayGoodbyeCall_process : bool → Z → M Client unit := unary_process.
Definition SayGoodbyeAgainCall_process : bool → Z → M Client unit := unary_process.
Definition GreetCall_process : bool → Z → M Client unit := unary_process.

(** [case CLIENT_EVENT_OPT::FINISH] of the streaming calls. *)
Definition finish_process (o : call → output) (optOk : bool) (event : Z) : M Client unit :=
  c ← this (getKey event);
  (if optOk then report c (o c) else log (NotOk (c_kind c) FINISH));;
  update_this (getKey event) set_finish.

Definition check_key (event : Z) : M Client call :=
  c ← this (getKey event);
  if negb (c_key c =? getKey event)%Z then throw RuntimeError else mret c.

Definition ListenCall_process (optOk : bool) (event : Z) : M Client unit :=
  c ← check_key event;
  if (getOpt event =? START_CALL)%Z then
    if optOk then issue (setOpt READ event) CRead
    else (log (NotOk (c_kind c) START_CALL);; update_this (getKey event) set_finish)
  else if (getOpt event =? READ)%Z then
    if optOk then (log (Response (c_kind c) (c_response c));; issue event CRead)
    else issue (setOpt FINISH event) CFinish
  else if (getOpt event =? FINISH)%Z then
    finish_process (λ c, EndCall (c_kind c)) optOk event
  else log (Unexpected (c_kind c) (getOpt event)).

(** [case CLIENT_EVENT_OPT::WRITE]. *)
Definition write_process (c : call) (optOk : bool) (event : Z) : M Client unit :=
  release_loop (getKey event);;
  when (negb optOk) (log (NotOk (c_kind c) WRITE)).

(** [case CLIENT_EVENT_OPT::WRITE_DONE]. *)
Definition write_done_process (c : call) (optOk : bool) (event : Z) : M Client unit :=
  when (negb optOk) (log (NotOk (c_kind c) WRITE_DONE));;
  update_this (getKey event) set_closed.

Definition SpeakCall_process (optOk : bool) (event : Z) : M Client unit :=
  c ← check_key event;
  if (getOpt event =? START_CALL)%Z then
    release_loop (getKey event);;
    when (negb optOk) (log (NotOk (c_kind c) START_CALL))
  else if (getOpt event =? WRITE)%Z then write_process c optOk event
  else if (getOpt event =? WRITE_DONE)%Z then write_done_process c optOk event
  else if (getOpt event =? FINISH)%Z then
    finish_process (λ c, Response (c_kind c) (c_response c)) optOk event
  else log (Unexpected (c_kind c) (getOpt event)).

Definition TalkCall_process (optOk : bool) (event : Z) : M Client unit :=
  c ← check_key event;
  if (getOpt event =? START_CALL)%Z then
    (if optOk then issue (setOpt READ event) CRead
     else (log (NotOk (c_kind c) START_CALL);; update_this (getKey event) set_finish));;
    release_loop (getKey event)
  else if (getOpt event =? READ)%Z then
    if optOk then (log (Response (c_kind c) (c_response c));; issue event CRead)
    else issue (setOpt FINISH event) CFinish
  else if (getOpt event =? WRITE)%Z then write_process c optOk event
  else if (getOpt event =? WRITE_DONE)%Z then write_done_process c optOk event
  else if (getOpt event =? FINISH)%Z then
    finish_process (λ c, Response (c_kind c) (c_response c)) optOk event
  else log (Unexpected (c_kind c) (getOpt event)).

Definition process (k : kind) : bool → Z → M Client unit :=
  match k with
  | SayHelloCall => SayHelloCall_process
  | SayHelloAgainCall => SayHelloAgainCall_process
  | SayGoodbyeCall => SayGoodbyeCall_process
  | SayGoodbyeAgainCall => SayGoodbyeAgainCall_process
  | GreetCall => GreetCall_process
  | ListenCall => ListenCall_process
  | SpeakCall => SpeakCall_process
  | TalkCall => TalkCall_process
  end.

Definition isComplete (c : call) : bool :=
  match c_kind c with
  | ListenCall => c_finish c
  | SpeakCall | TalkCall => c_finish c && c_closed c
  | _ => true
  end.

(** A completion taken from a queue. *)
Definition asyncCompleteRpc_event (token : Z) (ok : bool) : M Client unit :=
  let key := getKey token in
  p ← get;
  if negb (EventHandlerManager_contains key (handlerManager p)) then mret tt
  else
    c ← on_manager (EventHandlerManager_get key);
    process (c_kind c) ok token;;
    c ← this key;
    when (isComplete c) (on_manager (EventHandlerManager_remove key)).

Inductive NextStatus := SHUTDOWN | TIMEOUT | GOT_EVENT (token : Z) (ok : bool).

(** One turn of a thread's loop, with what [AsyncNext] returned; [true]: it leaves the loop. *)
Definition asyncCompleteRpc_next (status : NextStatus) : M Client bool :=
  match status with
  | SHUTDOWN => on_manager EventHandlerManager_clear;; mret true
  | TIMEOUT => p ← get; mret (EventHandlerManager_count (handlerManager p) =? 0)%nat
  | GOT_EVENT token ok => asyncCompleteRpc_event token ok;; mret false
  end.

(** ** The system *)

(** What gRPC stores in the call before a completion: the message read, or the status
    with, for a call with one response, the response. *)
Definition store (o : op) (r : response) (status : bool) (c : call) : call :=
  match o with
  | CRead => set_response r c
  | CFinish =>
      let c := set_status status c in
      if bool_decide (c_kind c = ListenCall ∨ c_kind c = TalkCall) then c else set_response r c
  | _ => c
  end.

Definition deliver (token : Z) (o : op) (ok : bool) (r : response) (status : bool) : M Client bool :=
  when ok (update_this (getKey token) (store o r status));;
  asyncCompleteRpc_next (GOT_EVENT token ok).

(** The program: the writers it may still use, one [close] each; and the queues whose thread
    has left its loop. *)
Record System := mkSystem { client : Client; writers : list Z; gone : list Z }.

Definition set_client p s := mkSystem p (writers s) (gone s).

Inductive client_step : System → System → Prop :=
  | step_call (m : M Client Z) me p s :
      m ∈ [AsyncHelloClient_sayHello; AsyncHelloClient_sayHelloAgain; AsyncGoodbyeClient_sayGoodbye;
        AsyncGoodbyeClient_sayGoodbyeAgain; AsyncChatClient_greet; AsyncChatClient_listen] →
      m (client s) = (Ok me, p) → client_step s (set_client p s)
  | step_writer m me p s :
      m = AsyncChatClient_speak ∨ m = AsyncChatClient_talk →
      m (client s) = (Ok me, p) → client_step s (mkSystem p (me :: writers s) (gone s))
  | step_write me msg p s :
      me ∈ writers s → write msg me (client s) = (Ok tt, p) → client_step s (set_client p s)
  | step_close me w1 w2 p s :
      writers s = w1 ++ me :: w2 → close me (client s) = (Ok tt, p) →
      client_step s (mkSystem p (w1 ++ w2) (gone s))
  | step_deliver l1 tok o l2 c ok r status p s :
      outstanding (client s) = l1 ++ (tok, o) :: l2 →
      handlers (handlerManager (client s)) !! getKey tok = Some c → c_cq c ∉ gone s →
      deliver tok o ok r status (set_outstanding (l1 ++ l2) (client s)) = (Ok false, p) →
      client_step s (set_client p s)
  | step_leave q s :
      (0 ≤ q < threadPoolSize)%Z →
      asyncCompleteRpc_next TIMEOUT (client s) = (Ok true, client s) →
      client_step s (mkSystem (client s) (writers s) (q :: gone s)).

Definition client_init : System := mkSystem ClientProactor_ClientProactor [] [].
Definition client_reachable : System → Prop := rtc client_step client_init.
End client.

(** ** The calls as state machines *)

(** What a completion does to a call: its new state, the operation it issues, and what is
    logged. *)
Definition react (c : call) (o : op) (ok : bool) : call * option op * list output :=
  let bad opt := if ok then [] else [NotOk (c_kind c) opt] in
  let finish out := (set_finish c, None,
    [if ok then if c_status c then out else RpcFailed (c_kind c) else NotOk (c_kind c) FINISH]) in
  match c_kind c, o with
  | ListenCall, CStart =>
      if ok then (c, Some CRead, []) else (set_finish c, None, [NotOk ListenCall START_CALL])
  | TalkCall, CStart =>
      let c := set_canWrite (canWrite c + 1) c in
      if ok then (c, Some CRead, []) else (set_finish c, None, [NotOk TalkCall START_CALL])
  | SpeakCall, CStart => (set_canWrite (canWrite c + 1) c, None, bad START_CALL)
  | (ListenCall | TalkCall), CRead =>
      if ok then (c, Some CRead, [Response (c_kind c) (c_response c)]) else (c, Some CFinish, [])
  | (SpeakCall | TalkCall), CWrite _ => (set_canWrite (canWrite c + 1) c, None, bad WRITE)
  | (SpeakCall | TalkCall), CWritesDone => (set_closed c, None, bad WRITE_DONE)
  | ListenCall, CFinish => finish (EndCall ListenCall)
  | (SpeakCall | TalkCall), CFinish => finish (Response (c_kind c) (c_response c))
  | _, CFinish =>
      (c, None, [if ok then if c_status c then Response (c_kind c) (c_response c)
        else RpcFailed (c_kind c) else NotOk (c_kind c) FINISH])
  | _, _ => (c, None, [])
  end.

Inductive op_class := KStart | KRead | KWrite | KDone | KFin.

#[global] Instance op_class_eq_dec : EqDecision op_class.
Proof. solve_decision. Defined.

Definition class_of (o : op) : op_class :=
  match o with
  | CStart => KStart | CRead => KRead | CWrite _ => KWrite | CWritesDone => KDone | CFinish => KFin
  end.

Definition opt_of (o : op) : Z :=
  match o with
  | CStart => START_CALL | CRead => READ | CWrite _ => WRITE | CWritesDone => WRITE_DONE
  | CFinish => FINISH
  end.

Definition add (n : op_class → nat) (o : op) (q : op_class) : nat :=
  n q + (if decide (class_of o = q) then 1 else 0).

Definition add_opt (n : op_class → nat) (o : option op) : op_class → nat :=
  match o with Some o => add n o | None => n end.

(** A call and how many of its operations of each kind are with gRPC. *)
Definition call_ok (c : call) (n : op_class → nat) : Prop :=
  match c_kind c with
  | ListenCall =>
      n KWrite = 0 ∧ n KDone = 0 ∧ n KStart + n KRead + n KFin = 1 ∧ c_finish c = false
  | SpeakCall =>
      n KRead = 0 ∧ n KFin + Nat.b2n (c_finish c) = 1 ∧ (0 ≤ canWrite c)%Z ∧
      (Z.of_nat (n KStart + n KWrite + n KDone + Nat.b2n (c_closed c)) + canWrite c = 1)%Z ∧
      c_finish c && c_closed c = false
  | TalkCall =>
      n KStart + n KRead + n KFin + Nat.b2n (c_finish c) = 1 ∧ (0 ≤ canWrite c)%Z ∧
      (Z.of_nat (n KStart + n KWrite + n KDone + Nat.b2n (c_closed c)) + canWrite c = 1)%Z ∧
      c_finish c && c_closed c = false
  | _ => n KStart = 0 ∧ n KRead = 0 ∧ n KWrite = 0 ∧ n KDone = 0 ∧ n KFin = 1
  end.

Lemma call_ok_ext c n n' : (∀ q, n q = n' q) → call_ok c n → call_ok c n'.
Proof. intros E. unfold call_ok. rewrite !E. done. Qed.

Lemma call_ok_store c n o r st : call_ok c n → call_ok (store o r st c) n.
Proof. unfold store. destruct o; try done. simpl. case_bool_decide; done. Qed.

Lemma react_ok c n o ok :
  call_ok c (add n o) →
  let '(c', new, _) := react c o ok in
  c_kind c' = c_kind c ∧ c_key c' = c_key c ∧ c_cq c' = c_cq c ∧
  if isComplete c' then ∀ q, add_opt n new q = 0 else call_ok c' (add_opt n new).
Proof.
  destruct c as [k key cq fin cl cw r st]. unfold call_ok, react, isComplete, add_opt, add.
  destruct k, o; simpl; try lia; intros Hc; destruct ok, fin, cl; simpl in *; try lia;
    (split; [done|split; [done|split; [done|]]]); try (intros []; simpl; lia); try lia.
Qed.

(** ** The code implements the machines *)

Definition member_key (c : call) : Prop :=
  match c_kind c with ListenCall | SpeakCall | TalkCall => True | _ => False end.

(** The state of the client after [process]. *)
Definition reacted (k : Z) (p : Client) (c' : call) (new : list (Z * op)) (out : list output)
    : Client :=
  mkClient (mkManager (<[k := c']> (handlers (handlerManager p))) (lastKey (handlerManager p)))
    (cqIdx p) (outstanding p ++ new) (outputs p ++ out).

Definition tagged (k : Z) (o : option op) (new : list (Z * op)) : Prop :=
  match o with
  | None => new = []
  | Some o => ∃ tok, new = [(tok, o)] ∧ getKey tok = k ∧ getOpt tok = opt_of o
  end.

Lemma alter_lookup {A} (f : A → A) k (m : gmap Z A) x : m !! k = Some x → alter f k m = <[k := f x]> m.
Proof.
  intros Hk. apply map_eq. intros j. rewrite lookup_alter, lookup_insert.
  case_decide; [|done]. subst. by rewrite Hk.
Qed.

Lemma call_this_run key p c : handlers (handlerManager p) !! key = Some c → this key p = (Ok c, p).
Proof. intros H. unfold this, mbind, M_bind, get. by rewrite H. Qed.

Lemma getKey_range tok : (0 ≤ getKey tok < 2 ^ 32)%Z.
Proof. apply u32_range. Qed.

Lemma acquire_run k p c :
  handlers (handlerManager p) !! k = Some c → (0 < canWrite c)%Z →
  acquire k p = (Ok tt, reacted k p (set_canWrite (canWrite c - 1) c) [] []).
Proof.
  intros Hk Hc. unfold acquire. rewrite (bind_ok _ _ _ _ _ (call_this_run _ _ _ Hk)).
  apply Z.ltb_lt in Hc. rewrite Hc. unfold update_this, on_manager, zoom, modify, reacted.
  simpl. unfold set_handlerManager, set_handlers. rewrite (alter_lookup _ _ _ _ Hk), !app_nil_r. by destruct p as [[]].
Qed.

Lemma update_run k p c f :
  handlers (handlerManager p) !! k = Some c →
  update_this k f p = (Ok tt, reacted k p (f c) [] []).
Proof.
  intros Hk. unfold update_this, on_manager, zoom, modify, reacted, set_handlerManager, set_handlers.
  simpl. by rewrite (alter_lookup _ _ _ _ Hk), !app_nil_r.
Qed.

Lemma log_run k p c o :
  handlers (handlerManager p) !! k = Some c → log o p = (Ok tt, reacted k p c [] [o]).
Proof.
  intros Hk. unfold log, modify, reacted, set_outputs. rewrite insert_id by done.
  rewrite app_nil_r. by destruct p as [[]].
Qed.

Lemma issue_run k p c tok o :
  handlers (handlerManager p) !! k = Some c → issue tok o p = (Ok tt, reacted k p c [(tok, o)] []).
Proof.
  intros Hk. unfold issue, modify, reacted, set_outstanding. rewrite insert_id by done.
  rewrite app_nil_r. by destruct p as [[]].
Qed.

Lemma ret_run k p c :
  handlers (handlerManager p) !! k = Some c → (mret tt : M Client unit) p = (Ok tt, reacted k p c [] []).
Proof.
  intros Hk. unfold reacted. rewrite insert_id by done. rewrite !app_nil_r. by destruct p as [[]].
Qed.

Lemma release_run k p c :
  handlers (handlerManager p) !! k = Some c → (canWrite c ≤ 0)%Z →
  release_loop k p = (Ok tt, reacted k p (set_canWrite (canWrite c + 1) c) [] []).
Proof.
  intros Hk Hc. unfold release_loop. rewrite (bind_ok _ _ _ _ _ (call_this_run _ _ _ Hk)).
  destruct (Z.eqb_spec (canWrite c) canWrite_capacity) as [E|_]; [unfold canWrite_capacity in E; lia|].
  by apply (update_run k p c).
Qed.

Lemma reacted_lookup k p c new out :
  handlers (handlerManager (reacted k p c new out)) !! k = Some c.
Proof. apply lookup_insert_eq. Qed.

Lemma reacted_twice k p c1 c2 n1 n2 o1 o2 :
  reacted k (reacted k p c1 n1 o1) c2 n2 o2 = reacted k p c2 (n1 ++ n2) (o1 ++ o2).
Proof. unfold reacted. simpl. by rewrite insert_insert_eq, <- !app_assoc. Qed.

(** Sequencing two statements that only change the call. *)
Lemma reacted_seq {A} k p c1 n1 o1 (m : M Client unit) (f : M Client A) :
  m p = (Ok tt, reacted k p c1 n1 o1) → (m;; f) p = f (reacted k p c1 n1 o1).
Proof. intros E. by rewrite (bind_ok _ _ _ _ _ E). Qed.

Create HintDb client.
#[export] Hint Resolve acquire_run update_run log_run issue_run ret_run release_run
  reacted_lookup : client.

Lemma report_run k p c o :
  handlers (handlerManager p) !! k = Some c →
  report c o p = (Ok tt, reacted k p c [] [if c_status c then o else RpcFailed (c_kind c)]).
Proof. intros Hk. by apply log_run. Qed.

Lemma finish_run tok p c f ok :
  handlers (handlerManager p) !! getKey tok = Some c →
  finish_process f ok tok p = (Ok tt, reacted (getKey tok) p (set_finish c) []
    [if ok then if c_status c then f c else RpcFailed (c_kind c) else NotOk (c_kind c) FINISH]).
Proof.
  intros Hk. unfold finish_process. rewrite (bind_ok _ _ _ _ _ (call_this_run _ _ _ Hk)).
  destruct ok; (erewrite reacted_seq by (by apply log_run));
    (erewrite update_run by apply reacted_lookup); by rewrite reacted_twice.
Qed.

Lemma bad_run k p c b o :
  handlers (handlerManager p) !! k = Some c →
  when b (log o) p = (Ok tt, reacted k p c [] (if b then [o] else [])).
Proof. intros Hk. destruct b; [by apply log_run|by apply ret_run]. Qed.

Lemma write_run tok p c ok :
  handlers (handlerManager p) !! getKey tok = Some c → (canWrite c ≤ 0)%Z →
  write_process c ok tok p = (Ok tt, reacted (getKey tok) p (set_canWrite (canWrite c + 1) c) []
    (if ok then [] else [NotOk (c_kind c) WRITE])).
Proof.
  intros Hk Hc. unfold write_process. erewrite reacted_seq by (by apply release_run).
  erewrite bad_run by apply reacted_lookup. rewrite reacted_twice. by destruct ok.
Qed.

Lemma write_done_run tok p c ok :
  handlers (handlerManager p) !! getKey tok = Some c →
  write_done_process c ok tok p = (Ok tt, reacted (getKey tok) p (set_closed c) []
    (if ok then [] else [NotOk (c_kind c) WRITE_DONE])).
Proof.
  intros Hk. unfold write_done_process. erewrite reacted_seq by (by apply bad_run).
  erewrite update_run by apply reacted_lookup. rewrite reacted_twice, app_nil_r. by destruct ok.
Qed.

Lemma check_key_run tok p c :
  handlers (handlerManager p) !! getKey tok = Some c → c_key c = getKey tok →
  check_key tok p = (Ok c, p).
Proof.
  intros Hk Hc. unfold check_key. rewrite (bind_ok _ _ _ _ _ (call_this_run _ _ _ Hk)).
  by rewrite Hc, Z.eqb_refl.
Qed.

Lemma tagged_setOpt tok o :
  tagged (getKey tok) (Some o) [(setOpt (opt_of o) tok, o)].
Proof.
  eexists. split; [done|]. rewrite getKey_setOpt, getOpt_setOpt. split; [done|]. by destruct o.
Qed.

Definition runs (tok : Z) (p : Client) (c : call) (o : op) (ok : bool) : Prop :=
  ∃ new, process (c_kind c) ok tok p =
      (Ok tt, reacted (getKey tok) p (react c o ok).1.1 new (react c o ok).2) ∧
    tagged (getKey tok) (react c o ok).1.2 new.

Lemma listen_runs tok p c o ok n :
  handlers (handlerManager p) !! getKey tok = Some c → c_key c = getKey tok →
  getOpt tok = opt_of o → c_kind c = ListenCall → call_ok c (add n o) → runs tok p c o ok.
Proof.
  intros Hk Hc Ho Hkd. unfold call_ok, runs, react. rewrite Hkd. cbn [process]. intros Hok.
  unfold ListenCall_process. rewrite (bind_ok _ _ _ _ _ (check_key_run _ _ _ Hk Hc)), Ho.
  destruct o; unfold add in Hok; simpl in Hok |- *; try lia.
  - destruct ok.
    + eexists. split; [by apply issue_run|]. apply (tagged_setOpt tok CRead).
    + eexists. split; [|done]. erewrite reacted_seq by (by apply log_run).
      erewrite update_run by apply reacted_lookup. by rewrite reacted_twice, Hkd.
  - destruct ok.
    + eexists. split.
      * erewrite reacted_seq by (by apply log_run). erewrite issue_run by apply reacted_lookup.
        by rewrite reacted_twice, Hkd.
      * exists tok. auto.
    + eexists. split; [by apply issue_run|]. apply (tagged_setOpt tok CFinish).
  - eexists. split; [|done]. erewrite finish_run by done. by rewrite Hkd.
Qed.

Lemma speak_runs tok p c o ok n :
  handlers (handlerManager p) !! getKey tok = Some c → c_key c = getKey tok →
  getOpt tok = opt_of o → c_kind c = SpeakCall → call_ok c (add n o) → runs tok p c o ok.
Proof.
  intros Hk Hc Ho Hkd. unfold call_ok, runs, react. rewrite Hkd. cbn [process]. intros Hok.
  unfold SpeakCall_process. rewrite (bind_ok _ _ _ _ _ (check_key_run _ _ _ Hk Hc)), Ho.
  destruct o; unfold add in Hok; simpl in Hok |- *; try lia; (eexists; split; [|done]).
  - erewrite reacted_seq by (apply release_run; [done|lia]).
    erewrite bad_run by apply reacted_lookup. rewrite reacted_twice, Hkd. by destruct ok.
  - rewrite <- Hkd. apply write_run; [done|lia].
  - rewrite <- Hkd. by apply write_done_run.
  - erewrite finish_run by done. by rewrite Hkd.
Qed.

Lemma talk_runs tok p c o ok n :
  handlers (handlerManager p) !! getKey tok = Some c → c_key c = getKey tok →
  getOpt tok = opt_of o → c_kind c = TalkCall → call_ok c (add n o) → runs tok p c o ok.
Proof.
  intros Hk Hc Ho Hkd. unfold call_ok, runs, react. rewrite Hkd. cbn [process]. intros Hok.
  unfold TalkCall_process. rewrite (bind_ok _ _ _ _ _ (check_key_run _ _ _ Hk Hc)), Ho.
  destruct o; unfold add in Hok; simpl in Hok |- *; try lia.
  - destruct ok; eexists; (split; [|apply (tagged_setOpt tok CRead) || done]).
    + erewrite reacted_seq by (by apply issue_run).
      erewrite release_run by (apply reacted_lookup || lia). by rewrite reacted_twice.
    + erewrite reacted_seq.
      2:{ erewrite reacted_seq by (by apply log_run).
          erewrite update_run by apply reacted_lookup. by rewrite reacted_twice. }
      erewrite release_run by (apply reacted_lookup || (simpl; lia)). by rewrite reacted_twice, Hkd.
  - destruct ok.
    + eexists. split.
      * erewrite reacted_seq by (by apply log_run). erewrite issue_run by apply reacted_lookup.
        by rewrite reacted_twice, Hkd.
      * exists tok. auto.
    + eexists. split; [by apply issue_run|]. apply (tagged_setOpt tok CFinish).
  - eexists. split; [|done]. rewrite <- Hkd. apply write_run; [done|lia].
  - eexists. split; [|done]. rewrite <- Hkd. by apply write_done_run.
  - eexists. split; [|done]. erewrite finish_run by done. by rewrite Hkd.
Qed.

Lemma unary_runs tok p c o ok n :
  handlers (handlerManager p) !! getKey tok = Some c → (¬ member_key c) →
  call_ok c (add n o) → runs tok p c o ok.
Proof.
  intros Hk Hm. unfold call_ok, runs, react, member_key in *.
  destruct (c_kind c) eqn:Hkd; try done; cbn [process];
    unfold SayHelloCall_process, SayHelloAgainCall_process, SayGoodbyeCall_process,
      SayGoodbyeAgainCall_process, GreetCall_process, unary_process;
    rewrite (bind_ok _ _ _ _ _ (call_this_run _ _ _ Hk));
    destruct o; unfold add; simpl; intros Hok; try lia;
    (eexists; split; [|done]); destruct ok; unfold report; rewrite ?Hkd;
    by erewrite log_run.
Qed.

(** [process] is the machine. *)
Lemma process_runs tok p c o ok n :
  handlers (handlerManager p) !! getKey tok = Some c → (member_key c → c_key c = getKey tok) →
  getOpt tok = opt_of o → call_ok c (add n o) → runs tok p c o ok.
Proof.
  intros Hk Hm Ho Hok. unfold member_key in Hm.
  destruct (c_kind c) eqn:Hkd;
    first [by eapply listen_runs; eauto|by eapply speak_runs; eauto|by eapply talk_runs; eauto
      |eapply unary_runs; [done| |exact Hok]; unfold member_key; rewrite Hkd; tauto].
Qed.

(** A completion runs the machine on what was stored, and forgets a call that is complete. *)
Definition delivered (k : Z) (p : Client) (c : call) (new : list (Z * op)) (out : list output)
    : Client :=
  mkClient (mkManager (if isComplete c then delete k (handlers (handlerManager p))
      else <[k := c]> (handlers (handlerManager p))) (lastKey (handlerManager p)))
    (cqIdx p) (outstanding p ++ new) (outputs p ++ out).

Definition stored (c : call) (o : op) (ok : bool) (r : response) (status : bool) : call :=
  if ok then store o r status c else c.

Lemma stored_frame c o ok r st :
  c_kind (stored c o ok r st) = c_kind c ∧ c_key (stored c o ok r st) = c_key c ∧
  c_cq (stored c o ok r st) = c_cq c ∧ c_closed (stored c o ok r st) = c_closed c.
Proof. unfold stored, store. destruct ok, o; try done. simpl. by case_bool_decide. Qed.

Lemma call_ok_stored c n o ok r st : call_ok c n → call_ok (stored c o ok r st) n.
Proof. unfold stored. destruct ok; [apply call_ok_store|done]. Qed.

Lemma deliver_runs tok p c o ok r st n :
  handlers (handlerManager p) !! getKey tok = Some c → (member_key c → c_key c = getKey tok) →
  getOpt tok = opt_of o → call_ok c (add n o) →
  let '(c', no, out) := react (stored c o ok r st) o ok in
  ∃ new, deliver tok o ok r st p = (Ok false, delivered (getKey tok) p c' new out) ∧
    tagged (getKey tok) no new.
Proof.
  intros Hk Hm Ho Hok. set (c1 := stored c o ok r st).
  destruct (stored_frame c o ok r st) as (F1 & F2 & F3 & F4).
  set (p1 := reacted (getKey tok) p c1 [] []).
  assert (H1 : when ok (update_this (getKey tok) (store o r st)) p = (Ok tt, p1)).
  { unfold p1, c1, stored. destruct ok; [by apply update_run|by apply ret_run]. }
  assert (Hk1 : handlers (handlerManager p1) !! getKey tok = Some c1) by apply reacted_lookup.
  assert (runs tok p1 c1 o ok) as (new & Hrun & Ht).
  { eapply process_runs; [done| |done|by apply call_ok_stored].
    unfold member_key, c1. rewrite F1, F2. exact Hm. }
  fold c1. destruct (react c1 o ok) as [[c' no] out] eqn:Er. simpl in Hrun, Ht.
  exists new. split; [|done]. unfold deliver. erewrite reacted_seq by exact H1.
  unfold asyncCompleteRpc_next, asyncCompleteRpc_event, EventHandlerManager_contains.
  unfold mbind at 1, M_bind at 1. unfold mbind at 1, M_bind at 1, get at 1. fold p1.
  rewrite Hk1, bool_decide_true by eauto. cbn [negb].
  assert (Hget : on_manager (EventHandlerManager_get (getKey tok)) p1 = (Ok c1, p1)).
  { unfold on_manager, zoom, EventHandlerManager_get, mbind, M_bind, get. rewrite Hk1. by destruct p1. }
  rewrite (bind_ok _ _ _ _ _ Hget), (bind_ok _ _ _ _ _ Hrun).
  rewrite (bind_ok _ _ _ _ _ (call_this_run _ _ _ (reacted_lookup _ _ _ _ _))).
  unfold delivered, p1. rewrite reacted_twice. simpl.
  destruct (isComplete c'); [|done]. unfold on_manager, zoom, when, EventHandlerManager_remove, modify.
  unfold reacted, set_handlerManager, set_handlers. simpl. by rewrite delete_insert_eq.
Qed.

(** ** The invariant *)

(** The operations of kind [q] that belong to the call with key [k]. *)
Definition cnt (k : Z) (q : op_class) (l : list (Z * op)) : nat :=
  sum_list_with (λ x, if decide (getKey x.1 = k ∧ class_of x.2 = q) then 1 else 0) l.

Definition writer_ok (p : Client) (k : Z) : Prop :=
  ∃ c, handlers (handlerManager p) !! k = Some c ∧ (c_kind c = SpeakCall ∨ c_kind c = TalkCall) ∧
    c_closed c = false ∧ cnt k KDone (outstanding p) = 0.

Definition call_state (k : Z) (o : option call) (l : list (Z * op)) : Prop :=
  match o with
  | Some c => (member_key c → c_key c = k) ∧ call_ok c (λ q, cnt k q l)
  | None => ∀ q, cnt k q l = 0
  end.

Record client_inv (p : Client) (w : list Z) : Prop := {
  ci_manager : manager_inv (handlerManager p);
  ci_tags : Forall (λ x, getOpt x.1 = opt_of x.2) (outstanding p);
  ci_calls k : call_state k (handlers (handlerManager p) !! k) (outstanding p);
  ci_writers : NoDup w ∧ ∀ k, k ∈ w ↔ writer_ok p k
}.

Lemma cnt_app k q l1 l2 : cnt k q (l1 ++ l2) = cnt k q l1 + cnt k q l2.
Proof. apply sum_list_with_app. Qed.

Lemma cnt_cons k q tok o l :
  cnt k q ((tok, o) :: l) =
    (if decide (getKey tok = k ∧ class_of o = q) then 1 else 0) + cnt k q l.
Proof. done. Qed.

Lemma cnt_here tok o l n q :
  (∀ q, cnt (getKey tok) q l = n q) → cnt (getKey tok) q ((tok, o) :: l) = add n o q.
Proof. intros E. rewrite cnt_cons, E. unfold add. repeat case_decide; (tauto || lia). Qed.

Lemma cnt_other k q tok o l : getKey tok ≠ k → cnt k q ((tok, o) :: l) = cnt k q l.
Proof. intros Hne. rewrite cnt_cons, decide_False; [done|tauto]. Qed.

Lemma cnt_split k q l1 x l2 : cnt k q (l1 ++ x :: l2) = cnt k q (x :: l1 ++ l2).
Proof. destruct x as [tok o]. rewrite cnt_cons, !cnt_app, cnt_cons. lia. Qed.

Lemma cnt_tagged k q o new l : tagged k o new → cnt k q (l ++ new) = add_opt (λ q, cnt k q l) o q.
Proof.
  destruct o as [o|]; simpl; [intros (tok & -> & <- & _)|intros ->; by rewrite app_nil_r].
  rewrite cnt_split, app_nil_r. by apply cnt_here.
Qed.

Lemma cnt_tagged_other k k' q o new l : tagged k o new → k' ≠ k → cnt k' q (l ++ new) = cnt k' q l.
Proof.
  destruct o as [o|]; simpl; [intros (tok & -> & <- & _) Hne|intros -> _; by rewrite app_nil_r].
  rewrite cnt_split, app_nil_r. by apply cnt_other.
Qed.

(** Only the call with key [k], its operations and its writer change. *)
Lemma inv_frame k p w p' w' :
  client_inv p w → manager_inv (handlerManager p') →
  Forall (λ x, getOpt x.1 = opt_of x.2) (outstanding p') →
  (∀ j, j ≠ k → handlers (handlerManager p') !! j = handlers (handlerManager p) !! j) →
  (∀ j q, j ≠ k → cnt j q (outstanding p') = cnt j q (outstanding p)) →
  call_state k (handlers (handlerManager p') !! k) (outstanding p') →
  NoDup w' → (∀ j, j ≠ k → j ∈ w' ↔ j ∈ w) → (k ∈ w' ↔ writer_ok p' k) →
  client_inv p' w'.
Proof.
  intros [Hm Ht Hc [Hn Hw]] Hm' Ht' Hh Hcnt Hk Hn' Hsub Hwk. split; [done|done| |].
  - intros j. destruct (decide (j = k)) as [->|Hne]; [done|]. rewrite Hh by done.
    specialize (Hc j). unfold call_state in *. destruct (handlers (handlerManager p) !! j).
    + destruct Hc as [H1 H2]. split; [done|]. eapply call_ok_ext; [|exact H2]. simpl. intros q. by rewrite Hcnt.
    + intros q. by rewrite Hcnt.
  - split; [done|]. intros j. destruct (decide (j = k)) as [->|Hne]; [done|].
    rewrite Hsub, Hw by done. unfold writer_ok. by setoid_rewrite Hcnt; [|done]; rewrite Hh.
Qed.

(** ** Steps keep the invariant *)

Section steps.
  Context (n : Z).

Definition registered (q : Z) (member : bool) (k : Z) (c : call) : call :=
  set_cq q (if member then set_key k c else c).

Lemma prepare_ok member c k p p' :
  manager_inv (handlerManager p) → prepareAsyncCall n member c p = (Ok k, p') →
  ∃ q, handlers (handlerManager p) !! k = None ∧ (0 ≤ k < 2 ^ 32)%Z ∧ (0 ≤ q < n)%Z ∧
    handlers (handlerManager p') = <[k := registered q member k c]> (handlers (handlerManager p)) ∧
    manager_inv (handlerManager p') ∧ outstanding p' = outstanding p ∧ outputs p' = outputs p.
Proof.
  intros Hm. unfold prepareAsyncCall. intros Hr. apply bind_inv_ok in Hr as (e & p1 & H1 & Hr).
  unfold on_manager, zoom in H1.
  destruct (add_cases c (handlerManager p) Hm) as [(k0 & m & E & Hn & Hk0 & Eh & Hm1)|[_ E]];
    rewrite E in H1; [|done]. injection H1 as <- <-.
  assert (Eg : getKey k0 = k0) by by apply u32_small. rewrite Eg in Hr.
  set (p1 := set_handlerManager m p) in *.
  assert (Hk1 : handlers (handlerManager p1) !! k0 = Some c)
    by (unfold p1; simpl; rewrite Eh; apply lookup_insert_eq).
  set (c1 := if member then set_key k0 c else c).
  assert (H2 : when member (update_this k0 (set_key k0)) p1 = (Ok tt, reacted k0 p1 c1 [] []))
    by (unfold c1; destruct member; [by apply update_run|by apply ret_run]).
  rewrite (bind_ok _ _ _ _ _ H2) in Hr. apply bind_inv_ok in Hr as (q & p2 & H3 & Hr).
  assert (Hq : (0 ≤ q < n)%Z ∧ ∃ z, p2 = set_cqIdx z (reacted k0 p1 c1 [] [])).
  { revert H3. unfold next_cq, mbind, M_bind, gets, modify. destruct (n =? 0)%Z; [done|].
    destruct ((0 <=? _)%Z && _) eqn:Eq; [|done]. apply andb_true_iff in Eq as [?%Z.leb_le ?%Z.ltb_lt].
    intros [= <- <-]. eauto. }
  destruct Hq as (Hq & z & ->).
  erewrite reacted_seq in Hr by (apply update_run, reacted_lookup). injection Hr as <- <-.
  exists q. split; [done|]. split; [done|]. split; [done|]. unfold reacted, p1, set_cqIdx. simpl.
  rewrite Eh, !insert_insert_eq, !app_nil_r. split; [done|]. split; [|done].
  destruct Hm1 as [Hl Hr]. split; [done|]. simpl. intros j. rewrite lookup_insert. case_decide; [by subst|].
  intros Hj. apply Hr. rewrite Eh, lookup_insert_ne by done. exact Hj.
Qed.

Lemma cnt_none k q l : Forall (λ x, getKey x.1 ≠ k) l → cnt k q l = 0.
Proof.
  intros Hl. apply sum_list_with_0. eapply Forall_impl; [exact Hl|]. intros [tok o] Hne. simpl in *.
  rewrite decide_False; [done|tauto].
Qed.

(** A new call. *)
Lemma client_inv_new k c new p w p' (b : bool) :
  client_inv p w → handlers (handlerManager p) !! k = None →
  handlers (handlerManager p') = <[k := c]> (handlers (handlerManager p)) →
  manager_inv (handlerManager p') → outstanding p' = outstanding p ++ new →
  Forall (λ x, getKey x.1 = k ∧ getOpt x.1 = opt_of x.2) new →
  (member_key c → c_key c = k) → call_ok c (λ q, cnt k q new) →
  (b = true ↔ (c_kind c = SpeakCall ∨ c_kind c = TalkCall) ∧ c_closed c = false ∧ cnt k KDone new = 0) →
  client_inv p' (if b then k :: w else w).
Proof.
  intros Hi Hk Hh Hm Ho Hnew Hc Hok Hb. pose proof (ci_calls _ _ Hi k) as Hz. rewrite Hk in Hz.
  assert (Hw : k ∉ w).
  { intros Hin. apply (ci_writers _ _ Hi) in Hin as (c0 & E & _). congruence. }
  assert (Hcnt : ∀ q, cnt k q (outstanding p') = cnt k q new) by (intros q; rewrite Ho, cnt_app, Hz; lia).
  eapply (inv_frame k); [exact Hi|done| | | | | | |].
  - rewrite Ho. apply Forall_app. split; [apply (ci_tags _ _ Hi)|].
    eapply Forall_impl; [exact Hnew|]. by intros x [_ ?].
  - intros j Hj. by rewrite Hh, lookup_insert_ne.
  - intros j q Hj. rewrite Ho, cnt_app, (cnt_none j q new); [lia|].
    eapply Forall_impl; [exact Hnew|]. intros x [-> _]. done.
  - rewrite Hh, lookup_insert_eq. split; [done|]. eapply call_ok_ext; [|exact Hok]. intros q. by rewrite Hcnt.
  - destruct (ci_writers _ _ Hi) as [Hn _]. destruct b; [by apply NoDup_cons|done].
  - intros j Hj. destruct b; [|done]. rewrite elem_of_cons. tauto.
  - transitivity (b = true); [destruct b; [by split; [|left]|done]|]. rewrite Hb.
    unfold writer_ok. rewrite Hh, lookup_insert_eq, Hcnt. split; [eauto|]. by intros (? & [= <-] & ?).
Qed.

Lemma tag_ok k opt : (0 ≤ k < 2 ^ 32)%Z → (0 ≤ opt < 2 ^ 32)%Z →
  getKey (setOpt opt (Event_key k)) = k ∧ getOpt (setOpt opt (Event_key k)) = opt.
Proof.
  intros Hk Ho. rewrite getKey_setOpt, getOpt_setOpt. unfold getKey, Event_key.
  by rewrite !(u32_small k), !(u32_small opt).
Qed.

Lemma cnt_one k q opt o : (0 ≤ k < 2 ^ 32)%Z → (0 ≤ opt < 2 ^ 32)%Z →
  cnt k q [(setOpt opt (Event_key k), o)] = if decide (class_of o = q) then 1 else 0.
Proof.
  intros Hk Ho. destruct (tag_ok k opt Hk Ho) as [E _]. rewrite cnt_cons, E. simpl.
  repeat case_decide; (tauto || lia).
Qed.

Ltac one_tag Hk := apply Forall_singleton; apply (tag_ok _ _ Hk); done.

Lemma unary_inv kd k p w p' :
  kd ∉ [ListenCall; SpeakCall; TalkCall] → client_inv p w → unary_call n kd p = (Ok k, p') →
  client_inv p' w.
Proof.
  intros Hkd Hi Hr. unfold unary_call in Hr. apply bind_inv_ok in Hr as (k0 & p1 & H1 & Hr).
  apply prepare_ok in H1 as (q & Hn & Hk & _ & Hh & Hm & Ho & _); [|apply (ci_manager _ _ Hi)].
  unfold issue, mbind, M_bind, modify in Hr. injection Hr as <- <-.
  eapply (client_inv_new k0 _ _ p w _ false); [exact Hi|done|exact Hh|exact Hm|simpl; by rewrite Ho| | | |].
  - one_tag Hk.
  - unfold member_key, registered. case_bool_decide; simpl; destruct kd; set_solver.
  - assert (E : ∀ q, cnt k0 q [(setOpt FINISH (Event_key k0), CFinish)] =
      if decide (KFin = q) then 1 else 0) by (intros; by apply cnt_one).
    unfold call_ok, registered. rewrite !E. case_bool_decide; simpl; destruct kd; set_solver by (simpl; lia).
  - split; [done|]. unfold registered. case_bool_decide; simpl; destruct kd; set_solver.
Qed.

Lemma listen_inv k p w p' :
  client_inv p w → AsyncChatClient_listen n p = (Ok k, p') → client_inv p' w.
Proof.
  intros Hi Hr. unfold AsyncChatClient_listen in Hr. apply bind_inv_ok in Hr as (k0 & p1 & H1 & Hr).
  apply prepare_ok in H1 as (q & Hn & Hk & _ & Hh & Hm & Ho & _); [|apply (ci_manager _ _ Hi)].
  unfold ListenCall_start in Hr.
  assert (Hl : handlers (handlerManager p1) !! k0 = Some (registered q true k0 (new_call ListenCall)))
    by (rewrite Hh; apply lookup_insert_eq).
  rewrite (bind_ok _ _ _ tt (set_outstanding (outstanding p1 ++ [(setOpt START_CALL (Event_key k0), CStart)]) p1)) in Hr
    by by rewrite (bind_ok _ _ _ _ _ (call_this_run _ _ _ Hl)).
  injection Hr as <- <-.
  eapply (client_inv_new k0 _ _ p w _ false); [exact Hi|done|exact Hh|exact Hm|simpl; by rewrite Ho| | | |].
  - one_tag Hk.
  - done.
  - eapply call_ok_ext; [intros q0; symmetry; by apply cnt_one|]. unfold call_ok. simpl. lia.
  - split; [done|]. by intros ([|] & _).
Qed.

(** [speak] and [talk] take the permit and issue their first operations. *)
Definition started (c : call) : call := set_canWrite 0 c.

Lemma speak_start_run k q p :
  let c := registered q true k (new_call SpeakCall) in
  let tok := setOpt START_CALL (Event_key k) in
  handlers (handlerManager p) !! k = Some c →
  SpeakCall_start k p = (Ok tt, reacted k p (started c) ([(tok, CStart)] ++ [(setOpt FINISH tok, CFinish)]) []).
Proof.
  intros c tok Hl. unfold SpeakCall_start. rewrite (bind_ok _ _ _ _ _ (call_this_run _ _ _ Hl)).
  erewrite reacted_seq by (by apply acquire_run).
  erewrite reacted_seq by (apply issue_run, reacted_lookup).
  rewrite reacted_twice. erewrite issue_run by apply reacted_lookup. by rewrite reacted_twice.
Qed.

Lemma talk_start_run k q p :
  let c := registered q true k (new_call TalkCall) in
  handlers (handlerManager p) !! k = Some c →
  TalkCall_start k p = (Ok tt, reacted k p (started c) [(setOpt START_CALL (Event_key k), CStart)] []).
Proof.
  intros c Hl. unfold TalkCall_start. rewrite (bind_ok _ _ _ _ _ (call_this_run _ _ _ Hl)).
  erewrite reacted_seq by (by apply acquire_run).
  erewrite issue_run by apply reacted_lookup. by rewrite reacted_twice.
Qed.

Lemma speak_inv k p w p' :
  client_inv p w → AsyncChatClient_speak n p = (Ok k, p') → client_inv p' (k :: w).
Proof.
  intros Hi Hr. unfold AsyncChatClient_speak in Hr. apply bind_inv_ok in Hr as (k0 & p1 & H1 & Hr).
  apply prepare_ok in H1 as (q & Hn & Hk & _ & Hh & Hm & Ho & _); [|apply (ci_manager _ _ Hi)].
  set (c := registered q true k0 (new_call SpeakCall)) in *.
  assert (Hl : handlers (handlerManager p1) !! k0 = Some c) by (rewrite Hh; apply lookup_insert_eq).
  set (tok := setOpt START_CALL (Event_key k0)).
  pose proof (speak_start_run k0 q p1 Hl) as E. fold c tok in E.
  rewrite (bind_ok _ _ _ _ _ E) in Hr. injection Hr as <- <-.
  assert (Ht : setOpt FINISH tok = setOpt FINISH (Event_key k0)) by (unfold tok; apply setOpt_setOpt).
  rewrite Ht. assert (Hcnt : ∀ q, cnt k0 q ([(tok, CStart)] ++ [(setOpt FINISH (Event_key k0), CFinish)]) =
    (if decide (KStart = q) then 1 else 0) + (if decide (KFin = q) then 1 else 0))
    by (intros; unfold tok; by rewrite cnt_app, !cnt_one).
  eapply (client_inv_new k0 (started c) _ p w _ true); [exact Hi|done| | |simpl; by rewrite Ho| | | |].
  - simpl. by rewrite Hh, insert_insert_eq.
  - destruct Hm as [Hl1 Hr1]. split; [done|]. simpl. intros j. rewrite lookup_insert.
    case_decide; [by subst|apply Hr1].
  - constructor; [apply (tag_ok _ _ Hk); done|one_tag Hk].
  - done.
  - eapply call_ok_ext; [intros q0; symmetry; apply Hcnt|]. unfold call_ok. simpl. lia.
  - rewrite Hcnt. split; auto.
Qed.

Lemma talk_inv k p w p' :
  client_inv p w → AsyncChatClient_talk n p = (Ok k, p') → client_inv p' (k :: w).
Proof.
  intros Hi Hr. unfold AsyncChatClient_talk in Hr. apply bind_inv_ok in Hr as (k0 & p1 & H1 & Hr).
  apply prepare_ok in H1 as (q & Hn & Hk & _ & Hh & Hm & Ho & _); [|apply (ci_manager _ _ Hi)].
  set (c := registered q true k0 (new_call TalkCall)) in *.
  assert (Hl : handlers (handlerManager p1) !! k0 = Some c) by (rewrite Hh; apply lookup_insert_eq).
  pose proof (talk_start_run k0 q p1 Hl) as E. fold c in E.
  rewrite (bind_ok _ _ _ _ _ E) in Hr. injection Hr as <- <-.
  eapply (client_inv_new k0 (started c) _ p w _ true); [exact Hi|done| | |simpl; by rewrite Ho| | | |].
  - simpl. by rewrite Hh, insert_insert_eq.
  - destruct Hm as [Hl1 Hr1]. split; [done|]. simpl. intros j. rewrite lookup_insert.
    case_decide; [by subst|apply Hr1].
  - one_tag Hk.
  - done.
  - eapply call_ok_ext; [intros q0; symmetry; by apply cnt_one|]. unfold call_ok. simpl. lia.
  - rewrite cnt_one by done. split; auto.
Qed.

Lemma cnt_zero_in k o l : cnt k (class_of o) l = 0 → ∀ tok, (tok, o) ∈ l → getKey tok ≠ k.
Proof.
  intros Hz tok (i & Hi)%list_elem_of_lookup Hk. unfold cnt in Hz.
  pose proof (sum_list_with_ge (λ x, if decide (getKey x.1 = k ∧ class_of x.2 = class_of o) then 1 else 0)
    _ _ _ Hi) as H. simpl in H. rewrite decide_True in H by done. lia.
Qed.

(** What [write] and [close] do on a call: take the permit, issue the operation. *)
Definition use (o : op) (me : Z) : M Client unit :=
  c ← this me; acquire me;; issue (setOpt (opt_of o) (Event_key (c_key c))) o.

Lemma use_inv o me p p' w w' :
  client_inv p w → me ∈ w → (class_of o = KWrite ∧ w' = w) ∨ (class_of o = KDone ∧ me ∉ w') →
  NoDup w' → (∀ j, j ≠ me → j ∈ w' ↔ j ∈ w) →
  use o me p = (Ok tt, p') → client_inv p' w'.
Proof.
  intros Hi Hin Ho Hnd Hsub. destruct (ci_writers _ _ Hi) as [_ Hf].
  destruct (proj1 (Hf me) Hin) as (c & Hc & Hkd & Hcl & Hz).
  pose proof (ci_calls _ _ Hi me) as Hst. rewrite Hc in Hst. destruct Hst as [Hkey Hok].
  assert (Hmk : c_key c = me) by (apply Hkey; unfold member_key; destruct Hkd as [-> | ->]; done).
  assert (Hr : (0 ≤ me < 2 ^ 32)%Z) by (apply (ci_manager _ _ Hi); eauto).
  unfold use. rewrite (bind_ok _ _ _ _ _ (call_this_run _ _ _ Hc)), Hmk.
  unfold acquire. unfold mbind at 1, M_bind at 1. rewrite (bind_ok _ _ _ _ _ (call_this_run _ _ _ Hc)).
  destruct (Z.ltb_spec 0 (canWrite c)) as [Hw|]; [|done]. intros Hrun.
  set (c' := set_canWrite (canWrite c - 1) c) in *. rewrite (update_run me p c) in Hrun by done. fold c' in Hrun.
  erewrite issue_run in Hrun by apply reacted_lookup. rewrite reacted_twice in Hrun. injection Hrun as <-.
  assert (Hopt : (0 ≤ opt_of o < 2 ^ 32)%Z) by (by destruct o).
  assert (Hcnt : ∀ j q, cnt j q (outstanding p ++ [(setOpt (opt_of o) (Event_key me), o)]) =
    cnt j q (outstanding p) + if decide (me = j ∧ class_of o = q) then 1 else 0).
  { intros j q. rewrite cnt_app, cnt_cons. destruct (tag_ok me _ Hr Hopt) as [-> _]. simpl. lia. }
  eapply (inv_frame me); [exact Hi| | | | | |done|exact Hsub|].
  - destruct (ci_manager _ _ Hi) as [H1 H2]. split; [done|]. simpl. intros j. rewrite lookup_insert.
    case_decide; [by subst|apply H2].
  - apply Forall_app. split; [apply (ci_tags _ _ Hi)|]. apply Forall_singleton. by apply tag_ok.
  - intros j Hj. apply lookup_insert_ne. done.
  - intros j q Hj. simpl. rewrite Hcnt, decide_False; [lia|]. intros [? _]. congruence.
  - simpl. rewrite lookup_insert_eq. split; [by intros _|].
    apply (call_ok_ext _ (add (λ q, cnt me q (outstanding p)) o)).
    { intros q. simpl. rewrite Hcnt. unfold add. repeat case_decide; (done || tauto). }
    unfold call_ok, add in *. simpl. rewrite Hcl in *.
    destruct Hkd as [Hkd|Hkd]; rewrite Hkd in *; destruct Ho as [[Ho _]|[Ho _]]; rewrite Ho; simpl;
      rewrite ?andb_false_r in *; simpl in *; lia.
  - assert (Hw' : writer_ok (reacted me p c' [(setOpt (opt_of o) (Event_key me), o)] []) me ↔ class_of o = KWrite).
    { unfold writer_ok. simpl. rewrite lookup_insert_eq, Hcnt, Hz. split.
      - intros (? & _ & _ & _ & E). destruct Ho as [[Ho _]|[Ho _]]; [done|]. rewrite decide_True in E by done. lia.
      - intros E. exists c'. rewrite decide_False by (intros [_ ?]; congruence). done. }
    rewrite Hw'. destruct Ho as [[Ho ->]|[Ho Hn]]; [by split|]. split; [done|]. congruence.
Qed.

Lemma write_use msg me p :
  writer_ok p me → write msg me p = use (CWrite msg) me p ∧ close me p = use CWritesDone me p.
Proof.
  intros (c & Hc & Hkd & _). unfold write, close, use.
  rewrite !(bind_ok _ _ _ _ _ (call_this_run _ _ _ Hc)).
  destruct Hkd as [-> | ->]; unfold SpeakCall_write, SpeakCall_close, TalkCall_write, TalkCall_close;
    by rewrite !(bind_ok _ _ _ _ _ (call_this_run _ _ _ Hc)).
Qed.

Lemma write_inv msg me p p' w :
  client_inv p w → me ∈ w → write msg me p = (Ok tt, p') → client_inv p' w.
Proof.
  intros Hi Hin Hr. destruct (write_use msg me p) as [E _]; [by apply (ci_writers _ _ Hi)|]. rewrite E in Hr.
  eapply (use_inv (CWrite msg)); [exact Hi|exact Hin|by left| |done|exact Hr].
  apply (ci_writers _ _ Hi).
Qed.

Lemma close_inv me p p' w1 w2 :
  client_inv p (w1 ++ me :: w2) → close me p = (Ok tt, p') → client_inv p' (w1 ++ w2).
Proof.
  intros Hi Hr. destruct (ci_writers _ _ Hi) as [Hnd _].
  assert (Hp : w1 ++ me :: w2 ≡ₚ me :: (w1 ++ w2)) by by rewrite Permutation_middle.
  rewrite Hp in Hnd. apply NoDup_cons in Hnd as [Hn Hnd].
  assert (Hin : me ∈ w1 ++ me :: w2) by (rewrite Hp; apply list_elem_of_here).
  destruct (write_use [] me p) as [_ E]; [by apply (ci_writers _ _ Hi)|]. rewrite E in Hr.
  apply (use_inv CWritesDone me p p' (w1 ++ me :: w2) (w1 ++ w2)); [done|done|by right|done| |exact Hr].
  intros j Hj. rewrite Hp, elem_of_cons. tauto.
Qed.

(** ** Delivery *)

(** Every completion is processed: no exception, no spin on the permit, no lost object. *)
Lemma deliver_ok l1 tok o l2 p w ok r st :
  client_inv p w → outstanding p = l1 ++ (tok, o) :: l2 →
  ∃ c new, handlers (handlerManager p) !! getKey tok = Some c ∧
    let '(c', no, out) := react (stored c o ok r st) o ok in
    deliver tok o ok r st (set_outstanding (l1 ++ l2) p) =
      (Ok false, delivered (getKey tok) (set_outstanding (l1 ++ l2) p) c' new out) ∧
    tagged (getKey tok) no new ∧
    call_ok c (add (λ q, cnt (getKey tok) q (l1 ++ l2)) o) ∧ (member_key c → c_key c = getKey tok).
Proof.
  intros Hi Hout. pose proof (ci_calls _ _ Hi (getKey tok)) as Hst.
  assert (Hcnt : ∀ q, cnt (getKey tok) q (outstanding p) = add (λ q, cnt (getKey tok) q (l1 ++ l2)) o q).
  { intros q. rewrite Hout, cnt_split. by apply cnt_here. }
  destruct (handlers (handlerManager p) !! getKey tok) as [c|] eqn:Hc.
  2:{ simpl in Hst. specialize (Hst (class_of o)). rewrite Hcnt in Hst. unfold add in Hst.
      rewrite decide_True in Hst by done. lia. }
  destruct Hst as [Hk Hok]. eapply call_ok_ext in Hok; [|exact Hcnt].
  assert (Ho : getOpt tok = opt_of o).
  { pose proof (ci_tags _ _ Hi) as Ht. rewrite Hout in Ht. by apply Forall_app in Ht as [_ [? _]%Forall_cons]. }
  pose proof (deliver_runs tok (set_outstanding (l1 ++ l2) p) c o ok r st _ Hc Hk Ho Hok) as Hd.
  destruct (react (stored c o ok r st) o ok) as [[c' no] out] eqn:Er. destruct Hd as (new & Hd & Ht).
  exists c, new. rewrite Er. done.
Qed.

(** A completion closes nothing but after [WritesDone], and never issues one. *)
Lemma react_closed c o ok :
  let '(c', new, _) := react c o ok in
  (c_kind c = SpeakCall ∨ c_kind c = TalkCall → c_closed c' = c_closed c || bool_decide (class_of o = KDone)) ∧
  ∀ n, add_opt n new KDone = n KDone.
Proof.
  unfold react, add_opt, add.
  destruct c as [[] ? ? ? cl ? ? ?], o, ok; simpl; (split; [|intros m; lia]);
    (intros [|]; try done); by rewrite ?orb_false_r, ?orb_true_r.
Qed.

Lemma client_deliver_inv l1 tok o l2 p w ok r st p' :
  client_inv p w → outstanding p = l1 ++ (tok, o) :: l2 →
  deliver tok o ok r st (set_outstanding (l1 ++ l2) p) = (Ok false, p') → client_inv p' w.
Proof.
  intros Hi Hout Hd. destruct (deliver_ok _ _ _ _ _ _ ok r st Hi Hout) as (c & new & Hc & Hr).
  pose proof (react_ok (stored c o ok r st) (λ q, cnt (getKey tok) q (l1 ++ l2)) o ok) as Hreact.
  pose proof (react_closed (stored c o ok r st) o ok) as Hclosed.
  destruct (stored_frame c o ok r st) as (F1 & F2 & F3 & F4).
  destruct (react (stored c o ok r st) o ok) as [[c' no] out].
  destruct Hr as (Hrun & Ht & Hok & Hk). rewrite Hrun in Hd. injection Hd as <-.
  destruct (Hreact (call_ok_stored _ _ _ _ _ _ Hok)) as (K1 & K2 & K3 & Hc'). clear Hreact.
  assert (Hcnt : ∀ q, cnt (getKey tok) q ((l1 ++ l2) ++ new) =
    add_opt (λ q, cnt (getKey tok) q (l1 ++ l2)) no q) by (intros q; by apply cnt_tagged).
  eapply (inv_frame (getKey tok)); [exact Hi| | | | | | | |].
  - destruct (ci_manager _ _ Hi) as [H1 H2]. split; [done|]. simpl. intros j. clear Hclosed.
    destruct (isComplete c'); rewrite ?lookup_insert, ?lookup_delete; case_decide; subst;
      intros Hs; [by destruct Hs|by apply H2|apply getKey_range|by apply H2].
  - pose proof (ci_tags _ _ Hi) as Hf. rewrite Hout in Hf. apply Forall_app in Hf as [Hf1 [_ Hf2]%Forall_cons].
    simpl. repeat apply Forall_app_2; [done|done|]. destruct no as [o'|]; simpl in Ht; [|by subst].
    destruct Ht as (tok' & -> & _ & Ho'). by apply Forall_singleton.
  - intros j Hj. simpl. destruct (isComplete c'); [by rewrite lookup_delete_ne|by rewrite lookup_insert_ne].
  - intros j q Hj. simpl. rewrite (cnt_tagged_other _ _ _ _ _ _ Ht Hj), Hout, cnt_split.
    symmetry. by apply cnt_other.
  - simpl. destruct (isComplete c') eqn:Ec.
    + rewrite lookup_delete_eq. intros q. by rewrite Hcnt.
    + rewrite lookup_insert_eq. split.
      * unfold member_key. rewrite K1, K2, F1, F2. exact Hk.
      * eapply call_ok_ext; [|exact Hc']. intros q. by rewrite Hcnt.
  - apply (ci_writers _ _ Hi).
  - done.
  - destruct Hclosed as [Hclosed Hdone]. rewrite F1, F4 in Hclosed. rewrite (proj2 (ci_writers _ _ Hi)).
    unfold writer_ok. rewrite Hc, Hout, cnt_split, (cnt_here _ _ _ _ _ (λ _, eq_refl)). unfold add. simpl.
    rewrite Hcnt, Hdone. split.
    + intros (? & [= <-] & Hkd & Hcl & Hz).
      assert (Hno : class_of o ≠ KDone) by (intros E; rewrite decide_True in Hz by done; lia).
      assert (Hc1 : c_closed c' = false) by (by rewrite Hclosed, Hcl, bool_decide_false).
      exists c'. assert (Ec : isComplete c' = false).
      { unfold isComplete. rewrite K1, F1, Hc1, andb_false_r. by destruct Hkd as [-> | ->]. }
      rewrite Ec, lookup_insert_eq, K1, F1. split; [done|]. split; [done|]. split; [done|lia].
    + intros (c1 & E & Hkd & Hcl & Hz). exists c. split; [done|].
      destruct (isComplete c'); [by rewrite lookup_delete_eq in E|].
      rewrite lookup_insert_eq in E. injection E as <-. rewrite K1, F1 in Hkd.
      rewrite Hclosed in Hcl by done. apply orb_false_iff in Hcl as [Hcl Hno%bool_decide_eq_false].
      split; [done|]. split; [done|]. rewrite decide_False by done. lia.
Qed.

Lemma client_step_inv s s' :
  client_inv (client s) (writers s) → client_step n s s' → client_inv (client s') (writers s').
Proof.
  intros Hi Hs.
  destruct Hs as [m me p s Hm Hr|m me p s Hm Hr|me msg p s Hin Hr|me w1 w2 p s Hw Hr
    |l1 tok o l2 c ok r st p s Hout Hc Hq Hr|q s Hq Hr]; simpl.
  - repeat (apply elem_of_cons in Hm as [->|Hm]); [..|by apply elem_of_nil in Hm].
    6:{ by eapply listen_inv. }
    all: eapply unary_inv; [|exact Hi|exact Hr]; apply (bool_decide_eq_true_1 _); reflexivity.
  - destruct Hm as [-> | ->]; [by eapply speak_inv|by eapply talk_inv].
  - by eapply write_inv.
  - rewrite Hw in Hi. by eapply close_inv.
  - by eapply client_deliver_inv.
  - done.
Qed.

Lemma client_init_inv : client_inv (client client_init) (writers client_init).
Proof.
  split; simpl.
  - split; [simpl; lia|]. intros k [h Hh]. done.
  - constructor.
  - intros k. by rewrite lookup_empty.
  - split; [constructor|]. intros k. unfold writer_ok. simpl.
    split; [by intros ?%elem_of_nil|by intros (c & Hc & _)].
Qed.

Lemma client_reachable_inv s : client_reachable n s → client_inv (client s) (writers s).
Proof.
  apply (rtc_invariant (client_step n) (λ s, client_inv (client s) (writers s)));
    [apply client_step_inv|apply client_init_inv].
Qed.

(** ** Properties *)

(** C15: in every reachable state each completion finds its call, and [deliver] does what the
    call's state machine [react] says: no key is wrong, the loop on [release] ends at once,
    and the call is forgotten exactly when it is complete. *)
Theorem delivery_is_machine s l1 tok o l2 ok r st :
  client_reachable n s → outstanding (client s) = l1 ++ (tok, o) :: l2 →
  ∃ c new, handlers (handlerManager (client s)) !! getKey tok = Some c ∧
    let '(c', next, out) := react (stored c o ok r st) o ok in
    tagged (getKey tok) next new ∧
    deliver tok o ok r st (set_outstanding (l1 ++ l2) (client s)) =
      (Ok false, delivered (getKey tok) (set_outstanding (l1 ++ l2) (client s)) c' new out).
Proof.
  intros Hr Hout. apply client_reachable_inv in Hr.
  destruct (deliver_ok _ _ _ _ _ _ ok r st Hr Hout) as (c & new & Hc & Hd).
  exists c, new. split; [done|]. destruct (react _ _ _) as [[c' no] out]. tauto.
Qed.

(** C16: a call never has two of [StartCall], [Write] and [WritesDone] with gRPC at once, and a
    writer of the program that has to wait for its permit waits for one that is. *)
Theorem one_write_at_a_time s :
  client_reachable n s →
  (∀ k, cnt k KStart (outstanding (client s)) + cnt k KWrite (outstanding (client s)) +
    cnt k KDone (outstanding (client s)) ≤ 1) ∧
  Forall (λ k, ∀ msg, (∃ p, write msg k (client s) = (Ok tt, p)) ∨
    cnt k KStart (outstanding (client s)) + cnt k KWrite (outstanding (client s)) = 1) (writers s).
Proof.
  intros Hr. apply client_reachable_inv in Hr as Hi. split.
  - intros k. pose proof (ci_calls _ _ Hi k) as Hst. unfold call_state in Hst.
    destruct (handlers (handlerManager (client s)) !! k) as [c|]; [|rewrite !Hst; lia].
    destruct Hst as [_ Hok]. unfold call_ok in Hok. destruct (c_kind c); lia.
  - apply Forall_forall. intros k Hk msg.
    apply (ci_writers _ _ Hi) in Hk as Hw. rewrite (proj1 (write_use msg k _ Hw)).
    destruct Hw as (c & Hc & Hkd & Hcl & Hz).
    pose proof (ci_calls _ _ Hi k) as Hst. rewrite Hc in Hst. destruct Hst as [_ Hok].
    destruct (decide (0 < canWrite c)%Z) as [Hlt|Hge].
    + left. eexists. unfold use. rewrite (bind_ok _ _ _ _ _ (call_this_run _ _ _ Hc)).
      by rewrite (bind_ok _ _ _ _ _ (acquire_run _ _ _ Hc Hlt)).
    + right. unfold call_ok in Hok. rewrite Hcl in Hok. destruct Hkd as [E|E]; rewrite E in Hok; simpl in Hok; lia.
Qed.

(** C17: gRPC never holds an operation of a call that was forgotten, and no writer the program
    may still use was: objects are used only while they exist. *)
Theorem operations_have_calls s :
  client_reachable n s →
  Forall (λ x, ∃ c, handlers (handlerManager (client s)) !! getKey x.1 = Some c ∧
    getOpt x.1 = opt_of x.2) (outstanding (client s)) ∧
  Forall (λ k, ∃ c, handlers (handlerManager (client s)) !! k = Some c ∧ c_closed c = false) (writers s).
Proof.
  intros Hr. apply client_reachable_inv in Hr as Hi. split; apply Forall_forall.
  - intros [tok o] Hin. pose proof (ci_tags _ _ Hi) as Ht. rewrite Forall_forall in Ht.
    pose proof (ci_calls _ _ Hi (getKey tok)) as Hst. simpl.
    destruct (handlers (handlerManager (client s)) !! getKey tok) as [c|].
    { exists c. split; [done|]. apply (Ht _ Hin). }
    exfalso. by eapply cnt_zero_in.
  - intros k Hk. apply (ci_writers _ _ Hi) in Hk as (c & ? & ? & ? & _). eauto.
Qed.

(** A thread that polls leaves its loop exactly when all operations were delivered and the
    program has closed all its writers: an unclosed writer keeps the client running. *)
Theorem client_ends_when_all_closed s :
  client_reachable n s →
  (asyncCompleteRpc_next TIMEOUT (client s) = (Ok true, client s) ↔
    outstanding (client s) = [] ∧ writers s = []).
Proof.
  intros Hr. apply client_reachable_inv in Hr as Hi.
  unfold asyncCompleteRpc_next, EventHandlerManager_count, mbind, M_bind, get. split.
  - intros [= Hs%Nat.eqb_eq%map_size_empty_iff].
    pose proof (ci_calls _ _ Hi) as Hst. setoid_rewrite Hs in Hst. split.
    + destruct (outstanding (client s)) as [|[tok o] l] eqn:E; [done|]. exfalso.
      specialize (Hst (getKey tok)). rewrite lookup_empty in Hst.
      by apply (cnt_zero_in _ _ _ (Hst (class_of o)) tok (list_elem_of_here _ _)).
    + destruct (writers s) as [|k w] eqn:E; [done|]. exfalso.
      assert (Hw : writer_ok (client s) k) by (apply (ci_writers _ _ Hi); apply list_elem_of_here).
      destruct Hw as (c & Hc & _). by rewrite Hs in Hc.
  - intros [Ho Hw]. assert (Hz : size (handlers (handlerManager (client s))) = 0); [|by rewrite Hz].
    apply map_size_empty_iff, map_eq. intros k. rewrite lookup_empty.
    destruct (handlers (handlerManager (client s)) !! k) as [c|] eqn:Hc; [|done]. exfalso.
    pose proof (ci_calls _ _ Hi k) as Hst. rewrite Hc, Ho in Hst. destruct Hst as [_ Hok].
    assert (Hn : ¬ writer_ok (client s) k) 
      by (intros Hk; apply (ci_writers _ _ Hi) in Hk; rewrite Hw in Hk; by apply elem_of_nil in Hk).
    apply Hn. exists c. rewrite Ho. unfold call_ok in Hok. simpl in Hok.
    destruct (c_kind c), (c_closed c), (c_finish c); simpl in *; try lia; auto.
Qed.

(** Queues are taken in turn as long as the counter has not wrapped: after 2^31 calls it is
    negative, and the index is outside the vector unless it is a multiple of the size. *)
Theorem next_cq_in_turn p :
  (0 < n < 2 ^ 31)%Z → (- 2 ^ 31 ≤ cqIdx p < 2 ^ 31)%Z →
  ((0 ≤ cqIdx p)%Z → (next_cq n p).1 = Ok (cqIdx p mod n)%Z) ∧
  ((cqIdx p < 0)%Z → (cqIdx p mod n ≠ 0)%Z → (next_cq n p).1 = Undef) ∧
  cqIdx (next_cq n p).2 = if (cqIdx p =? 2 ^ 31 - 1)%Z then (- 2 ^ 31)%Z else (cqIdx p + 1)%Z.
Proof.
  intros Hn Hi. unfold next_cq, mbind, M_bind, gets, modify. rewrite (proj2 (Z.eqb_neq n 0)) by lia.
  assert (Hw : wrap_i32 (cqIdx p + 1) = if (cqIdx p =? 2 ^ 31 - 1)%Z then (- 2 ^ 31)%Z else (cqIdx p + 1)%Z).
  { unfold wrap_i32. destruct (Z.eqb_spec (cqIdx p) (2 ^ 31 - 1)) as [-> |]; [reflexivity|].
    rewrite Z.mod_small; lia. }
  split_and!.
  - intros H0. rewrite Z.rem_mod_nonneg by lia. pose proof (Z.mod_pos_bound (cqIdx p) n).
    rewrite (proj2 (Z.leb_le _ _)), (proj2 (Z.ltb_lt _ _)) by lia. done.
  - intros H0 Hne. assert (Hr : (Z.rem (cqIdx p) n < 0)%Z).
    { pose proof (Z.rem_nonpos (cqIdx p) n). pose proof (Z.rem_divide (cqIdx p) n) as Hd.
      destruct (Z.eq_dec (Z.rem (cqIdx p) n) 0) as [E|]; [|lia]. exfalso. apply Hne.
      apply Z.mod_divide; [lia|]. apply Hd; [lia|done]. }
    rewrite (proj2 (Z.leb_gt _ _)) by lia. done.
  - rewrite <- Hw. by destruct ((0 <=? _)%Z && _).
Qed.
End steps.




(** ** Witnesses *)

(** [speak] was called: its [StartCall] and [Finish] are out. *)
Definition speak_state : System :=
  mkSystem (AsyncChatClient_speak 1 ClientProactor_ClientProactor).2 [1%Z] [].

Lemma speak_reachable : client_reachable 1 speak_state.
Proof.
  eapply rtc_l; [|apply rtc_refl].
  apply (step_writer 1 (AsyncChatClient_speak 1) 1 _ client_init); [by left|]. vm_compute. reflexivity.
Qed.

Lemma delivery_is_machine_witness :
  ∃ p, deliver (setOpt START_CALL (Event_key 1)) CStart true no_response true
      (set_outstanding (drop 1 (outstanding (client speak_state))) (client speak_state)) = (Ok false, p) ∧
    canWrite <$> handlers (handlerManager p) !! 1%Z = Some 1%Z.
Proof.
  destruct (delivery_is_machine 1 speak_state [] (setOpt START_CALL (Event_key 1)) CStart
    (drop 1 (outstanding (client speak_state))) true no_response true) as (c & new & Hc & H).
  - exact speak_reachable.
  - vm_compute. reflexivity.
  - assert (E : c = mkCall SpeakCall 1 0 false false 0 no_response true)
      by (vm_compute in Hc; injection Hc as <-; reflexivity).
    rewrite E in H. destruct H as [Ht H]. eexists. split; [exact H|]. reflexivity.
Defined.

Lemma one_write_at_a_time_witness :
  cnt 1 KStart (outstanding (client speak_state)) = 1 ∧
  cnt 1 KStart (outstanding (client speak_state)) + cnt 1 KWrite (outstanding (client speak_state)) +
    cnt 1 KDone (outstanding (client speak_state)) ≤ 1.
Proof.
  split; [vm_compute; reflexivity|].
  exact (proj1 (one_write_at_a_time 1 speak_state speak_reachable) 1%Z).
Defined.

Lemma operations_have_calls_witness :
  length (outstanding (client speak_state)) = 2 ∧
  Forall (λ k, ∃ c, handlers (handlerManager (client speak_state)) !! k = Some c ∧ c_closed c = false) [1%Z].
Proof.
  split; [vm_compute; reflexivity|].
  exact (proj2 (operations_have_calls 1 speak_state speak_reachable)).
Defined.

Lemma client_ends_when_all_closed_witness :
  asyncCompleteRpc_next TIMEOUT (client speak_state) ≠ (Ok true, client speak_state).
Proof.
  intros H. apply (client_ends_when_all_closed 1 speak_state speak_reachable) in H as [_ H].
  discriminate H.
Defined.

Lemma next_cq_in_turn_witness :
  (next_cq 3 (set_cqIdx (- 2 ^ 31) ClientProactor_ClientProactor)).1 = Undef ∧
  (next_cq 3 (set_cqIdx 4 ClientProactor_ClientProactor)).1 = Ok 1%Z.
Proof.
  split.
  - apply (next_cq_in_turn 3 (set_cqIdx (- 2 ^ 31) ClientProactor_ClientProactor)); vm_compute; intuition discriminate.
  - apply (next_cq_in_turn 3 (set_cqIdx 4 ClientProactor_ClientProactor)); vm_compute; intuition discriminate.
Defined.
