(* ===== verification/GrpcSync.v ===== *)
(** * The synchronous gRPC programs (learn_grpc/hello_world/src, client/sync and server/sync)

    The stubs of the client and the handlers of the server as the two ends of a call: two bounded queues
    of messages between them, the half-close of the client and the status of the server.  gRPC is not code
    of the repository: a Write waits while its queue is full, a Read while it is empty and the other side is
    not done, Finish waits for the status, and a call may break at any time, which makes Reads and Writes
    return false.  Every interleaving of the client's threads and the server's is covered.  Timestamps are left
    out: they are only logged. *)

From S2P Require Import Prelude CppString.

(** The methods of the three services. *)
Inductive rpc := SayHello | SayHelloAgain | SayGoodbye | SayGoodbyeAgain | Greet | Listen | Speak | Talk.

(** HelloRequest and GoodbyeRequest; the content of ClientWords. *)
Inductive request := Names (firstname lastname : bytes) | ClientWords (content : bytes).

Definition content (r : request) : bytes := match r with Names _ _ => [] | ClientWords t => t end.

(** ** The client: what each method writes *)



(** ** The server: what each handler answers *)


(** The next call a handler makes of its stream.  [SvRequest]: it has not been called yet. *)
Inductive server_pc := SvRequest | SvRead | SvWrite (l : list bytes) | SvReturn (response : option bytes) | SvDone.

#[global] Instance server_pc_eq_dec : EqDecision server_pc.
Proof. solve_decision. Defined.





(** ** A call *)




Section steps.
  Context (r : rpc) (cap : nat).









End steps.

(** [UseSyncClient]: the calls in their order. *)
Definition UseSyncClient : list rpc :=
  [SayHello; SayHelloAgain; SayGoodbye; SayGoodbyeAgain; Greet; Listen; Speak; Talk].

(** ** What a call is for *)


(** ** The invariant *)






















(** ** Termination *)










(** ** Progress *)





(** ** Properties *)


(** ** The server's life *)

Definition SIGINT : Z := 2.
Definition SIGTERM : Z := 15.

(** The main thread: before [BuildAndStart], in [Wait], after it, or at a null pointer. *)
Inductive life := Starting | Waiting | Returned | NullServer.

(** [grpcServer]: null, or whether the server has been shut down. *)
Record SyncServer := mkSyncServer { grpcServer : option bool; phase : life }.

Definition SyncServer_SyncServer : SyncServer := mkSyncServer None Starting.

(** [start], in two steps: [BuildAndStart] ([built]: it gives a server; it gives none when the port cannot be had)
    and [Wait]. *)
Definition SyncServer_start (built : bool) (s : SyncServer) : option SyncServer :=
  match phase s with
  | Starting => Some (mkSyncServer (if built then Some false else None) Waiting)
  | Waiting =>
      match grpcServer s with
      | None => Some (mkSyncServer None NullServer)
      | Some true => Some (mkSyncServer (Some true) Returned)
      | Some false => None
      end
  | Returned | NullServer => None
  end.

Definition SyncServer_stop (s : SyncServer) : SyncServer :=
  match grpcServer s with Some _ => mkSyncServer (Some true) (phase s) | None => s end.

(** The thread that [HandleSignal] starts. *)
Definition HandleSignal (signum : Z) (s : SyncServer) : SyncServer :=
  if (signum =? SIGINT)%Z || (signum =? SIGTERM)%Z then SyncServer_stop s else s.

Inductive life_step (built : bool) (s : SyncServer) : SyncServer → Prop :=
  | life_main s' : SyncServer_start built s = Some s' → life_step built s s'
  | life_signal signum : life_step built s (HandleSignal signum s).

(** The server is stopped by a signal that comes after it was built, and then returns. *)
Theorem signal_stops_server signum s s' :
  (signum = SIGINT ∨ signum = SIGTERM) → SyncServer_start true s = Some s' → phase s' = Waiting →
  SyncServer_start true (HandleSignal signum s') = Some (mkSyncServer (Some true) Returned).
Proof.
  intros Hs Hb Hp. unfold SyncServer_start in Hb. destruct (phase s); [|by repeat case_match; simplify_eq/=..].
  simplify_eq. by destruct Hs as [-> | ->].
Qed.

(** A signal that comes earlier is lost: the handler finds no server to shut down, and [start] waits as if none had
    come. *)
Theorem early_signal_is_lost signum built :
  HandleSignal signum SyncServer_SyncServer = SyncServer_SyncServer ∧
  (SyncServer_start built SyncServer_SyncServer ≫= SyncServer_start built) =
    if built then None else Some (mkSyncServer None NullServer).
Proof.
  split; [|by destruct built]. unfold HandleSignal. by destruct (_ || _).
Qed.

(** ** Witnesses *)




Lemma signal_stops_server_witness :
  SyncServer_start true (HandleSignal 15 (mkSyncServer (Some false) Waiting)) = Some (mkSyncServer (Some true) Returned).
Proof. by apply (signal_stops_server 15 SyncServer_SyncServer); [right|..]. Defined.
