(* ===== verification/TcpTool.v ===== *)
(** * The TCP tool (socket/tcp/main.cpp)

    A program that binds, listens, accepts or connects as its options say, and then relays:
    what is typed goes to the socket, what the socket delivers is shown.  [Process]
    has a version on [poll] and one on [select], chosen when it is compiled; both
    are modelled.

    A loop that may go
    on for ever takes the number of turns as fuel. *)

From S2P Require Import Prelude CppString Posix RefKernel.

Definition LISTEN_BACKLOG : Z := 50.
Definition SHUT_RD : Z := 0.
Definition SHUT_WR : Z := 1.
Definition SHUT_RDWR : Z := 2.
Definition SOL_SOCKET : Z := 1.
Definition SO_SNDBUF : Z := 7.
Definition SO_RCVBUF : Z := 8.
Definition SIGPIPE : Z := 13.
Definition SIG_IGN : Z := 1.

(** ** Options *)

Record Config := mkConfig {
  srcAddr : bytes; srcPort : Z; dstAddr : bytes; dstPort : Z;
  c_listen : bool; c_accept : bool; c_connect : bool; c_bind : bool; c_read : bool; c_write : bool
}.

Definition Config_Config : Config :=
  mkConfig (str "0.0.0.0") 10000 (str "127.0.0.1") 10001 false false false false false false.

Definition set_listen c := mkConfig (srcAddr c) (srcPort c) (dstAddr c) (dstPort c)
  true (c_accept c) (c_connect c) (c_bind c) (c_read c) (c_write c).
Definition set_accept c := mkConfig (srcAddr c) (srcPort c) (dstAddr c) (dstPort c)
  (c_listen c) true (c_connect c) (c_bind c) (c_read c) (c_write c).
Definition set_read c := mkConfig (srcAddr c) (srcPort c) (dstAddr c) (dstPort c)
  (c_listen c) (c_accept c) (c_connect c) (c_bind c) true (c_write c).
Definition set_write c := mkConfig (srcAddr c) (srcPort c) (dstAddr c) (dstPort c)
  (c_listen c) (c_accept c) (c_connect c) (c_bind c) (c_read c) true.
Definition set_bind a p c := mkConfig a p (dstAddr c) (dstPort c)
  (c_listen c) (c_accept c) (c_connect c) true (c_read c) (c_write c).
Definition set_connect a p c := mkConfig (srcAddr c) (srcPort c) a p
  (c_listen c) (c_accept c) true (c_bind c) (c_read c) (c_write c).

(** An argument read as a [uint16_t]: its first two bytes, the terminator included; of an
    empty argument the second byte lies outside. *)
Definition first_two (arg : bytes) : option bytes :=
  match arg with
  | a :: b :: _ => Some [a; b]
  | [a] => Some [a; Ascii.zero]
  | [] => None
  end.

Definition is_opt (arg opt : bytes) : bool := bool_decide (first_two arg = Some opt).

(** The loop of [Config::set] over the arguments from [argv[1]] on; [None]: the usage was printed
    and the program left by [exit(0)]. *)
Fixpoint set_loop (args : list bytes) (c : Config) : result (option Config) :=
  match args with
  | [] => Ok (Some c)
  | arg :: rest =>
    if bool_decide (first_two arg = None) then Undef
    else if is_opt arg (str "-h") then Ok None
    else if is_opt arg (str "-r") then set_loop rest (set_read c)
    else if is_opt arg (str "-w") then set_loop rest (set_write c)
    else if is_opt arg (str "-l") then set_loop rest (set_listen c)
    else if is_opt arg (str "-a") then set_loop rest (set_accept c)
    else if is_opt arg (str "-b") then
      match rest with
      | addr :: port :: rest =>
        match stoi port with
        | Ok p => set_loop rest (set_bind addr p c)
        | Throw e => Throw e | Undef => Undef | OutOfFuel => OutOfFuel
        end
      | _ => Throw RuntimeError
      end
    else if is_opt arg (str "-c") then
      match rest with
      | addr :: port :: rest =>
        match stoi port with
        | Ok p => set_loop rest (set_connect addr p c)
        | Throw e => Throw e | Undef => Undef | OutOfFuel => OutOfFuel
        end
      | _ => Throw RuntimeError
      end
    else Throw RuntimeError
  end.

Definition Config_set (args : list bytes) (c : Config) : result (option Config) :=
  match set_loop args c with
  | Ok (Some c) => if c_accept c && c_connect c then Throw RuntimeError else Ok (Some c)
  | r => r
  end.

Section tcp.
  Context {K : Type} `{!Kernel K, !StreamKernel K}.

(** [tout] is what was printed, [twords] the words [std::cin] will deliver.  [typed] is not
    in the code: it records what each [Read(STDIN_FILENO)] returned. *)
Record Tcp := mkTcp { tkern : K; tout : list bytes; twords : list bytes; typed : list bytes }.

Definition set_tkern k s := mkTcp k (tout s) (twords s) (typed s).

Definition call {A} (f : K → outcome A * K) : M Tcp (outcome A) := zoom tkern set_tkern (syscall f).

(** A call whose failure is thrown. *)
Definition checked {A} (f : K → outcome A * K) : M Tcp A :=
  o ← call f; match o with inl _ => throw RuntimeError | inr a => mret a end.

Definition print (t : bytes) : M Tcp unit :=
  modify (λ s, mkTcp (tkern s) (tout s ++ [t]) (twords s) (typed s)).

Definition Signal (signum handler : Z) : M Tcp unit := checked (sys_signal signum handler).

Definition Fcntl (fd cmd flags : Z) : M Tcp Z := checked (sys_fcntl fd cmd flags).

Definition SetNonBlocking (fd : Z) : M Tcp unit :=
  flags ← Fcntl fd F_GETFL (-1);
  Fcntl fd F_SETFL (Z.lor flags O_NONBLOCK);; mret tt.

Definition SetBlocking (fd : Z) : M Tcp unit :=
  flags ← Fcntl fd F_GETFL (-1);
  Fcntl fd F_SETFL (Z.land flags (Z.lnot O_NONBLOCK));; mret tt.

(** Failures are not looked at. *)
Definition SetSocketReceiveBufferSize (fd bufferSize : Z) : M Tcp unit :=
  call (sys_setsockopt fd SOL_SOCKET SO_RCVBUF bufferSize);; mret tt.

Definition SetSocketSendBufferSize (fd bufferSize : Z) : M Tcp unit :=
  call (sys_setsockopt fd SOL_SOCKET SO_SNDBUF bufferSize);; mret tt.

Definition Socket : M Tcp Z := checked sys_socket.

Definition Bind (fd : Z) (addr : bytes) (port : Z) : M Tcp unit :=
  match lib_inet_aton addr with
  | None => throw RuntimeError
  | Some a => checked (sys_bind_to fd a (htons (u16 port)))
  end.

(** The call returns 0 or -1; the code compares it with 1. *)
Definition Listen (fd backlog : Z) : M Tcp unit :=
  o ← call (sys_listen fd backlog);
  let ret := match o with inl _ => (-1)%Z | inr _ => 0%Z end in
  if (ret =? 1)%Z then throw RuntimeError else mret tt.

Definition Connect (fd : Z) (addr : bytes) (port : Z) : M Tcp unit :=
  match lib_inet_aton addr with
  | None => throw RuntimeError
  | Some a => checked (sys_connect fd a (htons (u16 port)))
  end.

Definition Accept (fd : Z) : M Tcp Z := r ← checked (sys_accept fd); mret r.1.1.

Definition READ_BUF_SIZE : nat := 1000.

(** [std::string Read(int fd, bool& readStop)]. *)
Definition Read (rfuel : nat) (fd : Z) : M Tcp (bytes * bool) :=
  zoom tkern set_tkern (read_all READ_BUF_SIZE (S READ_BUF_SIZE) rfuel fd []).

(** [Read(STDIN_FILENO)]. *)
Definition Read_stdin (rfuel : nat) : M Tcp bytes :=
  r ← Read rfuel STDIN_FILENO;
  modify (λ s, mkTcp (tkern s) (tout s) (twords s) (typed s ++ [r.1]));;
  mret r.1.

Definition Write (fd : Z) (s : bytes) : M Tcp bytes :=
  if bool_decide (s = []) then mret []
  else zoom tkern set_tkern (write_all (S (length s)) fd s).

Definition Shutdown (fd how : Z) : M Tcp unit := checked (sys_shutdown fd how).
Definition ShutdownRead (fd : Z) : M Tcp unit := print (str "SHUT_RD");; Shutdown fd SHUT_RD.
Definition ShutdownWrite (fd : Z) : M Tcp unit := print (str "SHUT_WR");; Shutdown fd SHUT_WR.
Definition ShutdownBoth (fd : Z) : M Tcp unit := print (str "SHUT_RDWR");; Shutdown fd SHUT_RDWR.

(** ** Relaying *)

Definition LINE (c : string) : bytes := str c ++ [chr 10].

(** What is done with a text that was typed: [None] leaves the loop, otherwise whether writing
    is shut down and what is still to be written. *)
Definition command (fd : Z) (r : bytes) (writeShutdown : bool) (w : bytes)
    : M Tcp (option (bool * bytes)) :=
  if bool_decide (r = LINE "exit") then mret None
  else if bool_decide (r = LINE "shutdown read") then
    ShutdownRead fd;; mret (Some (writeShutdown, w))
  else if bool_decide (r = LINE "shutdown write") then
    ShutdownWrite fd;; mret (Some (true, w))
  else if bool_decide (r = LINE "shutdown both") then
    ShutdownBoth fd;; mret (Some (true, w))
  else if bool_decide (r = LINE "unwritten length") then
    print (to_string (Z.of_nat (length w)));; mret (Some (writeShutdown, w))
  else if writeShutdown then
    print (str "write is shutdown");; mret (Some (writeShutdown, w))
  else mret (Some (writeShutdown, w ++ r)).

(** What the socket delivered is shown; the result tells whether it has ended. *)
Definition show_input (rfuel : nat) (fd : Z) : M Tcp bool :=
  r ← Read rfuel fd;
  when (negb (bool_decide (r.1 = []))) (print r.1);;
  when r.2 (print (str "read stop"));;
  mret r.2.

(** Nothing is typed, or a text is handled. *)
Definition typed_input (rfuel : nat) (fd : Z) (ready writeShutdown : bool) (w : bytes)
    : M Tcp (option (bool * bytes)) :=
  if ready then r ← Read_stdin rfuel; command fd r writeShutdown w
  else mret (Some (writeShutdown, w)).

Definition write_if (ready : bool) (fd : Z) (w : bytes) : M Tcp bytes :=
  if ready then Write fd w else mret w.

(** Shut down a direction the options do not ask for. *)
Definition shut_unless (wanted : bool) (shut : M Tcp unit) : M Tcp unit :=
  if wanted then mret tt else shut.

Definition Poll (fds : list (Z * Z)) (timeout : Z) : M Tcp (list Z) := checked (sys_poll fds timeout).

Record PollState := mkPollState { p_events : Z; p_writeShutdown : bool; p_w : bytes }.

Definition clear (mask flag : Z) : Z := Z.land mask (Z.lnot flag).

Definition after_input (readStop : bool) (events : Z) : Z :=
  if readStop then clear events POLLIN else events.

Definition poll_input (rfuel : nat) (fd revents events : Z) : M Tcp Z :=
  if has_flag revents POLLIN then
    readStop ← show_input rfuel fd;
    mret (after_input readStop events)
  else mret events.

(** The vector has a third element that is never set. *)
Definition poll_fds (fd events : Z) : list (Z * Z) := [(STDIN_FILENO, POLLIN); (fd, events); (0, 0)]%Z.

(** One turn of the loop of [Process]. *)
Definition poll_turn (rfuel : nat) (fd : Z) (st : PollState) : M Tcp (option PollState) :=
  revents ← Poll (poll_fds fd (p_events st)) (-1);
  let r0 := default 0%Z (revents !! 0) in
  let r1 := default 0%Z (revents !! 1) in
  events ← poll_input rfuel fd r1 (p_events st);
  next ← typed_input rfuel fd (has_flag r0 POLLIN) (p_writeShutdown st) (p_w st);
  match next with
  | None => mret None
  | Some (writeShutdown, w) =>
    w ← write_if (has_flag r1 POLLOUT) fd w;
    let events := if negb (bool_decide (w = [])) then Z.lor events POLLOUT
                  else clear events POLLOUT in
    mret (Some (mkPollState events writeShutdown w))
  end.

Fixpoint poll_loop (fuel rfuel : nat) (fd : Z) (st : PollState) : M Tcp unit :=
  match fuel with
  | O => lift OutOfFuel
  | S fuel =>
    o ← poll_turn rfuel fd st;
    match o with None => mret tt | Some st => poll_loop fuel rfuel fd st end
  end.

(** [Process] with [USE_POLL]. *)
Definition Process_poll (fuel rfuel : nat) (fd : Z) (config : Config) : M Tcp unit :=
  SetNonBlocking fd;;
  SetNonBlocking STDIN_FILENO;;
  let events := Z.lor POLLIN POLLOUT in
  shut_unless (c_read config) (ShutdownRead fd);;
  let events := if c_read config then events else clear events POLLIN in
  shut_unless (c_write config) (ShutdownWrite fd);;
  let events := if c_write config then events else clear events POLLOUT in
  poll_loop fuel rfuel fd (mkPollState events (negb (c_write config)) []);;
  SetBlocking STDIN_FILENO.

Definition Select (nfds : Z) (readfds writefds : gset Z) : M Tcp (gset Z * gset Z) :=
  checked (sys_select nfds readfds writefds).

Record SelectState := mkSelectState {
  rSet : gset Z; wSet : gset Z; s_readStop : bool; s_writeShutdown : bool; s_w : bytes
}.

Definition select_input (rfuel : nat) (fd : Z) (ready readStop : bool) : M Tcp bool :=
  if ready then show_input rfuel fd else mret readStop.

(** The socket is taken out at its end and put back otherwise. *)
Definition watch_socket (fd : Z) (ready readStop : bool) (rs : gset Z) : gset Z :=
  let rs := if ready && readStop then rs ∖ {[fd]} else rs in
  if readStop then rs else rs ∪ {[fd]}.

(** One turn of the loop of [Process]. *)
Definition select_turn (rfuel : nat) (fd : Z) (st : SelectState) : M Tcp (option SelectState) :=
  ready ← Select (fd + 1) (rSet st) (wSet st);
  let rs := ready.1 in
  let ws := ready.2 in
  readStop ← select_input rfuel fd (bool_decide (fd ∈ rs)) (s_readStop st);
  let rs := watch_socket fd (bool_decide (fd ∈ rs)) readStop rs in
  next ← typed_input rfuel fd (bool_decide (STDIN_FILENO ∈ rs)) (s_writeShutdown st) (s_w st);
  let rs := if bool_decide (STDIN_FILENO ∈ rs) then rs else rs ∪ {[STDIN_FILENO]} in
  match next with
  | None => mret None
  | Some (writeShutdown, w) =>
    w ← write_if (bool_decide (fd ∈ ws)) fd w;
    let ws := if negb (bool_decide (w = [])) then ws ∪ {[fd]} else ws ∖ {[fd]} in
    mret (Some (mkSelectState rs ws readStop writeShutdown w))
  end.

Fixpoint select_loop (fuel rfuel : nat) (fd : Z) (st : SelectState) : M Tcp unit :=
  match fuel with
  | O => lift OutOfFuel
  | S fuel =>
    o ← select_turn rfuel fd st;
    match o with None => mret tt | Some st => select_loop fuel rfuel fd st end
  end.

(** [Process] without [USE_POLL]; it is the standard input that is taken from the set when
    reading is not wanted. *)
Definition Process_select (fuel rfuel : nat) (fd : Z) (config : Config) : M Tcp unit :=
  SetNonBlocking fd;;
  SetNonBlocking STDIN_FILENO;;
  let rs : gset Z := {[STDIN_FILENO]} ∪ {[fd]} in
  shut_unless (c_read config) (ShutdownRead fd);;
  let rs := if c_read config then rs else rs ∖ {[STDIN_FILENO]} in
  shut_unless (c_write config) (ShutdownWrite fd);;
  select_loop fuel rfuel fd (mkSelectState rs ∅ false (negb (c_write config)) []);;
  SetBlocking STDIN_FILENO.

(** ** The program *)

(** [std::cin >> s] leaves [s] empty at the end of the input. *)
Fixpoint TypeEToExit (fuel : nat) : M Tcp unit :=
  match fuel with
  | O => lift OutOfFuel
  | S fuel =>
    print (str "type 'e' to exit");;
    s ← get;
    match twords s with
    | [] => TypeEToExit fuel
    | x :: l =>
      put (mkTcp (tkern s) (tout s) l (typed s));;
      if bool_decide (x = str "e") then mret tt else TypeEToExit fuel
    end
  end.

Definition Run (Process : Z → Config → M Tcp unit) (fuel : nat) (config : Config) : M Tcp unit :=
  fd ← Socket;
  SetSocketReceiveBufferSize fd 1152;;
  SetSocketSendBufferSize fd 2304;;
  when (c_bind config) (Bind fd (srcAddr config) (srcPort config));;
  when (c_listen config) (Listen fd LISTEN_BACKLOG);;
  when (c_accept config) (connFd ← Accept fd; Process connFd config);;
  when (c_connect config) (Connect fd (dstAddr config) (dstPort config);; Process fd config);;
  TypeEToExit fuel.

(** The text of an exception is printed; it is not kept here. *)
Definition main (Process : Z → Config → M Tcp unit) (fuel : nat) (args : list bytes) : M Tcp unit :=
  try_catch (
    config ← lift (Config_set args Config_Config);
    match config with
    | None => mret tt
    | Some config => Signal SIGPIPE SIG_IGN;; Run Process fuel config
    end) (mret tt).
End tcp.

(** ** What is sent *)

(** Of the texts typed, the ones to be sent: no command, and nothing once writing is shut
    down. *)
Definition typed_as (r : bytes) (c : string) : bool := bool_decide (r = LINE c).

Definition is_shut (r : bytes) : bool := typed_as r "shutdown write" || typed_as r "shutdown both".

Definition is_command (r : bytes) : bool :=
  typed_as r "exit" || typed_as r "shutdown read" || is_shut r || typed_as r "unwritten length".

Fixpoint accepted (shut : bool) (texts : list bytes) : bytes :=
  match texts with
  | [] => []
  | r :: l => (if shut || is_command r then [] else r) ++ accepted (shut || is_shut r) l
  end.

Definition shut_after (shut : bool) (texts : list bytes) : bool := shut || existsb is_shut texts.

Lemma accepted_app shut l1 l2 :
  accepted shut (l1 ++ l2) = accepted shut l1 ++ accepted (shut_after shut l1) l2.
Proof.
  revert shut. unfold shut_after. induction l1 as [|r l1 IH]; intros shut; simpl; [by rewrite orb_false_r|].
  by rewrite IH, app_assoc, orb_assoc.
Qed.

Lemma shut_after_app shut l1 l2 : shut_after shut (l1 ++ l2) = shut_after (shut_after shut l1) l2.
Proof. unfold shut_after. by rewrite existsb_app, orb_assoc. Qed.

(** The vector is one byte longer than the most that is read: its terminator is there. *)
Lemma c_str_filled n bs : length bs < n → is_Some (c_str (filled n bs)).
Proof.
  intros Hl. unfold filled. destruct (n - length bs) as [|m] eqn:E; [lia|]. clear Hl E.
  induction bs as [|b bs IH]; simpl; [by eauto|]. case_match; [by eauto|]. destruct IH as [t Ht]. simpl in Ht.
  rewrite Ht. eauto.
Qed.

Lemma read_all_defined `{!Kernel K, !KernelLaws K} rfuel d t k k' :
  read_all READ_BUF_SIZE (S READ_BUF_SIZE) rfuel d t k ≠ (Undef, k').
Proof.
  revert t k. induction rfuel as [|n IH]; intros t k; [done|]. cbn [read_all].
  unfold mbind, M_bind, syscall. destruct (sys_read d READ_BUF_SIZE k) as [[e|[|b bs]] k1] eqn:E; try done.
  - by destruct (e =? EAGAIN)%Z.
  - apply read_len in E. destruct (c_str_filled (S READ_BUF_SIZE) (b :: bs)) as [t' Ht']; [lia|].
    rewrite Ht'. apply IH.
Qed.

Section relay.
  Context {K : Type} `{!Kernel K, !KernelLaws K, !StreamKernel K, !StreamLaws K}.
  Context (fd : Z).

(** From [s] with [w] unwritten to [s'] with [w']: the texts typed meanwhile were sent, in order,
    after what was unwritten, up to what still is. *)
Definition relayed (shut : bool) (w : bytes) (s : Tcp (K:=K)) (shut' : bool) (w' : bytes) (s' : Tcp) : Prop :=
  ∃ l, typed s' = typed s ++ l ∧ shut' = shut_after shut l ∧
    sent fd (tkern s') ++ w' = sent fd (tkern s) ++ w ++ accepted shut l.

Lemma relayed_trans sh0 w0 s0 sh1 w1 s1 sh2 w2 s2 :
  relayed sh0 w0 s0 sh1 w1 s1 → relayed sh1 w1 s1 sh2 w2 s2 → relayed sh0 w0 s0 sh2 w2 s2.
Proof.
  intros (l1 & T1 & S1 & E1) (l2 & T2 & S2 & E2). exists (l1 ++ l2). subst sh1 sh2.
  split; [by rewrite T2, T1, app_assoc|]. split; [by rewrite shut_after_app|].
  by rewrite E2, accepted_app, (app_assoc (sent fd (tkern s1))), E1, <- !app_assoc.
Qed.

Lemma relayed_same sh w s s' :
  typed s' = typed s → sent fd (tkern s') = sent fd (tkern s) → relayed sh w s sh w s'.
Proof.
  intros Ht Hs. exists []. split; [by rewrite app_nil_r|]. split; [symmetry; apply orb_false_r|].
  cbn [accepted]. by rewrite Hs, app_nil_r.
Qed.

(** A program that relays: [f] gives, for a result, whether writing is shut and what is
    unwritten; it does so on every outcome, and never runs into undefined behaviour. *)
Definition relays {A} (sh : bool) (w : bytes) (m : M (Tcp (K:=K)) A) (f : A → bool * bytes) : Prop :=
  ∀ s r s', m s = (r, s') → r ≠ Undef ∧
    match r with
    | Ok a => relayed sh w s (f a).1 (f a).2 s'
    | _ => ∃ sh' w', relayed sh w s sh' w' s'
    end.

Lemma relays_bind {A B} sh w (m : M Tcp A) f (g : A → M Tcp B) h :
  relays sh w m f → (∀ a, relays (f a).1 (f a).2 (g a) h) → relays sh w (mbind g m) h.
Proof.
  intros Hm Hg s r s' Hr. unfold mbind, M_bind in Hr. destruct (m s) as [[a|e| |] s1] eqn:E;
    pose proof (Hm _ _ _ E) as [Hu H1]; try (injection Hr as <- <-; done).
  pose proof (Hg a _ _ _ Hr) as [Hu2 H2]. split; [done|].
  destruct r; [by eapply relayed_trans| | |];
    destruct H2 as (sh' & w' & H2); exists sh', w'; by eapply relayed_trans.
Qed.

Lemma relays_ret {A} (a : A) f : relays (f a).1 (f a).2 (mret a) f.
Proof. intros s r s' [= <- <-]. split; [done|]. by apply relayed_same. Qed.

(** Statements that neither send nor take what is typed. *)
Definition silent {A} (m : M (Tcp (K:=K)) A) : Prop :=
  ∀ s r s', m s = (r, s') → r ≠ Undef ∧ typed s' = typed s ∧ sent fd (tkern s') = sent fd (tkern s).

Lemma silent_relays {A} sh w (m : M Tcp A) : silent m → relays sh w m (λ _, (sh, w)).
Proof.
  intros Hm s r s' Hr. destruct (Hm _ _ _ Hr) as (Hu & Ht & Hs). split; [done|].
  destruct r; [|exists sh, w..]; by apply relayed_same.
Qed.

Lemma silent_bind {A B} (m : M Tcp A) (g : A → M Tcp B) : silent m → (∀ a, silent (g a)) → silent (mbind g m).
Proof.
  intros Hm Hg s r s' Hr. unfold mbind, M_bind in Hr. destruct (m s) as [[a|e| |] s1] eqn:E;
    pose proof (Hm _ _ _ E) as (Hu & Ht & Hs); try (injection Hr as <- <-; done).
  pose proof (Hg a _ _ _ Hr) as (Hu2 & Ht2 & Hs2). split_and!; [done|congruence|congruence].
Qed.

Lemma silent_ret {A} (a : A) : silent (mret a).
Proof. by intros s r s' [= <- <-]. Qed.

Lemma silent_when b m : silent m → silent (when b m).
Proof. destruct b; [done|]. intros _. apply silent_ret. Qed.

Lemma silent_print t : silent (print t).
Proof. by intros s r s' [= <- <-]. Qed.

Lemma silent_checked {A} (f : K → outcome A * K) :
  (∀ k o k', f k = (o, k') → sent fd k' = sent fd k) → silent (checked f).
Proof.
  intros Hf s r s'. unfold checked, call, zoom, syscall, mbind, M_bind.
  destruct (f (tkern s)) as [o k'] eqn:E. apply Hf in E. simpl.
  destruct o; intros [= <- <-]; simpl; done.
Qed.

Lemma silent_fcntl a b c : silent (Fcntl a b c).
Proof. apply silent_checked. intros k o k' E. by eapply fcntl_sent. Qed.

Lemma silent_shutdown a b : silent (Shutdown a b).
Proof. apply silent_checked. intros k o k' E. by eapply shutdown_sent. Qed.

Lemma silent_read rfuel d : silent (Read rfuel d).
Proof.
  intros s r s'. unfold Read, zoom. destruct (read_all _ _ _ _ _ _) as [r1 k'] eqn:E.
  intros [= <- <-]. simpl. pose proof (read_all_frame _ _ _ _ _ _ _ _ E) as (_ & _ & Hs).
  split; [|done]. intros ->. by apply read_all_defined in E.
Qed.

Lemma silent_print_shutdown t a b : silent (print t;; Shutdown a b).
Proof. apply silent_bind; [apply silent_print|intros _; apply silent_shutdown]. Qed.

(** A program [m] that is silent and returns a known value. *)
Definition returns {A} (m : M (Tcp (K:=K)) A) (a : A) : Prop := silent m ∧ ∀ s r s', m s = (Ok r, s') → r = a.

Lemma returns_after {A B} (m : M Tcp A) (b : B) : silent m → returns (m ≫= λ _, mret b) b.
Proof.
  intros Hm. split; [apply silent_bind; [done|intros _; apply silent_ret]|].
  intros s r s' Hr. apply bind_inv_ok in Hr as (a & s1 & _ & [= <- _]). done.
Qed.

Lemma returns_ret {A} (a : A) : returns (mret a) a.
Proof. split; [apply silent_ret|]. by intros s r s' [= <- _]. Qed.

Definition next_texts (r : bytes) (sh : bool) (w : bytes) : bool * bytes :=
  (sh || is_shut r, w ++ if sh || is_command r then [] else r).

Lemma command_returns r sh w :
  ∃ o, returns (command fd r sh w) o ∧ default (sh, w) o = next_texts r sh w.
Proof.
  unfold command, next_texts.
  destruct (bool_decide (r = LINE "exit")) eqn:E1.
  { apply bool_decide_eq_true in E1 as ->. exists None. split; [apply returns_ret|].
    change (is_shut (LINE "exit")) with false. change (is_command (LINE "exit")) with true.
    by rewrite orb_true_r, orb_false_r, app_nil_r. }
  destruct (bool_decide (r = LINE "shutdown read")) eqn:E2.
  { apply bool_decide_eq_true in E2 as ->. eexists. split; [apply returns_after, silent_print_shutdown|].
    change (is_shut (LINE "shutdown read")) with false. change (is_command (LINE "shutdown read")) with true.
    by rewrite orb_true_r, orb_false_r, app_nil_r. }
  destruct (bool_decide (r = LINE "shutdown write")) eqn:E3.
  { apply bool_decide_eq_true in E3 as ->. eexists. split; [apply returns_after, silent_print_shutdown|].
    change (is_shut (LINE "shutdown write")) with true. change (is_command (LINE "shutdown write")) with true.
    by rewrite orb_true_r, app_nil_r. }
  destruct (bool_decide (r = LINE "shutdown both")) eqn:E4.
  { apply bool_decide_eq_true in E4 as ->. eexists. split; [apply returns_after, silent_print_shutdown|].
    change (is_shut (LINE "shutdown both")) with true. change (is_command (LINE "shutdown both")) with true.
    by rewrite orb_true_r, app_nil_r. }
  assert (Hs : is_shut r = false) by (unfold is_shut, typed_as; by rewrite E3, E4).
  destruct (bool_decide (r = LINE "unwritten length")) eqn:E5.
  { apply bool_decide_eq_true in E5 as ->. eexists. split; [apply returns_after, silent_print|].
    rewrite Hs. change (is_command (LINE "unwritten length")) with true.
    by rewrite orb_true_r, orb_false_r, app_nil_r. }
  assert (Hc : is_command r = false) by (unfold is_command, typed_as; by rewrite E1, E2, Hs, E5).
  rewrite Hs, Hc. destruct sh; eexists;
    (split; [apply returns_after, silent_print || apply returns_ret|]); simpl; by rewrite ?app_nil_r.
Qed.

Lemma relays_typed rfuel ready sh w :
  relays sh w (typed_input rfuel fd ready sh w) (default (sh, w)).
Proof.
  destruct ready; [|by apply (relays_ret (Some (sh, w)))].
  intros s r s' Hr. unfold typed_input, Read_stdin in Hr.
  unfold mbind at 1, M_bind at 1 in Hr. unfold mbind at 1, M_bind at 1 in Hr.
  destruct (Read rfuel STDIN_FILENO s) as [[[t b]|e| |] s1] eqn:E;
    apply silent_read in E as (Hu & Ht & Hs);
    try (injection Hr as <- <-; split; [done|]; exists sh, w; by apply relayed_same).
  unfold mbind at 1, M_bind at 1, modify in Hr. simpl in Hr.
  destruct (command_returns t sh w) as (o & [Hsil Hret] & Ho).
  destruct (Hsil _ _ _ Hr) as (Hu1 & Ht1 & Hs1). split; [done|]. simpl in Ht1, Hs1.
  assert (Hrel : relayed sh w s (next_texts t sh w).1 (next_texts t sh w).2 s').
  { exists [t]. rewrite Ht1, Ht. split; [done|]. unfold shut_after, next_texts. simpl.
    rewrite orb_false_r, Hs1, Hs, app_nil_r. done. }
  destruct r as [o'|e| |]; [|eauto..]. pose proof (Hret _ _ _ Hr) as ->. by rewrite Ho.
Qed.

Lemma relays_write ready sh w : relays sh w (write_if ready fd w) (λ w', (sh, w')).
Proof.
  destruct ready; [|by apply (relays_ret w)]. intros s r s' Hr. unfold write_if, Write in Hr.
  case_bool_decide; [subst; injection Hr as <- <-; split; [done|by apply relayed_same]|].
  unfold zoom in Hr. destruct (write_all_spec fd w (S (length w)) (tkern s)) as (r1 & k' & E & _ & _ & Hsp); [lia|].
  rewrite E in Hr. injection Hr as <- <-.
  assert (Hrel : ∀ d rest, w = d ++ rest → sent fd k' = sent fd (tkern s) ++ d →
    relayed sh w s sh rest (set_tkern k' s)).
  { intros d rest Hd Hk. exists []. split; [by rewrite app_nil_r|]. split; [symmetry; apply orb_false_r|].
    simpl. by rewrite Hk, Hd, app_nil_r, <- app_assoc. }
  destruct r1 as [rest|e| |]; [|..|done|done]; split; try done.
  - destruct Hsp as (d & Hd & Hk). by eapply Hrel.
  - destruct Hsp as (_ & d & rest & Hd & Hk). exists sh, rest. by eapply Hrel.
Qed.

Lemma silent_show rfuel : silent (show_input rfuel fd).
Proof.
  unfold show_input. apply silent_bind; [apply silent_read|intros r].
  apply silent_bind; [apply silent_when, silent_print|intros _].
  apply silent_bind; [apply silent_when, silent_print|intros _]. apply silent_ret.
Qed.

Lemma silent_poll l t : silent (Poll l t).
Proof. apply silent_checked. intros k o k' E. by eapply poll_sent. Qed.

Lemma silent_select n rs ws : silent (Select n rs ws).
Proof. apply silent_checked. intros k o k' E. by eapply select_sent. Qed.

Lemma silent_poll_input rfuel rv ev : silent (poll_input rfuel fd rv ev).
Proof.
  unfold poll_input. destruct (has_flag _ _); [|apply silent_ret].
  apply silent_bind; [apply silent_show|intros b; apply silent_ret].
Qed.

Lemma silent_select_input rfuel b c : silent (select_input rfuel fd b c).
Proof. destruct b; [apply silent_show|apply silent_ret]. Qed.

Lemma silent_nonblocking d : silent (SetNonBlocking d).
Proof.
  apply silent_bind; [apply silent_fcntl|intros v].
  apply silent_bind; [apply silent_fcntl|intros _; apply silent_ret].
Qed.

Lemma silent_blocking d : silent (SetBlocking d).
Proof.
  apply silent_bind; [apply silent_fcntl|intros v].
  apply silent_bind; [apply silent_fcntl|intros _; apply silent_ret].
Qed.

Lemma silent_shut b (m : M (Tcp (K:=K)) unit) : silent m → silent (shut_unless b m).
Proof. destruct b; [intros _; apply silent_ret|done]. Qed.

(** The result of a turn as [relays] sees it; when the loop is left the last texts keep their
    place. *)
Lemma relays_poll_turn rfuel st :
  relays (p_writeShutdown st) (p_w st) (poll_turn rfuel fd st)
    (λ o, match o with Some st' => (p_writeShutdown st', p_w st')
          | None => (p_writeShutdown st, p_w st) end).
Proof.
  unfold poll_turn. eapply relays_bind; [apply silent_relays, silent_poll|intros rv; simpl].
  eapply relays_bind; [apply silent_relays, silent_poll_input|intros ev; simpl].
  eapply relays_bind; [apply relays_typed|intros [[sh w]|]]; simpl.
  - eapply relays_bind; [apply relays_write|intros w']. simpl.
    apply (relays_ret (Some (mkPollState _ sh w'))).
  - apply (relays_ret (A:=option PollState) None).
Qed.

Lemma relays_select_turn rfuel st :
  relays (s_writeShutdown st) (s_w st) (select_turn rfuel fd st)
    (λ o, match o with Some st' => (s_writeShutdown st', s_w st')
          | None => (s_writeShutdown st, s_w st) end).
Proof.
  unfold select_turn. eapply relays_bind; [apply silent_relays, silent_select|intros rv; simpl].
  eapply relays_bind; [apply silent_relays, silent_select_input|intros b; simpl].
  eapply relays_bind; [apply relays_typed|intros [[sh w]|]]; simpl.
  - eapply relays_bind; [apply relays_write|intros w']. simpl.
    apply (relays_ret (Some (mkSelectState _ _ b sh w'))).
  - apply (relays_ret (A:=option SelectState) None).
Qed.

(** A program that relays, however it ends. *)
Definition relays_all {A} (sh : bool) (w : bytes) (m : M (Tcp (K:=K)) A) : Prop :=
  ∀ s r s', m s = (r, s') → r ≠ Undef ∧ ∃ sh' w', relayed sh w s sh' w' s'.

Lemma relays_all_bind {A B} sh w (m : M Tcp A) f (g : A → M Tcp B) :
  relays sh w m f → (∀ a, relays_all (f a).1 (f a).2 (g a)) → relays_all sh w (mbind g m).
Proof.
  intros Hm Hg s r s' Hr. unfold mbind, M_bind in Hr. destruct (m s) as [[a|e| |] s1] eqn:E;
    pose proof (Hm _ _ _ E) as [Hu H1]; try (injection Hr as <- <-; done).
  destruct (Hg a _ _ _ Hr) as (Hu2 & sh' & w' & H2). split; [done|]. exists sh', w'.
  by eapply relayed_trans.
Qed.

Lemma relays_all_silent {A} sh w (m : M Tcp A) : silent m → relays_all sh w m.
Proof.
  intros Hm s r s' Hr. destruct (Hm _ _ _ Hr) as (Hu & Ht & Hs). split; [done|].
  exists sh, w. by apply relayed_same.
Qed.

Lemma relays_all_then {A B} sh w (m : M Tcp A) (g : M Tcp B) :
  relays_all sh w m → silent g → relays_all sh w (m;; g).
Proof.
  intros Hm Hg s r s' Hr. unfold mbind, M_bind in Hr. destruct (m s) as [[a|e| |] s1] eqn:E;
    destruct (Hm _ _ _ E) as (Hu & sh' & w' & H1); try (injection Hr as <- <-; eauto; done).
  destruct (Hg _ _ _ Hr) as (Hu2 & Ht & Hs). split; [done|]. exists sh', w'.
  eapply relayed_trans; [exact H1|by apply relayed_same].
Qed.

Lemma silent_throw_fuel {A} : silent (lift (A := A) OutOfFuel).
Proof. by intros s r s' [= <- <-]. Qed.

Lemma relays_poll_loop fuel rfuel st :
  relays_all (p_writeShutdown st) (p_w st) (poll_loop fuel rfuel fd st).
Proof.
  revert st. induction fuel as [|n IH]; intros st; cbn [poll_loop].
  - apply relays_all_silent, silent_throw_fuel.
  - eapply relays_all_bind; [apply relays_poll_turn|intros [st'|]; simpl; [apply IH|]].
    apply relays_all_silent, silent_ret.
Qed.

Lemma relays_select_loop fuel rfuel st :
  relays_all (s_writeShutdown st) (s_w st) (select_loop fuel rfuel fd st).
Proof.
  revert st. induction fuel as [|n IH]; intros st; cbn [select_loop].
  - apply relays_all_silent, silent_throw_fuel.
  - eapply relays_all_bind; [apply relays_select_turn|intros [st'|]; simpl; [apply IH|]].
    apply relays_all_silent, silent_ret.
Qed.

Lemma relays_all_start {A B} sh w (m : M Tcp A) (g : A → M Tcp B) :
  silent m → (∀ a, relays_all sh w (g a)) → relays_all sh w (mbind g m).
Proof. intros Hm Hg. eapply relays_all_bind; [by apply silent_relays|exact Hg]. Qed.

(** C25: the [poll] version, for any number of turns and however it ends: what it has sent and
    what is still unwritten are the texts typed, in order, without the commands and without
    what was typed after writing was shut down; nothing it does is undefined. *)
Theorem Process_poll_relays fuel rfuel config s r s' :
  Process_poll fuel rfuel fd config s = (r, s') →
  r ≠ Undef ∧ ∃ l w, typed s' = typed s ++ l ∧
    sent fd (tkern s') ++ w = sent fd (tkern s) ++ accepted (negb (c_write config)) l.
Proof.
  intros Hr. assert (H : relays_all (negb (c_write config)) [] (Process_poll fuel rfuel fd config)).
  { unfold Process_poll. apply relays_all_start; [apply silent_nonblocking|intros _].
    apply relays_all_start; [apply silent_nonblocking|intros _].
    apply relays_all_start; [apply silent_shut, silent_print_shutdown|intros _].
    apply relays_all_start; [apply silent_shut, silent_print_shutdown|intros _].
    apply relays_all_then; [|apply silent_blocking]. apply (relays_poll_loop fuel rfuel (mkPollState _ _ _)). }
  destruct (H _ _ _ Hr) as (Hu & sh' & w & l & Ht & _ & Hs). eauto.
Qed.

(** The [select] version relays the same texts. *)
Theorem Process_select_relays fuel rfuel config s r s' :
  Process_select fuel rfuel fd config s = (r, s') →
  r ≠ Undef ∧ ∃ l w, typed s' = typed s ++ l ∧
    sent fd (tkern s') ++ w = sent fd (tkern s) ++ accepted (negb (c_write config)) l.
Proof.
  intros Hr. assert (H : relays_all (negb (c_write config)) [] (Process_select fuel rfuel fd config)).
  { unfold Process_select. apply relays_all_start; [apply silent_nonblocking|intros _].
    apply relays_all_start; [apply silent_nonblocking|intros _].
    apply relays_all_start; [apply silent_shut, silent_print_shutdown|intros _].
    apply relays_all_start; [apply silent_shut, silent_print_shutdown|intros _].
    apply relays_all_then; [|apply silent_blocking]. apply (relays_select_loop fuel rfuel (mkSelectState _ _ _ _ _)). }
  destruct (H _ _ _ Hr) as (Hu & sh' & w & l & Ht & _ & Hs). eauto.
Qed.

(** [Listen] never reports a failure of [listen]. *)
Theorem Listen_never_throws lfd backlog (s : Tcp (K:=K)) : (Listen lfd backlog s).1 = Ok tt.
Proof.
  unfold Listen, call, zoom, syscall, mbind, M_bind.
  by destruct (sys_listen lfd backlog (tkern s)) as [[e|[]] k'].
Qed.
End relay.

(** ** Options, printed *)

(** An option of the command line; only the first two bytes of its name count, so that any
    text may follow them. *)
Inductive opt :=
  | OListen | OAccept | ORead | OWrite
  | OBind (addr : bytes) (port : Z)
  | OConnect (addr : bytes) (port : Z).

Definition opt_name (o : opt) : bytes :=
  match o with
  | OListen => str "-l" | OAccept => str "-a" | ORead => str "-r" | OWrite => str "-w"
  | OBind _ _ => str "-b" | OConnect _ _ => str "-c"
  end.

Definition opt_args (x : opt * bytes) : list bytes :=
  (opt_name x.1 ++ x.2) ::
  match x.1 with
  | OBind a p | OConnect a p => [a; to_string p]
  | _ => []
  end.

Definition apply_opt (c : Config) (x : opt * bytes) : Config :=
  match x.1 with
  | OListen => set_listen c | OAccept => set_accept c | ORead => set_read c | OWrite => set_write c
  | OBind a p => set_bind a p c | OConnect a p => set_connect a p c
  end.

Definition port_ok (o : opt) : bool :=
  match o with OBind _ p | OConnect _ p => in_i32 p | _ => true end.

Lemma set_loop_opt x rest c :
  port_ok x.1 = true → set_loop (opt_args x ++ rest) c = set_loop rest (apply_opt c x).
Proof.
  destruct x as [[| | | |a p|a p] suffix]; intros Hp; simpl in Hp; try reflexivity.
  all: cbn -[stoi to_string]; by rewrite stoi_to_string.
Qed.

(** The options given, each by a name whose first two bytes are the option's, are read back;
    accepting and connecting at once is refused. *)
Theorem Config_set_options l c :
  Forall (λ x, port_ok x.1 = true) l →
  Config_set (concat (opt_args <$> l)) c =
    let c' := foldl apply_opt c l in
    if c_accept c' && c_connect c' then Throw RuntimeError else Ok (Some c').
Proof.
  intros Hl. unfold Config_set. assert (E : set_loop (concat (opt_args <$> l)) c = Ok (Some (foldl apply_opt c l))).
  { revert c. induction Hl as [|x l Hx Hl IH]; intros c; [done|].
    rewrite fmap_cons. cbn [concat foldl]. by rewrite set_loop_opt. }
  by rewrite E.
Qed.

Lemma TypeEToExit_step {K} `{!Kernel K} n (k : K) o l t :
  let o' := o ++ [str "type 'e' to exit"] in
  TypeEToExit (S n) (mkTcp k o l t) =
    match l with
    | [] => TypeEToExit n (mkTcp k o' [] t)
    | x :: l => if bool_decide (x = str "e") then (Ok tt, mkTcp k o' l t)
                else TypeEToExit n (mkTcp k o' l t)
    end.
Proof.
  destruct l as [|x l]; [done|]. cbn [TypeEToExit]. unfold mbind, M_bind, print, modify, get, put.
  cbn [twords tkern tout typed]. by case_bool_decide.
Qed.

(** The program waits at the end until [e] is typed; without it, as at the end of the
    input, it asks for ever. *)
Theorem TypeEToExit_needs_e {K} `{!Kernel K} (s : Tcp (K:=K)) :
  str "e" ∈ twords s ↔ ∃ fuel, (TypeEToExit fuel s).1 = Ok tt.
Proof.
  destruct s as [k o l t]. cbn [twords]. split.
  - intros Hin. exists (length l). revert o. induction l as [|x l IH]; intros o; [by apply elem_of_nil in Hin|].
    cbn [length]. rewrite TypeEToExit_step. case_bool_decide as Hx; [done|].
    apply elem_of_cons in Hin as [Hin|Hin]; [done|]. by apply IH.
  - intros [fuel Hf]. revert o l Hf. induction fuel as [|n IH]; intros o l; [done|].
    rewrite TypeEToExit_step. destruct l as [|x l]; [by intros ?%IH|].
    case_bool_decide as Hx; [subst; intros _; apply list_elem_of_here|].
    intros Hf. apply list_elem_of_further. by apply IH in Hf.
Qed.

(** ** Witnesses *)

(** Descriptor 5 is the connection; three texts are typed, the last leaves the loop. *)
Definition typing : Tcp (K := ref_kernel) :=
  mkTcp (mkRef {[0; 3; 5]}%Z ∅ {[0%Z := [str "hello"]]} {[5%Z := 3]} ∅ []
    [[(0, POLLIN)]; [(5, POLLOUT)]]%Z) [] [] [].

Definition ask_write : Config := set_write (set_read Config_Config).

Lemma Process_poll_relays_witness :
  let s' := (Process_poll 2 5 5 ask_write typing).2 in
  typed s' = [str "hello"] ∧ sent 5 (tkern s') = str "hel" ∧
  ∃ l w, typed s' = typed typing ++ l ∧
    sent 5 (tkern s') ++ w = sent 5 (tkern typing) ++ accepted false l.
Proof.
  intros s'. split; [vm_compute; reflexivity|]. split; [vm_compute; reflexivity|].
  destruct (Process_poll_relays 5 2 5 ask_write typing _ s' (surjective_pairing _)) as [_ H]. exact H.
Defined.

Lemma Process_select_relays_witness :
  let s' := (Process_select 2 5 5 ask_write typing).2 in
  typed s' = [str "hello"] ∧ sent 5 (tkern s') = str "hel" ∧
  ∃ l w, typed s' = typed typing ++ l ∧
    sent 5 (tkern s') ++ w = sent 5 (tkern typing) ++ accepted false l.
Proof.
  intros s'. split; [vm_compute; reflexivity|]. split; [vm_compute; reflexivity|].
  destruct (Process_select_relays 5 2 5 ask_write typing _ s' (surjective_pairing _)) as [_ H]. exact H.
Defined.

Lemma Config_set_options_witness :
  Config_set [str "-listen"; str "-b"; str "127.0.0.1"; str "8080"] Config_Config =
    Ok (Some (set_bind (str "127.0.0.1") 8080 (set_listen Config_Config))).
Proof.
  apply (Config_set_options [(OListen, str "isten"); (OBind (str "127.0.0.1") 8080, [])]).
  repeat constructor.
Defined.
