(* ===== verification/GrpcConfig.v ===== *)
(** * The configuration of the gRPC programs (learn_grpc/hello_world/src/lib/config)

    [AbstractConfig] of abstract_config.h and abstract_config.cpp reads a file of lines
    [name=value]; its virtual functions are the class [AbstractConfig] here, which
    [ClientConfig] of client_config.h and [ServerConfig] of server_config.h implement.
    The parsers are those of lib/utils and lib/logger. *)

From S2P Require Import Prelude CppString HttpConfig.

(** ** Parsers *)

Inductive LogLevel := LOG_DEBUG | LOG_INFO | LOG_WARN | LOG_ERROR.

#[global] Instance LogLevel_eq_dec : EqDecision LogLevel.
Proof. solve_decision. Defined.

Definition ParseLogLevel (logLevel : bytes) : LogLevel :=
  if bool_decide (logLevel = str "DEBUG") then LOG_DEBUG
  else if bool_decide (logLevel = str "INFO") then LOG_INFO
  else if bool_decide (logLevel = str "WARN") then LOG_WARN
  else if bool_decide (logLevel = str "ERROR") then LOG_ERROR
  else LOG_INFO.

Definition StringToBool (s : bytes) : bool := bool_decide (s = str "true").

(** ** AbstractConfig *)

(** The virtual functions. *)
Class AbstractConfig (C : Type) := {
  initConfig : M C unit;
  setConfig : bytes → bytes → M C unit
}.

(** [DEFINE_CONFIG_ITEM]: the two functions of an item, with its name, parser and member. *)
Definition init_item {C A} (parser : bytes → result A) (default : bytes) (upd : A → C → C) : M C unit :=
  a ← lift (parser default); modify (upd a).

Definition set_item {C A} (item : bytes) (parser : bytes → result A) (upd : A → C → C) (k v : bytes)
    : M C bool :=
  if negb (bool_decide (k = item)) then mret false
  else a ← lift (parser v); modify (upd a);; mret true.

Definition COMMENT_PREFIX : ascii := "#".

(** [boost::split] with no compression of tokens. *)
Fixpoint split (c : ascii) (cur s : bytes) : list bytes :=
  match s with
  | [] => [cur]
  | d :: s => if Ascii.eqb d c then cur :: split c [] s else split c (cur ++ [d]) s
  end.

(** What [std::getline] yields until it fails: nothing after the last line feed. *)
Fixpoint lines (cur text : bytes) : list bytes :=
  match text with
  | [] => if bool_decide (cur = []) then [] else [cur]
  | c :: text => if Ascii.eqb c NEWLINE then cur :: lines [] text else lines (cur ++ [c]) text
  end.

Section abstract.
  Context {C : Type} `{!AbstractConfig C}.

Definition load_line (line : bytes) : M C unit :=
  let line := Trim line in
  match line with
  | [] => mret tt
  | c :: _ =>
    if Ascii.eqb c COMMENT_PREFIX then mret tt
    else
      match split "=" [] line with
      | [k; v] => setConfig (Trim k) (Trim v)
      | _ => mret tt
      end
  end.

(** [None]: the file cannot be opened. *)
Definition loadConfigFile (file : option bytes) : M C unit :=
  match file with
  | None => mret tt
  | Some text => try_catch (for_each load_line (lines [] text)) (mret tt)
  end.

Definition AbstractConfig_init (file : option bytes) : M C unit := initConfig;; loadConfigFile file.

End abstract.

(** ** ClientConfig and ServerConfig *)

(** [SetLogLevel] of lib/logger: the level the process logs at; it is the second part
    of the state below. *)
Definition SetLogLevel {C} (level : LogLevel) : M (C * LogLevel) unit := modify (λ s, (s.1, level)).

(** The parsers that cannot fail. *)
Definition total {A} (parser : bytes → A) (s : bytes) : result A := Ok (parser s).

Record ClientConfig := mkClientConfig {
  cl_log_level : LogLevel;
  cl_host : bytes;
  cl_port : Z;
  cl_async : bool;
  cl_request_count : Z;
  cl_threadpool_size : Z;
  cl_polling_interval : Z
}.

Definition cl_set_log_level x c := mkClientConfig x (cl_host c) (cl_port c) (cl_async c) (cl_request_count c) (cl_threadpool_size c) (cl_polling_interval c).
Definition cl_set_host x c := mkClientConfig (cl_log_level c) x (cl_port c) (cl_async c) (cl_request_count c) (cl_threadpool_size c) (cl_polling_interval c).
Definition cl_set_port x c := mkClientConfig (cl_log_level c) (cl_host c) x (cl_async c) (cl_request_count c) (cl_threadpool_size c) (cl_polling_interval c).
Definition cl_set_async x c := mkClientConfig (cl_log_level c) (cl_host c) (cl_port c) x (cl_request_count c) (cl_threadpool_size c) (cl_polling_interval c).
Definition cl_set_request_count x c := mkClientConfig (cl_log_level c) (cl_host c) (cl_port c) (cl_async c) x (cl_threadpool_size c) (cl_polling_interval c).
Definition cl_set_threadpool_size x c := mkClientConfig (cl_log_level c) (cl_host c) (cl_port c) (cl_async c) (cl_request_count c) x (cl_polling_interval c).
Definition cl_set_polling_interval x c := mkClientConfig (cl_log_level c) (cl_host c) (cl_port c) (cl_async c) (cl_request_count c) (cl_threadpool_size c) x.

Record ServerConfig := mkServerConfig {
  sv_log_level : LogLevel;
  sv_port : Z;
  sv_async : bool;
  sv_threadpool_size : Z;
  sv_polling_interval : Z
}.

Definition sv_set_log_level x c := mkServerConfig x (sv_port c) (sv_async c) (sv_threadpool_size c) (sv_polling_interval c).
Definition sv_set_port x c := mkServerConfig (sv_log_level c) x (sv_async c) (sv_threadpool_size c) (sv_polling_interval c).
Definition sv_set_async x c := mkServerConfig (sv_log_level c) (sv_port c) x (sv_threadpool_size c) (sv_polling_interval c).
Definition sv_set_threadpool_size x c := mkServerConfig (sv_log_level c) (sv_port c) (sv_async c) x (sv_polling_interval c).
Definition sv_set_polling_interval x c := mkServerConfig (sv_log_level c) (sv_port c) (sv_async c) (sv_threadpool_size c) x.

(** A setter of the configuration, on the whole state. *)
Definition on_config {A C} (upd : A → C → C) (x : A) (s : C * LogLevel) : C * LogLevel := (upd x s.1, s.2).

Definition LOG_LEVEL : bytes := str "log.level".
Definition GRPC_SERVER_HOST : bytes := str "grpc.server.host".
Definition GRPC_SERVER_PORT : bytes := str "grpc.server.port".
Definition GRPC_CLIENT_ASYNC : bytes := str "grpc.client.async".
Definition GRPC_CLIENT_ASYNC_REQUEST_COUNT : bytes := str "grpc.client.async.request.count".
Definition GRPC_CLIENT_ASYNC_THREADPOOL_SIZE : bytes := str "grpc.client.async.threadpool.size".
Definition GRPC_CLIENT_ASYNC_POLLING_INTERVAL_MILLISECONDS : bytes :=
  str "grpc.client.async.polling.interval.milliseconds".
Definition GRPC_SERVER_ASYNC : bytes := str "grpc.server.async".
Definition GRPC_SERVER_ASYNC_THREADPOOL_SIZE : bytes := str "grpc.server.async.threadpool.size".
Definition GRPC_SERVER_ASYNC_POLLING_INTERVAL_MILLISECONDS : bytes :=
  str "grpc.server.async.polling.interval.milliseconds".

Definition ClientConfig_initConfig : M (ClientConfig * LogLevel) unit :=
  init_item (total ParseLogLevel) (str "INFO") (on_config cl_set_log_level);;
  init_item Ok (str "localhost") (on_config cl_set_host);;
  init_item stoi (str "50051") (on_config cl_set_port);;
  init_item (total StringToBool) (str "false") (on_config cl_set_async);;
  init_item stoi (str "3") (on_config cl_set_request_count);;
  init_item stoi (str "8") (on_config cl_set_threadpool_size);;
  init_item stoi (str "500") (on_config cl_set_polling_interval).

Definition ClientConfig_setConfig (name value : bytes) : M (ClientConfig * LogLevel) unit :=
  b ← set_item LOG_LEVEL (total ParseLogLevel) (on_config cl_set_log_level) name value;
  when b (level ← gets (λ s, cl_log_level s.1); SetLogLevel level);;
  set_item GRPC_SERVER_HOST Ok (on_config cl_set_host) name value;;
  set_item GRPC_SERVER_PORT stoi (on_config cl_set_port) name value;;
  set_item GRPC_CLIENT_ASYNC (total StringToBool) (on_config cl_set_async) name value;;
  set_item GRPC_CLIENT_ASYNC_REQUEST_COUNT stoi (on_config cl_set_request_count) name value;;
  set_item GRPC_CLIENT_ASYNC_THREADPOOL_SIZE stoi (on_config cl_set_threadpool_size) name value;;
  set_item GRPC_CLIENT_ASYNC_POLLING_INTERVAL_MILLISECONDS stoi (on_config cl_set_polling_interval) name value;;
  mret tt.

#[global] Instance ClientConfig_AbstractConfig : AbstractConfig (ClientConfig * LogLevel) :=
  {| initConfig := ClientConfig_initConfig; setConfig := ClientConfig_setConfig |}.

Definition ServerConfig_initConfig : M (ServerConfig * LogLevel) unit :=
  init_item (total ParseLogLevel) (str "INFO") (on_config sv_set_log_level);;
  init_item stoi (str "50051") (on_config sv_set_port);;
  init_item (total StringToBool) (str "false") (on_config sv_set_async);;
  init_item stoi (str "8") (on_config sv_set_threadpool_size);;
  init_item stoi (str "500") (on_config sv_set_polling_interval).

Definition ServerConfig_setConfig (name value : bytes) : M (ServerConfig * LogLevel) unit :=
  b ← set_item LOG_LEVEL (total ParseLogLevel) (on_config sv_set_log_level) name value;
  when b (level ← gets (λ s, sv_log_level s.1); SetLogLevel level);;
  set_item GRPC_SERVER_PORT stoi (on_config sv_set_port) name value;;
  set_item GRPC_SERVER_ASYNC (total StringToBool) (on_config sv_set_async) name value;;
  set_item GRPC_SERVER_ASYNC_THREADPOOL_SIZE stoi (on_config sv_set_threadpool_size) name value;;
  set_item GRPC_SERVER_ASYNC_POLLING_INTERVAL_MILLISECONDS stoi (on_config sv_set_polling_interval) name value;;
  mret tt.

#[global] Instance ServerConfig_AbstractConfig : AbstractConfig (ServerConfig * LogLevel) :=
  {| initConfig := ServerConfig_initConfig; setConfig := ServerConfig_setConfig |}.

Definition ClientConfig_init (file : option bytes) : M (ClientConfig * LogLevel) unit :=
  AbstractConfig_init file.

Definition ServerConfig_init (file : option bytes) : M (ServerConfig * LogLevel) unit :=
  AbstractConfig_init file.

(** ** What a configuration promises to [AbstractConfig] *)

(** A setting whose name is not that of an integer, or whose value is one, changes
    the state to [apply_setting]; any other is refused with the state unchanged. *)
Class ConfigLaws (C : Type) `{!AbstractConfig C} := {
  int_names : list bytes;
  apply_setting : bytes * bytes → C → C;
  setting_ok k v s : (k ∉ int_names) ∨ (∃ n, stoi v = Ok n) → setConfig k v s = (Ok tt, apply_setting (k, v) s);
  setting_refused k v s e : k ∈ int_names → stoi v = Throw e → setConfig k v s = (Throw e, s)
}.

(** ** What a file says *)

Inductive file_line :=
  | Blank (w : bytes)
  | Comment (w text : bytes)
  | Item (w1 k w2 w3 v w4 : bytes).

Definition render_line (l : file_line) : bytes :=
  match l with
  | Blank w => w
  | Comment w text => w ++ COMMENT_PREFIX :: text
  | Item w1 k w2 w3 v w4 => w1 ++ k ++ w2 ++ "="%char :: w3 ++ v ++ w4
  end ++ [NEWLINE].

Definition space (w : bytes) : Prop := Forall (λ c, isspace c = true ∧ c ≠ NEWLINE) w.

Definition line_ok (l : file_line) : Prop :=
  match l with
  | Blank w => space w
  | Comment w text => space w ∧ NEWLINE ∉ text
  | Item w1 k w2 w3 v w4 =>
      space w1 ∧ space w2 ∧ space w3 ∧ space w4 ∧ trimmed k ∧ trimmed v ∧
      (NEWLINE ∉ k ++ v) ∧ ("="%char ∉ k ++ v) ∧ k ≠ [] ∧ head k ≠ Some COMMENT_PREFIX
  end.

(** The settings of a file, in order. *)
Definition items (l : list file_line) : list (bytes * bytes) :=
  omap (λ x, match x with Item _ k _ _ v _ => Some (k, v) | _ => None end) l.

Definition render (l : list file_line) : bytes := concat (render_line <$> l).

(** The last value a list of settings gives a name. *)
Definition value_of {A} (parser : bytes → A) (name : bytes) (kvs : list (bytes * bytes)) (d : A) : A :=
  foldl (λ d kv, if bool_decide (kv.1 = name) then parser kv.2 else d) d kvs.

Definition int_of (v : bytes) : Z := match stoi v with Ok n => n | _ => 0 end.

(** The settings before the first one of an integer that [std::stoi] refuses. *)
Fixpoint accepted (ints : list bytes) (kvs : list (bytes * bytes)) : list (bytes * bytes) :=
  match kvs with
  | [] => []
  | (k, v) :: kvs =>
      if bool_decide (k ∈ ints) && (match stoi v with Ok _ => false | _ => true end) then []
      else (k, v) :: accepted ints kvs
  end.

Definition client_ints : list bytes :=
  [GRPC_SERVER_PORT; GRPC_CLIENT_ASYNC_REQUEST_COUNT; GRPC_CLIENT_ASYNC_THREADPOOL_SIZE;
   GRPC_CLIENT_ASYNC_POLLING_INTERVAL_MILLISECONDS].

Definition server_ints : list bytes :=
  [GRPC_SERVER_PORT; GRPC_SERVER_ASYNC_THREADPOOL_SIZE; GRPC_SERVER_ASYNC_POLLING_INTERVAL_MILLISECONDS].

(** ** Lemmas *)

Lemma split_app c cur s t : (c ∉ s) → split c cur (s ++ c :: t) = (cur ++ s) :: split c [] t.
Proof.
  revert cur. induction s as [|d s IH]; intros cur; cbn [app split].
  { intros _. rewrite Ascii.eqb_refl, app_nil_r. done. }
  rewrite not_elem_of_cons. intros [Hd Hs].
  destruct (Ascii.eqb_spec d c); [congruence|]. rewrite IH by done. by rewrite <- app_assoc.
Qed.

Lemma split_last c cur s : (c ∉ s) → split c cur s = [cur ++ s].
Proof.
  revert cur. induction s as [|d s IH]; intros cur; cbn [split].
  { intros _. by rewrite app_nil_r. }
  rewrite not_elem_of_cons. intros [Hd Hs].
  destruct (Ascii.eqb_spec d c); [congruence|]. rewrite IH by done. by rewrite <- app_assoc.
Qed.

Lemma lines_app cur l t : (NEWLINE ∉ l) → lines cur (l ++ NEWLINE :: t) = (cur ++ l) :: lines [] t.
Proof.
  revert cur. induction l as [|d l IH]; intros cur; cbn [app lines].
  { intros _. rewrite Ascii.eqb_refl, app_nil_r. done. }
  rewrite not_elem_of_cons. intros [Hd Hs].
  destruct (Ascii.eqb_spec d NEWLINE); [congruence|]. rewrite IH by done. by rewrite <- app_assoc.
Qed.

Lemma space_no_newline w : space w → NEWLINE ∉ w.
Proof. unfold space. rewrite Forall_forall. intros H Hin. by apply (H _ Hin). Qed.

Lemma space_spaces w : space w → Forall (λ c, isspace c = true) w.
Proof. intros H. eapply Forall_impl; [exact H|]. naive_solver. Qed.

Lemma space_no_eq w : space w → "="%char ∉ w.
Proof. unfold space. rewrite Forall_forall. intros H Hin. by destruct (H _ Hin). Qed.

#[local] Hint Resolve space_no_newline space_spaces space_no_eq : core.

Lemma Ltrim_space w s : Forall (λ c, isspace c = true) w → Ltrim (w ++ s) = Ltrim s.
Proof. apply drop_while_app. Qed.

Lemma Ltrim_start c s : isspace c = false → Ltrim (c :: s) = c :: s.
Proof. intros H. unfold Ltrim. cbn. by rewrite H. Qed.

Section abstract_lemmas.
Context {C : Type} `{!AbstractConfig C}.

Lemma load_blank w s : space w → load_line w s = (Ok tt, s).
Proof.
  intros Hw. unfold load_line. rewrite <- (app_nil_r w), <- (app_nil_r []).
  rewrite Trim_unique; auto using trimmed_nil.
Qed.

Lemma load_comment w text s : space w → load_line (w ++ COMMENT_PREFIX :: text) s = (Ok tt, s).
Proof.
  intros Hw. unfold load_line. rewrite Trim_sep by done.
  assert (Ltrim w = []) as -> by (apply drop_while_all; auto).
  cbn [app]. by rewrite Ascii.eqb_refl.
Qed.

Lemma load_item w1 k w2 w3 v w4 s :
  line_ok (Item w1 k w2 w3 v w4) →
  load_line (w1 ++ k ++ w2 ++ "="%char :: w3 ++ v ++ w4) s = setConfig k v s.
Proof.
  intros (H1 & H2 & H3 & H4 & Hk & Hv & _ & Hq & Hne & Hh).
  apply not_elem_of_app in Hq as [Hqk Hqv]. unfold load_line.
  rewrite !(app_assoc w1), (app_assoc (w1 ++ k)), Trim_sep by done.
  set (K := Ltrim ((w1 ++ k) ++ w2)). set (V := Rtrim (w3 ++ v ++ w4)).
  assert (HK : Trim K = k).
  { unfold K. rewrite Trim_Ltrim, <- app_assoc. by apply Trim_unique; auto. }
  assert (HV : Trim V = v) by (unfold V; rewrite Trim_Rtrim; by apply Trim_unique; auto).
  assert (HqK : "="%char ∉ K).
  { apply Ltrim_subset. rewrite !not_elem_of_app. auto. }
  assert (HqV : "="%char ∉ V).
  { apply Rtrim_subset. rewrite !not_elem_of_app. auto. }
  assert (HKh : K = k ++ w2).
  { unfold K. rewrite <- app_assoc, Ltrim_space by auto.
    destruct k as [|c k]; [done|]. cbn [app]. apply Ltrim_start. destruct Hk as [Hk _]. by eapply Hk. }
  rewrite split_app, split_last, !app_nil_l, HK, HV, HKh by done.
  destruct k as [|c k]; [done|]. cbn [app].
  destruct (Ascii.eqb_spec c COMMENT_PREFIX) as [->|]; [by destruct Hh|done].
Qed.

Lemma load_file_lines l s :
  Forall line_ok l →
  for_each load_line (lines [] (render l)) s = for_each (λ kv, setConfig kv.1 kv.2) (items l) s.
Proof.
  intros Hl. revert s. induction Hl as [|x l Hx Hl IH]; intros s; [done|].
  unfold render. cbn [fmap list_fmap concat]. fold (render l).
  unfold render_line. rewrite <- app_assoc. cbn [app].
  destruct x as [w|w text|w1 k w2 w3 v w4].
  - rewrite lines_app by auto. cbn [app for_each items omap list_omap].
    unfold mbind at 1, M_bind at 1. rewrite load_blank by done. apply IH.
  - destruct Hx as [Hw Ht]. rewrite lines_app.
    2: { rewrite not_elem_of_app, not_elem_of_cons. split; [auto|]. by split. }
    cbn [app for_each items omap list_omap].
    unfold mbind at 1, M_bind at 1. rewrite load_comment by done. apply IH.
  - rewrite lines_app.
    2: { destruct Hx as (? & ? & ? & ? & _ & _ & Hn & _). apply not_elem_of_app in Hn as [].
         rewrite !not_elem_of_app, not_elem_of_cons, !not_elem_of_app. auto 10. }
    cbn [app for_each items omap list_omap]. apply bind_ext; [by apply load_item|auto].
Qed.

Lemma load_settings `{!ConfigLaws C} kvs s :
  try_catch (for_each (λ kv, setConfig kv.1 kv.2) kvs) (mret tt) s =
  (Ok tt, foldl (λ s kv, apply_setting kv s) s (accepted int_names kvs)).
Proof.
  revert s. induction kvs as [|[k v] kvs IH]; intros s; [done|].
  unfold try_catch in *. cbn [for_each accepted fst snd]. unfold mbind at 1, M_bind at 1.
  destruct (stoi_total v) as [[n Hn]|[e He]].
  - rewrite setting_ok by eauto. rewrite Hn, andb_false_r. apply IH.
  - rewrite He, andb_true_r. case_bool_decide as Hk.
    + by rewrite (setting_refused k v s e).
    + rewrite setting_ok by auto. apply IH.
Qed.
End abstract_lemmas.

(** Decide the comparisons with a name. *)
Ltac names :=
  repeat match goal with
  | |- context [bool_decide (?a = ?b)] =>
      first [ rewrite (bool_decide_eq_true_2 (a = b)) by (reflexivity || assumption)
            | rewrite (bool_decide_eq_false_2 (a = b)) by (discriminate || assumption) ]
  end.

Definition client_of (kvs : list (bytes * bytes)) (c : ClientConfig) : ClientConfig :=
  mkClientConfig
    (value_of ParseLogLevel LOG_LEVEL kvs (cl_log_level c))
    (value_of id GRPC_SERVER_HOST kvs (cl_host c))
    (value_of int_of GRPC_SERVER_PORT kvs (cl_port c))
    (value_of StringToBool GRPC_CLIENT_ASYNC kvs (cl_async c))
    (value_of int_of GRPC_CLIENT_ASYNC_REQUEST_COUNT kvs (cl_request_count c))
    (value_of int_of GRPC_CLIENT_ASYNC_THREADPOOL_SIZE kvs (cl_threadpool_size c))
    (value_of int_of GRPC_CLIENT_ASYNC_POLLING_INTERVAL_MILLISECONDS kvs (cl_polling_interval c)).

Definition server_of (kvs : list (bytes * bytes)) (c : ServerConfig) : ServerConfig :=
  mkServerConfig
    (value_of ParseLogLevel LOG_LEVEL kvs (sv_log_level c))
    (value_of int_of GRPC_SERVER_PORT kvs (sv_port c))
    (value_of StringToBool GRPC_SERVER_ASYNC kvs (sv_async c))
    (value_of int_of GRPC_SERVER_ASYNC_THREADPOOL_SIZE kvs (sv_threadpool_size c))
    (value_of int_of GRPC_SERVER_ASYNC_POLLING_INTERVAL_MILLISECONDS kvs (sv_polling_interval c)).

(** The logger follows the log level. *)
Definition level_of (kvs : list (bytes * bytes)) (level : LogLevel) : LogLevel :=
  value_of ParseLogLevel LOG_LEVEL kvs level.

Lemma int_of_ok v n : stoi v = Ok n → int_of v = n.
Proof. unfold int_of. by intros ->. Qed.

(** Case analysis on the name of a setting among the names [l]. *)
Ltac name_cases k l :=
  lazymatch l with
  | nil => idtac
  | ?n :: ?l => destruct (decide (k = n)) as [->|?]; [|name_cases k l]
  end.

Ltac member := repeat (apply list_elem_of_here || apply list_elem_of_further).

Ltac run_setting H :=
  unfold set_item, apply_setting, client_of, server_of, level_of, value_of, int_of; cbn [foldl fst snd]; names;
  first [reflexivity | destruct H as [H|[? H]]; [destruct H; member | rewrite H; reflexivity]].

Lemma client_ok k v s :
  (k ∉ client_ints) ∨ (∃ n, stoi v = Ok n) →
  ClientConfig_setConfig k v s = (Ok tt, (client_of [(k, v)] s.1, level_of [(k, v)] s.2)).
Proof.
  intros H. destruct s as [[] lv]. unfold ClientConfig_setConfig.
  name_cases k [LOG_LEVEL; GRPC_SERVER_HOST; GRPC_SERVER_PORT; GRPC_CLIENT_ASYNC;
    GRPC_CLIENT_ASYNC_REQUEST_COUNT; GRPC_CLIENT_ASYNC_THREADPOOL_SIZE;
    GRPC_CLIENT_ASYNC_POLLING_INTERVAL_MILLISECONDS]; run_setting H.
Qed.

Lemma server_ok k v s :
  (k ∉ server_ints) ∨ (∃ n, stoi v = Ok n) →
  ServerConfig_setConfig k v s = (Ok tt, (server_of [(k, v)] s.1, level_of [(k, v)] s.2)).
Proof.
  intros H. destruct s as [[] lv]. unfold ServerConfig_setConfig.
  name_cases k [LOG_LEVEL; GRPC_SERVER_PORT; GRPC_SERVER_ASYNC; GRPC_SERVER_ASYNC_THREADPOOL_SIZE;
    GRPC_SERVER_ASYNC_POLLING_INTERVAL_MILLISECONDS]; run_setting H.
Qed.

Ltac run_refused H := unfold set_item; names; cbv [negb]; rewrite H; reflexivity.

Lemma client_refused k v s e :
  k ∈ client_ints → stoi v = Throw e → ClientConfig_setConfig k v s = (Throw e, s).
Proof.
  intros Hk H. destruct s as [[] lv]. unfold ClientConfig_setConfig. unfold client_ints in Hk.
  repeat (apply elem_of_cons in Hk as [->|Hk]; [run_refused H|]). by apply elem_of_nil in Hk.
Qed.

Lemma server_refused k v s e :
  k ∈ server_ints → stoi v = Throw e → ServerConfig_setConfig k v s = (Throw e, s).
Proof.
  intros Hk H. destruct s as [[] lv]. unfold ServerConfig_setConfig. unfold server_ints in Hk.
  repeat (apply elem_of_cons in Hk as [->|Hk]; [run_refused H|]). by apply elem_of_nil in Hk.
Qed.

#[global] Instance ClientConfig_laws : ConfigLaws (ClientConfig * LogLevel) :=
  {| int_names := client_ints; apply_setting kv s := (client_of [kv] s.1, level_of [kv] s.2);
     setting_ok := client_ok; setting_refused := client_refused |}.

#[global] Instance ServerConfig_laws : ConfigLaws (ServerConfig * LogLevel) :=
  {| int_names := server_ints; apply_setting kv s := (server_of [kv] s.1, level_of [kv] s.2);
     setting_ok := server_ok; setting_refused := server_refused |}.

Lemma client_fold kvs s :
  foldl (λ s kv, apply_setting kv s) s kvs = (client_of kvs s.1, level_of kvs s.2).
Proof. revert s. induction kvs as [|kv kvs IH]; intros [[] lv]; [done|]. cbn [foldl]. by rewrite IH. Qed.

Lemma server_fold kvs s :
  foldl (λ s kv, apply_setting kv s) s kvs = (server_of kvs s.1, level_of kvs s.2).
Proof. revert s. induction kvs as [|kv kvs IH]; intros [[] lv]; [done|]. cbn [foldl]. by rewrite IH. Qed.

(** ** Properties *)

Definition client_default : ClientConfig := mkClientConfig LOG_INFO (str "localhost") 50051 false 3 8 500.
Definition server_default : ServerConfig := mkServerConfig LOG_INFO 50051 false 8 500.

(** The result of reading a file, for any configuration. *)
Lemma init_reads {C} `{!AbstractConfig C} `{!ConfigLaws C} l s s0 :
  initConfig s = (Ok tt, s0) → Forall line_ok l →
  AbstractConfig_init (Some (render l)) s =
  (Ok tt, foldl (λ s kv, apply_setting kv s) s0 (accepted int_names (items l))).
Proof.
  intros Hs Hl. unfold AbstractConfig_init. erewrite bind_ok by exact Hs.
  rewrite <- load_settings. unfold loadConfigFile, try_catch. by rewrite load_file_lines.
Qed.

(** Reading the file of the client never fails: each member is the last value the
    file gives its name, or the default; the settings after the first integer that
    [std::stoi] refuses are ignored.  The level of the logger changes only when the
    file sets it. *)
Theorem ClientConfig_reads l c level :
  Forall line_ok l →
  ClientConfig_init (Some (render l)) (c, level) =
  (Ok tt, (client_of (accepted client_ints (items l)) client_default,
           level_of (accepted client_ints (items l)) level)).
Proof.
  intros Hl. unfold ClientConfig_init.
  by rewrite (init_reads l (c, level) (client_default, level)), client_fold.
Qed.

(** The same for the server. *)
Theorem ServerConfig_reads l c level :
  Forall line_ok l →
  ServerConfig_init (Some (render l)) (c, level) =
  (Ok tt, (server_of (accepted server_ints (items l)) server_default,
           level_of (accepted server_ints (items l)) level)).
Proof.
  intros Hl. unfold ServerConfig_init.
  by rewrite (init_reads l (c, level) (server_default, level)), server_fold.
Qed.

(** The file of a configuration. *)
Definition print_level (l : LogLevel) : bytes :=
  match l with
  | LOG_DEBUG => str "DEBUG" | LOG_INFO => str "INFO" | LOG_WARN => str "WARN" | LOG_ERROR => str "ERROR"
  end.

Definition print_bool (b : bool) : bytes := if b then str "true" else str "false".

Definition setting (k v : bytes) : file_line := Item [] k [] [] v [].

Definition print_server (c : ServerConfig) : list file_line :=
  [setting LOG_LEVEL (print_level (sv_log_level c));
   setting GRPC_SERVER_PORT (to_string (sv_port c));
   setting GRPC_SERVER_ASYNC (print_bool (sv_async c));
   setting GRPC_SERVER_ASYNC_THREADPOOL_SIZE (to_string (sv_threadpool_size c));
   setting GRPC_SERVER_ASYNC_POLLING_INTERVAL_MILLISECONDS (to_string (sv_polling_interval c))].

Definition word (s : bytes) : Prop := trimmed s ∧ (NEWLINE ∉ s) ∧ ("="%char ∉ s).

Lemma setting_ok_line k v :
  word k → k ≠ [] → head k ≠ Some COMMENT_PREFIX → word v → line_ok (setting k v).
Proof.
  intros (Hk & Hkn & Hkq) Hne Hh (Hv & Hvn & Hvq). unfold line_ok, setting, space.
  rewrite !not_elem_of_app. auto 15.
Qed.

Lemma graph_word s : Forall (λ c, isspace c = false ∧ c ≠ "="%char) s → word s.
Proof.
  intros H. rewrite Forall_forall in H. split; [|split]; [split; intros c s' ->| |].
  - apply (H c). apply list_elem_of_here.
  - apply (H c). apply elem_of_app. right. apply list_elem_of_here.
  - intros Hin. by destruct (H _ Hin).
  - intros Hin. by destruct (H _ Hin).
Qed.

(** A word of printable characters, by evaluation. *)
Definition is_word (s : bytes) : bool := forallb (λ c, negb (isspace c) && negb (Ascii.eqb c "=")) s.

Lemma is_word_ok s : is_word s = true → word s.
Proof.
  intros H. apply graph_word, Forall_forall. intros c Hc.
  unfold is_word in H. rewrite forallb_forall in H. apply list_elem_of_In in Hc.
  specialize (H c Hc). destruct (isspace c), (Ascii.eqb_spec c "="); done.
Qed.

Lemma to_string_word n : word (to_string n).
Proof.
  apply graph_word. destruct (decide (0 ≤ n)%Z).
  - eapply Forall_impl; [by apply to_string_digits|]. intros c Hc.
    split; [by apply isdigit_not_space|]. by intros ->.
  - rewrite to_string_neg by lia. constructor; [by vm_compute|].
    eapply Forall_impl; [apply to_string_digits; lia|]. intros c Hc.
    split; [by apply isdigit_not_space|]. by intros ->.
Qed.

Lemma print_level_parse l : ParseLogLevel (print_level l) = l.
Proof. by destruct l. Qed.

Lemma print_bool_parse b : StringToBool (print_bool b) = b.
Proof. by destruct b. Qed.

Definition server_in_range (c : ServerConfig) : Prop :=
  in_i32 (sv_port c) = true ∧ in_i32 (sv_threadpool_size c) = true ∧ in_i32 (sv_polling_interval c) = true.

(** C26: a configuration of the server printed to the file is read back, and the logger
    takes its level. *)
Theorem ServerConfig_roundtrip c c0 level :
  server_in_range c →
  ServerConfig_init (Some (render (print_server c))) (c0, level) = (Ok tt, (c, sv_log_level c)).
Proof.
  intros (H1 & H2 & H3). rewrite ServerConfig_reads.
  - assert (Ha : accepted server_ints (items (print_server c)) = items (print_server c)).
    { cbn -[to_string stoi]. rewrite !stoi_to_string by done. cbn -[to_string]. done. }
    rewrite Ha. destruct c as [lv p a t i]. unfold server_of, level_of, value_of, int_of.
    cbn [print_server items omap list_omap setting foldl fst snd]. names.
    cbn [sv_log_level sv_port sv_async sv_threadpool_size sv_polling_interval] in *.
    by rewrite print_level_parse, print_bool_parse, !stoi_to_string.
  - unfold print_server. repeat apply Forall_cons_2; [..|by apply Forall_nil_2]; apply setting_ok_line;
      first [apply to_string_word | apply is_word_ok; by destruct c as [[] ? [] ? ?] | done].
Qed.

Lemma ServerConfig_roundtrip_witness :
  let c := mkServerConfig LOG_WARN 80 true (-4) 250 in
  server_in_range c ∧
  ServerConfig_init (Some (render (print_server c))) (server_default, LOG_INFO) = (Ok tt, (c, LOG_WARN)).
Proof. split; [by vm_compute|]. apply ServerConfig_roundtrip. by vm_compute. Defined.

(** A port that is not a number leaves the lines after it unread: the file below
    asks for the level WARN in vain. *)
Lemma ClientConfig_reads_witness :
  let l := [Comment [] (str " client"); setting GRPC_SERVER_HOST (str "example.org"); Blank [];
            setting GRPC_SERVER_PORT (str "none"); setting LOG_LEVEL (str "WARN")] in
  Forall line_ok l ∧
  ClientConfig_init (Some (render l)) (client_default, LOG_INFO) =
  (Ok tt, (cl_set_host (str "example.org") client_default, LOG_INFO)).
Proof.
  intros l. assert (Hl : Forall line_ok l).
  { unfold l. repeat apply Forall_cons_2; [..|by apply Forall_nil_2].
    2, 4, 5: apply setting_ok_line; first [apply is_word_ok; reflexivity | done].
    - split; [by apply Forall_nil_2|decide_closed].
    - by apply Forall_nil_2. }
  split; [exact Hl|]. by rewrite (ClientConfig_reads l client_default LOG_INFO Hl).
Defined.
