(* ===== verification/Iocp.v ===== *)
(** * The echo server on I/O completion ports (win32_programming/use_iocp/iocp_demo)

    [IOCP] of iocp.h and iocp.cpp with [ClientContext] of client_context.h and the sockets of
    socket.cpp.  One thread accepts, the threads of the pool take completion packets from the
    port and echo what they read, and the main thread stops them all.  Windows answers through the
    arguments of the operations; what it does on its own (completing an overlapped operation) is a
    step of the system. *)

From S2P Require Import Prelude CppString GrpcEvent.

(** ** Data *)

Definition BUFFER_SIZE : Z := 2 ^ 12.
Definition INVALID_CLIENT_CONTEXT_ID : Z := 1.
Definition WSA_IO_PENDING : Z := 997.

Inductive Option := OPTION_NONE | OPTION_SEND | OPTION_RECV.

#[global] Instance Option_eq_dec : EqDecision Option.
Proof. solve_decision. Defined.

(** [wsaBuf] is kept as an offset in [buffer] and a length. *)
Record ClientContext := mkClient {
  lastOption : Option;
  cc_id : Z;
  cc_socket : Z;
  wsaBuf : Z * Z;
  buffer : bytes;
  numberOfBytesToSend : Z;
  numberOfBytesSent : Z
}.

(** The constructor; [wsaBuf] has no initial value in the source and is set before it is used. *)
Definition ClientContext_ClientContext (id socket : Z) : ClientContext :=
  mkClient OPTION_NONE id socket (0%Z, 0%Z) (replicate (Z.to_nat BUFFER_SIZE) (chr 0)) 0 0.

Definition setLastOptionRecv (c : ClientContext) : ClientContext :=
  mkClient OPTION_RECV (cc_id c) (cc_socket c) (wsaBuf c) (buffer c) (numberOfBytesToSend c) (numberOfBytesSent c).
Definition setLastOptionSend (c : ClientContext) : ClientContext :=
  mkClient OPTION_SEND (cc_id c) (cc_socket c) (wsaBuf c) (buffer c) (numberOfBytesToSend c) (numberOfBytesSent c).
Definition isLastOptionRecv (c : ClientContext) : bool := bool_decide (lastOption c = OPTION_RECV).
Definition isLastOptionSend (c : ClientContext) : bool := bool_decide (lastOption c = OPTION_SEND).

Definition set_wsaBuf (b : Z * Z) (c : ClientContext) : ClientContext :=
  mkClient (lastOption c) (cc_id c) (cc_socket c) b (buffer c) (numberOfBytesToSend c) (numberOfBytesSent c).
Definition set_buffer (b : bytes) (c : ClientContext) : ClientContext :=
  mkClient (lastOption c) (cc_id c) (cc_socket c) (wsaBuf c) b (numberOfBytesToSend c) (numberOfBytesSent c).
Definition set_counts (to_send sent : Z) (c : ClientContext) : ClientContext :=
  mkClient (lastOption c) (cc_id c) (cc_socket c) (wsaBuf c) (buffer c) to_send sent.

(** An overlapped operation on the buffer of a context: its kind and the part of the buffer. *)
Record op := mkOp { op_kind : Option; op_context : Z; op_off : Z; op_len : Z }.

(** A socket in Windows: its completion key, the pending operations, and what was received
    and sent since it was accepted. *)
Record sock := mkSock {
  sk_open : bool;
  sk_key : option Z;
  sk_ops : list op;
  sk_in : bytes;
  sk_out : bytes
}.

(** What [GetQueuedCompletionStatus] gives: its value, the number of bytes and the key. *)
Record packet := mkPacket { pk_ok : bool; pk_bytes : Z; pk_key : Z }.

Record world := mkWorld {
  clientContexts : gmap Z ClientContext;
  id : Z;
  socks : gmap Z sock;
  queue : list packet
}.

Definition set_clients (m : gmap Z ClientContext) (w : world) : world := mkWorld m (id w) (socks w) (queue w).
Definition set_id (i : Z) (w : world) : world := mkWorld (clientContexts w) i (socks w) (queue w).
Definition set_socks (m : gmap Z sock) (w : world) : world := mkWorld (clientContexts w) (id w) m (queue w).
Definition set_queue (q : list packet) (w : world) : world := mkWorld (clientContexts w) (id w) (socks w) q.

(** Writes through the shared pointer of a registered context. *)
Definition update (i : Z) (f : ClientContext → ClientContext) : M world unit :=
  modify (λ w, set_clients (alter f i (clientContexts w)) w).

(** ** Windows, as far as the program calls it *)

(** The value of [WSARecv] or [WSASend]: zero, or [SOCKET_ERROR] with an error code. *)
Inductive wsa := Done | SocketError (code : Z).

Definition refused (r : wsa) : bool :=
  match r with Done => false | SocketError code => negb (code =? WSA_IO_PENDING)%Z end.

Definition add_op (o : op) (s : sock) : sock :=
  mkSock (sk_open s) (sk_key s) (sk_ops s ++ [o]) (sk_in s) (sk_out s).

(** [true]: no operation was started. *)
Definition post (r : wsa) (socket : Z) (o : op) : M world bool :=
  if refused r then mret true
  else modify (λ w, set_socks (alter (add_op o) socket (socks w)) w);; mret false.

Definition CloseSocket (socket : Z) : M world unit :=
  modify (λ w, set_socks (alter (λ s, mkSock false (sk_key s) (sk_ops s) (sk_in s) (sk_out s)) socket (socks w)) w).

(** ** IOCP: the contexts *)

(** [while (clientContexts.count(id) || id == INVALID_CLIENT_CONTEXT_ID) id++]. *)
Fixpoint next_id (fuel : nat) : M world unit :=
  match fuel with
  | O => lift OutOfFuel
  | S fuel =>
      w ← get;
      if bool_decide (is_Some (clientContexts w !! id w)) || (id w =? INVALID_CLIENT_CONTEXT_ID)%Z
      then modify (set_id (u32 (id w + 1)));; next_id fuel
      else mret tt
  end.

(** The fuel: every turn but the last meets another identifier that is taken. *)
Definition createClientContext (socket : Z) : M world ClientContext :=
  w ← get;
  next_id (S (S (size (clientContexts w))));;
  i ← gets id;
  let clientContext := ClientContext_ClientContext i socket in
  modify (λ w, set_clients (<[i := clientContext]> (clientContexts w)) w);;
  mret clientContext.

(** The context is destroyed with the last pointer to it, which closes the socket: in the
    callers no other pointer outlives the call. *)
Definition removeClientContext (i : Z) : M world unit :=
  w ← get;
  match clientContexts w !! i with
  | None => mret tt
  | Some c => modify (set_clients (delete i (clientContexts w)));; CloseSocket (cc_socket c)
  end.

Definition getClientContext (i : Z) : M world (option ClientContext) :=
  w ← get; mret (clientContexts w !! i).

(** [ok]: [CreateIoCompletionPort] did not fail. *)
Definition associateWithIOCP (ok : bool) (c : ClientContext) : M world bool :=
  when ok (modify (λ w, set_socks (alter (λ s, mkSock (sk_open s) (Some (cc_id c)) (sk_ops s) (sk_in s) (sk_out s))
                                          (cc_socket c) (socks w)) w));;
  mret ok.

(** The calls of [WSARecv] and [WSASend], each followed by the same test: a refusal removes the context. *)
Definition start_op (r : wsa) (c : ClientContext) (kind : Option) (off len : Z) : M world unit :=
  e ← post r (cc_socket c) (mkOp kind (cc_id c) off len);
  when e (removeClientContext (cc_id c)).

(** ** IOCP: accepting *)

(** The answers [accept], [CreateIoCompletionPort] and [WSARecv] give. *)
Inductive accept_answer :=
  | AcceptFailed
  | Accepted (socket : Z) (associated : bool) (r : wsa).

Definition acceptConnection (a : accept_answer) : M world unit :=
  match a with
  | AcceptFailed => mret tt
  | Accepted socket associated r =>
      modify (λ w, set_socks (<[socket := mkSock true None [] [] []]> (socks w)) w);;
      clientContext ← createClientContext socket;
      b ← associateWithIOCP associated clientContext;
      when b (
        update (cc_id clientContext) (λ c, setLastOptionRecv (set_wsaBuf (0%Z, Z.of_nat (length (buffer c))) c));;
        start_op r clientContext OPTION_RECV 0 (Z.of_nat (length (buffer clientContext))))
  end.

(** The answers [WSAWaitForMultipleEvents] and [WSAEnumNetworkEvents] give. *)
Inductive wait_answer :=
  | WaitTimeout
  | WaitFailed
  | EnumFailed
  | Events (accept : bool) (error : Z) (a : accept_answer).

(** A turn of the loop of the accepting thread. *)
Definition accept_turn (a : wait_answer) : M world unit :=
  match a with
  | Events true error a => if negb (error =? 0)%Z then mret tt else acceptConnection a
  | _ => mret tt
  end.

(** ** IOCP: a completion *)

(** [process] from the return of [GetQueuedCompletionStatus]; [r] is the answer to the one
    operation it starts, if any. *)
Definition process (p : packet) (r : wsa) : M world unit :=
  if negb (pk_ok p) then mret tt
  else if (pk_key p =? INVALID_CLIENT_CONTEXT_ID)%Z then mret tt
  else if (pk_bytes p =? 0)%Z then removeClientContext (pk_key p)
  else
    o ← getClientContext (pk_key p);
    match o with
    | None => mret tt
    | Some c =>
        if isLastOptionRecv c then
          update (pk_key p) (λ c, set_wsaBuf ((wsaBuf c).1, pk_bytes p) (set_counts (pk_bytes p) 0 (setLastOptionSend c)));;
          start_op r c OPTION_SEND (wsaBuf c).1 (pk_bytes p)
        else if isLastOptionSend c then
          let sent := u32 (numberOfBytesSent c + pk_bytes p) in
          update (pk_key p) (set_counts (numberOfBytesToSend c) sent);;
          if (sent <? numberOfBytesToSend c)%Z then
            update (pk_key p) setLastOptionSend;;
            start_op r c OPTION_SEND sent (u32 (numberOfBytesToSend c - sent))
          else
            update (pk_key p) setLastOptionRecv;;
            start_op r c OPTION_RECV 0 (Z.of_nat (length (buffer c)))
        else mret tt
    end.

(** ** Windows, on its own *)

(** The part of a buffer from [i] up to [j]. *)
Definition seg (i j : Z) (b : bytes) : bytes := take (Z.to_nat (j - i)) (drop (Z.to_nat i) b).

(** [data] written over a buffer at [off]. *)
Definition overwrite (off : Z) (data b : bytes) : bytes :=
  take (Z.to_nat off) b ++ data ++ drop (Z.to_nat off + length data) b.

(** How a pending operation ends. *)
Inductive completion := Received (data : bytes) | Sent (n : Z) | Failed.

Definition completion_ok (o : op) (x : completion) : Prop :=
  match x with
  | Received data => op_kind o = OPTION_RECV ∧ (Z.of_nat (length data) ≤ op_len o)%Z
  | Sent n => op_kind o = OPTION_SEND ∧ (0 ≤ n ≤ op_len o)%Z
  | Failed => True
  end.

(** The first pending operation of a socket ends: the buffer is written or read, and a packet with
    the socket's key is queued. *)
Definition complete (socket : Z) (x : completion) (w : world) : world :=
  match socks w !! socket with
  | Some (mkSock b (Some k) (o :: ops) i out) =>
      match x with
      | Received data =>
          mkWorld (alter (λ c, set_buffer (overwrite (op_off o) data (buffer c)) c) (op_context o) (clientContexts w)) (id w)
            (<[socket := mkSock b (Some k) ops (i ++ data) out]> (socks w))
            (queue w ++ [mkPacket true (Z.of_nat (length data)) k])
      | Sent n =>
          let sent := match clientContexts w !! op_context o with
                      | Some c => seg (op_off o) (op_off o + n) (buffer c) | None => [] end in
          mkWorld (clientContexts w) (id w) (<[socket := mkSock b (Some k) ops i (out ++ sent)]> (socks w))
            (queue w ++ [mkPacket true n k])
      | Failed =>
          mkWorld (clientContexts w) (id w) (<[socket := mkSock b (Some k) ops i out]> (socks w))
            (queue w ++ [mkPacket false 0 k])
      end
  | _ => w
  end.

(** ** IOCP: starting and stopping *)

(** The members that [start] and [stop] set, and the handles the process holds. *)
Record IOCP := mkIOCP {
  started : bool;
  stopped : bool;
  iocp : option Z;
  listenSocket : option Z;
  acceptEvent : option Z;
  handles : gset Z
}.

Definition IOCP_IOCP : IOCP := mkIOCP false false None None None ∅.

Definition set_started (p : IOCP) := mkIOCP true (stopped p) (iocp p) (listenSocket p) (acceptEvent p) (handles p).
Definition set_stopped (p : IOCP) := mkIOCP (started p) true (iocp p) (listenSocket p) (acceptEvent p) (handles p).
Definition set_iocp h (p : IOCP) := mkIOCP (started p) (stopped p) h (listenSocket p) (acceptEvent p) (handles p).
Definition set_listenSocket h (p : IOCP) := mkIOCP (started p) (stopped p) (iocp p) h (acceptEvent p) (handles p).
Definition set_acceptEvent h (p : IOCP) := mkIOCP (started p) (stopped p) (iocp p) (listenSocket p) h (handles p).
Definition set_handles hs (p : IOCP) := mkIOCP (started p) (stopped p) (iocp p) (listenSocket p) (acceptEvent p) hs.

(** The answers to the calls of [start]: a handle, or a failure. *)
Record start_answers := mkStart {
  an_iocp : option Z;
  an_socket : option Z;
  an_bind : bool;
  an_listen : bool;
  an_event : option Z;
  an_select : bool
}.

(** A call that gives a handle; without one the caller throws. *)
Definition obtain (h : option Z) : M IOCP Z :=
  match h with
  | None => throw RuntimeError
  | Some h => modify (λ p, set_handles ({[h]} ∪ handles p) p);; mret h
  end.

Definition close_handle (h : Z) : M IOCP unit := modify (λ p, set_handles (handles p ∖ {[h]}) p).

Definition CreateIOCP (a : start_answers) : M IOCP Z := obtain (an_iocp a).

Definition CreateListenSocket (a : start_answers) : M IOCP Z :=
  s ← obtain (an_socket a);
  when (negb (an_bind a)) (close_handle s;; throw RuntimeError);;
  when (negb (an_listen a)) (close_handle s;; throw RuntimeError);;
  mret s.

Definition CloseAcceptEvent (h : Z) : M IOCP unit := close_handle h.

Definition CreateAcceptEvent (a : start_answers) : M IOCP Z :=
  e ← obtain (an_event a);
  when (negb (an_select a)) (CloseAcceptEvent e;; throw RuntimeError);;
  mret e.

(** [start], up to the creation of the threads. *)
Definition start (a : start_answers) : M IOCP unit :=
  p ← get;
  if started p then throw RuntimeError
  else
    modify set_started;;
    h ← CreateIOCP a; modify (set_iocp (Some h));;
    s ← CreateListenSocket a; modify (set_listenSocket (Some s));;
    e ← CreateAcceptEvent a; modify (set_acceptEvent (Some e)).

Definition close_member (h : option Z) : M IOCP unit :=
  match h with None => mret tt | Some h => close_handle h end.

Definition CloseIOCP (h : option Z) : M IOCP unit := close_member h;; modify (set_iocp None).

(** The end of [stop], after the threads are joined. *)
Definition stop_close : M IOCP unit :=
  p ← get;
  close_member (acceptEvent p);;
  close_member (listenSocket p);;
  CloseIOCP (iocp p).

(** ** The system *)

(** A thread of the pool: at the test of [stopped], in [GetQueuedCompletionStatus], with a
    packet, or at its end. *)
Inductive worker := WTest | WWait | WHold (p : packet) | WDone.

#[global] Instance packet_eq_dec : EqDecision packet.
Proof. solve_decision. Defined.
#[global] Instance worker_eq_dec : EqDecision worker.
Proof. solve_decision. Defined.

Inductive acceptor := ATest | AWait | ADone.

(** The main thread: before [stop]; joining the accepting thread; in the loop of [stopThreadPool]
    with packets left to post; joining the pool; after [stop]. *)
Inductive main_thread := MRun | MJoinAccept | MPost (left : nat) | MJoinPool | MStopped.

Record server := mkServer {
  object : IOCP;
  wd : world;
  threadPool : list worker;
  acceptThread : acceptor;
  main : main_thread;
  unposted : nat  (* calls of PostQueuedCompletionStatus that failed *)
}.

Definition world_init : world := mkWorld ∅ 0 ∅ [].

(** After [start] returned. *)
Definition server_init (object : IOCP) (threadPoolSize : nat) : server :=
  mkServer object world_init (replicate threadPoolSize WTest) ATest MRun 0.

Definition stop_packet : packet := mkPacket true 0 INVALID_CLIENT_CONTEXT_ID.

(** A new socket is none that is open. *)
Definition accept_fresh (a : wait_answer) (w : world) : Prop :=
  match a with
  | Events _ _ (Accepted s _ _) => ∀ k, socks w !! s = Some k → sk_open k = false
  | _ => True
  end.

Inductive step : server → server → Prop :=
  | step_accept_test p w ts m u :
      step (mkServer p w ts ATest m u) (mkServer p w ts (if stopped p then ADone else AWait) m u)
  | step_accept p w ts m u a w' :
      accept_fresh a w → accept_turn a w = (Ok tt, w') →
      step (mkServer p w ts AWait m u) (mkServer p w' ts ATest m u)
  | step_test p w ts i a m u :
      ts !! i = Some WTest →
      step (mkServer p w ts a m u) (mkServer p w (<[i := if stopped p then WDone else WWait]> ts) a m u)
  | step_take p w ts i x q a m u :
      ts !! i = Some WWait → queue w = x :: q →
      step (mkServer p w ts a m u) (mkServer p (set_queue q w) (<[i := WHold x]> ts) a m u)
  | step_process p w ts i x r w' a m u :
      ts !! i = Some (WHold x) → process x r w = (Ok tt, w') →
      step (mkServer p w ts a m u) (mkServer p w' (<[i := WTest]> ts) a m u)
  | step_complete p w ts s k o ops x a m u :
      socks w !! s = Some k → sk_ops k = o :: ops → completion_ok o x →
      step (mkServer p w ts a m u) (mkServer p (complete s x w) ts a m u)
  | step_stop p w ts a u :
      step (mkServer p w ts a MRun u) (mkServer (set_stopped p) w ts a MJoinAccept u)
  | step_join_accept p w ts u :
      step (mkServer p w ts ADone MJoinAccept u) (mkServer p w ts ADone (MPost (length ts)) u)
  | step_post p w ts a n u :
      step (mkServer p w ts a (MPost (S n)) u) (mkServer p (set_queue (queue w ++ [stop_packet]) w) ts a (MPost n) u)
  | step_post_failed p w ts a n u :
      step (mkServer p w ts a (MPost (S n)) u) (mkServer p w ts a (MPost n) (S u))
  | step_posted p w ts a u :
      step (mkServer p w ts a (MPost 0) u) (mkServer p w ts a MJoinPool u)
  | step_join p w ts a u :
      Forall (λ t, t = WDone) ts →
      step (mkServer p w ts a MJoinPool u) (mkServer (stop_close p).2 w ts a MStopped u).

(** The server runs once [start] has returned. *)
Definition reachable (st : server) : Prop :=
  ∃ a p n, start a IOCP_IOCP = (Ok tt, p) ∧ rtc step (server_init p n) st.

(** The packets that are queued or in the hands of a thread. *)
Definition held (t : worker) : list packet := match t with WHold p => [p] | _ => [] end.
Definition packets (st : server) : list packet := queue (wd st) ++ (threadPool st ≫= held).
Definition for_key (k : Z) (l : list packet) : list packet := filter (λ p, pk_key p = k) l.

(** ** The life of a connection *)

(** What the operation, packet or neither of a context means: where the bytes received
    and not yet sent are. *)
Inductive phase (c : ClientContext) (s : sock) : list packet → Prop :=
  | phase_receiving :
      lastOption c = OPTION_RECV → sk_ops s = [mkOp OPTION_RECV (cc_id c) 0 BUFFER_SIZE] → sk_in s = sk_out s →
      phase c s []
  | phase_received n :
      lastOption c = OPTION_RECV → sk_ops s = [] → (0 ≤ n ≤ BUFFER_SIZE)%Z →
      sk_in s = sk_out s ++ seg 0 n (buffer c) →
      phase c s [mkPacket true n (cc_id c)]
  | phase_sending :
      lastOption c = OPTION_SEND →
      sk_ops s = [mkOp OPTION_SEND (cc_id c) (numberOfBytesSent c) (numberOfBytesToSend c - numberOfBytesSent c)] →
      (0 ≤ numberOfBytesSent c < numberOfBytesToSend c)%Z → (numberOfBytesToSend c ≤ BUFFER_SIZE)%Z →
      sk_in s = sk_out s ++ seg (numberOfBytesSent c) (numberOfBytesToSend c) (buffer c) →
      phase c s []
  | phase_sent n :
      lastOption c = OPTION_SEND → sk_ops s = [] →
      (0 ≤ numberOfBytesSent c)%Z → (0 ≤ n)%Z → (numberOfBytesSent c + n ≤ numberOfBytesToSend c)%Z →
      (numberOfBytesToSend c ≤ BUFFER_SIZE)%Z →
      sk_in s = sk_out s ++ seg (numberOfBytesSent c + n) (numberOfBytesToSend c) (buffer c) →
      phase c s [mkPacket true n (cc_id c)]
  | phase_failed :
      sk_ops s = [] → sk_out s `prefix_of` sk_in s → phase c s [mkPacket false 0 (cc_id c)]
  | phase_lost :
      sk_ops s = [] → sk_out s `prefix_of` sk_in s → phase c s [].

(** A context with its socket and the packets of its key. *)
Definition client_ok (k : Z) (c : ClientContext) (w : world) (ps : list packet) : Prop :=
  cc_id c = k ∧ length (buffer c) = Z.to_nat BUFFER_SIZE ∧ (wsaBuf c).1 = 0%Z ∧
  ∃ s, socks w !! cc_socket c = Some s ∧ sk_open s = true ∧ phase c s ps ∧
    (sk_key s = Some k ∨ sk_key s = None ∧ sk_ops s = [] ∧ ps = []).

Record world_inv (w : world) (l : list packet) : Prop := {
  wi_id : (0 ≤ id w < 2 ^ 32)%Z;
  wi_client : ∀ k c, clientContexts w !! k = Some c →
    (0 ≤ k < 2 ^ 32)%Z ∧ k ≠ INVALID_CLIENT_CONTEXT_ID ∧ client_ok k c w (for_key k l);
  wi_packet : ∀ p, p ∈ l → p = stop_packet ∨ is_Some (clientContexts w !! pk_key p);
  wi_sock : ∀ s k, socks w !! s = Some k →
    sk_out k `prefix_of` sk_in k ∧
    (sk_open k = false → sk_ops k = []) ∧
    (sk_open k = true → ∃ i c, clientContexts w !! i = Some c ∧ cc_socket c = s);
  wi_inj : ∀ i j c d, clientContexts w !! i = Some c → clientContexts w !! j = Some d →
    cc_socket c = cc_socket d → i = j
}.

(** ** Lemmas *)

Lemma phase_perm c s ps ps' : ps ≡ₚ ps' → phase c s ps → phase c s ps'.
Proof.
  intros Hp Hph. inversion Hph; subst;
    first [apply Permutation_nil_l in Hp | apply Permutation_singleton_l in Hp]; subst; exact Hph.
Qed.

Lemma for_key_perm k l l' : l ≡ₚ l' → for_key k l ≡ₚ for_key k l'.
Proof. intros H. unfold for_key. by rewrite H. Qed.

Lemma inv_perm w l l' : l ≡ₚ l' → world_inv w l → world_inv w l'.
Proof.
  intros Hp [Hi Hc Hpk Hs Hj]. split; try done.
  - intros k c H. destruct (Hc k c H) as (H1 & H2 & H3 & H4 & H5 & s & H6 & H7 & H8 & H9).
    unfold client_ok. split_and!; try done; try lia. exists s. split_and!; try done.
    + eapply phase_perm; [by apply for_key_perm|done].
    + destruct H9 as [|(? & ? & Hn)]; [by left|right]. split_and!; try done.
      apply Permutation_nil_r. rewrite <- Hn. by apply for_key_perm.
  - intros p Hin. apply Hpk. by rewrite Hp.
Qed.

Lemma for_key_cons_ne k p l : pk_key p ≠ k → for_key k (p :: l) = for_key k l.
Proof. intros H. unfold for_key. by rewrite filter_cons_False. Qed.

Lemma for_key_cons_eq p l : for_key (pk_key p) (p :: l) = p :: for_key (pk_key p) l.
Proof. unfold for_key. by rewrite filter_cons_True. Qed.

(** The packet of a context is its only one. *)
Lemma phase_one c s p ps : phase c s (p :: ps) → ps = [].
Proof. by inversion 1. Qed.

Lemma phase_ops c s p : phase c s [p] → sk_ops s = [].
Proof. by inversion 1. Qed.

Lemma phase_prefix c s ps : phase c s ps → sk_out s `prefix_of` sk_in s.
Proof.
  inversion 1; subst; try done;
    match goal with H : sk_in s = _ |- _ => rewrite H end; first [done | by apply prefix_app_r].
Qed.

(** A context and its socket change; the packets of the other contexts do not. *)
Lemma inv_change w l w' l' i c s c' s' :
  world_inv w l → clientContexts w !! i = Some c → socks w !! cc_socket c = Some s →
  clientContexts w' = <[i := c']> (clientContexts w) → socks w' = <[cc_socket c := s']> (socks w) →
  id w' = id w → cc_socket c' = cc_socket c →
  (∀ j, j ≠ i → for_key j l' = for_key j l) →
  (∀ p, p ∈ l' → p ∈ l ∨ pk_key p = i) →
  cc_id c' = i → length (buffer c') = Z.to_nat BUFFER_SIZE → (wsaBuf c').1 = 0%Z →
  sk_open s' = true → phase c' s' (for_key i l') → (sk_key s' = Some i ∨ sk_key s' = None ∧ sk_ops s' = [] ∧ for_key i l' = []) →
  world_inv w' l'.
Proof.
  intros [Hi Hc Hp Hs Hj] Hci Hsi Hcl Hso Hid Hsk Hk Hin H1 H2 H3 H4 H5 H6.
  destruct (Hc i c Hci) as (Hr & Hne & _).
  split; rewrite ?Hid, ?Hcl, ?Hso; [done|..].
  - intros k d Hd. apply lookup_insert_Some in Hd as [[<- <-]|[Hki Hd]].
    + unfold client_ok. split_and!; try done; try lia. rewrite Hso, Hsk, lookup_insert_eq.
      exists s'. done.
    + destruct (Hc k d Hd) as (Hr' & Hne' & He & Hb & Hw & s1 & Hs1 & Ho & Hph & Hkey).
      unfold client_ok. split_and!; try done; try lia. exists s1. rewrite Hso, Hk by done.
      split_and!; try done. rewrite lookup_insert_ne; [done|]. intros Heq. apply Hki. by eapply Hj.
  - intros p Hpl. rewrite lookup_insert_is_Some'. destruct (Hin p Hpl) as [Hpin|Hpk]; [|by auto].
    destruct (Hp p Hpin); auto.
  - intros s0 k Hk0. apply lookup_insert_Some in Hk0 as [[<- <-]|[Hne0 Hk0]].
    + split_and!; [by eapply phase_prefix|congruence|]. intros _. exists i, c'. by rewrite lookup_insert_eq.
    + destruct (Hs s0 k Hk0) as (Ha & Hb & Hd). split_and!; try done. intros Ho.
      destruct (Hd Ho) as (j & d & Hjd & Hjs). exists j, d. split; [|done].
      rewrite lookup_insert_ne; [done|]. intros <-. simplify_eq.
  - intros a b d e Hd He Heq.
    assert (Hs0 : ∀ k x, <[i := c']> (clientContexts w) !! k = Some x →
      ∃ x0, clientContexts w !! k = Some x0 ∧ cc_socket x0 = cc_socket x).
    { intros k x Hx. apply lookup_insert_Some in Hx as [[<- <-]|[_ Hx]]; eauto. }
    destruct (Hs0 _ _ Hd) as (d0 & Hd0 & Ed), (Hs0 _ _ He) as (e0 & He0 & Ee).
    eapply Hj; [exact Hd0|exact He0|congruence].
Qed.

Definition close_sock (s : sock) : sock := mkSock false (sk_key s) (sk_ops s) (sk_in s) (sk_out s).

(** A context is destroyed: nothing of it is pending. *)
Lemma inv_destroy w l w' l' i c s :
  world_inv w l → clientContexts w !! i = Some c → socks w !! cc_socket c = Some s →
  clientContexts w' = delete i (clientContexts w) → socks w' = <[cc_socket c := close_sock s]> (socks w) →
  id w' = id w → (∀ j, j ≠ i → for_key j l' = for_key j l) → for_key i l' = [] →
  (∀ p, p ∈ l' → p ∈ l) → sk_ops s = [] → sk_out s `prefix_of` sk_in s →
  world_inv w' l'.
Proof.
  intros [Hi Hc Hp Hs Hj] Hci Hsi Hcl Hso Hid Hk Hki Hin Hops Hpre.
  split; rewrite ?Hid, ?Hcl, ?Hso; [done|..].
  - intros k d Hd. apply lookup_delete_Some in Hd as [Hne Hd].
    destruct (Hc k d Hd) as (Hr' & Hne' & He & Hb & Hw & s1 & Hs1 & Ho & Hph & Hkey).
    unfold client_ok. split_and!; try done; try lia. exists s1. rewrite Hso, Hk by done.
    split_and!; try done. rewrite lookup_insert_ne; [done|]. intros Heq. apply Hne. by eapply Hj.
  - intros p Hpl. destruct (Hp p (Hin p Hpl)) as [->|Hsome]; [by left|right].
    rewrite lookup_delete_ne; [done|]. intros ->.
    assert (Hx : p ∈ for_key (pk_key p) l') by (unfold for_key; apply list_elem_of_filter; auto).
    rewrite Hki in Hx. by apply elem_of_nil in Hx.
  - intros s0 k Hk0. apply lookup_insert_Some in Hk0 as [[<- <-]|[Hne0 Hk0]].
    + split_and!; try done.
    + destruct (Hs s0 k Hk0) as (Ha & Hb & Hd). split_and!; try done. intros Ho.
      destruct (Hd Ho) as (j & d & Hjd & Hjs). exists j, d. split; [|done].
      rewrite lookup_delete_ne; [done|]. intros <-. simplify_eq.
  - intros a b d e [_ Hd]%lookup_delete_Some [_ He]%lookup_delete_Some. by eapply Hj.
Qed.

(** A thread takes a packet and does nothing with it. *)
Lemma inv_drop w x l : world_inv w (x :: l) → world_inv w l.
Proof.
  intros [Hi Hc Hp Hs Hj]. split; try done.
  - intros k c H. destruct (Hc k c H) as (H1 & H2 & H3 & H4 & H5 & s & H6 & H7 & H8 & H9).
    unfold client_ok. split_and!; try done; try lia. exists s. split_and!; try done.
    all: destruct (decide (pk_key x = k)) as [<-|Hne]; [rewrite for_key_cons_eq in H8, H9|by rewrite for_key_cons_ne in H8, H9].
    + pose proof (phase_one _ _ _ _ H8) as Hl. rewrite Hl in H8 |- *.
      apply phase_lost; [by eapply phase_ops|by eapply phase_prefix].
    + destruct H9 as [|(_ & _ & [=])]. by left.
  - intros p Hin. apply Hp. by apply list_elem_of_further.
Qed.

Lemma alter_some {A} (f : A → A) (m : gmap Z A) i x : m !! i = Some x → alter f i m = <[i := f x]> m.
Proof.
  intros H. apply map_eq. intros j. destruct (decide (i = j)) as [<-|Hne].
  - by rewrite lookup_alter_eq, lookup_insert_eq, H.
  - by rewrite lookup_alter_ne, lookup_insert_ne.
Qed.

Lemma removeClientContext_run i c w :
  clientContexts w !! i = Some c →
  removeClientContext i w = (Ok tt, set_socks (alter close_sock (cc_socket c) (socks w))
                                     (set_clients (delete i (clientContexts w)) w)).
Proof. intros H. unfold removeClientContext, CloseSocket. run_m. by rewrite H. Qed.

Lemma start_op_run r c c1 kind off len w :
  clientContexts w !! cc_id c = Some c1 → cc_socket c1 = cc_socket c →
  start_op r c kind off len w = (Ok tt,
    if refused r then set_socks (alter close_sock (cc_socket c) (socks w)) (set_clients (delete (cc_id c) (clientContexts w)) w)
    else set_socks (alter (add_op (mkOp kind (cc_id c) off len)) (cc_socket c) (socks w)) w).
Proof.
  intros H Hs. unfold start_op, post. destruct (refused r); [|done].
  unfold mbind, M_bind, mret, M_ret, when. rewrite (removeClientContext_run _ _ _ H). by rewrite Hs.
Qed.

(** The end of the branches that start an operation. *)
Lemma start_op_inv r w w1 l i c s c' kind off len :
  world_inv w l → for_key i l = [] → clientContexts w !! i = Some c → socks w !! cc_socket c = Some s →
  cc_id c = i → sk_ops s = [] → sk_key s = Some i → sk_open s = true → sk_out s `prefix_of` sk_in s →
  cc_id c' = i → cc_socket c' = cc_socket c → length (buffer c') = Z.to_nat BUFFER_SIZE → (wsaBuf c').1 = 0%Z →
  phase c' (add_op (mkOp kind i off len) s) [] →
  clientContexts w1 = <[i := c']> (clientContexts w) → socks w1 = socks w → id w1 = id w → queue w1 = queue w →
  ∃ w', start_op r c kind off len w1 = (Ok tt, w') ∧ queue w' = queue w ∧ world_inv w' l.
Proof.
  intros Hinv Hl Hc Hs Hid Hops Hkey Hopen Hpre H1 H2 H3 H4 Hph Ecl Eso Eid Eq.
  erewrite start_op_run; [|by rewrite Hid, Ecl, lookup_insert_eq|done].
  eexists. split; [done|]. destruct (refused r); (split; [done|]).
  - eapply (inv_destroy w l _ _ i c s); eauto; simpl.
    + by rewrite Hid, Ecl, delete_insert_eq.
    + rewrite Eso. by apply alter_some.
  - eapply (inv_change w l _ _ i c s c' (add_op (mkOp kind i off len) s)); eauto; simpl.
    + rewrite Eso, Hid. by apply alter_some.
    + by rewrite Hl.
Qed.

(** *** Parts of the buffer *)

Lemma seg_split i m j b : (0 ≤ i ≤ m)%Z → (m ≤ j)%Z → seg i j b = seg i m b ++ seg m j b.
Proof.
  intros Hi Hj. unfold seg.
  replace (Z.to_nat (j - i)) with (Z.to_nat (m - i) + Z.to_nat (j - m)) by lia.
  rewrite <- take_take_drop, drop_drop. do 3 f_equal. lia.
Qed.

Lemma seg_empty i b : seg i i b = [].
Proof. unfold seg. by rewrite Z.sub_diag. Qed.

Lemma seg_overwrite data b : seg 0 (Z.of_nat (length data)) (overwrite 0 data b) = data.
Proof.
  unfold seg, overwrite. rewrite Z.sub_0_r, Nat2Z.id. change (Z.to_nat 0) with 0.
  rewrite drop_0, take_0, app_nil_l. apply take_app_length.
Qed.

Lemma length_overwrite data b : length data ≤ length b → length (overwrite 0 data b) = length b.
Proof. intros H. unfold overwrite. simpl. rewrite length_app, length_drop. lia. Qed.

Arguments overwrite : simpl never.
Arguments seg : simpl never.

(** *** A completion *)

Lemma process_inv x r w l :
  world_inv w (x :: l) → ∃ w', process x r w = (Ok tt, w') ∧ queue w' = queue w ∧ world_inv w' l.
Proof.
  intros Hinv. pose proof (inv_drop _ _ _ Hinv) as Hdrop. unfold process.
  destruct (pk_ok x) eqn:Hok; [|by exists w].
  destruct (pk_key x =? INVALID_CLIENT_CONTEXT_ID)%Z eqn:Hk; [by exists w|].
  apply Z.eqb_neq in Hk. cbn [negb].
  destruct (wi_packet _ _ Hinv x (list_elem_of_here _ _)) as [->|[c Hc]]; [done|].
  destruct (wi_client _ _ Hinv _ _ Hc) as (Hr & _ & Hid & Hlen & Hwsa & s & Hs & Hopen & Hph & Hkey).
  rewrite for_key_cons_eq in Hph. pose proof (phase_one _ _ _ _ Hph) as Hnil. rewrite Hnil in Hph.
  pose proof (phase_ops _ _ _ Hph) as Hops. pose proof (phase_prefix _ _ _ Hph) as Hpre.
  destruct (pk_bytes x =? 0)%Z eqn:Hn.
  { rewrite (removeClientContext_run _ _ _ Hc). eexists. split; [done|]. split; [done|].
    eapply (inv_destroy w l _ _ (pk_key x) c s); eauto; simpl. by apply alter_some. }
  assert (Hkey' : sk_key s = Some (pk_key x)).
  { destruct Hkey as [|(_ & _ & Hno)]; [done|]. by rewrite for_key_cons_eq in Hno. }
  unfold getClientContext. run_m. rewrite Hc.
  assert (Hgo : ∀ c' kind off len w1,
    cc_id c' = pk_key x → cc_socket c' = cc_socket c → buffer c' = buffer c → wsaBuf c' = wsaBuf c ∨ (wsaBuf c').1 = 0%Z →
    phase c' (add_op (mkOp kind (pk_key x) off len) s) [] →
    w1 = set_clients (<[pk_key x := c']> (clientContexts w)) w →
    ∃ w', start_op r c kind off len w1 = (Ok tt, w') ∧ queue w' = queue w ∧ world_inv w' l).
  { intros c' kind off len w1 H1 H2 H3 H4 H5 ->.
    eapply (start_op_inv r w _ l (pk_key x) c s c' kind off len); eauto; [by rewrite H3|].
    destruct H4 as [->|]; done. }
  inversion Hph as [| n Hlast _ Hrange Hio Hx | | n Hlast _ H0 H1 H2 H3 Hio Hx | Hx |];
    subst x; cbn [pk_ok pk_bytes pk_key] in *; try done; apply Z.eqb_neq in Hn.
  - unfold isLastOptionRecv. rewrite bool_decide_eq_true_2 by done.
    erewrite alter_some by exact Hc. eapply Hgo; [..|done]; try done; [by right|].
    apply phase_sending; simpl; try done; try lia; [].
    rewrite Hops, Hwsa. simpl. by rewrite Z.sub_0_r.
  - unfold isLastOptionRecv, isLastOptionSend.
    rewrite bool_decide_eq_false_2, bool_decide_eq_true_2 by congruence.
    assert (Hu : u32 (numberOfBytesSent c + n) = (numberOfBytesSent c + n)%Z).
    { apply u32_small. unfold BUFFER_SIZE in *. lia. }
    rewrite Hu. destruct (_ <? _)%Z eqn:Hlt; unfold set_clients; cbn [clientContexts id socks queue];
      rewrite (alter_some _ (clientContexts w) _ c) by exact Hc; rewrite alter_insert_eq.
    + apply Z.ltb_lt in Hlt. rewrite u32_small by (unfold BUFFER_SIZE in *; lia).
      eapply Hgo; [..|done]; try done; [by left|].
      apply phase_sending; simpl; try done; try lia; []. by rewrite Hops.
    + apply Z.ltb_ge in Hlt. eapply Hgo; [..|done]; try done; [by left|].
      apply phase_receiving; simpl; [done|by rewrite Hops, Hlen|].
      rewrite Hio. replace (numberOfBytesSent c + n)%Z with (numberOfBytesToSend c) by lia.
      by rewrite seg_empty, app_nil_r.
Qed.

(** *** Windows completes an operation *)

Lemma for_key_snoc_ne k p l : pk_key p ≠ k → for_key k (l ++ [p]) = for_key k l.
Proof. intros H. unfold for_key. by rewrite filter_app, filter_cons_False, app_nil_r. Qed.

Lemma for_key_snoc_eq p l : for_key (pk_key p) (l ++ [p]) = for_key (pk_key p) l ++ [p].
Proof. unfold for_key. by rewrite filter_app, filter_cons_True. Qed.

Lemma complete_inv s x k o ops w l :
  world_inv w l → socks w !! s = Some k → sk_ops k = o :: ops → completion_ok o x →
  ∃ p, queue (complete s x w) = queue w ++ [p] ∧ world_inv (complete s x w) (l ++ [p]).
Proof.
  intros Hinv Hk Hops Hx. destruct (wi_sock _ _ Hinv s k Hk) as (_ & Hclosed & Howner).
  destruct (sk_open k) eqn:Hopen; [|rewrite Hclosed in Hops by done; done].
  destruct (Howner eq_refl) as (i & c & Hc & <-). clear Howner Hclosed.
  destruct (wi_client _ _ Hinv _ _ Hc) as (Hr & Hne & Hid & Hlen & Hwsa & k' & Hk' & _ & Hph & Hkey).
  assert (k' = k) as -> by congruence.
  assert (Hi : sk_key k = Some i) by (destruct Hkey as [|(_ & ? & _)]; [done|congruence]).
  destruct k as [b ky ops0 inn out]. simpl in *. subst ops0 ky b.
  assert (Hps : for_key i l = [] ∧ ops = []) by (by inversion Hph; simplify_eq/=).
  destruct Hps as [Hps ->]. rewrite Hps in Hph.
  assert (Hgo : ∀ c' s' p w', pk_key p = i →
    clientContexts w' = <[i := c']> (clientContexts w) → socks w' = <[cc_socket c := s']> (socks w) → id w' = id w →
    cc_socket c' = cc_socket c → cc_id c' = i → length (buffer c') = Z.to_nat BUFFER_SIZE → (wsaBuf c').1 = 0%Z →
    sk_open s' = true → sk_key s' = Some i → phase c' s' [p] → world_inv w' (l ++ [p])).
  { intros c' s' p w' H1 H2 H3 H4 H5 H6 H7 H8 H9 H10 H11.
    eapply (inv_change w l w' _ i c _ c' s'); eauto.
    - intros j Hj. apply for_key_snoc_ne. congruence.
    - intros q [Hq|Hq]%elem_of_app; [by left|right]. apply list_elem_of_singleton in Hq. by subst q.
    - rewrite <- H1, for_key_snoc_eq, H1, Hps. done. }
  unfold complete. rewrite Hk. destruct x as [data|n|].
  all: eexists; split; [done|].
  - destruct Hx as [Hkind Hdata].
    inversion Hph as [Hl Ho Hio| |Hl Ho _ _ _| | |Ho _]; simplify_eq/=.
    pose proof (length_overwrite data (buffer c)).
    eapply (Hgo (set_buffer (overwrite 0 data (buffer c)) c)); [..|refine (phase_received (set_buffer _ c) _ (Z.of_nat (length data)) _ _ _ _)]; simpl; try done; try lia.
    + by rewrite (alter_some _ _ _ c).
    + simpl. by rewrite seg_overwrite.
  - destruct Hx as [Hkind Hn].
    inversion Hph as [Hl Ho Hio| |Hl Ho Hr1 Hr2 Hio| | |Ho _]; simplify_eq/=. rewrite Hc.
    eapply (Hgo c); [..|eapply phase_sent with (n := n)]; simpl; try done; try lia.
    + symmetry. by apply insert_id.
    + simpl. rewrite <- app_assoc, <- seg_split; [done|lia|lia].
  - subst i. eapply (Hgo c); [..|eapply phase_failed]; simpl; try done.
    + symmetry. by apply insert_id.
    + by apply phase_prefix in Hph.
Qed.

(** *** Accepting *)

(** The loop stops at the first identifier that is free. *)
Lemma next_id_ok fuel w w' :
  (0 ≤ id w < 2 ^ 32)%Z → next_id fuel w = (Ok tt, w') →
  ∃ k, w' = set_id k w ∧ (0 ≤ k < 2 ^ 32)%Z ∧ clientContexts w !! k = None ∧ k ≠ INVALID_CLIENT_CONTEXT_ID.
Proof.
  revert w. induction fuel as [|fuel IH]; intros w Hid H; [done|].
  cbn [next_id] in H. unfold mbind at 1, M_bind at 1, get at 1 in H.
  destruct (bool_decide _ || _) eqn:E.
  - change (next_id fuel (set_id (u32 (id w + 1)) w) = (Ok tt, w')) in H.
    apply IH in H as (k & -> & Hk); [|apply u32_range]. by exists k.
  - injection H as <-. apply orb_false_elim in E as [E1 E2]. exists (id w). split_and!; try lia.
    + by destruct w.
    + apply bool_decide_eq_false in E1. by apply eq_None_not_Some.
Qed.

Lemma next_id_cases fuel w :
  (next_id fuel w).1 = Ok tt ∨
  (next_id fuel w).1 = OutOfFuel ∧
  ∀ k, k ∈ tried (id w - 1) fuel → u32 (id w) = id w → is_Some (clientContexts w !! k) ∨ k = INVALID_CLIENT_CONTEXT_ID.
Proof.
  revert w. induction fuel as [|fuel IH]; intros w.
  { right. split; [done|]. intros k Hk. by apply elem_of_nil in Hk. }
  cbn [next_id]. unfold mbind at 1 3, M_bind at 1 3, get at 1 2.
  destruct (bool_decide _ || _) eqn:E; [|by left].
  change ((modify (set_id (u32 (id w + 1)));; next_id fuel) w) with (next_id fuel (set_id (u32 (id w + 1)) w)).
  destruct (IH (set_id (u32 (id w + 1)) w)) as [->|[-> Hall]]; [by left|right].
  split; [done|]. intros k Hk Hid.
  assert (Hk' : k = id w ∨ k ∈ tried (id w) fuel).
  { unfold tried in *. cbn [seq fmap list_fmap] in Hk. rewrite <- seq_shift, <- list_fmap_compose in Hk.
    apply elem_of_cons in Hk as [->|Hk]; [left; rewrite <- Hid at 2; f_equal; lia|right].
    apply list_elem_of_fmap in Hk as (i & -> & Hi). apply list_elem_of_fmap. exists i. split; [|done].
    simpl. f_equal. lia. }
  destruct Hk' as [->|Hk'].
  - apply orb_prop in E as [E|E]; [left; by apply bool_decide_eq_true in E|right; lia].
  - apply (Hall k); [|exact (u32_small _ (u32_range _))]. simpl.
    unfold tried in *. apply list_elem_of_fmap in Hk' as (i & -> & Hi). apply list_elem_of_fmap. exists i.
    split; [|done]. unfold u32, wrap.
    replace ((id w + 1) mod 2 ^ 32 - 1 + Z.of_nat (S i))%Z with ((id w + 1) mod 2 ^ 32 + (Z.of_nat i))%Z by lia.
    rewrite Zplus_mod_idemp_l. f_equal. lia.
Qed.

(** While an identifier is free the loop finds one. *)
Lemma next_id_returns w :
  (0 ≤ id w < 2 ^ 32)%Z → (Z.of_nat (size (clientContexts w)) < 2 ^ 32 - 1)%Z →
  (next_id (S (S (size (clientContexts w)))) w).1 = Ok tt.
Proof.
  intros Hid Hsz. destruct (next_id_cases (S (S (size (clientContexts w)))) w) as [|[_ Hall]]; [done|exfalso].
  set (c0 := ClientContext_ClientContext 0 0).
  pose proof (taken_length (mkManager (<[INVALID_CLIENT_CONTEXT_ID := c0]> (clientContexts w)) 0) (id w - 1)
    (S (S (size (clientContexts w))))) as H.
  assert (Hi : size (<[INVALID_CLIENT_CONTEXT_ID := c0]> (clientContexts w)) ≤ S (size (clientContexts w))).
  { rewrite map_size_insert. case_match; simpl; lia. }
  assert (S (S (size (clientContexts w))) ≤ size (<[INVALID_CLIENT_CONTEXT_ID := c0]> (clientContexts w))); [|lia].
  apply H; [lia|]. intros k Hk. cbn [GrpcEvent.handlers]. rewrite lookup_insert_is_Some'.
  destruct (Hall k Hk (u32_small _ Hid)); auto.
Qed.

(** A new socket with its context, and nothing pending. *)
Lemma inv_accept w l s k :
  world_inv w l → (∀ x, socks w !! s = Some x → sk_open x = false) →
  (0 ≤ k < 2 ^ 32)%Z → clientContexts w !! k = None → k ≠ INVALID_CLIENT_CONTEXT_ID →
  world_inv (mkWorld (<[k := ClientContext_ClientContext k s]> (clientContexts w)) k
               (<[s := mkSock true None [] [] []]> (socks w)) (queue w)) l.
Proof.
  intros [Hi Hc Hp Hs Hj] Hfresh Hk Hnone Hne.
  assert (Hother : ∀ j c, clientContexts w !! j = Some c → cc_socket c ≠ s).
  { intros j c Hjc E. destruct (Hc j c Hjc) as (_ & _ & _ & _ & _ & x & Hx & Ho & _).
    rewrite E in Hx. rewrite (Hfresh x Hx) in Ho. done. }
  assert (Hps : for_key k l = []).
  { destruct (for_key k l) as [|p ps] eqn:E; [done|exfalso].
    assert (Hin : p ∈ for_key k l) by (rewrite E; apply list_elem_of_here).
    apply list_elem_of_filter in Hin as [Hpk Hin]. destruct (Hp p Hin) as [->|[c Hpc]]; [done|].
    by rewrite Hpk, Hnone in Hpc. }
  split; simpl; [done|..].
  - intros j c Hjc. apply lookup_insert_Some in Hjc as [[<- <-]|[Hjk Hjc]].
    + unfold client_ok. split_and!; try done; try lia. simpl. rewrite lookup_insert_eq. eexists.
      split_and!; [done|done| |by right]. rewrite Hps. by apply phase_lost.
    + destruct (Hc j c Hjc) as (Hr & Hne' & Hid & Hlen & Hw & x & Hx & Ho & Hph & Hkey).
      unfold client_ok. split_and!; try done; try lia. exists x. simpl.
      rewrite lookup_insert_ne by (intros E; by apply (Hother j c Hjc)). done.
  - intros p Hin. rewrite lookup_insert_is_Some'. destruct (Hp p Hin); auto.
  - intros s' x Hx. apply lookup_insert_Some in Hx as [[<- <-]|[Hne' Hx]].
    + split_and!; try done. intros _. eexists k, _. by rewrite lookup_insert_eq.
    + destruct (Hs s' x Hx) as (Ha & Hb & Hd). split_and!; try done. intros Ho.
      destruct (Hd Ho) as (j & c & Hjc & Hcs). exists j, c. split; [|done].
      rewrite lookup_insert_ne; [done|]. intros <-. congruence.
  - intros i j c d Hci Hdj.
    apply lookup_insert_Some in Hci as [[<- <-]|[Hki Hci]]; apply lookup_insert_Some in Hdj as [[<- <-]|[Hkj Hdj]];
      simpl; try done.
    + intros E. symmetry in E. by eapply Hother in E.
    + intros E. by eapply Hother in E.
    + by apply Hj.
Qed.

Lemma createClientContext_ok s w c w' :
  (0 ≤ id w < 2 ^ 32)%Z → createClientContext s w = (Ok c, w') →
  ∃ k, c = ClientContext_ClientContext k s ∧ (0 ≤ k < 2 ^ 32)%Z ∧ clientContexts w !! k = None ∧
    k ≠ INVALID_CLIENT_CONTEXT_ID ∧ w' = mkWorld (<[k := c]> (clientContexts w)) k (socks w) (queue w).
Proof.
  intros Hid H. unfold createClientContext in H. unfold mbind at 1, M_bind at 1, get at 1 in H.
  apply bind_inv_ok in H as ([] & w1 & H1 & H). apply next_id_ok in H1 as (k & -> & Hk & Hn & Hne); [|done].
  exists k. injection H as <- <-. done.
Qed.

Lemma acceptConnection_inv a w w' l :
  world_inv w l → accept_fresh (Events true 0 a) w → acceptConnection a w = (Ok tt, w') →
  world_inv w' l ∧ queue w' = queue w.
Proof.
  intros Hinv Hfresh H. destruct a as [|s ok r]; [by injection H as <-|]. cbn [acceptConnection] in H.
  set (w0 := set_socks (<[s := mkSock true None [] [] []]> (socks w)) w) in *.
  change ((clientContext ← createClientContext s; b ← associateWithIOCP ok clientContext; when b (
        update (cc_id clientContext) (λ c, setLastOptionRecv (set_wsaBuf (0%Z, Z.of_nat (length (buffer c))) c));;
        start_op r clientContext OPTION_RECV 0 (Z.of_nat (length (buffer clientContext))))) w0 = (Ok tt, w')) in H.
  apply bind_inv_ok in H as (c & w1 & Hcreate & H).
  apply createClientContext_ok in Hcreate as (k & -> & Hk & Hnone & Hne & ->); [|apply (wi_id _ _ Hinv)].
  pose proof (inv_accept w l s k Hinv Hfresh Hk Hnone Hne) as Hacc.
  destruct ok; [|by injection H as <-].
  assert (Hps : for_key k l = []).
  { destruct (wi_client _ _ Hacc k (ClientContext_ClientContext k s)) as (_ & _ & _ & _ & _ & x & Hx & _ & _ & Hkey).
    { simpl. by rewrite lookup_insert_eq. }
    simpl in Hx. rewrite lookup_insert_eq in Hx. injection Hx as <-. by destruct Hkey as [|(_ & _ & ?)]. }
  set (c := ClientContext_ClientContext k s) in *. set (s1 := mkSock true (Some k) [] [] []).
  set (w1 := mkWorld (<[k := c]> (clientContexts w)) k (<[s := s1]> (socks w)) (queue w)).
  assert (Hkeyed : world_inv w1 l).
  { eapply (inv_change _ l _ l k c _ c s1 Hacc); simpl; rewrite ?lookup_insert_eq, ?insert_insert_eq;
      try done; auto; [].
    rewrite Hps. by apply phase_lost. }
  set (c2 := setLastOptionRecv (set_wsaBuf (0%Z, BUFFER_SIZE) c)).
  destruct (start_op_inv r w1 (set_clients (<[k := c2]> (clientContexts w)) w1) l k c s1 c2 OPTION_RECV 0 BUFFER_SIZE)
    as (w2 & Hrun & Hq & Hinv2); simpl; rewrite ?lookup_insert_eq, ?insert_insert_eq; try done.
  { apply phase_receiving; done. }
  assert (Heq : (Ok tt, w') = (Ok tt, w2)); [|by injection Heq as ->].
  rewrite <- H, <- Hrun. unfold associateWithIOCP, update. run_m.
  unfold set_socks, set_clients. cbn [clientContexts id socks queue].
  by rewrite !alter_insert_eq.
Qed.

Lemma accept_turn_inv a w w' l :
  world_inv w l → accept_fresh a w → accept_turn a w = (Ok tt, w') → world_inv w' l ∧ queue w' = queue w.
Proof.
  intros Hinv Hf H. destruct a as [| | |[] e a]; try by injection H as <-.
  cbn [accept_turn] in H. destruct (negb _); [by injection H as <-|].
  by eapply acceptConnection_inv.
Qed.

(** *** The system *)

Lemma packets_set (ts : list worker) i t t' :
  ts !! i = Some t → held t ++ (<[i := t']> ts ≫= held) ≡ₚ held t' ++ (ts ≫= held).
Proof.
  intros H. rewrite <- (take_drop_middle ts i t H) at 2. rewrite insert_take_drop by by eapply lookup_lt_Some.
  rewrite !bind_app, !bind_cons. solve_Permutation.
Qed.

Lemma inv_queue q w l : world_inv w l → world_inv (set_queue q w) l.
Proof. by intros [? ? ? ? ?]; split. Qed.

Lemma inv_stop w l : world_inv w l → world_inv w (stop_packet :: l).
Proof.
  intros [Hi Hc Hp Hs Hj]. split; try done.
  - intros k c H. rewrite for_key_cons_ne; [by apply Hc|]. intros E. by destruct (Hc k c H) as (_ & Hne & _).
  - intros p [->|Hin]%elem_of_cons; [by left|auto].
Qed.

(** A thread gives up the packet it holds. *)
Lemma held_perm (q : list packet) (ts : list worker) i x :
  ts !! i = Some (WHold x) → q ++ (ts ≫= held) ≡ₚ x :: (q ++ (<[i := WTest]> ts ≫= held)).
Proof.
  intros Hi. pose proof (packets_set _ _ _ WTest Hi) as H. simpl in H.
  rewrite <- H. symmetry. apply Permutation_middle.
Qed.

Lemma held_process x r w ts i :
  world_inv w (queue w ++ (ts ≫= held)) → ts !! i = Some (WHold x) →
  ∃ w', process x r w = (Ok tt, w') ∧ queue w' = queue w ∧ world_inv w' (queue w' ++ (<[i := WTest]> ts ≫= held)).
Proof.
  intros Hinv Hi. destruct (process_inv x r w (queue w ++ (<[i := WTest]> ts ≫= held))) as (w' & H1 & H2 & H3).
  - eapply inv_perm; [by apply held_perm|done].
  - exists w'. by rewrite H2.
Qed.

Definition server_inv (st : server) : Prop := world_inv (wd st) (packets st).

Lemma iocp_step_inv st st' : server_inv st → step st st' → server_inv st'.
Proof.
  unfold server_inv, packets. intros Hinv Hstep.
  destruct Hstep as [|? ? ? ? ? a w' Hf Ha|? ? ? i ? ? ? Hi|? ? ? i x q ? ? ? Hi Hq|? ? ? i x r w' ? ? ? Hi Hp
    |? ? ? s k o ops x ? ? ? Hs Ho Hx| | | | | |]; cbn [wd threadPool queue set_queue] in *; try done.
  - destruct (accept_turn_inv _ _ _ _ Hinv Hf Ha) as [Hinv' ->]. done.
  - eapply inv_perm; [|exact Hinv]. apply Permutation_app_head.
    pose proof (packets_set _ _ _ (if stopped p then WDone else WWait) Hi) as H. simpl in H. rewrite H. by destruct (stopped p).
  - apply inv_queue. eapply inv_perm; [|exact Hinv]. rewrite Hq.
    pose proof (packets_set _ _ _ (WHold x) Hi) as H. simpl in *. rewrite H. simpl. apply Permutation_middle.
  - destruct (held_process x r w ts i Hinv Hi) as (w2 & Hrun & _ & Hinv2). congruence.
  - destruct (complete_inv s x k o ops w _ Hinv Hs Ho Hx) as (p' & -> & Hinv').
    eapply inv_perm; [|exact Hinv']. rewrite <- !app_assoc. apply Permutation_app_head. apply Permutation_app_comm.
  - apply inv_queue. eapply inv_perm; [|apply inv_stop, Hinv]. rewrite <- app_assoc. apply Permutation_middle.
Qed.

Lemma iocp_init_inv p n : server_inv (server_init p n).
Proof.
  unfold server_inv, packets, server_init. simpl.
  assert (replicate n WTest ≫= held = []) as -> by (induction n; done).
  split; try done.
  - intros q Hq. by apply elem_of_nil in Hq.
Qed.

Lemma iocp_reachable_inv st : reachable st → server_inv st.
Proof.
  intros (a & p & n & _ & Hr). eapply rtc_invariant; [apply iocp_step_inv|apply iocp_init_inv|exact Hr].
Qed.

(** *** What a completion leaves alone *)

Lemma alter_ne {A} (f : A → A) (m : gmap Z A) i j : j ≠ i → alter f i m !! j = m !! j.
Proof. intros H. by rewrite lookup_alter_ne. Qed.

Lemma start_op_frame r c kind off len w w' :
  start_op r c kind off len w = (Ok tt, w') →
  (∀ c1, clientContexts w !! cc_id c = Some c1 → cc_socket c1 = cc_socket c) →
  (∀ j, j ≠ cc_id c → clientContexts w' !! j = clientContexts w !! j) ∧
  (∀ s, s ≠ cc_socket c → socks w' !! s = socks w !! s).
Proof.
  intros H Hs. destruct (refused r) eqn:Er.
  - unfold start_op, post in H. rewrite Er in H. unfold mbind, M_bind, mret, M_ret, when, removeClientContext in H.
    run_m. destruct (clientContexts w !! cc_id c) as [c1|] eqn:Ec; [|by injection H as <-].
    injection H as <-. simpl. rewrite (Hs c1 eq_refl). split; intros.
    + by rewrite lookup_delete_ne.
    + by apply alter_ne.
  - unfold start_op, post in H. rewrite Er in H. injection H as <-. split; intros; simpl; [done|by apply alter_ne].
Qed.

Lemma process_frame x r w w' :
  (∀ c, clientContexts w !! pk_key x = Some c → cc_id c = pk_key x) →
  process x r w = (Ok tt, w') →
  (∀ j, j ≠ pk_key x → clientContexts w' !! j = clientContexts w !! j) ∧
  (∀ s, (∀ c, clientContexts w !! pk_key x = Some c → cc_socket c ≠ s) → socks w' !! s = socks w !! s).
Proof.
  intros Hid H. unfold process in H.
  destruct (negb _); [by injection H as <-|]. destruct (_ =? INVALID_CLIENT_CONTEXT_ID)%Z; [by injection H as <-|].
  destruct (_ =? 0)%Z.
  { unfold removeClientContext in H. run_m. destruct (clientContexts w !! pk_key x) as [c|] eqn:Hc; injection H as <-; [|done].
    simpl. split; intros; [by rewrite lookup_delete_ne|]. apply alter_ne. intros ->. by eapply H. }
  unfold getClientContext in H. run_m. destruct (clientContexts w !! pk_key x) as [c|] eqn:Hc; [|by injection H as <-].
  assert (Hgo : ∀ f kind off len, (∀ c, cc_socket (f c) = cc_socket c) →
    start_op r c kind off len (set_clients (alter f (pk_key x) (clientContexts w)) w) = (Ok tt, w') →
    (∀ j, j ≠ pk_key x → clientContexts w' !! j = clientContexts w !! j) ∧
    (∀ s, (∀ c0, Some c = Some c0 → cc_socket c0 ≠ s) → socks w' !! s = socks w !! s)).
  { intros f kind off len Hf Hr. apply start_op_frame in Hr as [H1 H2].
    - rewrite (Hid c eq_refl) in H1. split.
      + intros j Hj. rewrite H1 by done. by apply alter_ne.
      + intros s Hs. apply H2. intros ->. by eapply Hs.
    - intros c1. rewrite (Hid c eq_refl). simpl. rewrite lookup_alter_eq, Hc. intros [= <-]. apply Hf. }
  destruct (isLastOptionRecv c); [by eapply Hgo in H|].
  destruct (isLastOptionSend c); [|by injection H as <-].
  destruct (_ <? _)%Z; unfold set_clients in H; cbn [clientContexts id socks queue] in H;
    rewrite alter_alter_eq in H; by eapply Hgo in H.
Qed.

Lemma complete_frame s x w k o ops :
  socks w !! s = Some k → sk_ops k = o :: ops →
  (∀ j, j ≠ op_context o → clientContexts (complete s x w) !! j = clientContexts w !! j) ∧
  (∀ t, t ≠ s → socks (complete s x w) !! t = socks w !! t).
Proof.
  intros Hk Ho. destruct k as [b [ky|] ops0 i out]; unfold complete; rewrite Hk; simpl in Ho; subst ops0.
  - destruct x; simpl; (split; intros; [try done; by apply alter_ne|by rewrite lookup_insert_ne]).
  - by destruct x.
Qed.

Lemma acceptConnection_frame a w w' :
  (0 ≤ id w < 2 ^ 32)%Z → acceptConnection a w = (Ok tt, w') →
  (∀ j c, clientContexts w !! j = Some c → clientContexts w' !! j = Some c) ∧
  (∀ t k, socks w !! t = Some k → accept_fresh (Events true 0 a) w → sk_open k = true → socks w' !! t = Some k).
Proof.
  intros Hid H. destruct a as [|s ok r]; [by injection H as <-|]. cbn [acceptConnection] in H.
  set (w0 := set_socks (<[s := mkSock true None [] [] []]> (socks w)) w) in *.
  change ((clientContext ← createClientContext s; b ← associateWithIOCP ok clientContext; when b (
        update (cc_id clientContext) (λ c, setLastOptionRecv (set_wsaBuf (0%Z, Z.of_nat (length (buffer c))) c));;
        start_op r clientContext OPTION_RECV 0 (Z.of_nat (length (buffer clientContext))))) w0 = (Ok tt, w')) in H.
  apply bind_inv_ok in H as (c & w1 & Hcreate & H).
  apply createClientContext_ok in Hcreate as (k & -> & Hk & Hnone & Hne & ->); [|done].
  set (c := ClientContext_ClientContext k s) in *. simpl in Hnone.
  assert (Hs : ∀ t x, socks w !! t = Some x → accept_fresh (Events true 0 (Accepted s ok r)) w → sk_open x = true → t ≠ s).
  { intros t x Hx Hf Ho ->. simpl in Hf. rewrite (Hf x Hx) in Ho. done. }
  assert (Hkj : ∀ j d, clientContexts w !! j = Some d → j ≠ k) by (intros j d Hj ->; congruence).
  destruct ok.
  - unfold associateWithIOCP, update in H. unfold mbind at 1, M_bind at 1 in H. cbn in H.
    unfold mbind in H. unfold M_bind in H. cbn -[start_op] in H.
    apply start_op_frame in H as [H1 H2].
    + simpl in H1, H2. split.
      * intros j d Hj. rewrite H1, alter_ne, lookup_insert_ne by (first [by eapply Hkj | symmetry; by eapply Hkj]). done.
      * intros t x Hx Hf Ho. pose proof (Hs t x Hx Hf Ho). rewrite H2, alter_ne, lookup_insert_ne by congruence. done.
    + simpl. intros c1. rewrite lookup_alter_eq, lookup_insert_eq. by intros [= <-].
  - injection H as <-. simpl. split.
    + intros j d Hj. rewrite lookup_insert_ne; [done|]. symmetry. by eapply Hkj.
    + intros t x Hx Hf Ho. rewrite lookup_insert_ne; [done|]. symmetry. by eapply Hs.
Qed.

(** ** A connection that is lost *)

(** Its context is registered and its socket open, and nothing is pending for it. *)
Definition lost (i : Z) (c : ClientContext) (s : sock) (st : server) : Prop :=
  clientContexts (wd st) !! i = Some c ∧ socks (wd st) !! cc_socket c = Some s ∧
  sk_open s = true ∧ sk_ops s = [] ∧ for_key i (packets st) = [].

Lemma for_key_nil k l l' : l ≡ₚ l' → for_key k l = [] → for_key k l' = [].
Proof. intros Hp H. apply Permutation_nil_r. rewrite <- H. by apply for_key_perm. Qed.

(** The operations of a socket are those of the context that owns it. *)
Lemma op_owner w l t k o ops :
  world_inv w l → socks w !! t = Some k → sk_ops k = o :: ops →
  ops = [] ∧ sk_key k = Some (op_context o) ∧ (0 ≤ op_off o)%Z ∧ (op_off o + op_len o ≤ BUFFER_SIZE)%Z ∧
  ∃ d, clientContexts w !! op_context o = Some d ∧ cc_socket d = t.
Proof.
  intros Hinv Hk Ho. destruct (wi_sock _ _ Hinv t k Hk) as (_ & Hclosed & Howner).
  destruct (sk_open k) eqn:Hopen; [|rewrite Hclosed in Ho by done; done].
  destruct (Howner eq_refl) as (i & d & Hd & <-).
  destruct (wi_client _ _ Hinv _ _ Hd) as (_ & _ & Hid & _ & _ & k' & Hk' & _ & Hph & Hkey).
  assert (k' = k) as -> by congruence.
  assert (Hi : sk_key k = Some i) by (destruct Hkey as [|(_ & ? & _)]; [done|congruence]).
  assert (ops = [] ∧ op_context o = i ∧ (0 ≤ op_off o)%Z ∧ (op_off o + op_len o ≤ BUFFER_SIZE)%Z) as (-> & -> & Hb).
  { inversion Hph; simplify_eq/=; try (rewrite Ho in *; done);
      match goal with H : sk_ops k = [_] |- _ => rewrite H in Ho; injection Ho as <- <- end;
      simpl; unfold BUFFER_SIZE in *; split_and!; (done || lia). }
  naive_solver.
Qed.

Lemma lost_step i c s st st' : server_inv st → lost i c s st → step st st' → lost i c s st'.
Proof.
  unfold server_inv. intros Hinv (Hc & Hs & Ho & Hops & Hps) Hstep.
  destruct (wi_client _ _ Hinv _ _ Hc) as (Hr & Hne & Hid & _).
  unfold lost, packets in *.
  destruct Hstep as [|? ? ? ? ? a w' Hf Ha|? ? ? j ? ? ? Hj|? ? ? j x q ? ? ? Hj Hq|? ? ? j x r w' ? ? ? Hj Hp
    |? ? ? t k o ops x ? ? ? Ht Hto Hx| | | | | |]; cbn [wd threadPool queue set_queue clientContexts socks] in *; try done.
  - destruct (accept_turn_inv _ _ _ _ Hinv Hf Ha) as [_ ->].
    assert (Hfr : clientContexts w' !! i = Some c ∧ socks w' !! cc_socket c = Some s); [|by destruct Hfr].
    destruct a as [| | |[] e a]; try by injection Ha as <-. cbn [accept_turn] in Ha.
    destruct (negb _); [by injection Ha as <-|].
    destruct (acceptConnection_frame _ _ _ (wi_id _ _ Hinv) Ha) as [H1 H2]. split; [by apply H1|by eapply H2].
  - split_and!; try done. eapply for_key_nil; [|exact Hps]. apply Permutation_app_head.
    pose proof (packets_set _ _ _ (if stopped p then WDone else WWait) Hj) as H. simpl in H. rewrite H. by destruct (stopped p).
  - split_and!; try done. eapply for_key_nil; [|exact Hps]. rewrite Hq.
    pose proof (packets_set _ _ _ (WHold x) Hj) as H. simpl in *. rewrite H. simpl. apply Permutation_middle.
  - pose proof (held_perm (queue w) _ _ _ Hj) as Hperm.
    pose proof (for_key_nil i _ _ Hperm Hps) as Hps'.
    assert (Hxi : pk_key x ≠ i) by (intros <-; by rewrite for_key_cons_eq in Hps').
    rewrite for_key_cons_ne in Hps' by done.
    destruct (held_process x r w ts j Hinv Hj) as (w2 & Hrun & Hq & _). rewrite Hrun in Hp. injection Hp as <-.
    rewrite Hq. destruct (process_frame x r w w2) as [H1 H2]; [|done|].
    { intros d Hd. by destruct (wi_client _ _ Hinv _ _ Hd) as (_ & _ & ? & _). }
    split_and!; try done; [rewrite H1; [done|congruence]|].
    rewrite H2; [done|]. intros d Hd E. apply Hxi. by eapply (wi_inj _ _ Hinv).
  - destruct (op_owner _ _ _ _ _ _ Hinv Ht Hto) as (-> & Hkey & _ & _ & d & Hd & Hdt).
    assert (Hts : cc_socket c ≠ t) by (intros E; rewrite E in Hs; congruence).
    assert (Hci : i ≠ op_context o) by (intros ->; congruence).
    destruct (complete_frame t x w k o [] Ht Hto) as [H1 H2].
    split_and!; try done; [by rewrite H1|by rewrite H2|].
    unfold complete. rewrite Ht. destruct k as [b ky ops0 inn out]. simpl in Hkey, Hto. subst ky ops0.
    destruct x; cbn [queue]; rewrite <- app_assoc; unfold for_key in *;
      rewrite !filter_app in *; apply app_nil in Hps as [-> ->]; by rewrite filter_cons_False.
  - split_and!; try done. rewrite <- app_assoc. unfold for_key in *.
    rewrite !filter_app in *. apply app_nil in Hps as [-> ->]. rewrite filter_cons_False; [done|].
    intros E. by rewrite <- E in Hne.
Qed.

Lemma lost_forever i c s st st' : server_inv st → lost i c s st → rtc step st st' → lost i c s st'.
Proof.
  intros Hinv Hl Hr. revert Hinv Hl. induction Hr as [|a b d Hab _ IH]; [done|].
  intros Hinv Hl. apply IH; [by eapply iocp_step_inv|by eapply lost_step].
Qed.

(** ** The end *)

Definition waiting (ts : list worker) : nat := sum_list_with (λ t, if decide (t = WWait) then 1 else 0) ts.

(** Once [stop] is called a thread that waits is owed a packet. *)
Definition stop_inv (st : server) : Prop :=
  match main st with
  | MRun => True
  | MJoinAccept => stopped (object st) = true
  | MPost n => stopped (object st) = true ∧ waiting (threadPool st) ≤ length (queue (wd st)) + n + unposted st
  | MJoinPool => stopped (object st) = true ∧ waiting (threadPool st) ≤ length (queue (wd st)) + unposted st
  | MStopped => True
  end.

Lemma waiting_le ts : waiting ts ≤ length ts.
Proof. unfold waiting. induction ts as [|t ts IH]; simpl; [lia|]. case_decide; lia. Qed.

Lemma waiting_set ts i t t' :
  ts !! i = Some t → waiting (<[i := t']> ts) + waiting [t] = waiting ts + waiting [t'].
Proof.
  intros H. unfold waiting at 2 4. simpl. rewrite !Nat.add_0_r.
  exact (sum_list_with_insert (λ t, if decide (t = WWait) then 1 else 0) ts i t t' H).
Qed.

Lemma stop_step_inv st st' : server_inv st → stop_inv st → step st st' → stop_inv st'.
Proof.
  unfold server_inv, stop_inv. intros Hinv Hst Hstep.
  destruct Hstep as [|? ? ? ? ? a w' Hf Ha|? ? ? i ? ? ? Hi|? ? ? i x q ? ? ? Hi Hq|? ? ? i x r w' ? ? ? Hi Hp
    |? ? ? s k o ops x ? ? ? Hs Ho Hx| | | | | |]; cbn [main object wd threadPool queue set_queue unposted] in *; try done.
  - destruct (accept_turn_inv _ _ _ _ Hinv Hf Ha) as [_ ->]. done.
  - pose proof (waiting_set ts i WTest (if stopped p then WDone else WWait) Hi) as Hw.
    destruct m; try done; destruct Hst as [Hst Hle]; rewrite Hst in *; unfold waiting in *; simpl in *; split; (done || lia).
  - pose proof (waiting_set ts i WWait (WHold x) Hi) as Hw. rewrite Hq in Hst.
    destruct m; try done; destruct Hst as [Hst Hle]; unfold waiting in *; simpl in *; split; (done || lia).
  - pose proof (waiting_set ts i (WHold x) WTest Hi) as Hw.
    destruct (held_process x r w ts i Hinv Hi) as (w2 & Hrun & Hq & _). assert (w2 = w') as -> by congruence.
    rewrite Hq. destruct m; try done; destruct Hst as [Hst Hle]; unfold waiting in *; simpl in *; split; (done || lia).
  - destruct (complete_inv s x k o ops w _ Hinv Hs Ho Hx) as (p' & -> & _). rewrite length_app. simpl.
    destruct m; try done; destruct Hst; split; (done || lia).
  - split; [done|]. pose proof (waiting_le ts). lia.
  - destruct Hst. rewrite length_app. simpl. split; (done || lia).
  - destruct Hst. split; (done || lia).
  - destruct Hst. split; (done || lia).
Qed.

Lemma stop_reachable_inv st : reachable st → server_inv st ∧ stop_inv st.
Proof.
  intros (a & p & n & _ & Hr). eapply (rtc_invariant step (λ st, server_inv st ∧ stop_inv st)); [|split|exact Hr].
  - intros st1 st2 [H1 H2] H. split; [by eapply iocp_step_inv|by eapply stop_step_inv].
  - apply iocp_init_inv.
  - done.
Qed.

(** The steps a thread of the pool has left once the server is stopped. *)
Definition work_left (t : worker) : nat :=
  match t with WWait => 3 | WHold _ => 2 | WTest => 1 | WDone => 0 end.

Definition pool_left (ts : list worker) : nat := sum_list_with work_left ts.

(** A thread of the pool that has not ended can go on. *)
Lemma pool_progress st :
  server_inv st → stop_inv st → main st = MJoinPool → unposted st = 0 → ¬ Forall (λ t, t = WDone) (threadPool st) →
  ∃ st', step st st' ∧ main st' = MJoinPool ∧ unposted st' = 0 ∧ pool_left (threadPool st') < pool_left (threadPool st).
Proof.
  destruct st as [p w ts a m u]. unfold server_inv, stop_inv, packets. simpl. intros Hinv Hst -> -> Hnot.
  destruct Hst as [Hst Hle]. rewrite Nat.add_0_r in Hle.
  assert (∃ i t, ts !! i = Some t ∧ t ≠ WDone) as (i & t & Hi & Ht).
  { apply not_Forall_Exists in Hnot; [|apply _]. apply Exists_exists in Hnot as (t & Hin & Ht).
    apply list_elem_of_lookup in Hin as [i Hi]. by exists i, t. }
  assert (Hless : ∀ t', work_left t' < work_left t → pool_left (<[i := t']> ts) < pool_left ts).
  { intros t' Hlt. unfold pool_left. pose proof (sum_list_with_insert work_left ts i t t' Hi). lia. }
  destruct t as [| |x|]; [..|done].
  - eexists. split; [by eapply step_test|]. simpl. split_and!; try done. apply Hless. rewrite Hst. simpl. lia.
  - destruct (queue w) as [|x q] eqn:Hq.
    + exfalso. pose proof (sum_list_with_ge (λ t, if decide (t = WWait) then 1 else 0) ts i WWait Hi) as Hge.
      unfold waiting in Hle. simpl in Hge, Hle. lia.
    + eexists. split; [by eapply step_take|]. simpl. split_and!; try done. apply Hless. simpl. lia.
  - destruct (held_process x Done w ts i Hinv Hi) as (w' & Hrun & _).
    eexists. split; [by eapply step_process|]. simpl. split_and!; try done. apply Hless. simpl. lia.
Qed.

Lemma pool_ends n st :
  pool_left (threadPool st) ≤ n → server_inv st → stop_inv st → main st = MJoinPool → unposted st = 0 →
  ∃ st', rtc step st st' ∧ main st' = MStopped.
Proof.
  revert st. induction n as [n IH] using lt_wf_ind. intros st Hn Hinv Hst Hm Hu.
  destruct (decide (Forall (λ t, t = WDone) (threadPool st))) as [Hall|Hnot].
  - destruct st as [p w ts a m u]. simpl in *. subst. eexists. split; [apply rtc_once; by apply step_join|done].
  - destruct (pool_progress st Hinv Hst Hm Hu Hnot) as (st1 & Hstep & Hm1 & Hu1 & Hlt).
    destruct (IH (pool_left (threadPool st1))) with (st := st1) as (st' & Hr & Hd); try done; try lia.
    + by eapply iocp_step_inv.
    + by eapply stop_step_inv.
    + exists st'. split; [|done]. by eapply rtc_l.
Qed.

(** ** Properties *)

(** C27: The server echoes. Whatever the threads, the network and the failures do, what was
    sent on a connection is a prefix of what was received on it; and it is all of it whenever the
    server is receiving again. *)
Theorem echo_in_order st s k :
  reachable st → socks (wd st) !! s = Some k →
  sk_out k `prefix_of` sk_in k ∧ (∀ o, o ∈ sk_ops k → op_kind o = OPTION_RECV → sk_out k = sk_in k).
Proof.
  intros Hr Hk. apply iocp_reachable_inv in Hr as Hinv.
  destruct (wi_sock _ _ Hinv s k Hk) as (Hpre & _). split; [done|]. intros o Ho Hkind.
  destruct (sk_ops k) as [|o' ops] eqn:Hops; [by apply elem_of_nil in Ho|].
  destruct (op_owner _ _ _ _ _ _ Hinv Hk Hops) as (-> & _ & _ & _ & d & Hd & Hds).
  apply list_elem_of_singleton in Ho as ->.
  destruct (wi_client _ _ Hinv _ _ Hd) as (_ & _ & _ & _ & _ & k' & Hk' & _ & Hph & _).
  rewrite Hds in Hk'. assert (k' = k) as -> by congruence.
  inversion Hph as [? Ho ?|? ? Ho|? Ho|? ? Ho|Ho|Ho]; rewrite Hops in Ho; simplify_eq/=; done.
Qed.

(** C28: A context has at most one operation or packet, so at most one thread of the pool
    works on it; and the operations Windows has are within the buffer of a context that is
    registered, hence not destroyed. *)
Theorem one_operation_in_bounds st :
  reachable st →
  (∀ i c k, clientContexts (wd st) !! i = Some c → socks (wd st) !! cc_socket c = Some k →
     length (sk_ops k) + length (for_key i (packets st)) ≤ 1) ∧
  (∀ s k o, socks (wd st) !! s = Some k → o ∈ sk_ops k →
     ∃ c, clientContexts (wd st) !! op_context o = Some c ∧ cc_socket c = s ∧
       (0 ≤ op_off o)%Z ∧ (op_off o + op_len o ≤ Z.of_nat (length (buffer c)))%Z).
Proof.
  intros Hr. apply iocp_reachable_inv in Hr as Hinv. split.
  - intros i c k Hc Hk. destruct (wi_client _ _ Hinv _ _ Hc) as (_ & _ & _ & _ & _ & k' & Hk' & _ & Hph & _).
    assert (k' = k) as -> by congruence. inversion Hph as [? Ho| ? ? Ho | ? Ho | ? ? Ho | Ho | Ho]; rewrite Ho; simpl; lia.
  - intros s k o Hk Hin. destruct (sk_ops k) as [|o' ops] eqn:Hops; [by apply elem_of_nil in Hin|].
    destruct (op_owner _ _ _ _ _ _ Hinv Hk Hops) as (-> & _ & Hb1 & Hb2 & d & Hd & Hds).
    apply list_elem_of_singleton in Hin as ->. exists d. split_and!; try done.
    destruct (wi_client _ _ Hinv _ _ Hd) as (_ & _ & _ & Hlen & _). rewrite Hlen, Z2Nat.id; [done|].
    unfold BUFFER_SIZE. lia.
Qed.

(** C29: a connection whose operation fails is never given up: after the packet
    that reports the failure, its context stays registered and its socket open, with nothing
    pending, whatever happens next. *)
Theorem failed_operation_leaks p w ts i x r w' a m u c k st :
  reachable (mkServer p w ts a m u) → ts !! i = Some (WHold x) → pk_ok x = false →
  process x r w = (Ok tt, w') →
  clientContexts w !! pk_key x = Some c → socks w !! cc_socket c = Some k →
  rtc step (mkServer p w' (<[i := WTest]> ts) a m u) st →
  lost (pk_key x) c k st.
Proof.
  intros Hr Hi Hok Hp Hc Hk Hrt. apply iocp_reachable_inv in Hr as Hinv. unfold server_inv, packets in Hinv. simpl in Hinv.
  assert (w' = w) as ->. { unfold process in Hp. rewrite Hok in Hp. by injection Hp. }
  assert (Hst : step (mkServer p w ts a m u) (mkServer p w (<[i := WTest]> ts) a m u)).
  { apply (step_process p w ts i x r w a m u Hi). unfold process. by rewrite Hok. }
  eapply lost_forever; [eapply iocp_step_inv; [|exact Hst]; done| |exact Hrt].
  pose proof (inv_perm _ _ _ (held_perm (queue w) ts i x Hi) Hinv) as Hinv1.
  destruct (wi_client _ _ Hinv1 _ _ Hc) as (_ & _ & _ & _ & _ & k' & Hk' & Ho & Hph & _).
  assert (k' = k) as -> by congruence. rewrite for_key_cons_eq in Hph.
  unfold lost, packets. simpl. split_and!; try done.
  - rewrite (phase_one _ _ _ _ Hph) in Hph. by eapply phase_ops.
  - by eapply phase_one.
Qed.

(** C30: [stop] can always end once it has posted a packet for each thread: every thread
    of the pool ends and is joined, also those blocked on the port. *)
Theorem stop_ends st :
  reachable st → main st = MJoinPool → unposted st = 0 → ∃ st', rtc step st st' ∧ main st' = MStopped.
Proof.
  intros Hr Hm Hu. apply stop_reachable_inv in Hr as [Hinv Hst]. by eapply pool_ends.
Qed.

(** While an identifier is free [createClientContext] ends, with a new identifier that
    is not the one of the packets that stop the threads. *)
Theorem createClientContext_fresh socket w :
  (0 ≤ id w < 2 ^ 32)%Z → (Z.of_nat (size (clientContexts w)) < 2 ^ 32 - 1)%Z →
  ∃ k w', createClientContext socket w = (Ok (ClientContext_ClientContext k socket), w') ∧
    clientContexts w !! k = None ∧ k ≠ INVALID_CLIENT_CONTEXT_ID ∧ (0 ≤ k < 2 ^ 32)%Z ∧
    clientContexts w' = <[k := ClientContext_ClientContext k socket]> (clientContexts w).
Proof.
  intros Hid Hsz. pose proof (next_id_returns w Hid Hsz) as Hn.
  destruct (next_id (S (S (size (clientContexts w)))) w) as [res w1] eqn:E. simpl in Hn. subst res.
  assert (Hc : ∃ c w', createClientContext socket w = (Ok c, w')).
  { unfold createClientContext. unfold mbind at 1, M_bind at 1, get at 1. rewrite (bind_ok _ _ _ _ _ E). eauto. }
  destruct Hc as (c & w' & Hc). destruct (createClientContext_ok _ _ _ _ Hid Hc) as (k & -> & Hk & Hnone & Hne & ->).
  eexists k, _. split_and!; try done; lia.
Qed.

(** [start] gives up when the listening socket cannot be made, and leaves the port open; a
    second call is refused, since [started] stays set. *)
Theorem start_failure_leaks a h p :
  an_iocp a = Some h → an_socket a ≠ Some h → an_event a ≠ Some h →
  start a IOCP_IOCP = (Throw RuntimeError, p) → h ∈ handles p ∧ ∀ a', (start a' p).1 = Throw RuntimeError.
Proof.
  unfold start, CreateIOCP, CreateListenSocket, CreateAcceptEvent, CloseAcceptEvent, close_handle, obtain.
  intros Hh Hs He. rewrite Hh. run_m.
  destruct (an_socket a) as [s|], (an_bind a), (an_listen a), (an_event a) as [e|], (an_select a); simpl;
    intros [= <-]; (split; [|done]); simpl; set_solver.
Qed.

(** ** Witnesses *)

Definition sample_answers : start_answers := mkStart (Some 10%Z) (Some 11%Z) true true (Some 12%Z) true.
Definition sample_object : IOCP := mkIOCP true false (Some 10%Z) (Some 11%Z) (Some 12%Z) {[12%Z; 11%Z; 10%Z]}.

Lemma sample_start : start sample_answers IOCP_IOCP = (Ok tt, sample_object).
Proof. reflexivity. Qed.

(** One thread in the pool. *)
Definition sample (w : world) (t : worker) : server := mkServer sample_object w [t] ATest MRun 0.

Lemma sample_reachable : reachable (sample world_init WTest).
Proof. exists sample_answers, sample_object, 1. split; [apply sample_start|done]. Qed.

Lemma reachable_step st st' : reachable st → rtc step st st' → reachable st'.
Proof. intros (a & p & n & H1 & H2) H. exists a, p, n. split; [done|]. by etrans. Qed.

Lemma sample_accept w s r :
  (∀ k, socks w !! s = Some k → sk_open k = false) →
  (acceptConnection (Accepted s true r) w).1 = Ok tt →
  rtc step (sample w WTest) (sample (acceptConnection (Accepted s true r) w).2 WTest).
Proof.
  intros Hf H. eapply rtc_l; [apply step_accept_test|]. eapply rtc_once, (step_accept _ _ _ _ _ (Events true 0 (Accepted s true r))).
  - exact Hf.
  - change (acceptConnection (Accepted s true r) w = (Ok tt, (acceptConnection (Accepted s true r) w).2)).
    rewrite <- H. by destruct (acceptConnection _ _).
Qed.

(** An operation completes and the thread takes the packet. *)
Lemma sample_complete w s k o x p :
  queue w = [] → socks w !! s = Some k → sk_ops k = [o] → completion_ok o x → queue (complete s x w) = [p] →
  rtc step (sample w WTest) (sample (set_queue [] (complete s x w)) (WHold p)).
Proof.
  intros Hq Hk Ho Hx Hp. eapply rtc_l; [by eapply step_complete|].
  eapply rtc_l; [exact (step_test sample_object _ [WTest] 0 ATest MRun 0 eq_refl)|]. apply rtc_once.
  exact (step_take sample_object _ [WWait] 0 p [] ATest MRun 0 eq_refl Hp).
Qed.

Lemma sample_process w p r :
  server_inv (sample w (WHold p)) →
  rtc step (sample w (WHold p)) (sample (process p r w).2 WTest).
Proof.
  intros Hinv. destruct (held_process p r w [WHold p] 0 Hinv eq_refl) as (w' & H & _).
  apply rtc_once. rewrite H. exact (step_process sample_object w [WHold p] 0 p r w' ATest MRun 0 eq_refl H).
Qed.

Definition w_accepted : world := (acceptConnection (Accepted 20 true (SocketError WSA_IO_PENDING)) world_init).2.
Definition w_received : world := set_queue [] (complete 20 (Received (str "hi")) w_accepted).
Definition w_sending : world := (process (mkPacket true 2 0) Done w_received).2.
Definition w_sent : world := set_queue [] (complete 20 (Sent 2) w_sending).
Definition w_again : world := (process (mkPacket true 2 0) Done w_sent).2.
Definition w_failed : world := set_queue [] (complete 20 Failed w_again).

Lemma accepted_reachable : reachable (sample w_accepted WTest).
Proof.
  eapply reachable_step; [apply sample_reachable|].
  apply sample_accept; [intros k Hk; discriminate Hk|reflexivity].
Qed.

Lemma received_reachable : reachable (sample w_received (WHold (mkPacket true 2 0))).
Proof.
  eapply reachable_step; [apply accepted_reachable|].
  eapply sample_complete; try reflexivity. split; [done|by vm_compute].
Qed.

Lemma sending_reachable : reachable (sample w_sending WTest).
Proof.
  eapply reachable_step; [apply received_reachable|]. apply sample_process, iocp_reachable_inv, received_reachable.
Qed.

Lemma sent_reachable : reachable (sample w_sent (WHold (mkPacket true 2 0))).
Proof.
  eapply reachable_step; [apply sending_reachable|].
  eapply sample_complete; try reflexivity. split; [done|by vm_compute].
Qed.

Lemma again_reachable : reachable (sample w_again WTest).
Proof.
  eapply reachable_step; [apply sent_reachable|]. apply sample_process, iocp_reachable_inv, sent_reachable.
Qed.

Lemma failed_reachable : reachable (sample w_failed (WHold (mkPacket false 0 0))).
Proof.
  eapply reachable_step; [apply again_reachable|]. by eapply sample_complete.
Qed.

Lemma again_sock : socks w_again !! 20%Z = Some (mkSock true (Some 0%Z) [mkOp OPTION_RECV 0 0 BUFFER_SIZE] (str "hi") (str "hi")).
Proof. reflexivity. Qed.

Lemma echo_in_order_witness :
  ∃ st k, reachable st ∧ socks (wd st) !! 20%Z = Some k ∧ sk_in k = str "hi" ∧ sk_out k = sk_in k.
Proof.
  exists (sample w_again WTest), (mkSock true (Some 0%Z) [mkOp OPTION_RECV 0 0 BUFFER_SIZE] (str "hi") (str "hi")).
  split; [apply again_reachable|]. split; [apply again_sock|]. split; [reflexivity|].
  destruct (echo_in_order _ 20%Z _ again_reachable again_sock) as [_ H].
  apply (H (mkOp OPTION_RECV 0 0 BUFFER_SIZE)); [apply list_elem_of_here|reflexivity].
Defined.

Lemma one_operation_in_bounds_witness :
  reachable (sample w_again WTest) ∧
  ∃ c, clientContexts w_again !! 0%Z = Some c ∧ cc_socket c = 20%Z ∧ (BUFFER_SIZE ≤ Z.of_nat (length (buffer c)))%Z.
Proof.
  split; [apply again_reachable|].
  destruct (one_operation_in_bounds _ again_reachable) as [_ H].
  destruct (H 20%Z _ (mkOp OPTION_RECV 0 0 BUFFER_SIZE) again_sock (list_elem_of_here _ _)) as (c & Hc & Hs & _ & Hb).
  exists c. split; [exact Hc|]. split; [exact Hs|exact Hb].
Defined.

Lemma failed_sock : socks w_failed !! 20%Z = Some (mkSock true (Some 0%Z) [] (str "hi") (str "hi")).
Proof. reflexivity. Qed.

(** The owner of an open socket, by its completion key. *)
Lemma keyed_owner w l s k i :
  world_inv w l → socks w !! s = Some k → sk_open k = true → sk_key k = Some i →
  ∃ c, clientContexts w !! i = Some c ∧ cc_socket c = s.
Proof.
  intros Hinv Hk Ho Hi. destruct (wi_sock _ _ Hinv s k Hk) as (_ & _ & Hown).
  destruct (Hown Ho) as (j & c & Hc & Hs).
  destruct (wi_client _ _ Hinv _ _ Hc) as (_ & _ & _ & _ & _ & k' & Hk' & _ & _ & Hkey).
  assert (k' = k) as -> by congruence. exists c. destruct Hkey as [|[? _]]; [|congruence].
  assert (j = i) as -> by congruence. done.
Qed.

Lemma failed_operation_leaks_witness :
  ∃ c k, lost 0 c k (sample w_failed WTest) ∧ sk_out k = str "hi".
Proof.
  destruct (keyed_owner _ _ _ _ 0%Z (iocp_reachable_inv _ failed_reachable) failed_sock eq_refl eq_refl) as (c & Hc & Hs).
  exists c, (mkSock true (Some 0%Z) [] (str "hi") (str "hi")). split; [|reflexivity].
  refine (failed_operation_leaks sample_object w_failed [WHold (mkPacket false 0 0)] 0 (mkPacket false 0 0) Done w_failed
    ATest MRun 0 c _ _ failed_reachable eq_refl eq_refl eq_refl Hc _ (rtc_refl _ _)).
  simpl in Hs. rewrite Hs. exact failed_sock.
Defined.

(** The thread waits on the port when the server is stopped. *)
Definition stopping : server :=
  mkServer (set_stopped sample_object) (set_queue [stop_packet] world_init) [WWait] ADone MJoinPool 0.

Lemma stopping_reachable : reachable stopping.
Proof.
  eapply reachable_step; [apply sample_reachable|].
  eapply rtc_l; [exact (step_test sample_object world_init [WTest] 0 ATest MRun 0 eq_refl)|].
  eapply rtc_l; [apply step_stop|]. eapply rtc_l; [apply step_accept_test|].
  eapply rtc_l; [apply step_join_accept|]. eapply rtc_l; [apply step_post|]. apply rtc_once, step_posted.
Qed.

Lemma stop_ends_witness : main stopping = MJoinPool ∧ ∃ st', rtc step stopping st' ∧ main st' = MStopped.
Proof. split; [reflexivity|]. exact (stop_ends stopping stopping_reachable eq_refl eq_refl). Defined.

(** The identifier 1 is passed over. *)
Lemma createClientContext_fresh_witness :
  ∃ w', createClientContext 20 (set_id 1 world_init) = (Ok (ClientContext_ClientContext 2 20), w') ∧
    clientContexts w' = {[2%Z := ClientContext_ClientContext 2 20]}.
Proof.
  destruct (createClientContext_fresh 20 (set_id 1 world_init)) as (k & w' & H & _ & _ & _ & Hc).
  - simpl. lia.
  - vm_compute. reflexivity.
  - assert (Hk : k = 2%Z) by (apply (f_equal fst) in H; apply (f_equal (λ r, match r with Ok c => cc_id c | _ => 0%Z end)) in H; symmetry; exact H).
    subst k. exists w'. split; [exact H|exact Hc].
Defined.
