(* ===== verification/EchoClient.v ===== *)
(** * The client of the echo server (linux_programming/socket/client/use_poll/main.cpp)

    It sends what is typed, without the line ends, and shows what the server answers.  The loop
    has no end of its own while the server is there: the fuel is its number of turns. *)

From S2P Require Import Prelude CppString Posix RefKernel.

Definition READ_SIZE : nat := 512.
Definition LINE_FEED : ascii := chr 10.

Section client.
  Context {K : Type} `{!Kernel K, !StreamKernel K}.

(** [shown] is what was printed.  [entered] is not in the code: it records what each read of the
    standard input gave. *)
Record Client := mkClient { ckern : K; shown : list bytes; entered : list bytes }.

Definition set_ckern k s := mkClient k (shown s) (entered s).
Definition show (t : bytes) : M Client unit := modify (λ s, mkClient (ckern s) (shown s ++ [t]) (entered s)).
Definition enter (t : bytes) : M Client unit := modify (λ s, mkClient (ckern s) (shown s) (entered s ++ [t])).

(** A call whose failure is thrown. *)
Definition client_call {A} (f : K → outcome A * K) : M Client A :=
  o ← zoom ckern set_ckern (syscall f); match o with inl _ => throw RuntimeError | inr a => mret a end.

(** [std::string(&buf[0])] of a vector one byte longer than what is read. *)
Definition client_Read (fd : Z) : M Client bytes :=
  bs ← client_call (sys_read fd READ_SIZE);
  match c_str (filled (S READ_SIZE) bs) with Some t => mret t | None => undef end.

Definition client_Write (fd : Z) (s : bytes) : M Client bytes :=
  n ← client_call (sys_write fd s);
  mret (drop n s).

Definition client_Connect (ip : bytes) (port : Z) : M Client Z :=
  fd ← client_call sys_socket;
  match lib_inet_pton ip with
  | None => throw RuntimeError
  | Some a => client_call (sys_connect fd a (htons port));; mret fd
  end.

(** [r.erase(std::remove(r.begin(), r.end(), '\n'), r.end())]. *)
Definition strip (s : bytes) : bytes := filter (λ c, c ≠ LINE_FEED) s.

(** The local variables of the loop: the events asked of the socket, and [r]. *)
Record Turn := mkTurn { t_events : Z; t_r : bytes }.

Definition typed_text (ready : bool) (st : Turn) : M Client Turn :=
  if ready then
    t ← client_Read STDIN_FILENO;
    enter t;;
    let r := strip (t_r st ++ t) in
    mret (mkTurn (if bool_decide (r = []) then t_events st else Z.lor (t_events st) POLLOUT) r)
  else mret st.

(** [false]: the server has closed the connection. *)
Definition show_answer (ready : bool) (fd : Z) : M Client bool :=
  if ready then
    s ← client_Read fd;
    if bool_decide (s = []) then show (str "peer closed");; mret false
    else show (str ">" ++ s);; mret true
  else mret true.

Definition send_text (ready : bool) (fd : Z) (st : Turn) : M Client Turn :=
  if ready then
    r ← client_Write fd (t_r st);
    show (str "<" ++ take (length (t_r st) - length r) (t_r st));;
    mret (mkTurn (if bool_decide (r = []) then Z.land (t_events st) (Z.lnot POLLOUT) else t_events st) r)
  else mret st.

(** One turn of the loop of [Run]; [None]: it is left. *)
Definition client_turn (fd : Z) (st : Turn) : M Client (option Turn) :=
  revents ← client_call (sys_poll [(STDIN_FILENO, POLLIN); (fd, t_events st)] 3000);
  let r0 := default 0%Z (revents !! 0) in
  let r1 := default 0%Z (revents !! 1) in
  st ← typed_text (negb (r0 =? 0)%Z) st;
  go ← show_answer (has_flag r1 POLLIN) fd;
  if go : bool then st ← send_text (has_flag r1 POLLOUT) fd st; mret (Some st)
  else mret None.

Fixpoint client_loop (fuel : nat) (fd : Z) (st : Turn) : M Client unit :=
  match fuel with
  | O => lift OutOfFuel
  | S fuel =>
      o ← client_turn fd st;
      match o with None => mret tt | Some st => client_loop fuel fd st end
  end.

Definition client_Run (fuel : nat) : M Client unit :=
  fd ← client_Connect (str "127.0.0.1") 5666;
  client_loop fuel fd (mkTurn POLLIN []).

Definition client_main (fuel : nat) : M Client unit := try_catch (client_Run fuel) (mret tt).
End client.
Arguments Client K : clear implicits.

(** ** Lemmas *)

Lemma strip_app s t : strip (s ++ t) = strip s ++ strip t.
Proof. apply filter_app. Qed.

Lemma strip_id s : LINE_FEED ∉ s → strip s = s.
Proof.
  unfold strip. induction s as [|c s IH]; [done|]. rewrite not_elem_of_cons. intros [Hc Hs].
  rewrite filter_cons_True by congruence. by rewrite IH.
Qed.

Lemma strip_no_feed s : LINE_FEED ∉ strip s.
Proof. intros [H _]%list_elem_of_filter. done. Qed.

Section laws.
  Context {K : Type} `{!Kernel K, !KernelLaws K, !StreamKernel K, !StreamLaws K}.
  Context (fd : Z).

(** From [s] with [r] unsent to [s'] with [r']: what was entered in between, stripped, was sent
    after [r], up to [r']. *)
Definition passed (r : bytes) (s : Client K) (r' : bytes) (s' : Client K) : Prop :=
  ∃ l, entered s' = entered s ++ l ∧
    sent fd (ckern s') ++ r' = sent fd (ckern s) ++ r ++ strip (concat l).

Lemma passed_refl r s s' :
  entered s' = entered s → sent fd (ckern s') = sent fd (ckern s) → passed r s r s'.
Proof. intros He Hs. exists []. by rewrite Hs, !app_nil_r. Qed.

Lemma passed_trans r0 s0 r1 s1 r2 s2 : passed r0 s0 r1 s1 → passed r1 s1 r2 s2 → passed r0 s0 r2 s2.
Proof.
  intros (l1 & E1 & S1) (l2 & E2 & S2). exists (l1 ++ l2). split; [by rewrite E2, E1, app_assoc|].
  by rewrite S2, (app_assoc (sent fd (ckern s1))), S1, concat_app, strip_app, <- !app_assoc.
Qed.

(** A program that passes on: it runs into no undefined behaviour, and [f] gives, for its
    result, what is unsent, where the result tells. *)
Definition passes {A} (r : bytes) (m : M (Client K) A) (f : A → option bytes) : Prop :=
  ∀ s o s', m s = (o, s') →
    o ≠ Undef ∧ ∃ r', passed r s r' s' ∧ match o with Ok a => f a = None ∨ f a = Some r' | _ => True end.

Lemma passes_bind {A B} r (m : M (Client K) A) f (g : A → M (Client K) B) h :
  passes r m f → (∀ a r', f a = None ∨ f a = Some r' → passes r' (g a) h) → passes r (mbind g m) h.
Proof.
  intros Hm Hg s o s' Hr. unfold mbind, M_bind in Hr.
  destruct (m s) as [[a|e| |] s1] eqn:E; pose proof (Hm _ _ _ E) as (Hu & r1 & Hp & Hf);
    try (injection Hr as <- <-; split; [done|by exists r1]).
  destruct (Hg a r1 Hf _ _ _ Hr) as (Hu2 & r2 & Hp2 & Hf2). split; [done|]. exists r2.
  split; [by eapply passed_trans|done].
Qed.

(** A statement that leaves what is unsent alone. *)
Lemma passes_then {A B} r (m : M (Client K) A) (g : A → M (Client K) B) h :
  passes r m (λ _, Some r) → (∀ a, passes r (g a) h) → passes r (mbind g m) h.
Proof. intros Hm Hg. eapply passes_bind; [exact Hm|]. intros a r' [|[= <-]]; [done|apply Hg]. Qed.

Lemma passes_ret {A} r (a : A) f : f a = None ∨ f a = Some r → passes r (mret a) f.
Proof. intros H s o s' [= <- <-]. split; [done|]. exists r. split; [by apply passed_refl|done]. Qed.

Lemma passes_show r t : passes r (show t) (λ _, Some r).
Proof. intros s o s' [= <- <-]. split; [done|]. exists r. split; [by apply passed_refl|by right]. Qed.

Lemma passes_call {A} r (f : K → outcome A * K) :
  (∀ k o k', f k = (o, k') → sent fd k' = sent fd k) → passes r (client_call f) (λ _, Some r).
Proof.
  intros Hf s o s'. unfold client_call, zoom, syscall, mbind, M_bind.
  destruct (f (ckern s)) as [x k'] eqn:E. apply Hf in E. simpl.
  destruct x; intros [= <- <-]; (split; [done|]; exists r; split; [by apply passed_refl|by simpl; auto]).
Qed.

Lemma passes_read r d : passes r (client_Read d) (λ _, Some r).
Proof.
  intros s o s'. unfold client_Read, client_call, zoom, syscall, mbind, M_bind.
  destruct (sys_read d READ_SIZE (ckern s)) as [[e|bs] k'] eqn:E;
    pose proof (read_frame _ _ _ _ _ E) as (_ & _ & Hs).
  - intros [= <- <-]. split; [done|]. exists r. split; [by apply passed_refl; simpl|by simpl; auto].
  - apply read_len in E. destruct (c_str_terminated READ_SIZE bs E) as [t Ht].
    unfold mret, M_ret. rewrite Ht. intros [= <- <-].
    split; [done|]. exists r. split; [by apply passed_refl; simpl|by simpl; auto].
Qed.

Definition fresh_text (r : bytes) : Prop := LINE_FEED ∉ r.

Lemma passes_typed ready st :
  fresh_text (t_r st) → passes (t_r st) (typed_text ready st) (λ st, Some (t_r st)).
Proof.
  intros Hr. destruct ready; [|by apply passes_ret; right].
  unfold typed_text. apply passes_then; [apply passes_read|intros t].
  intros s o s' [= <- <-]. split; [done|]. eexists. split; [|by right]. exists [t]. split; [done|]. simpl.
  by rewrite strip_app, (strip_id (t_r st)), app_nil_r.
Qed.

Lemma passes_answer r ready : passes r (show_answer ready fd) (λ _, Some r).
Proof.
  destruct ready; [|by apply passes_ret; right]. unfold show_answer.
  apply passes_then; [apply passes_read|intros t].
  case_bool_decide; (apply passes_then; [apply passes_show|intros _; by apply passes_ret; right]).
Qed.

Lemma passes_send ready st : passes (t_r st) (send_text ready fd st) (λ st, Some (t_r st)).
Proof.
  destruct ready; [|by apply passes_ret; right]. unfold send_text.
  eapply (passes_bind _ _ Some); [|intros r r' [|[= ->]]; [done|apply passes_then; [apply passes_show|intros _; by apply passes_ret; right]]].
  intros s o s'. unfold client_Write, client_call, zoom, syscall, mbind, M_bind.
  destruct (sys_write fd (t_r st) (ckern s)) as [[e|n] k'] eqn:E.
  - apply write_err in E. intros [= <- <-]. split; [done|]. exists (t_r st). split; [by apply passed_refl|done].
  - apply write_ok in E as (Hn & _ & Hs). intros [= <- <-]. split; [done|]. eexists. split; [|by right].
    exists []. split; [by rewrite app_nil_r|]. simpl. by rewrite Hs, <- app_assoc, take_drop, app_nil_r.
Qed.

(** ** The state of the loop *)

(** The text unsent holds no line end, and the socket is watched for writing exactly when
    there is some. *)
Definition turn_ok (st : Turn) : Prop :=
  fresh_text (t_r st) ∧ has_flag (t_events st) POLLOUT = negb (bool_decide (t_r st = [])).

Lemma turn_ok_init : turn_ok (mkTurn POLLIN []).
Proof. split; [apply not_elem_of_nil|reflexivity]. Qed.

Lemma has_flag_set ev : has_flag (Z.lor ev POLLOUT) POLLOUT = true.
Proof.
  unfold has_flag. apply negb_true_iff, Z.eqb_neq. intros H.
  assert (Hb : Z.testbit (Z.land (Z.lor ev POLLOUT) POLLOUT) 2 = true).
  { by rewrite Z.land_spec, Z.lor_spec, orb_true_r. }
  by rewrite H in Hb.
Qed.

Lemma has_flag_clear ev : has_flag (Z.land ev (Z.lnot POLLOUT)) POLLOUT = false.
Proof.
  unfold has_flag. by rewrite <- Z.land_assoc, Z.land_0_r.
Qed.

Lemma typed_ok ready st s st' s' :
  turn_ok st → typed_text ready st s = (Ok st', s') → turn_ok st'.
Proof.
  intros [Hr Hev]. destruct ready; [|by intros [= <- _]]. unfold typed_text. intros H.
  apply bind_inv_ok in H as (t & s1 & _ & [= <- _]). split; simpl; [apply strip_no_feed|].
  destruct (decide (strip (t_r st ++ t) = [])) as [He|He].
  - rewrite !(bool_decide_eq_true_2 (strip _ = [])) by done. rewrite Hev.
    rewrite strip_app in He. apply app_nil in He as [He _]. rewrite strip_id in He by done. by rewrite He.
  - rewrite !(bool_decide_eq_false_2 (strip _ = [])) by done. apply has_flag_set.
Qed.

Lemma send_ok ready fd0 st s st' s' :
  turn_ok st → send_text ready fd0 st s = (Ok st', s') → turn_ok st'.
Proof.
  intros [Hr Hev]. destruct ready; [|by intros [= <- _]]. unfold send_text. intros H.
  apply bind_inv_ok in H as (r & s1 & Hw & H). injection H as <- _.
  apply bind_inv_ok in Hw as (n & s2 & _ & [= <- _]).
  assert (Hd : fresh_text (drop n (t_r st))).
  { intros Hin. apply Hr. rewrite <- (take_drop n (t_r st)). apply elem_of_app. by right. }
  split; simpl; [done|]. destruct (decide (drop n (t_r st) = [])) as [He|He].
  - rewrite !(bool_decide_eq_true_2 (drop _ _ = [])) by done. apply has_flag_clear.
  - rewrite !(bool_decide_eq_false_2 (drop _ _ = [])) by done. rewrite Hev.
    by rewrite bool_decide_eq_false_2 by (intros E; by rewrite E, drop_nil in He).
Qed.

Lemma turn_keeps st s o s' :
  turn_ok st → client_turn fd st s = (Ok o, s') → match o with Some st' => turn_ok st' | None => True end.
Proof.
  intros Hst H. unfold client_turn in H.
  apply bind_inv_ok in H as (rv & s1 & _ & H).
  apply bind_inv_ok in H as (st1 & s2 & H1 & H). apply typed_ok in H1; [|done].
  apply bind_inv_ok in H as (go & s3 & _ & H). destruct go; [|by injection H as <- _].
  apply bind_inv_ok in H as (st2 & s4 & H2 & H). apply send_ok in H2; [|done]. by injection H as <- _.
Qed.

Lemma passes_turn st : turn_ok st → passes (t_r st) (client_turn fd st) (fmap t_r).
Proof.
  intros [Hr _]. unfold client_turn.
  apply passes_then; [apply passes_call; intros k o k' E; by eapply poll_sent|intros rv].
  eapply passes_bind; [by apply passes_typed|intros st1 r' [|[= <-]]; [done|]].
  apply passes_then; [apply passes_answer|intros [|]]; [|by apply passes_ret; left].
  eapply passes_bind; [apply passes_send|intros st2 r2 [|[= <-]]; [done|]]. by apply passes_ret; right.
Qed.

Lemma passes_loop fuel st : turn_ok st → passes (t_r st) (client_loop fuel fd st) (λ _, None).
Proof.
  revert st. induction fuel as [|n IH]; intros st Hst; cbn [client_loop].
  { intros s o s' [= <- <-]. split; [done|]. exists (t_r st). split; [by apply passed_refl|done]. }
  intros s o s' H. unfold mbind, M_bind in H.
  destruct (client_turn fd st s) as [[x|e| |] s1] eqn:E;
    destruct (passes_turn st Hst _ _ _ E) as (Hu & r1 & Hp & Hx);
    try (injection H as <- <-; split; [done|by exists r1]).
  destruct x as [st1|]; [|injection H as <- <-; split; [done|exists r1; by auto]].
  apply turn_keeps in E; [|done]. destruct Hx as [|[= <-]]; [done|].
  destruct (IH _ E _ _ _ H) as (Hu2 & r2 & Hp2 & _). split; [done|]. exists r2.
  split; [by eapply passed_trans|by destruct o; auto].
Qed.
End laws.

(** ** Properties *)

(** After any number of turns, however the loop ends, the client has sent what was
    entered, in order and without the line ends, but for a rest it still has; nothing it does is
    undefined. *)
Theorem client_sends_entered {K} `{!Kernel K, !KernelLaws K, !StreamKernel K, !StreamLaws K} fuel fd s o s' :
  client_loop fuel fd (mkTurn POLLIN []) s = (o, s') →
  o ≠ Undef ∧ ∃ l rest, entered s' = entered s ++ l ∧ sent fd (ckern s') ++ rest = sent fd (ckern s) ++ strip (concat l).
Proof.
  intros H. apply (passes_loop fd) in H as (Hu & r & (l & He & Hs) & _); [|apply turn_ok_init]. eauto.
Qed.

(** A turn keeps the socket watched for writing exactly while there is text to send, so that
    nothing entered stays behind and no turn is woken in vain. *)
Theorem client_turn_armed {K} `{!Kernel K, !KernelLaws K, !StreamKernel K, !StreamLaws K} fd st s st' s' :
  turn_ok st → client_turn fd st s = (Ok (Some st'), s') → turn_ok st'.
Proof. intros Hst H. by apply turn_keeps in H. Qed.

(** ** Witnesses *)

(** "hi there" is entered on two lines; the connection takes three bytes at once. *)
Definition entering : Client ref_kernel :=
  mkClient (mkRef {[0; 5]}%Z ∅ {[0%Z := [str "hi" ++ [LINE_FEED]; str "there" ++ [LINE_FEED]]]} {[5%Z := 3]} ∅ []
    [[(0, POLLIN)]; [(0, POLLIN); (5, POLLOUT)]]%Z) [] [].

Lemma client_sends_entered_witness :
  let s' := (client_loop 2 5 (mkTurn POLLIN []) entering).2 in
  sent 5%Z (ckern s') = str "hit" ∧
  ∃ l rest, entered s' = l ∧ str "hit" ++ rest = strip (concat l).
Proof.
  intros s'. assert (Hs : sent 5%Z (ckern s') = str "hit") by (vm_compute; reflexivity). split; [exact Hs|].
  destruct (client_sends_entered 2 5%Z entering (client_loop 2 5 (mkTurn POLLIN []) entering).1 s') as (_ & l & rest & He & Hr).
  - apply surjective_pairing.
  - exists l, rest. split; [exact He|]. rewrite Hs in Hr. exact Hr.
Defined.

Lemma client_turn_armed_witness :
  turn_ok (mkTurn POLLIN []) ∧ turn_ok (mkTurn (Z.lor POLLIN POLLOUT) (str "hi")).
Proof.
  pose proof turn_ok_init as H0. split; [exact H0|].
  eapply (client_turn_armed (K := ref_kernel) 5%Z (mkTurn POLLIN []) entering _ (client_turn 5 (mkTurn POLLIN []) entering).2 H0).
  vm_compute. reflexivity.
Defined.
