(* ===== verification/Udp.v ===== *)
(** * The UDP echo programs (socket/udp)

    The client of unicast/client/main.cpp in its two versions (connected, the one that is
    compiled, and not), the broadcasting client and the server of unicast/server/main.cpp.
    The operating system is a record of operations; [net] below is a network that joins one
    client to the server, each running the code of its program.  A call that blocks for ever
    is [OutOfFuel]. *)

From S2P Require Import Prelude CppString Posix.

Definition MAXLINE : Z := 65535 - 8.

(** An address and a port, in network byte order. *)
Definition sockaddr : Type := (Z * Z)%type.

Definition SO_BROADCAST : Z := 6.
Definition SOL_SOCKET_LEVEL : Z := 1.

(** The calls the programs make; a call may block for ever. *)
Record Datagrams (K : Type) := mkDatagrams {
  dg_socket : M K (outcome Z);
  dg_bind : Z → sockaddr → M K (outcome unit);
  dg_connect : Z → sockaddr → M K (outcome unit);
  dg_setsockopt : Z → Z → Z → Z → M K (outcome unit);
  dg_write : Z → bytes → M K (outcome Z);
  dg_read : Z → Z → M K (outcome bytes);
  dg_sendto : Z → bytes → sockaddr → M K (outcome Z);
  dg_recvfrom : Z → Z → M K (outcome (bytes * sockaddr));
  dg_inet_aton : bytes → option Z
}.
Arguments dg_socket {K}.
Arguments dg_bind {K}.
Arguments dg_connect {K}.
Arguments dg_setsockopt {K}.
Arguments dg_write {K}.
Arguments dg_read {K}.
Arguments dg_sendto {K}.
Arguments dg_recvfrom {K}.
Arguments dg_inet_aton {K}.

(** ** Text *)

Definition LF : ascii := chr 10.

(** [fgets] with room for [n] characters and the terminator: up to the line end, which is kept. *)
Fixpoint fgets (n : Z) (input : bytes) : bytes * bytes :=
  match input with
  | [] => ([], [])
  | c :: t =>
      if (n <=? 0)%Z then ([], input)
      else if Ascii.eqb c LF then ([c], t)
      else let '(l, r) := fgets (n - 1) t in (c :: l, r)
  end.

(** The C string at the start of an array that holds [s] and then a zero. *)
Fixpoint cut (s : bytes) : bytes :=
  match s with
  | [] => []
  | c :: s => if Ascii.eqb c Ascii.zero then [] else c :: cut s
  end.

(** ** The programs *)

(** What the standard input holds and what was written to the standard output. *)
Record Proc (K : Type) := mkProc { pk : K; pin : bytes; pout : bytes }.
Arguments mkProc {K}.
Arguments pk {K}.
Arguments pin {K}.
Arguments pout {K}.

Section programs.
  Context {K : Type} (os : Datagrams K).

Definition set_pk (k : K) (p : Proc K) : Proc K := mkProc k (pin p) (pout p).
Definition set_pin (i : bytes) (p : Proc K) : Proc K := mkProc (pk p) i (pout p).
Definition fputs (t : bytes) : M (Proc K) unit := modify (λ p, mkProc (pk p) (pin p) (pout p ++ t)).

(** A call whose failure is thrown: the wrappers [Socket], [Connect], [Write], ... *)
Definition thrown {A} (m : M K (outcome A)) : M (Proc K) A :=
  o ← zoom pk set_pk m; match o with inl _ => throw RuntimeError | inr a => mret a end.

Definition udp_Socket : M (Proc K) Z := thrown (dg_socket os).
Definition udp_Connect (fd : Z) (a : sockaddr) : M (Proc K) unit := thrown (dg_connect os fd a).
Definition udp_Write (fd : Z) (s : bytes) : M (Proc K) Z := thrown (dg_write os fd s).
Definition udp_Read (fd n : Z) : M (Proc K) bytes := thrown (dg_read os fd n).
Definition udp_SendTo (fd : Z) (s : bytes) (a : sockaddr) : M (Proc K) Z := thrown (dg_sendto os fd s a).
Definition udp_RecvFrom (fd n : Z) : M (Proc K) (bytes * sockaddr) := thrown (dg_recvfrom os fd n).
Definition udp_Setsockopt (fd level optname v : Z) : M (Proc K) unit := thrown (dg_setsockopt os fd level optname v).

Definition SetServAddr (servIp : bytes) (servPort : Z) : M (Proc K) sockaddr :=
  match dg_inet_aton os servIp with
  | None => throw RuntimeError
  | Some a => mret (a, htons (u16 servPort))
  end.

Definition udp_Bind (fd : Z) (addr : bytes) (port : Z) : M (Proc K) unit :=
  match dg_inet_aton os addr with
  | None => throw RuntimeError
  | Some a => thrown (dg_bind os fd (a, htons (u16 port)))
  end.

(** [while (fgets(sendline, MAXLINE, fp) != nullptr)] with the body of the three clients; the
    fuel is spent on lines. *)
Fixpoint dg_loop (fuel : nat) (send : bytes → M (Proc K) unit) (receive : M (Proc K) bytes) : M (Proc K) unit :=
  match fuel with
  | O => lift OutOfFuel
  | S fuel =>
      p ← get;
      match pin p with
      | [] => mret tt
      | _ :: _ =>
          let '(sendline, rest) := fgets (MAXLINE - 1) (pin p) in
          modify (set_pin rest);;
          send (cut sendline);;
          recvline ← receive;
          fputs (cut recvline);;
          dg_loop fuel send receive
      end
  end.

(** [DgCli] with [CONNECT]. *)
Definition DgCli_connected (fuel : nat) (sockfd : Z) (servaddr : sockaddr) : M (Proc K) unit :=
  udp_Connect sockfd servaddr;;
  dg_loop fuel (λ s, udp_Write sockfd s;; mret tt) (udp_Read sockfd MAXLINE).


(** [DgCli] of the broadcasting client. *)
Definition DgCli_broadcast (fuel : nat) (sockfd : Z) (servaddr : sockaddr) : M (Proc K) unit :=
  udp_Setsockopt sockfd SOL_SOCKET_LEVEL SO_BROADCAST 1;;
  dg_loop fuel (λ s, udp_SendTo sockfd s servaddr;; mret tt) (r ← udp_RecvFrom sockfd MAXLINE; mret r.1).

(** The text of an exception, which is printed, is not kept. *)
Definition udp_client_main (DgCli : nat → Z → sockaddr → M (Proc K) unit) (fuel : nat) (args : list bytes)
    : M (Proc K) unit :=
  try_catch (
    match args with
    | [_; servIp; port] =>
        servPort ← lift (stoi port);
        servaddr ← SetServAddr servIp servPort;
        sockfd ← udp_Socket;
        DgCli fuel sockfd servaddr
    | _ => throw RuntimeError
    end) (mret tt).

(** main of the broadcasting client. *)
Definition udp_broadcast_main (fuel : nat) (args : list bytes) : M (Proc K) unit :=
  udp_client_main DgCli_broadcast fuel args.

(** A turn of the loop of [DgEcho]. *)
Definition DgEcho_turn (sockfd : Z) : M (Proc K) unit :=
  r ← udp_RecvFrom sockfd MAXLINE;
  udp_SendTo sockfd r.1 r.2;; mret tt.

Fixpoint DgEcho (fuel : nat) (sockfd : Z) : M (Proc K) unit :=
  match fuel with O => lift OutOfFuel | S fuel => DgEcho_turn sockfd;; DgEcho fuel sockfd end.

Definition udp_server_main (fuel : nat) (args : list bytes) : M (Proc K) unit :=
  try_catch (
    match args with
    | [_; port] =>
        serverPort ← lift (stoi port);
        sockfd ← udp_Socket;
        udp_Bind sockfd (str "0.0.0.0") serverPort;;
        DgEcho fuel sockfd
    | _ => throw RuntimeError
    end) (mret tt).
End programs.

(** ** The text of an address *)

(** What a sockaddr holds, by its family; [sun_path] is the whole array. *)
Inductive any_sockaddr :=
  | AfInet (sin_addr : bytes)
  | AfInet6 (sin6_addr : bytes)
  | AfUnix (sun_path : bytes)
  | AfOther (sa_family : Z).

Definition AF_INET : Z := 2.
Definition AF_INET6 : Z := 10.

(** The size of [str] in SockNtopHost. *)
Definition host_size : nat := 128.

(** SockNtopHost of the broadcasting client, which nothing calls.  [inet_ntop] fails when the text does not fit the
    size it is given; snprintf cuts it. *)
Definition SockNtopHost (inet_ntop : Z → bytes → nat → option bytes) (sa : any_sockaddr) : result bytes :=
  match sa with
  | AfInet a => match inet_ntop AF_INET a host_size with None => Throw RuntimeError | Some s => Ok s end
  | AfInet6 a => match inet_ntop AF_INET6 a host_size with None => Throw RuntimeError | Some s => Ok s end
  | AfUnix path =>
      if bool_decide (head path = Some Ascii.zero) then Ok (str "(no pathname bound)")
      else match c_str path with None => Undef | Some s => Ok (take (host_size - 1) s) end
  | AfOther _ => Throw RuntimeError
  end.

(** The text and its terminator fit the buffer. *)
Lemma SockNtopHost_fits inet_ntop sa s :
  (∀ af a n t, inet_ntop af a n = Some t → length t < n) →
  SockNtopHost inet_ntop sa = Ok s → length s < host_size.
Proof.
  intros Hn. unfold SockNtopHost, host_size. destruct sa as [a|a|path|f]; [..|done].
  1,2: destruct (inet_ntop _ a _) eqn:E; intros [= <-]; by apply Hn in E.
  case_bool_decide; [intros [= <-]; simpl; lia|]. destruct (c_str path); intros [= <-]. rewrite length_take. lia.
Qed.

(** A path that fills its array has no terminator, and snprintf reads past it. *)
Lemma SockNtopHost_long_path inet_ntop path :
  path ≠ [] → Ascii.zero ∉ path → SockNtopHost inet_ntop (AfUnix path) = Undef.
Proof.
  intros Hne Hz. unfold SockNtopHost. rewrite (c_str_None path Hz). case_bool_decide as Hh; [|done].
  destruct path as [|c path]; [done|]. simplify_eq/=. set_solver.
Qed.

(** ** A network with the server on it *)

(** The most an IPv4 datagram can carry: 65535 less the 20 bytes of the IP and the 8 of the UDP
    header. *)
Definition MAX_PAYLOAD : Z := 65535 - 20 - 8.
Definition EMSGSIZE : Z := 90.

(** The datagrams on their way to the server, with their senders, and to the client; [fate]: which
    of the next datagrams are lost. *)
Record net := mkNet {
  to_server : list (bytes * sockaddr);
  to_client : list bytes;
  fate : list bool
}.

Definition client_addr : sockaddr := (16777343, 4096)%Z.
Definition server_addr : sockaddr := (16777343, 36895)%Z.

(** A datagram is sent, lost when its fate says so. *)
Definition transmit (s : bytes) (deliver : net → net) : M net (outcome Z) := λ k,
  if (MAX_PAYLOAD <? Z.of_nat (length s))%Z then (Ok (inl EMSGSIZE), k)
  else
    let k1 := mkNet (to_server k) (to_client k) (tail (fate k)) in
    (Ok (inr (Z.of_nat (length s))), if default false (head (fate k)) then k1 else deliver k1).

Definition unused {K A} : M K (outcome A) := mret (inl EBADF).

Definition server_os : Datagrams net := {|
  dg_socket := mret (inr 3%Z);
  dg_bind _ _ := mret (inr tt);
  dg_connect _ _ := mret (inr tt);
  dg_setsockopt _ _ _ _ := mret (inr tt);
  dg_write _ _ := unused;
  dg_read _ _ := unused;
  dg_sendto _ s _ := transmit s (λ k, mkNet (to_server k) (to_client k ++ [s]) (fate k));
  dg_recvfrom _ n := λ k,
    match to_server k with
    | [] => (OutOfFuel, k)
    | (s, a) :: q => (Ok (inr (take (Z.to_nat n) s, a)), mkNet q (to_client k) (fate k))
    end;
  dg_inet_aton _ := Some 0%Z
|}.

(** The client waits for its answer while the server works: the server serves what has come. *)
Definition await (n : Z) : M net (outcome bytes) := λ k,
  let k := match to_client k with
           | [] => pk (DgEcho_turn server_os 3 (mkProc k [] [])).2
           | _ => k
           end in
  match to_client k with
  | [] => (OutOfFuel, k)
  | s :: q => (Ok (inr (take (Z.to_nat n) s)), mkNet (to_server k) q (fate k))
  end.

Definition request (s : bytes) : M net (outcome Z) :=
  transmit s (λ k, mkNet (to_server k ++ [(s, client_addr)]) (to_client k) (fate k)).

Definition client_os : Datagrams net := {|
  dg_socket := mret (inr 3%Z);
  dg_bind _ _ := mret (inr tt);
  dg_connect _ _ := mret (inr tt);
  dg_setsockopt _ _ _ _ := mret (inr tt);
  dg_write _ s := request s;
  dg_read _ n := await n;
  dg_sendto _ s _ := request s;
  dg_recvfrom _ n := λ k, let '(r, k) := await n k in
    (match r with Ok (inr s) => Ok (inr (s, server_addr)) | Ok (inl e) => Ok (inl e)
     | Throw e => Throw e | Undef => Undef | OutOfFuel => OutOfFuel end, k);
  dg_inet_aton _ := Some 16777343%Z
|}.

(** ** Lemmas on text *)

Lemma fgets_line n b rest :
  LF ∉ b → (Z.of_nat (length b) < n)%Z → fgets n (b ++ LF :: rest) = (b ++ [LF], rest).
Proof.
  revert n. induction b as [|c b IH]; intros n Hb Hn; cbn [app fgets].
  { destruct (Z.leb_spec n 0); [simpl in Hn; lia|]. by rewrite Ascii.eqb_refl. }
  apply not_elem_of_cons in Hb as [Hc Hb]. cbn [length] in Hn.
  destruct (Z.leb_spec n 0); [lia|]. destruct (Ascii.eqb_spec c LF); [congruence|].
  rewrite IH by (done || lia). done.
Qed.


Lemma cut_id s : Ascii.zero ∉ s → cut s = s.
Proof.
  induction s as [|c s IH]; [done|]. rewrite not_elem_of_cons. intros [Hc Hs]. cbn [cut].
  destruct (Ascii.eqb_spec c Ascii.zero); [congruence|]. by rewrite IH.
Qed.




(** ** The exchange of one line *)

Definition lost (f : list bool) : bool := default false (head f).

(** What the loop of the clients needs of the two calls they make, on the network. *)
Class Exchange (send : bytes → M (Proc net) unit) (receive : M (Proc net) bytes) : Prop := {
  exchange_send s f i o : (Z.of_nat (length s) ≤ MAX_PAYLOAD)%Z →
    send s (mkProc (mkNet [] [] f) i o) =
    (Ok tt, mkProc (mkNet (if lost f then [] else [(s, client_addr)]) [] (tail f)) i o);
  exchange_send_long s k i o : (MAX_PAYLOAD < Z.of_nat (length s))%Z →
    send s (mkProc k i o) = (Throw RuntimeError, mkProc k i o);
  exchange_receive s f i o : (Z.of_nat (length s) ≤ MAX_PAYLOAD)%Z →
    receive (mkProc (mkNet [(s, client_addr)] [] f) i o) =
    (if lost f then OutOfFuel else Ok s, mkProc (mkNet [] [] (tail f)) i o);
  exchange_block f i o :
    receive (mkProc (mkNet [] [] f) i o) = (OutOfFuel, mkProc (mkNet [] [] f) i o)
}.

Lemma take_payload (s : bytes) : (Z.of_nat (length s) ≤ MAX_PAYLOAD)%Z → take (Z.to_nat MAXLINE) s = s.
Proof. intros H. apply take_ge. unfold MAX_PAYLOAD, MAXLINE in *. lia. Qed.

Lemma request_run s f : (Z.of_nat (length s) ≤ MAX_PAYLOAD)%Z →
  request s (mkNet [] [] f) =
  (Ok (inr (Z.of_nat (length s))), mkNet (if lost f then [] else [(s, client_addr)]) [] (tail f)).
Proof.
  intros H. unfold request, transmit, lost. cbn [fate to_server to_client].
  destruct (Z.ltb_spec MAX_PAYLOAD (Z.of_nat (length s))); [lia|]. by destruct (default false (head f)).
Qed.

Lemma request_long s k : (MAX_PAYLOAD < Z.of_nat (length s))%Z → request s k = (Ok (inl EMSGSIZE), k).
Proof. intros H. unfold request, transmit. destruct (Z.ltb_spec MAX_PAYLOAD (Z.of_nat (length s))); [done|lia]. Qed.

Arguments MAXLINE : simpl never.
Arguments MAX_PAYLOAD : simpl never.

Lemma await_run s f : (Z.of_nat (length s) ≤ MAX_PAYLOAD)%Z →
  await MAXLINE (mkNet [(s, client_addr)] [] f) =
  (if lost f then OutOfFuel else Ok (inr s), mkNet [] [] (tail f)).
Proof.
  intros H. unfold await. cbn [to_client].
  assert (E : DgEcho_turn server_os 3 (mkProc (mkNet [(s, client_addr)] [] f) [] []) =
    (Ok tt, mkProc (mkNet [] (if lost f then [] else [s]) (tail f)) [] [])).
  { unfold DgEcho_turn, udp_RecvFrom, udp_SendTo, thrown, zoom, mbind, M_bind. cbn [server_os dg_recvfrom dg_sendto pk to_server].
    unfold mret, M_ret. cbn [set_pk pk pin pout fst snd fate to_client]. rewrite take_payload by done.
    unfold transmit. cbn [fate to_server to_client].
    destruct (Z.ltb_spec MAX_PAYLOAD (Z.of_nat (length s))); [lia|]. unfold lost.
    by destruct (default false (head f)). }
  rewrite E. cbn [snd pk to_client]. destruct (lost f); [done|]. by rewrite take_payload.
Qed.

Lemma await_block f : await MAXLINE (mkNet [] [] f) = (OutOfFuel, mkNet [] [] f).
Proof. done. Qed.

#[global] Instance connected_exchange fd : Exchange (λ s, udp_Write client_os fd s;; mret tt) (udp_Read client_os fd MAXLINE).
Proof.
  split; intros; unfold udp_Write, udp_Read, thrown, zoom, mbind, M_bind; cbn [client_os dg_write dg_read pk].
  - by rewrite request_run.
  - by rewrite request_long.
  - rewrite await_run by done. by destruct (lost f).
  - by rewrite await_block.
Qed.

#[global] Instance unconnected_exchange fd a : Exchange (λ s, udp_SendTo client_os fd s a;; mret tt)
  (r ← udp_RecvFrom client_os fd MAXLINE; mret r.1).
Proof.
  split; intros; unfold udp_SendTo, udp_RecvFrom, thrown, zoom, mbind, M_bind; cbn [client_os dg_sendto dg_recvfrom pk].
  - by rewrite request_run.
  - by rewrite request_long.
  - rewrite await_run by done. by destruct (lost f).
  - by rewrite await_block.
Qed.



(** ** Properties *)


(** A line longer than a datagram can carry, which the buffer of [MAXLINE] bytes still holds,
    ends the client with the rest of the input unread. *)
Theorem udp_long_line_ends b rest k o fuel fd a :
  (LF ∉ b) → (Ascii.zero ∉ b) → (MAX_PAYLOAD ≤ Z.of_nat (length b) < MAXLINE - 1)%Z →
  DgCli_connected client_os (S fuel) fd a (mkProc k (b ++ LF :: rest) o) = (Throw RuntimeError, mkProc k rest o).
Proof.
  intros Hl Hz Hlen. unfold DgCli_connected. unfold mbind at 1, M_bind at 1.
  change (udp_Connect client_os fd a (mkProc k (b ++ LF :: rest) o)) with ((Ok tt, mkProc k (b ++ LF :: rest) o) : result unit * Proc net).
  cbn [dg_loop]. unfold mbind at 1, M_bind at 1, get. cbn [pin]. rewrite fgets_line by (done || lia).
  destruct (b ++ LF :: rest) as [|c r] eqn:E; [by destruct b|].
  unfold mbind at 1, M_bind at 1, modify. unfold set_pin. cbn [pk pout].
  rewrite cut_id by (rewrite not_elem_of_app, list_elem_of_singleton; by split).
  unfold mbind at 1, M_bind at 1.
  rewrite (exchange_send_long (send := λ s, udp_Write client_os fd s;; mret tt)
    (receive := udp_Read client_os fd MAXLINE)); [done|].
  rewrite length_app. simpl. lia.
Qed.

(** ** Witnesses *)




Lemma udp_long_line_ends_witness :
  ∃ b, (DgCli_connected client_os 1 3 server_addr (mkProc (mkNet [] [] []) (b ++ [LF]) [])).1 = Throw RuntimeError.
Proof.
  exists (replicate (Z.to_nat MAX_PAYLOAD) (chr 97)).
  rewrite (udp_long_line_ends (replicate (Z.to_nat MAX_PAYLOAD) (chr 97)) [] (mkNet [] [] []) [] 0 3 server_addr).
  - reflexivity.
  - intros [H _]%elem_of_replicate. discriminate H.
  - intros [H _]%elem_of_replicate. discriminate H.
  - rewrite length_replicate, Z2Nat.id by (unfold MAX_PAYLOAD; lia). unfold MAX_PAYLOAD, MAXLINE. lia.
Defined.
