(* ===== verification/ReadDemos.v ===== *)
(** * The read loops (linux_programming/read/nonblock_read and linux_programming/epoll)

    Nine programs read a little buffer at a time from the standard input or from two pipes, each
    waiting in its own way: poll, select, epoll by level or by edge, or a loop over a descriptor that
    does not block.  A tenth closes the descriptor it waits for.  Their loops have no end of their own:
    the fuel is the number of turns. *)

From S2P Require Import Prelude CppString Posix RefKernel.

Definition MAX_EVENTS : nat := 10.
Definition bufSize : nat := 3.
Definition O_CREAT : Z := 64.

(** [creat] with a mode; [popen] of a command for reading and [fileno] of the stream. *)
Class PipeKernel (K : Type) := {
  sys_creat : bytes → Z → K → outcome Z * K;
  lib_popen : bytes → K → outcome Z * K
}.

Section demos.
  Context {K : Type} `{!Kernel K, !StreamKernel K, !PipeKernel K}.
  Context (strerror : Z → bytes).

(** The kernel, and what was printed. *)
Record Demo := mkDemo { dkern : K; printed : list bytes }.

Definition set_dkern k s := mkDemo k (printed s).
Definition say (t : bytes) : M Demo unit := modify (λ s, mkDemo (dkern s) (printed s ++ [t])).
Definition demo_call {A} (f : K → outcome A * K) : M Demo (outcome A) := zoom dkern set_dkern (syscall f).
Definition demo_check {A} (o : outcome A) : M Demo A := match o with inl _ => throw RuntimeError | inr a => mret a end.
Definition error_line (info : bytes) (code : Z) : bytes := GetErrorMsg strerror info code.

(** [&buf[0]] as a C string, where [buf] is a vector of [vecSize] bytes into which [bs] was read. *)
Definition buf_text (vecSize : nat) (bs : bytes) : M Demo bytes :=
  match c_str (filled vecSize bs) with Some t => mret t | None => undef end.

(** A loop of at most so many turns; a turn tells whether to go on. *)
Fixpoint turns (fuel : nat) (turn : M Demo bool) : M Demo unit :=
  match fuel with
  | O => lift OutOfFuel
  | S fuel => go ← turn; if go : bool then turns fuel turn else mret tt
  end.

(** ** The epoll class *)

Definition Epoll_Init : M Demo Z := o ← demo_call sys_epoll_create; demo_check o.

Definition Epoll_Add (ep fd eventMask : Z) : M Demo unit :=
  o ← demo_call (sys_epoll_ctl_add ep fd eventMask); demo_check o.

(** Again while a signal interrupts it. *)
Fixpoint Epoll_Wait (fuel : nat) (ep timeoutMs : Z) : M Demo (list (Z * Z)) :=
  match fuel with
  | O => lift OutOfFuel
  | S fuel =>
      o ← demo_call (sys_epoll_wait ep MAX_EVENTS timeoutMs);
      match o with
      | inl code => if (code =? EINTR)%Z then say (str "timeout");; Epoll_Wait fuel ep timeoutMs else throw RuntimeError
      | inr evs => mret evs
      end
  end.

Definition SetNonBlocking (fd : Z) : M Demo unit :=
  o ← demo_call (sys_fcntl fd F_GETFL 0);
  let flags := match o with inl _ => (-1)%Z | inr flags => flags end in
  _ ← demo_call (sys_fcntl fd F_SETFL (Z.lor flags O_NONBLOCK));
  mret tt.

(** ** Reading from two pipes *)

Definition CreateFile (filePath : bytes) : M Demo unit :=
  o ← demo_call (sys_creat filePath O_CREAT);
  match o with
  | inl code => say (error_line (str "creat failed, filePath: " ++ [chr 34] ++ filePath ++ [chr 34]) code)
  | inr _ => mret tt
  end.

Definition GetTailCommand (filePath : bytes) : bytes := str "tail -f " ++ filePath.

Definition Popen (command : bytes) : M Demo Z := o ← demo_call (lib_popen command); demo_check o.

(** The head of [Run]: the descriptors of the two pipes. *)
Definition open_tails : M Demo (Z * Z) :=
  let filePath1 := str "/tmp/1.txt" in
  let filePath2 := str "/tmp/2.txt" in
  CreateFile filePath1;; CreateFile filePath2;;
  fd1 ← Popen (GetTailCommand filePath1);
  fd2 ← Popen (GetTailCommand filePath2);
  mret (fd1, fd2).

Definition angled (t : bytes) (fd : Z) : bytes := t ++ str "<" ++ to_string fd ++ str ">".

(** One read, by level. *)
Definition GetInput (fd : Z) : M Demo unit :=
  o ← demo_call (sys_read fd bufSize);
  match o with
  | inr [] => say (angled (str "eof") fd)
  | inl code => say (error_line (str "read failed" ++ to_string fd) code)
  | inr bs => t ← buf_text bufSize bs; say (angled (str "input") fd ++ str ": " ++ t)
  end.

(** Reads until there is nothing more, by edge. *)
Fixpoint GetInput_edge (fuel : nat) (fd : Z) (s : bytes) : M Demo unit :=
  match fuel with
  | O => lift OutOfFuel
  | S fuel =>
      o ← demo_call (sys_read fd bufSize);
      match o with
      | inr [] => say (str "eof")
      | inl code =>
          if (code =? EAGAIN)%Z then say (error_line (str "read to end") code);; say (str "input: " ++ s)
          else say (error_line (str "read failed") code)
      | inr bs => t ← buf_text bufSize bs; GetInput_edge fuel fd (s ++ t)
      end
  end.

Definition pipe_edge_turn (fuel : nat) (ep : Z) : M Demo bool :=
  evs ← Epoll_Wait fuel ep 1000;
  (match evs with
   | [] => say (str "timeout")
   | _ => for_each (λ ev, GetInput_edge fuel ev.1 []) evs
   end);;
  mret true.

Definition pipe_edge_Run (fuel : nat) : M Demo unit :=
  '(fd1, fd2) ← open_tails;
  ep ← Epoll_Init;
  Epoll_Add ep fd1 (Z.lor EPOLLIN EPOLLET);; Epoll_Add ep fd2 (Z.lor EPOLLIN EPOLLET);;
  SetNonBlocking fd1;; SetNonBlocking fd2;;
  turns fuel (pipe_edge_turn fuel ep).

Definition pipe_level_turn (fuel : nat) (ep : Z) : M Demo bool :=
  evs ← Epoll_Wait fuel ep 1000;
  (match evs with
   | [] => say (str "timeout")
   | _ => for_each (λ ev, GetInput ev.1) evs
   end);;
  mret true.

Definition pipe_level_Run (fuel : nat) : M Demo unit :=
  '(fd1, fd2) ← open_tails;
  ep ← Epoll_Init;
  Epoll_Add ep fd1 EPOLLIN;; Epoll_Add ep fd2 EPOLLIN;;
  turns fuel (pipe_level_turn fuel ep).

(** [rv > 0]: some descriptor has events. *)
Definition some_events (revents : list Z) : bool := existsb (λ r, negb (r =? 0)%Z) revents.

Definition pipe_poll_turn (fd1 fd2 : Z) : M Demo bool :=
  o ← demo_call (sys_poll [(fd1, POLLIN); (fd2, POLLIN)] 1000);
  match o with
  | inl code => say (error_line (str "poll failed") code);; mret false
  | inr revents =>
      (if some_events revents then
         when (negb (default 0%Z (revents !! 0%nat) =? 0)%Z) (GetInput fd1);;
         when (negb (default 0%Z (revents !! 1%nat) =? 0)%Z) (GetInput fd2)
       else say (str "timeout"));;
      mret true
  end.

Definition pipe_poll_Run (fuel : nat) : M Demo unit :=
  '(fd1, fd2) ← open_tails;
  turns fuel (pipe_poll_turn fd1 fd2).

Definition pipe_select_turn (fd1 fd2 : Z) : M Demo bool :=
  o ← demo_call (sys_select (fd2 + 1) {[fd1; fd2]} ∅);
  match o with
  | inl code => say (error_line (str "select failed") code);; mret false
  | inr (fdSet, _) =>
      (if bool_decide (fdSet ≠ ∅) then
         when (bool_decide (fd1 ∈ fdSet)) (GetInput fd1);;
         when (bool_decide (fd2 ∈ fdSet)) (GetInput fd2)
       else say (str "timeout"));;
      mret true
  end.

Definition pipe_select_Run (fuel : nat) : M Demo unit :=
  '(fd1, fd2) ← open_tails;
  turns fuel (pipe_select_turn fd1 fd2).

(** ** Reading from the standard input *)

(** One read when there is input; [false] at the end of it. *)
Definition read_input (fd : Z) : M Demo bool :=
  o ← demo_call (sys_read fd bufSize);
  match o with
  | inr [] => say (str "eof");; mret false
  | inl code => say (error_line (str "read failed") code);; mret true
  | inr bs => t ← buf_text bufSize bs; say (str "input: " ++ t);; mret true
  end.

Definition stdin_poll_turn : M Demo bool :=
  let fd := STDIN_FILENO in
  o ← demo_call (sys_poll [(fd, POLLIN)] 1000);
  match o with
  | inr revents => if some_events revents then read_input fd else say (str "timeout");; mret true
  | inl code => say (error_line (str "poll failed") code);; mret false
  end.

Definition stdin_poll_Run (fuel : nat) : M Demo unit := turns fuel stdin_poll_turn.

Definition stdin_select_turn : M Demo bool :=
  let fd := STDIN_FILENO in
  o ← demo_call (sys_select (fd + 1) {[fd]} ∅);
  match o with
  | inr (fdSet, _) => if bool_decide (fdSet ≠ ∅) then read_input fd else say (str "timeout");; mret true
  | inl code => say (error_line (str "select failed") code);; mret false
  end.

Definition stdin_select_Run (fuel : nat) : M Demo unit := turns fuel stdin_select_turn.

Definition stdin_level_turn (fuel : nat) (ep : Z) : M Demo bool :=
  let fd := STDIN_FILENO in
  evs ← Epoll_Wait fuel ep 1000;
  match evs with [] => say (str "timeout");; mret true | _ => read_input fd end.

Definition stdin_level_Run (fuel : nat) : M Demo unit :=
  ep ← Epoll_Init;
  Epoll_Add ep STDIN_FILENO EPOLLIN;;
  turns fuel (stdin_level_turn fuel ep).

(** This program's [Epoll::Wait] waits again after a timeout, too. *)
Fixpoint Epoll_Wait_input (fuel : nat) (ep timeoutMs : Z) : M Demo (list (Z * Z)) :=
  match fuel with
  | O => lift OutOfFuel
  | S fuel =>
      o ← demo_call (sys_epoll_wait ep MAX_EVENTS timeoutMs);
      match o with
      | inl code =>
          if (code =? EINTR)%Z then say (str "timeout");; Epoll_Wait_input fuel ep timeoutMs else throw RuntimeError
      | inr [] => say (str "timeout");; Epoll_Wait_input fuel ep timeoutMs
      | inr evs => mret evs
      end
  end.

(** The inner loop; [false] where it returns from [Run]. *)
Fixpoint read_input_edge (fuel : nat) (fd : Z) (s : bytes) : M Demo bool :=
  match fuel with
  | O => lift OutOfFuel
  | S fuel =>
      o ← demo_call (sys_read fd bufSize);
      match o with
      | inr [] => say (str "eof");; mret false
      | inl code =>
          if (code =? EAGAIN)%Z then
            say (error_line (str "read to end") code);; say (str "input: " ++ s);; mret true
          else say (error_line (str "read failed") code);; mret false
      | inr bs => t ← buf_text bufSize bs; read_input_edge fuel fd (s ++ t)
      end
  end.

Definition stdin_edge_turn (fuel : nat) (ep : Z) : M Demo bool :=
  evs ← Epoll_Wait_input fuel ep 1000;
  read_input_edge fuel STDIN_FILENO [].

Definition stdin_edge_Run (fuel : nat) : M Demo unit :=
  ep ← Epoll_Init;
  Epoll_Add ep STDIN_FILENO (Z.lor EPOLLIN EPOLLET);;
  SetNonBlocking STDIN_FILENO;;
  turns fuel (stdin_edge_turn fuel ep).

(** No waiting at all: the vector is one byte longer than what is read. *)
Definition stdin_loop_turn : M Demo bool :=
  let fd := STDIN_FILENO in
  o ← demo_call (sys_read fd bufSize);
  match o with
  | inl code => say (error_line (if (code =? EAGAIN)%Z then str "no data" else str "read failed") code);; mret true
  | inr [] => say (str "eof");; mret false
  | inr bs =>
      if (Z.of_nat (length bs) =? EAGAIN)%Z then say (error_line (str "no data") 0);; mret true
      else t ← buf_text (bufSize + 1) bs; say (str "input: " ++ t);; mret true
  end.

Definition stdin_loop_Run (fuel : nat) : M Demo unit :=
  SetNonBlocking STDIN_FILENO;;
  turns fuel stdin_loop_turn.

(** ** Waiting for a closed descriptor *)

Definition GetInput_closed (fd : Z) : M Demo unit :=
  o ← demo_call (sys_read fd bufSize);
  match o with
  | inr [] => say (angled (str "eof") fd)
  | inl _ => throw RuntimeError
  | inr bs => t ← buf_text bufSize bs; say (angled (str "input") fd ++ str ": " ++ t)
  end.

Definition CloseFile (fd : Z) : M Demo unit :=
  o ← demo_call (sys_close fd);
  match o with
  | inl code => say (error_line (str "close failed" ++ to_string fd) code)
  | inr _ => mret tt
  end.

Definition closed_turn (fuel : nat) (ep : Z) : M Demo bool :=
  evs ← Epoll_Wait fuel ep 1000;
  (match evs with
   | [] => say (str "timeout")
   | _ => for_each (λ ev, GetInput_closed ev.1) evs
   end);;
  mret true.

Definition closed_Run (fuel : nat) : M Demo unit :=
  ep ← Epoll_Init;
  Epoll_Add ep STDIN_FILENO EPOLLIN;;
  CloseFile STDIN_FILENO;;
  turns fuel (closed_turn fuel ep).

(** [main] of every program; the text of the exception is not kept. *)
Definition demo_main (Run : M Demo unit) : M Demo unit := try_catch Run (say (str "exception: ")).
End demos.
Arguments Demo K : clear implicits.

(** ** Lemmas *)

#[local] Arguments buf_text : simpl never.

Section lemmas.
  Context {K : Type} `{!Kernel K, !KernelLaws K, !StreamKernel K, !PipeKernel K}.
  Context (strerror : Z → bytes).

Lemma demo_call_eq {A} (f : K → outcome A * K) o k' (s : Demo K) :
  f (dkern s) = (o, k') → demo_call f s = (Ok o, mkDemo k' (printed s)).
Proof. intros H. unfold demo_call, zoom, syscall. by rewrite H. Qed.

(** The two loops by edge differ in what they tell the caller. *)
Lemma GetInput_edge_eq fuel fd t (s : Demo K) :
  GetInput_edge strerror fuel fd t s = (read_input_edge strerror fuel fd t;; mret tt) s.
Proof.
  revert t s. induction fuel as [|fuel IH]; intros t s; [done|]. cbn [GetInput_edge read_input_edge].
  unfold mbind, M_bind. destruct (sys_read fd bufSize (dkern s)) as [o k'] eqn:E.
  rewrite (demo_call_eq _ o k' s E). destruct o as [code|[|b bs]]; simpl; [by case_match|done|].
  unfold buf_text. destruct (c_str _); [|done]. simpl. rewrite IH. done.
Qed.

Lemma read_input_edge_text fuel fd t (s : Demo K) bss eof k' :
  reads bufSize fd (dkern s) bss eof k' →
  Forall (λ bs, length bs < bufSize ∧ Ascii.zero ∉ bs) bss → length bss < fuel →
  read_input_edge strerror fuel fd t s =
    (Ok (negb eof), mkDemo k' (printed s ++ if eof then [str "eof"]
       else [error_line strerror (str "read to end") EAGAIN; str "input: " ++ t ++ concat bss])).
Proof.
  destruct s as [k p]. simpl. intros Hr. revert t fuel.
  induction Hr as [k k' H|k k' H|k bs k1 bss eof k' H Hne Hr IH];
    intros t [|fuel] Hall Hf; simpl in *; try lia; unfold mbind, M_bind;
    (rewrite (demo_call_eq _ _ _ (mkDemo k p) H)); simpl.
  - rewrite <- app_assoc, app_nil_r. done.
  - done.
  - apply Forall_cons in Hall as [[Hl Hz] Hall]. destruct bs as [|b bs]; [done|]. unfold buf_text.
    rewrite (filled_short bufSize (b :: bs)) by done. simpl. rewrite IH by (done || lia).
    do 2 f_equal. destruct eof; [done|]. by rewrite <- (app_assoc t).
Qed.

Lemma full_text bs : length bs = bufSize → Ascii.zero ∉ bs → ∀ s : Demo K, buf_text bufSize bs s = (Undef, s).
Proof. intros Hl Hz s. unfold buf_text. by rewrite filled_full. Qed.

(** ** Properties *)

(** Reading by edge shows everything there is to read as one text, however the kernel cuts it into reads of one
    or two bytes; but at the end of the input what was read before it is not shown. *)
Theorem edge_input_shown fuel fd (s : Demo K) bss eof k' :
  reads bufSize fd (dkern s) bss eof k' →
  Forall (λ bs, length bs < bufSize ∧ Ascii.zero ∉ bs) bss → length bss < fuel →
  let lines := if eof then [str "eof"]
    else [error_line strerror (str "read to end") EAGAIN; str "input: " ++ concat bss] in
  GetInput_edge strerror fuel fd [] s = (Ok tt, mkDemo k' (printed s ++ lines)) ∧
  read_input_edge strerror fuel fd [] s = (Ok (negb eof), mkDemo k' (printed s ++ lines)).
Proof.
  intros Hr Hall Hf lines. pose proof (read_input_edge_text fuel fd [] s bss eof k' Hr Hall Hf) as H.
  split; [|done]. rewrite GetInput_edge_eq. unfold mbind, M_bind. by rewrite H.
Qed.

(** A read that fills the three bytes of the buffer with text leaves it without a terminator: every program but the
    one that only loops then reads beyond it. *)
Theorem full_read_undefined fuel fd bs k' t (s : Demo K) :
  sys_read fd bufSize (dkern s) = (inr bs, k') → length bs = bufSize → Ascii.zero ∉ bs →
  (read_input strerror fd s).1 = Undef ∧ (GetInput strerror fd s).1 = Undef ∧
  (GetInput_closed fd s).1 = Undef ∧
  (read_input_edge strerror (S fuel) fd t s).1 = Undef ∧ (GetInput_edge strerror (S fuel) fd t s).1 = Undef.
Proof.
  intros H Hl Hz. destruct bs as [|b bs]; [done|].
  split_and!; cbn [read_input GetInput GetInput_closed read_input_edge GetInput_edge];
    unfold read_input, GetInput, GetInput_closed, mbind, M_bind; rewrite (demo_call_eq _ _ _ s H);
    by rewrite full_text.
Qed.

(** One turn of the program that only loops. *)
Lemma loop_turn_defined (s : Demo K) :
  ∃ b s', stdin_loop_turn strerror s = (Ok b, s') ∧ (b = false → last (printed s') = Some (str "eof")).
Proof.
  unfold stdin_loop_turn, mbind, M_bind. destruct (sys_read STDIN_FILENO bufSize (dkern s)) as [o k'] eqn:E.
  rewrite (demo_call_eq _ o k' s E). destruct o as [code|[|b bs]]; simpl.
  - eexists _, _. by split.
  - eexists _, _. split; [done|]. intros _. simpl. by rewrite last_snoc.
  - apply read_len in E. case_match; [by eexists _, _|].
    destruct (c_str_terminated bufSize (b :: bs) E) as [t Ht].
    assert (Hb : ∀ x : Demo K, buf_text 4 (b :: bs) x = (Ok t, x)); [|rewrite Hb; by eexists _, _].
    intros x. unfold buf_text. change 4 with (S bufSize). by rewrite Ht.
Qed.

(** C34: The program that only loops leaves a byte for the terminator: whatever is read and for however long, nothing it
    does is undefined, it throws nothing, and it ends only at the end of the input. *)
Theorem loop_reads_in_bounds fuel (s : Demo K) r s' :
  demo_main (stdin_loop_Run strerror fuel) s = (r, s') →
  (r = OutOfFuel ∨ r = Ok tt) ∧ (r = Ok tt → last (printed s') = Some (str "eof")).
Proof.
  assert (Hg : ∀ n (s : Demo K), ∃ r s', turns n (stdin_loop_turn strerror) s = (r, s') ∧
    (r = OutOfFuel ∨ r = Ok tt) ∧ (r = Ok tt → last (printed s') = Some (str "eof"))).
  { intros n. induction n as [|n IH]; intros x; simpl.
    - eexists _, _. split; [done|]. split; [by left|done].
    - destruct (loop_turn_defined x) as (b & x1 & Hx & Hb). unfold mbind, M_bind. rewrite Hx.
      destruct b; [apply IH|]. eexists _, _. split; [done|]. split; [by right|auto]. }
  unfold demo_main, try_catch, stdin_loop_Run, SetNonBlocking, mbind, M_bind.
  destruct (sys_fcntl STDIN_FILENO F_GETFL 0 (dkern s)) as [o k1] eqn:E1. rewrite (demo_call_eq _ _ _ s E1).
  set (flags := Z.lor _ _).
  destruct (sys_fcntl STDIN_FILENO F_SETFL flags k1) as [o2 k2] eqn:E2.
  rewrite (demo_call_eq _ _ _ (mkDemo k1 (printed s)) E2). simpl.
  destruct (Hg fuel (mkDemo k2 (printed s))) as (r0 & s0 & -> & Hr & Hl).
  destruct Hr as [-> | ->]; intros [= <- <-]; split; auto.
Qed.

(** A descriptor that was closed is never read: when the wait reports it, the read fails and ends the
    program with an exception. *)
Theorem closed_never_reads fuel ep fd m evs k k1 p :
  fd ∈ fds k → sys_epoll_wait ep MAX_EVENTS 1000 (sys_close fd k).2 = (inr ((fd, m) :: evs), k1) →
  ∃ k2, (CloseFile strerror fd;; turns (S fuel) (closed_turn (S fuel) ep)) (mkDemo k p)
    = (Throw RuntimeError, mkDemo k2 p).
Proof.
  intros Hfd Hw. destruct (close_ok fd k Hfd) as (k0 & Hc & Hf & _). rewrite Hc in Hw. simpl in Hw.
  destruct (epoll_wait_frame _ _ _ _ _ _ Hw) as [Hf1 _].
  pose proof (read_bad fd bufSize k1 ltac:(set_solver)) as Hr.
  destruct (sys_read fd bufSize k1) as [o k2] eqn:E. simpl in Hr. subst o. exists k2.
  assert (Ht : closed_turn (S fuel) ep (mkDemo k0 p) = (Throw RuntimeError, mkDemo k2 p)).
  { unfold closed_turn. erewrite bind_ok; [|cbn [Epoll_Wait]; erewrite bind_ok by exact (demo_call_eq _ _ _ _ Hw); done].
    apply bind_throw. cbn [for_each]. apply bind_throw. unfold GetInput_closed.
    etrans; [apply (bind_ok _ _ _ _ _ (demo_call_eq _ _ _ (mkDemo k1 p) E))|done]. }
  rewrite (bind_ok _ _ _ tt (mkDemo k0 p)).
  - cbn [turns]. by apply bind_throw.
  - unfold CloseFile. etrans; [apply (bind_ok _ _ _ _ _ (demo_call_eq _ _ _ (mkDemo k p) Hc))|done].
Qed.
End lemmas.

(** ** Three ways to wait *)

Section agree.
  Context {K : Type} `{!Kernel K, !StreamKernel K, !PipeKernel K}.
  Context (strerror : Z → bytes).

(** The calls report the same: whether the standard input can be read. *)
Record same_readiness (ready : K → bool) (next : K → K) : Prop := {
  poll_ready k : sys_poll [(STDIN_FILENO, POLLIN)] 1000 k = (inr [if ready k then POLLIN else 0%Z], next k);
  select_ready k : sys_select (STDIN_FILENO + 1) {[STDIN_FILENO]} ∅ k =
    (inr (if ready k then {[STDIN_FILENO]} else ∅, ∅), next k);
  epoll_ready ep k : sys_epoll_wait ep MAX_EVENTS 1000 k =
    (inr (if ready k then [(STDIN_FILENO, EPOLLIN)] else []), next k)
}.

Lemma turns_ext {K' : Type} fuel (m m' : M (Demo K') bool) :
  (∀ s, m s = m' s) → ∀ s, turns fuel m s = turns fuel m' s.
Proof.
  intros Hm. induction fuel as [|fuel IH]; intros s; [done|]. simpl. unfold mbind, M_bind. rewrite Hm.
  destruct (m' s) as [[[]|e| |] s']; auto.
Qed.

(** Where the kernel's three calls report the same, the programs that wait with poll, with select and with epoll by
    level do the same, turn for turn. *)
Theorem waits_agree ready next fuel ep (s : Demo K) :
  same_readiness ready next →
  turns fuel (stdin_poll_turn strerror) s = turns fuel (stdin_select_turn strerror) s ∧
  turns fuel (stdin_poll_turn strerror) s = turns fuel (stdin_level_turn strerror 1 ep) s.
Proof.
  intros [Hp Hs He]. split; apply turns_ext; intros x;
    unfold stdin_poll_turn, stdin_select_turn, stdin_level_turn; cbn [Epoll_Wait]; unfold mbind, M_bind;
    rewrite (demo_call_eq _ _ _ x (Hp _)); [rewrite (demo_call_eq _ _ _ x (Hs _))|rewrite (demo_call_eq _ _ _ x (He _ _))];
    by destruct (ready (dkern x)).
Qed.
End agree.

(** ** Witnesses *)

#[local] Instance ref_pipe : PipeKernel ref_kernel := {
  sys_creat _ _ k := (inr 9%Z, k);
  lib_popen _ k := (inl ENOENT, k)
}.

Definition no_error : Z → bytes := λ _, [].

Lemma edge_input_shown_witness :
  ∃ k', GetInput_edge no_error 3 5 [] (mkDemo (kernel_with [str "ab"; str "c"] 0) []) =
    (Ok tt, mkDemo k' [error_line no_error (str "read to end") EAGAIN; str "input: abc"]).
Proof.
  assert (Hr : ∃ k', reads bufSize 5 (kernel_with [str "ab"; str "c"] 0) [str "ab"; str "c"] false k').
  { eexists. eapply reads_more; [reflexivity|done|]. eapply reads_more; [reflexivity|done|].
    apply reads_again. reflexivity. }
  destruct Hr as [k' Hr]. exists k'.
  apply (edge_input_shown no_error 3 5 (mkDemo (kernel_with [str "ab"; str "c"] 0) []) _ _ _ Hr).
  - repeat (apply Forall_cons; split; [split; [vm_compute; lia|by apply (bool_decide_unpack _)]|]). done.
  - simpl. lia.
Defined.

Lemma full_read_undefined_witness :
  (read_input no_error 5 (mkDemo (kernel_with [str "abc"] 0) [])).1 = Undef.
Proof.
  destruct (sys_read 5 bufSize (kernel_with [str "abc"] 0)) as [o k'] eqn:E.
  assert (o = inr (str "abc")) as -> by (apply (f_equal fst) in E; vm_compute in E; by subst o).
  apply (full_read_undefined no_error 0 5 (str "abc") k' [] (mkDemo (kernel_with [str "abc"] 0) []) E);
    [done|by apply (bool_decide_unpack _)].
Defined.

Lemma loop_reads_in_bounds_witness :
  let s := mkDemo (mkRef {[0%Z]} ∅ {[0%Z := [str "abcde"; []]]} ∅ ∅ [] []) [] in
  last (printed (demo_main (stdin_loop_Run no_error 5) s).2) = Some (str "eof").
Proof.
  intros s. destruct (demo_main (stdin_loop_Run no_error 5) s) as [r s'] eqn:E.
  apply (loop_reads_in_bounds no_error 5 s r s' E).
  apply (f_equal fst) in E. vm_compute in E. by subst r.
Defined.

Lemma closed_never_reads_witness :
  let k := mkRef {[0%Z; 3%Z]} {[0%Z]} {[0%Z := [str "a"]]} ∅ ∅ [] [[(0, 1)]]%Z in
  ∃ k2, (CloseFile no_error 0;; turns 1 (closed_turn 1 3)) (mkDemo k []) = (Throw RuntimeError, mkDemo k2 []).
Proof.
  intros k. destruct (sys_epoll_wait 3 MAX_EVENTS 1000 (sys_close 0 k).2) as [o k1] eqn:E.
  assert (o = inr [(0, 1)]%Z) as -> by (apply (f_equal fst) in E; vm_compute in E; by subst o).
  apply (closed_never_reads no_error 0 3 0 1 [] k k1 []); [by apply (bool_decide_unpack _)|exact E].
Defined.

(** A terminal: what each wait finds, nothing or a line; after the last one, the end of the input. *)
Definition terminal : Type := list (option bytes).

Definition term_ready (k : terminal) : bool := match k with None :: _ => false | _ => true end.
Definition term_next (k : terminal) : terminal := match k with None :: k => k | _ => k end.

#[local] Instance terminal_kernel : Kernel terminal := {
  sys_read _ n k := match k with Some b :: k => (inr (take n b), k) | None :: _ => (inl EAGAIN, k) | [] => (inr [], k) end;
  sys_write _ _ k := (inl EBADF, k);
  sys_close _ k := (inl EBADF, k);
  sys_socket k := (inl EBADF, k);
  sys_bind _ _ k := (inl EBADF, k);
  sys_listen _ _ k := (inl EBADF, k);
  sys_accept _ k := (inl EBADF, k);
  sys_fcntl _ _ _ k := (inr 0%Z, k);
  sys_epoll_create k := (inr 3%Z, k);
  sys_epoll_ctl_add _ _ _ k := (inr tt, k);
  sys_epoll_ctl_del _ _ k := (inr tt, k);
  sys_epoll_wait _ _ _ k := (inr (if term_ready k then [(STDIN_FILENO, EPOLLIN)] else []), term_next k);
  lib_inet_ntop _ := inl EBADF
}.

#[local] Instance terminal_stream : StreamKernel terminal := {
  sys_signal _ _ k := (inr tt, k);
  sys_setsockopt _ _ _ _ k := (inr tt, k);
  lib_inet_aton _ := None;
  lib_inet_pton _ := None;
  sys_bind_to _ _ _ k := (inl EBADF, k);
  sys_connect _ _ _ k := (inl EBADF, k);
  sys_shutdown _ _ k := (inr tt, k);
  sys_poll _ _ k := (inr [if term_ready k then POLLIN else 0%Z], term_next k);
  sys_select _ _ _ k := (inr (if term_ready k then {[STDIN_FILENO]} else ∅, ∅), term_next k)
}.

#[local] Instance terminal_pipe : PipeKernel terminal := {
  sys_creat _ _ k := (inr 9%Z, k);
  lib_popen _ k := (inl ENOENT, k)
}.

Lemma waits_agree_witness :
  turns 3 (stdin_level_turn no_error 1 3) (mkDemo [Some (str "a"); None] []) =
    (Ok tt, mkDemo [] [str "input: a"; str "timeout"; str "eof"]).
Proof.
  etrans; [symmetry; apply (waits_agree no_error term_ready term_next 3 3); by split|]. vm_compute. reflexivity.
Defined.
