(* ===== verification/SharedPtr.v ===== *)
(** * A reference-counted pointer (smart_pointer/my_shared_ptr)

    [MySharedPtr] of my_shared_ptr.h and the [run] of main.cpp: the heap holds the objects, the cells
    that point to them and the counters, and reading or deleting what is not there is undefined.  A function's
    variables are a list, the newest last, and are destroyed from its end. *)

From S2P Require Import Prelude.

(** ** The heap *)

(** [objs]: the objects that live; [ptrs], [ints]: the cells that [new T*] and [new int] gave;
    [deleted] is not in the code: the objects whose destructors ran. *)
Record Heap := mkHeap {
  objs : gset nat; ptrs : gmap nat nat; ints : gmap nat Z; next : nat; deleted : list nat
}.

Definition set_objs o h := mkHeap o (ptrs h) (ints h) (next h) (deleted h).
Definition set_ptrs m h := mkHeap (objs h) m (ints h) (next h) (deleted h).
Definition set_ints m h := mkHeap (objs h) (ptrs h) m (next h) (deleted h).

Definition new_obj : M Heap nat := λ h,
  (Ok (next h), mkHeap (objs h ∪ {[next h]}) (ptrs h) (ints h) (S (next h)) (deleted h)).
Definition new_ptr (v : nat) : M Heap nat := λ h,
  (Ok (next h), mkHeap (objs h) (<[next h := v]> (ptrs h)) (ints h) (S (next h)) (deleted h)).
Definition new_int (v : Z) : M Heap nat := λ h,
  (Ok (next h), mkHeap (objs h) (ptrs h) (<[next h := v]> (ints h)) (S (next h)) (deleted h)).

Definition load_ptr (l : nat) : M Heap nat := λ h, (match ptrs h !! l with Some v => Ok v | None => Undef end, h).
Definition load_int (l : nat) : M Heap Z := λ h, (match ints h !! l with Some v => Ok v | None => Undef end, h).
Definition store_int (l : nat) (v : Z) : M Heap unit := modify (λ h, set_ints (<[l := v]> (ints h)) h).

Definition delete_obj (o : nat) : M Heap unit := λ h,
  if decide (o ∈ objs h) then (Ok tt, mkHeap (objs h ∖ {[o]}) (ptrs h) (ints h) (next h) (deleted h ++ [o]))
  else (Undef, h).
Definition delete_ptr (l : nat) : M Heap unit := λ h,
  match ptrs h !! l with Some _ => (Ok tt, set_ptrs (delete l (ptrs h)) h) | None => (Undef, h) end.
Definition delete_int (l : nat) : M Heap unit := λ h,
  match ints h !! l with Some _ => (Ok tt, set_ints (delete l (ints h)) h) | None => (Undef, h) end.

(** ** The class *)

Record MySharedPtr := mkShared { sp_p : nat; sp_n : nat }.

#[global] Instance MySharedPtr_eq_dec : EqDecision MySharedPtr.
Proof. solve_decision. Defined.

Definition reclaim (this : MySharedPtr) : M Heap unit :=
  n ← load_int (sp_n this);
  store_int (sp_n this) (n - 1);;
  if (n - 1 =? 0)%Z then o ← load_ptr (sp_p this); delete_obj o else mret tt.

Definition MySharedPtr_new (p : nat) : M Heap MySharedPtr :=
  lp ← new_ptr p;
  ln ← new_int 1;
  mret (mkShared lp ln).

Definition MySharedPtr_copy (ptr : MySharedPtr) : M Heap MySharedPtr :=
  n ← load_int (sp_n ptr);
  store_int (sp_n ptr) (n + 1);;
  mret (mkShared (sp_p ptr) (sp_n ptr)).

Definition MySharedPtr_assign (this ptr : MySharedPtr) : M Heap MySharedPtr :=
  a ← load_ptr (sp_p this);
  b ← load_ptr (sp_p ptr);
  if a =? b then mret this
  else
    reclaim this;;
    n ← load_int (sp_n ptr);
    store_int (sp_n ptr) (n + 1);;
    mret (mkShared (sp_p ptr) (sp_n ptr)).

Definition MySharedPtr_destroy (this : MySharedPtr) : M Heap unit :=
  reclaim this;;
  delete_ptr (sp_p this);;
  delete_int (sp_n this).

(** ** Functions that use it *)

(** The statements: a variable for a new object, one that copies another, an assignment. *)
Inductive stmt := SNew | SCopy (i : nat) | SAssign (i j : nat).

Record Frame := mkFrame { heap : Heap; vars : list MySharedPtr }.
Definition set_heap h f := mkFrame h (vars f).
Definition in_heap {A} (m : M Heap A) : M Frame A := zoom heap set_heap m.

Definition var (i : nat) : M Frame MySharedPtr := λ f,
  (match vars f !! i with Some v => Ok v | None => Undef end, f).

Definition exec_stmt (s : stmt) : M Frame unit :=
  match s with
  | SNew => o ← in_heap new_obj; v ← in_heap (MySharedPtr_new o); modify (λ f, mkFrame (heap f) (vars f ++ [v]))
  | SCopy i => p ← var i; v ← in_heap (MySharedPtr_copy p); modify (λ f, mkFrame (heap f) (vars f ++ [v]))
  | SAssign i j =>
      a ← var i; b ← var j; v ← in_heap (MySharedPtr_assign a b);
      modify (λ f, mkFrame (heap f) (<[i := v]> (vars f)))
  end.

(** The end of the scope: [rvars] are the variables, the newest first. *)
Fixpoint destroy_all (rvars : list MySharedPtr) : M Heap unit :=
  match rvars with [] => mret tt | v :: rvars => MySharedPtr_destroy v;; destroy_all rvars end.

Definition body (l : list stmt) : M Frame unit :=
  for_each exec_stmt l;; f ← get; in_heap (destroy_all (reverse (vars f))).

Definition empty_frame : Frame := mkFrame (mkHeap ∅ ∅ ∅ 0 []) [].

(** [run] of main.cpp. *)
Definition run : list stmt := [SNew; SCopy 0; SNew; SAssign 2 1].

(** ** The invariant *)

(** How many of the variables have the counter [n]. *)
Definition shares (n : nat) (v : MySharedPtr) : nat := if decide (sp_n v = n) then 1 else 0.
Definition sharing (n : nat) (l : list MySharedPtr) : Z := Z.of_nat (sum_list_with (shares n) l).

(** A variable's cells: the object lives and the counter is right. *)
Definition good (h : Heap) (l : list MySharedPtr) (v : MySharedPtr) : Prop :=
  ∃ o, ptrs h !! sp_p v = Some o ∧ o ∈ objs h ∧ ints h !! sp_n v = Some (sharing (sp_n v) l).

Record counted (h : Heap) (l : list MySharedPtr) : Prop := {
  c_good v : v ∈ l → good h l v;
  c_n v w : v ∈ l → w ∈ l → sp_n v = sp_n w → v = w;
  c_p v w : v ∈ l → w ∈ l → sp_p v = sp_p w → v = w;
  c_obj v w : v ∈ l → w ∈ l → ptrs h !! sp_p v = ptrs h !! sp_p w → v = w;
  c_live o : o ∈ objs h → ∃ v, v ∈ l ∧ ptrs h !! sp_p v = Some o;
  c_fresh_o o : o ∈ objs h → o < next h;
  c_fresh_p k : is_Some (ptrs h !! k) → k < next h;
  c_fresh_n k : is_Some (ints h !! k) → k < next h
}.

(** ** Lemmas *)

Lemma sharing_app n l k : sharing n (l ++ k) = (sharing n l + sharing n k)%Z.
Proof. unfold sharing. rewrite sum_list_with_app. lia. Qed.

Lemma sharing_one n v : sharing n [v] = if decide (sp_n v = n) then 1%Z else 0%Z.
Proof. unfold sharing, shares. simpl. by case_decide. Qed.

Lemma sharing_pos n l : (0 < sharing n l)%Z ↔ ∃ v, v ∈ l ∧ sp_n v = n.
Proof.
  unfold sharing, shares. induction l as [|w l IH]; simpl.
  - split; [lia|]. by intros (v & []%not_elem_of_nil & _).
  - case_decide as Hw.
    + split; [|lia]. intros _. exists w. split; [by left|done].
    + rewrite Nat.add_0_l, IH. split; intros (v & Hv & Hn); exists v; (split; [|done]); [by right|].
      apply elem_of_cons in Hv as [->|]; done.
Qed.

Lemma sharing_zero n l : (∀ v, v ∈ l → sp_n v ≠ n) → sharing n l = 0%Z.
Proof.
  intros H. destruct (Z.ltb_spec 0 (sharing n l)) as [Hp|Hp]; [|unfold sharing in *; lia].
  apply sharing_pos in Hp as (v & Hv & Hn). by destruct (H v Hv).
Qed.

Lemma sharing_insert n l i a b :
  l !! i = Some a → (sharing n (<[i := b]> l) + Z.of_nat (shares n a) = sharing n l + Z.of_nat (shares n b))%Z.
Proof. intros Hi. unfold sharing. pose proof (sum_list_with_insert (shares n) l i a b Hi). lia. Qed.

Section with_heap.
  Context (h : Heap) (l : list MySharedPtr) (Hc : counted h l).

Lemma n_below v : v ∈ l → sp_n v < next h.
Proof. intros Hv. destruct (c_good _ _ Hc v Hv) as (o & _ & _ & Hn). apply (c_fresh_n _ _ Hc). eauto. Qed.

Lemma p_below v : v ∈ l → sp_p v < next h.
Proof. intros Hv. destruct (c_good _ _ Hc v Hv) as (o & Hp & _). apply (c_fresh_p _ _ Hc). eauto. Qed.

(** A variable for a new object. *)
Lemma counted_new :
  let o := next h in let v := mkShared (S o) (S (S o)) in
  counted (mkHeap (objs h ∪ {[o]}) (<[S o := o]> (ptrs h)) (<[S (S o) := 1%Z]> (ints h)) (S (S (S o))) (deleted h))
    (l ++ [v]).
Proof.
  intros o v.
  assert (Hin : ∀ w, w ∈ l ++ [v] → w = v ∨ w ∈ l) by (intros w [?|?%list_elem_of_singleton]%elem_of_app; subst; auto).
  assert (Hb : ∀ w, w ∈ l → sp_n w < o ∧ sp_p w < o) by (intros w Hw; split; [by apply n_below|by apply p_below]).
  assert (Hpt : ∀ w, w ∈ l → ∃ o', ptrs h !! sp_p w = Some o' ∧ o' < o).
  { intros w Hw. destruct (c_good _ _ Hc w Hw) as (o' & Hp & Ho & _). exists o'. split; [done|].
    by apply (c_fresh_o _ _ Hc). }
  split; simpl.
  - intros w [->|Hw]%Hin; unfold good; simpl.
    + exists o. split_and!; [by rewrite lookup_insert_eq|set_solver|]. rewrite lookup_insert_eq, sharing_app, sharing_one.
      rewrite decide_True by done. rewrite sharing_zero; [done|]. intros w Hw. apply Hb in Hw. simpl. lia.
    + destruct (Hb w Hw). destruct (c_good _ _ Hc w Hw) as (o' & Hp & Ho & Hn). exists o'.
      rewrite !lookup_insert_ne by lia. split_and!; [done|set_solver|].
      rewrite sharing_app, sharing_one, decide_False by (simpl; lia). by rewrite Z.add_0_r.
  - intros w w' [->|Hw]%Hin [->|Hw']%Hin; simpl; intros E; try done; [destruct (Hb w' Hw')|destruct (Hb w Hw)|]; try lia.
    by apply (c_n _ _ Hc).
  - intros w w' [->|Hw]%Hin [->|Hw']%Hin; simpl; intros E; try done; [destruct (Hb w' Hw')|destruct (Hb w Hw)|]; try lia.
    by apply (c_p _ _ Hc).
  - intros w w' [->|Hw]%Hin [->|Hw']%Hin; simpl; try done;
      try destruct (Hb _ Hw); try destruct (Hb _ Hw');
      rewrite ?lookup_insert_eq, ?lookup_insert_ne by lia; intros E.
    + destruct (Hpt _ Hw') as (o' & Ho' & ?). rewrite Ho' in E. injection E. lia.
    + destruct (Hpt _ Hw) as (o' & Ho' & ?). rewrite Ho' in E. injection E. lia.
    + by apply (c_obj _ _ Hc).
  - intros o' [Ho|Ho]%elem_of_union.
    + destruct (c_live _ _ Hc o' Ho) as (w & Hw & Hp). destruct (Hb w Hw). exists w.
      rewrite elem_of_app, lookup_insert_ne by lia. auto.
    + apply elem_of_singleton in Ho as ->. exists v. rewrite elem_of_app, lookup_insert_eq. split; [right; by left|done].
  - intros o' [Ho|Ho%elem_of_singleton]%elem_of_union; [apply (c_fresh_o _ _ Hc) in Ho|]; lia.
  - intros k Hk. destruct (decide (k = S o)) as [->|]; [lia|]. rewrite lookup_insert_ne in Hk by done.
    apply (c_fresh_p _ _ Hc) in Hk. lia.
  - intros k Hk. destruct (decide (k = S (S o))) as [->|]; [lia|]. rewrite lookup_insert_ne in Hk by done.
    apply (c_fresh_n _ _ Hc) in Hk. lia.
Qed.

(** The same cells with other counters, and some of the objects, for other variables that use them. *)
Lemma counted_change l' ob' in' :
  (∀ v, v ∈ l' → v ∈ l) →
  (∀ v, v ∈ l' → in' !! sp_n v = Some (sharing (sp_n v) l')) →
  (∀ k, is_Some (in' !! k) → is_Some (ints h !! k)) →
  (∀ o, o ∈ ob' ↔ o ∈ objs h ∧ ∃ v, v ∈ l' ∧ ptrs h !! sp_p v = Some o) →
  ∀ d, counted (mkHeap ob' (ptrs h) in' (next h) d) l'.
Proof.
  intros Hl Hi Hk Ho d. destruct Hc as [G N P O L F1 F2 F3]. split; simpl; eauto.
  - intros v Hv. destruct (G v (Hl v Hv)) as (o & Hp & Hob & _). exists o. simpl. split_and!; [done| |by apply Hi].
    apply Ho. split; [done|]. by exists v.
  - intros o Hob. by apply Ho in Hob as [_ ?].
  - intros o [Hob _]%Ho. by apply F1.
Qed.

Lemma counted_copy v :
  v ∈ l → counted (set_ints (<[sp_n v := (sharing (sp_n v) l + 1)%Z]> (ints h)) h) (l ++ [v]).
Proof.
  intros Hv. assert (Hin : ∀ w, w ∈ l ++ [v] → w ∈ l) by (intros w [?|?%list_elem_of_singleton]%elem_of_app; subst; auto).
  apply counted_change; [done|..].
  - intros w Hw%Hin. rewrite sharing_app, sharing_one. case_decide as E.
    + rewrite E, lookup_insert_eq. done.
    + rewrite lookup_insert_ne by done. destruct (c_good _ _ Hc w Hw) as (o & _ & _ & ->). by rewrite Z.add_0_r.
  - intros k Hk. destruct (decide (k = sp_n v)) as [->|]; [|by rewrite lookup_insert_ne in Hk].
    destruct (c_good _ _ Hc v Hv) as (o & _ & _ & ->). eauto.
  - intros o. split; [|tauto]. intros Ho. split; [done|]. destruct (c_live _ _ Hc o Ho) as (w & Hw & Hp).
    exists w. rewrite elem_of_app. auto.
Qed.

(** What [reclaim] does to a variable's object and counter. *)
Lemma reclaim_ok v o :
  v ∈ l → ptrs h !! sp_p v = Some o →
  let c := (sharing (sp_n v) l - 1)%Z in
  reclaim v h = (Ok tt,
    if (c =? 0)%Z then mkHeap (objs h ∖ {[o]}) (ptrs h) (<[sp_n v := c]> (ints h)) (next h) (deleted h ++ [o])
    else set_ints (<[sp_n v := c]> (ints h)) h).
Proof.
  intros Hv Hp c. destruct (c_good _ _ Hc v Hv) as (o' & Hp' & Ho & Hn). rewrite Hp in Hp'. injection Hp' as <-.
  unfold reclaim, load_int, mbind, M_bind. rewrite Hn. unfold store_int, modify. fold c. simpl.
  destruct (c =? 0)%Z; [|done]. unfold load_ptr, delete_obj. simpl. rewrite Hp. by rewrite decide_True.
Qed.

Lemma sharing_one_le v : v ∈ l → (1 ≤ sharing (sp_n v) l)%Z.
Proof. intros Hv. assert (0 < sharing (sp_n v) l)%Z; [|lia]. apply sharing_pos. eauto. Qed.

(** The state after one variable of [v]'s counter has gone: the others are [l']. *)
Lemma counted_drop v o l' in' :
  v ∈ l → ptrs h !! sp_p v = Some o →
  (∀ w, w ∈ l → w ≠ v → w ∈ l') → (∀ w, w ∈ l' → w ∈ l) →
  let c := (sharing (sp_n v) l - 1)%Z in
  sharing (sp_n v) l' = c →
  (∀ w, w ∈ l' → in' !! sp_n w = Some (sharing (sp_n w) l')) →
  (∀ k, is_Some (in' !! k) → is_Some (ints h !! k)) →
  ∀ d, counted (mkHeap (if (c =? 0)%Z then objs h ∖ {[o]} else objs h) (ptrs h) in' (next h) d) l'.
Proof.
  intros Hv Hp Hkeep Hsub c Hl' Hi Hk. apply counted_change; [done|done|done|]. intros o'.
  destruct (Z.eqb_spec c 0) as [E|E]; rewrite ?elem_of_difference, ?elem_of_singleton; (split; [|intros (Ho' & w & Hw & Hpw)]).
  - intros [Ho' Hne]. split; [done|]. destruct (c_live _ _ Hc o' Ho') as (w & Hw & Hpw). exists w. split; [|done].
    apply Hkeep; [done|]. intros ->. congruence.
  - split; [done|]. intros ->. assert (w = v) as -> by (apply (c_obj _ _ Hc); [auto|done|congruence]).
    assert (0 < sharing (sp_n v) l')%Z; [|lia]. apply sharing_pos. eauto.
  - intros Ho'. split; [done|]. destruct (c_live _ _ Hc o' Ho') as (w & Hw & Hpw). exists w. split; [|done].
    destruct (decide (w = v)) as [->|]; [|by apply Hkeep].
    assert (0 < sharing (sp_n v) l')%Z as (w & Hw' & Hn)%sharing_pos; [pose proof (sharing_one_le v Hv); lia|].
    assert (w = v) as ->; [|done]. by apply (c_n _ _ Hc); [apply Hsub| |].
  - done.
Qed.

Lemma assign_same a b :
  a ∈ l → b ∈ l → ptrs h !! sp_p a = ptrs h !! sp_p b → MySharedPtr_assign a b h = (Ok a, h) ∧ a = b.
Proof.
  intros Ha Hb E. split; [|by apply (c_obj _ _ Hc)]. destruct (c_good _ _ Hc a Ha) as (o & Hp & _).
  unfold MySharedPtr_assign, load_ptr, mbind, M_bind. rewrite <- E, Hp. by rewrite Nat.eqb_refl.
Qed.

Lemma assign_other i a b :
  l !! i = Some a → b ∈ l → a ≠ b →
  ∃ h', MySharedPtr_assign a b h = (Ok b, h') ∧ counted h' (<[i := b]> l).
Proof.
  intros Hi Hb Hne. pose proof (list_elem_of_lookup_2 _ _ _ Hi) as Ha.
  destruct (c_good _ _ Hc a Ha) as (oa & Hpa & _). destruct (c_good _ _ Hc b Hb) as (ob & Hpb & _ & Hnb).
  assert (Hob : oa ≠ ob) by (intros ->; apply Hne, (c_obj _ _ Hc); [done..|congruence]).
  assert (Hn : sp_n a ≠ sp_n b) by (intros E; by apply Hne, (c_n _ _ Hc)).
  assert (Hsh : ∀ n, (sharing n (<[i := b]> l) + Z.of_nat (shares n a) = sharing n l + Z.of_nat (shares n b))%Z)
    by (intros n; by apply sharing_insert).
  pose proof (Hsh (sp_n a)) as Sa. pose proof (Hsh (sp_n b)) as Sb. unfold shares in Sa, Sb.
  rewrite (decide_True (P := sp_n a = sp_n a)), decide_False in Sa by congruence.
  rewrite decide_False, decide_True in Sb by congruence.
  set (c := (sharing (sp_n a) l - 1)%Z).
  set (in' := <[sp_n b := (sharing (sp_n b) l + 1)%Z]> (<[sp_n a := c]> (ints h))).
  exists (mkHeap (if (c =? 0)%Z then objs h ∖ {[oa]} else objs h) (ptrs h) in' (next h)
    (if (c =? 0)%Z then deleted h ++ [oa] else deleted h)). split.
  - unfold MySharedPtr_assign. erewrite bind_ok by (unfold load_ptr; by rewrite Hpa).
    erewrite bind_ok by (unfold load_ptr; by rewrite Hpb). rewrite (proj2 (Nat.eqb_neq _ _) Hob).
    pose proof (reclaim_ok a oa Ha Hpa) as Hr. cbv zeta in Hr. fold c in Hr.
    set (h1 := if (c =? 0)%Z then _ else _) in Hr. erewrite bind_ok by exact Hr.
    assert (Hn1 : ints h1 !! sp_n b = Some (sharing (sp_n b) l))
      by (subst h1; destruct (c =? 0)%Z; simpl; by rewrite lookup_insert_ne).
    erewrite bind_ok by (unfold load_int; by rewrite Hn1). subst h1. destruct b. by destruct (c =? 0)%Z.
  - apply (counted_drop a oa); [done|done| | |lia| |].
    + intros w (k & Hk)%list_elem_of_lookup Hwa. apply list_elem_of_lookup. exists k.
      destruct (decide (k = i)) as [->|]; [congruence|by rewrite list_lookup_insert_ne].
    + intros w (k & [(_ & -> & _)|(_ & Hk)]%list_lookup_insert_Some)%list_elem_of_lookup; [done|].
      by apply list_elem_of_lookup_2 in Hk.
    + intros w (k & Hk)%list_elem_of_lookup. apply list_lookup_insert_Some in Hk.
      assert (w ∈ l) as Hw by (destruct Hk as [(_ & <- & _)|(_ & Hk)]; [done|by apply list_elem_of_lookup_2 in Hk]).
      subst in'. specialize (Hsh (sp_n w)). unfold shares in Hsh.
      destruct (decide (sp_n w = sp_n b)) as [->|Hwb]; [rewrite lookup_insert_eq; f_equal; lia|].
      rewrite lookup_insert_ne by done.
      destruct (decide (sp_n w = sp_n a)) as [->|Hwa]; [rewrite lookup_insert_eq; f_equal; lia|].
      rewrite lookup_insert_ne by done. rewrite !decide_False in Hsh by congruence.
      destruct (c_good _ _ Hc w Hw) as (_ & _ & _ & ->). f_equal. lia.
    + intros k Hk. subst in'. destruct (c_good _ _ Hc a Ha) as (_ & _ & _ & Hna).
      destruct (decide (k = sp_n b)) as [->|]; [by eauto|rewrite lookup_insert_ne in Hk by done].
      destruct (decide (k = sp_n a)) as [->|]; [by eauto|by rewrite lookup_insert_ne in Hk].
Qed.
End with_heap.

(** The cells of no variable may go. *)
Lemma counted_delete h l p n :
  counted h l → (∀ v, v ∈ l → sp_p v ≠ p) → (∀ v, v ∈ l → sp_n v ≠ n) →
  counted (mkHeap (objs h) (delete p (ptrs h)) (delete n (ints h)) (next h) (deleted h)) l.
Proof.
  intros [G N P O L F1 F2 F3] Hp Hn. split; simpl; eauto.
  - intros v Hv. destruct (G v Hv) as (o & Hpo & Ho & Hi). exists o. simpl.
    rewrite !lookup_delete_ne by (symmetry; auto). done.
  - intros v w Hv Hw. rewrite !lookup_delete_ne by (symmetry; auto). auto.
  - intros o Ho. destruct (L o Ho) as (v & Hv & Hpv). exists v. split; [done|]. by rewrite lookup_delete_ne by (symmetry; auto).
  - intros k [x [_ Hk]%lookup_delete_Some]. eauto.
  - intros k [x [_ Hk]%lookup_delete_Some]. eauto.
Qed.

(** A variable that shares with no other is destroyed as it should. *)
Lemma destroy_unshared h l v :
  counted h (l ++ [v]) → v ∉ l → ∃ h', MySharedPtr_destroy v h = (Ok tt, h') ∧ counted h' l.
Proof.
  intros Hc Hv. assert (Hin : v ∈ l ++ [v]) by (apply elem_of_app; right; by left).
  assert (Hl : ∀ w, w ∈ l → w ∈ l ++ [v]) by (intros; apply elem_of_app; by left).
  destruct (c_good _ _ Hc v Hin) as (o & Hp & Ho & Hn).
  assert (Hno : ∀ w, w ∈ l → sp_n w ≠ sp_n v).
  { intros w Hw E. assert (w = v) as -> by (apply (c_n _ _ Hc); auto). done. }
  assert (Hno' : ∀ w, w ∈ l → sp_p w ≠ sp_p v).
  { intros w Hw E. assert (w = v) as -> by (apply (c_p _ _ Hc); auto). done. }
  assert (Hs : sharing (sp_n v) (l ++ [v]) = 1%Z).
  { rewrite sharing_app, sharing_one, decide_True, sharing_zero by done. done. }
  pose proof (reclaim_ok h _ Hc v o Hin Hp) as Hr. cbv zeta in Hr. rewrite Hs in Hr. simpl in Hr.
  eexists. split.
  - unfold MySharedPtr_destroy. erewrite bind_ok by exact Hr. unfold delete_ptr, delete_int, mbind, M_bind. simpl.
    rewrite Hp. simpl. rewrite lookup_insert_eq. done.
  - unfold set_ptrs, set_ints. simpl. eapply (counted_delete (mkHeap _ _ _ _ _)); [|exact Hno'|exact Hno].
    pose proof (counted_drop h _ Hc v o l (<[sp_n v := 0%Z]> (ints h)) Hin Hp) as Hd. cbv zeta in Hd. rewrite Hs in Hd.
    apply Hd; [| |by apply sharing_zero| |].
    + intros w [?|?%list_elem_of_singleton]%elem_of_app Hne; done.
    + done.
    + intros w Hw. rewrite lookup_insert_ne by (symmetry; auto).
      destruct (c_good _ _ Hc w (Hl w Hw)) as (_ & _ & _ & ->). rewrite sharing_app, sharing_one.
      rewrite decide_False by (symmetry; auto). by rewrite Z.add_0_r.
    + intros k Hk. destruct (decide (k = sp_n v)) as [->|]; [by eauto|by rewrite lookup_insert_ne in Hk].
Qed.

(** Destroying a variable ends its counter, and brings no counter back. *)
Lemma destroy_ends v h :
  (∃ h', MySharedPtr_destroy v h = (Undef, h')) ∨
  (∃ h', MySharedPtr_destroy v h = (Ok tt, h') ∧ ints h' !! sp_n v = None ∧
     ∀ k, ints h !! k = None → ints h' !! k = None).
Proof.
  unfold MySharedPtr_destroy, reclaim, load_int, mbind, M_bind.
  destruct (ints h !! sp_n v) as [n|] eqn:En; [|eauto]. unfold store_int, modify.
  set (m := set_ints _ h). assert (Hm : ∀ k, ints h !! k = None → ints m !! k = None).
  { intros k Hk. simpl. rewrite lookup_insert_ne; [done|]. congruence. }
  assert (Hend : ∀ h2, ints h2 = ints m → (∃ h', (delete_ptr (sp_p v);; delete_int (sp_n v)) h2 = (Undef, h')) ∨
    (∃ h', (delete_ptr (sp_p v);; delete_int (sp_n v)) h2 = (Ok tt, h') ∧ ints h' !! sp_n v = None ∧
     ∀ k, ints h !! k = None → ints h' !! k = None)).
  { intros h2 E2. unfold delete_ptr, delete_int, mbind, M_bind.
    destruct (ptrs h2 !! sp_p v); [|eauto]. simpl. rewrite E2. simpl. rewrite lookup_insert_eq. right.
    eexists. split; [done|]. simpl. rewrite lookup_delete_eq. split; [done|]. intros k Hk.
    apply lookup_delete_None. right. by apply Hm. }
  unfold mbind, M_bind in Hend. destruct (n - 1 =? 0)%Z; [|by apply Hend].
  unfold load_ptr, delete_obj. destruct (ptrs m !! sp_p v); [|eauto]. case_decide; [by apply Hend|eauto].
Qed.

Lemma destroy_missing v h : ints h !! sp_n v = None → MySharedPtr_destroy v h = (Undef, h).
Proof. intros Hn. unfold MySharedPtr_destroy, reclaim, load_int, mbind, M_bind. by rewrite Hn. Qed.

Lemma missing_undefined rl h v :
  v ∈ rl → ints h !! sp_n v = None → ∃ h', destroy_all rl h = (Undef, h').
Proof.
  revert h. induction rl as [|w rl IH]; intros h Hv Hn; [by apply not_elem_of_nil in Hv|]. simpl.
  unfold mbind, M_bind. destruct (decide (v = w)) as [->|Hne]; [rewrite destroy_missing by done; eauto|].
  apply elem_of_cons in Hv as [?|Hv]; [done|].
  destruct (destroy_ends w h) as [[h' ->]|(h' & -> & _ & Hk)]; [eauto|]. apply IH; auto.
Qed.

(** The end of a scope whose variables share, and of one whose variables do not. *)
Lemma shared_undefined h l : counted h l → ¬ NoDup l → ∃ h', destroy_all (reverse l) h = (Undef, h').
Proof.
  revert h. induction l as [|v l IH] using rev_ind; intros h Hc Hd; [by destruct Hd; constructor|].
  rewrite reverse_snoc. simpl. unfold mbind, M_bind.
  destruct (decide (v ∈ l)) as [Hv|Hv].
  - destruct (destroy_ends v h) as [[h' ->]|(h' & -> & Hn & _)]; [eauto|].
    apply (missing_undefined _ _ v); [by apply elem_of_reverse|done].
  - destruct (destroy_unshared h l v Hc Hv) as (h' & -> & Hc'). apply IH; [done|].
    intros Hl. apply Hd, NoDup_app. split_and!; [done| |apply NoDup_singleton].
    by intros w Hw ->%list_elem_of_singleton.
Qed.

Lemma unshared_destroyed h l :
  counted h l → NoDup l → ∃ h', destroy_all (reverse l) h = (Ok tt, h') ∧ objs h' = ∅.
Proof.
  revert h. induction l as [|v l IH] using rev_ind; intros h Hc Hd.
  - exists h. split; [done|]. apply set_eq. intros o. split; [|set_solver]. intros Ho.
    destruct (c_live _ _ Hc o Ho) as (v & []%not_elem_of_nil & _).
  - rewrite reverse_snoc. simpl. unfold mbind, M_bind. apply NoDup_app in Hd as (Hd & Hv & _).
    destruct (destroy_unshared h l v Hc) as (h' & -> & Hc'); [|by apply IH].
    intros Hin. apply (Hv v Hin). by left.
Qed.

(** ** Statements *)

Definition valid (n : nat) (s : stmt) : Prop :=
  match s with SNew => True | SCopy i => i < n | SAssign i j => i < n ∧ j < n end.
Definition grows (n : nat) (s : stmt) : nat := match s with SAssign _ _ => n | _ => S n end.
Fixpoint well_formed (n : nat) (l : list stmt) : Prop :=
  match l with [] => True | s :: l => valid n s ∧ well_formed (grows n s) l end.

Lemma exec_counted s f :
  counted (heap f) (vars f) → valid (length (vars f)) s →
  ∃ f', exec_stmt s f = (Ok tt, f') ∧ counted (heap f') (vars f') ∧ length (vars f') = grows (length (vars f)) s.
Proof.
  destruct f as [h l]. simpl. intros Hc Hv. destruct s as [|i|i j]; simpl in Hv.
  - eexists. split; [done|]. simpl. split; [apply counted_new, Hc|]. rewrite length_app. simpl. lia.
  - destruct (lookup_lt_is_Some_2 l i Hv) as [v Hl]. pose proof (list_elem_of_lookup_2 _ _ _ Hl) as Hin.
    destruct (c_good _ _ Hc v Hin) as (o & _ & _ & Hn). eexists. split.
    + simpl. erewrite bind_ok by (unfold var; simpl; by rewrite Hl).
      unfold in_heap, zoom, MySharedPtr_copy, load_int, mbind, M_bind. simpl. rewrite Hn. done.
    + simpl. destruct v as [p n]. split; [by apply (counted_copy h l Hc (mkShared p n))|]. rewrite length_app. simpl. lia.
  - destruct Hv as [Hi Hj]. destruct (lookup_lt_is_Some_2 l i Hi) as [a Ha], (lookup_lt_is_Some_2 l j Hj) as [b Hb].
    pose proof (list_elem_of_lookup_2 _ _ _ Ha) as Hain. pose proof (list_elem_of_lookup_2 _ _ _ Hb) as Hbin.
    assert (∃ h', MySharedPtr_assign a b h = (Ok b, h') ∧ counted h' (<[i := b]> l)) as (h' & Has & Hc').
    { destruct (decide (a = b)) as [->|Hne]; [|by apply assign_other].
      exists h. split; [by apply (assign_same h l Hc b b)|]. by rewrite list_insert_id. }
    exists (mkFrame h' (<[i := b]> l)). simpl. split; [|split; [done|by rewrite length_insert]].
    erewrite bind_ok by (unfold var; simpl; by rewrite Ha). erewrite bind_ok by (unfold var; simpl; by rewrite Hb).
    unfold in_heap, zoom, mbind, M_bind. simpl. by rewrite Has.
Qed.

Lemma counted_empty : counted (heap empty_frame) [].
Proof.
  split; simpl; try (intros ? []%not_elem_of_nil); try (intros ? ? []%not_elem_of_nil); try set_solver;
    intros k [x Hk]; by rewrite lookup_empty in Hk.
Qed.

Lemma for_each_counted l f :
  counted (heap f) (vars f) → well_formed (length (vars f)) l →
  ∃ f', for_each exec_stmt l f = (Ok tt, f') ∧ counted (heap f') (vars f').
Proof.
  revert f. induction l as [|s l IH]; intros f Hc; simpl; [eauto|]. intros [Hv Hw].
  destruct (exec_counted s f Hc Hv) as (f1 & He & Hc1 & Hl). rewrite <- Hl in Hw.
  unfold mbind, M_bind. rewrite He. by apply IH.
Qed.

(** ** Properties *)

(** C36: While variables live the count is right: after any statements that make, copy and assign variables, nothing
    undefined has happened, each variable's counter is the number of variables that share it, its object lives, and
    only objects with a variable do. *)
Theorem sharing_is_counted l :
  well_formed 0 l →
  ∃ f, for_each exec_stmt l empty_frame = (Ok tt, f) ∧
    (∀ v, v ∈ vars f → ∃ o, ptrs (heap f) !! sp_p v = Some o ∧ o ∈ objs (heap f) ∧
       ints (heap f) !! sp_n v = Some (sharing (sp_n v) (vars f))) ∧
    (∀ o, o ∈ objs (heap f) → ∃ v, v ∈ vars f ∧ ptrs (heap f) !! sp_p v = Some o).
Proof.
  intros Hw. destruct (for_each_counted l empty_frame counted_empty Hw) as (f & He & Hc).
  exists f. split_and!; [done|apply (c_good _ _ Hc)|apply (c_live _ _ Hc)].
Qed.

(** But the destructor deletes the cells that the other variables use: the end of the scope is undefined as soon as
    two variables share an object; without sharing every object is destroyed. *)
Theorem scope_ends_only_unshared l :
  well_formed 0 l →
  ∃ f, for_each exec_stmt l empty_frame = (Ok tt, f) ∧
    (NoDup (vars f) → ∃ f', body l empty_frame = (Ok tt, f') ∧ objs (heap f') = ∅) ∧
    (¬ NoDup (vars f) → ∃ f', body l empty_frame = (Undef, f')).
Proof.
  intros Hw. destruct (for_each_counted l empty_frame counted_empty Hw) as (f & He & Hc).
  exists f. split; [done|]. unfold body. split; intros Hd.
  - destruct (unshared_destroyed _ _ Hc Hd) as (h' & Hu & Ho). exists (set_heap h' f). split; [|done].
    erewrite bind_ok by exact He. unfold mbind, M_bind, get, in_heap, zoom. by rewrite Hu.
  - destruct (shared_undefined _ _ Hc Hd) as (h' & Hu). exists (set_heap h' f).
    erewrite bind_ok by exact He. unfold mbind, M_bind, get, in_heap, zoom. by rewrite Hu.
Qed.

(** [run] of main.cpp ends so. *)
Theorem run_is_undefined : (body run empty_frame).1 = Undef.
Proof. vm_compute. reflexivity. Qed.

(** An assignment that takes the last variable from an object leaves its two cells behind. *)
Theorem assignment_leaks_cells :
  ∃ f, body [SNew; SNew; SAssign 0 1] empty_frame = (Undef, f) ∧ is_Some (ptrs (heap f) !! 1) ∧
    ints (heap f) !! 2 = Some 0%Z.
Proof. eexists. split; [vm_compute; reflexivity|]. split; [by eexists|done]. Qed.

(** ** Witnesses *)

Lemma sharing_is_counted_witness :
  ∃ f, for_each exec_stmt run empty_frame = (Ok tt, f) ∧ ∀ o, o ∈ objs (heap f) → ∃ v, v ∈ vars f ∧ ptrs (heap f) !! sp_p v = Some o.
Proof.
  destruct (sharing_is_counted run) as (f & He & _ & Ho); [simpl; lia|]. by exists f.
Defined.

Lemma scope_ends_only_unshared_witness :
  ∃ f', body [SNew; SNew] empty_frame = (Ok tt, f') ∧ objs (heap f') = ∅.
Proof.
  destruct (scope_ends_only_unshared [SNew; SNew]) as (f & He & Hd & _); [simpl; lia|]. apply Hd.
  vm_compute in He. injection He as <-. by apply (bool_decide_unpack _).
Defined.
