(* ===== verification/MyMalloc.v ===== *)
(** * The malloc interposer (mock_malloc/lib/my_malloc.c)

    A library that is loaded before the C library and passes malloc and its relatives on to it.  It looks
    the real functions up with dlsym, which allocates itself: until the lookup of malloc is done,
    memory comes from a static buffer.  The model counts in the 64 bits of size_t and unsigned long; a call through
    a null function pointer is an outcome, and so is the exit of the process. *)

From S2P Require Import Prelude.

Definition TMP_SIZE : Z := 1024.

(** Pointers: into [tmpbuff], or what the C library returned. *)
Inductive pointer := Null | Tmp (off : Z) | Real (a : Z).

#[global] Instance pointer_eq_dec : EqDecision pointer.
Proof. solve_decision. Defined.

Inductive fname := F_malloc | F_free | F_calloc | F_realloc | F_memalign.

#[global] Instance fname_eq_dec : EqDecision fname.
Proof. solve_decision. Defined.

(** What a lookup asks the allocator for, before it returns; a pointer is named by the request that gave it. *)
Inductive request := ReqMalloc (size : Z) | ReqCalloc (nmemb size : Z) | ReqFree (k : nat) | ReqRealloc (k : nat) (size : Z).

(** The C library: its allocator, and its dlsym: the requests made while looking up, and whether the name is found. *)
Class CLib (R : Type) := {
  real_malloc : Z → R → pointer * R;
  real_free : pointer → R → R;
  real_calloc : Z → Z → R → pointer * R;
  real_realloc : pointer → Z → R → pointer * R;
  real_memalign : Z → Z → R → pointer * R;
  dlsym_requests : fname → list request;
  dlsym_found : fname → bool
}.

(** Calls of memset and memmove, and what is printed. *)
Inductive event := Memset (p : pointer) (n : Z) | Memmove (dst src : pointer) (n : Z) | Freeing | Report (pos allocs : Z).

Inductive outcome (A : Type) := Done (a : A) | Exited | NullCall | NoFuel.
Arguments Done {A} a.
Arguments Exited {A}.
Arguments NullCall {A}.
Arguments NoFuel {A}.

Section interposer.
  Context {R : Type} `{!CLib R}.

(** The statics of the file; [found f]: the pointer to the real [f] is not null. *)
Record Interposer := mkInterposer {
  tmppos : Z; tmpallocs : Z; found : list fname; initializing : bool; trace : list event; clib : R
}.

Definition set_pos p a s := mkInterposer p a (found s) (initializing s) (trace s) (clib s).
Definition set_found l s := mkInterposer (tmppos s) (tmpallocs s) l (initializing s) (trace s) (clib s).
Definition set_initializing b s := mkInterposer (tmppos s) (tmpallocs s) (found s) b (trace s) (clib s).
Definition add_event e s := mkInterposer (tmppos s) (tmpallocs s) (found s) (initializing s) (trace s ++ [e]) (clib s).
Definition set_clib r s := mkInterposer (tmppos s) (tmpallocs s) (found s) (initializing s) (trace s) r.

Definition I (A : Type) : Type := Interposer → outcome A * Interposer.
#[global] Instance I_ret : MRet I := λ A a s, (Done a, s).
#[global] Instance I_bind : MBind I := λ A B f m s,
  match m s with
  | (Done a, s') => f a s'
  | (Exited, s') => (Exited, s')
  | (NullCall, s') => (NullCall, s')
  | (NoFuel, s') => (NoFuel, s')
  end.
Definition change (f : Interposer → Interposer) : I unit := λ s, (Done tt, f s).
Definition ask {A} (f : Interposer → A) : I A := λ s, (Done (f s), s).
Definition fail {A} (o : outcome A) : I A := λ s, (o, s).

Definition is_found (f : fname) (s : Interposer) : bool := bool_decide (f ∈ found s).

Definition on_clib {A} (g : R → A * R) : I A := λ s, let '(a, r) := g (clib s) in (Done a, set_clib r s).

(** A call through the pointer to the real [f]. *)
Definition call_real (f : fname) {A} (g : R → A * R) : I A :=
  b ← ask (is_found f);
  if b : bool then on_clib g else fail NullCall.

(** ** The functions, with [init] for what the first call does *)

Definition malloc_with (init : I unit) (size : Z) : I pointer :=
  b ← ask (is_found F_malloc);
  (if b : bool then mret None
   else
     i ← ask initializing;
     if i : bool then
       s ← ask id;
       if (u64 (tmppos s + size) <? TMP_SIZE)%Z then
         change (set_pos (u64 (tmppos s + size)) (u64 (tmpallocs s + 1)));;
         mret (Some (Tmp (tmppos s)))
       else fail Exited
     else
       change (set_initializing true);; init;; change (set_initializing false);;
       s ← ask id; change (add_event (Report (tmppos s) (tmpallocs s)));; mret None)
  ≫= λ o, match o with Some p => mret p | None => call_real F_malloc (real_malloc size) end.

(** [ptr >= tmpbuff && ptr <= tmpbuff + tmppos]: memory of the C library is elsewhere. *)
Definition in_tmp (s : Interposer) (p : pointer) : bool :=
  match p with Tmp off => ((0 <=? off) && (off <=? tmppos s))%Z | _ => false end.

Definition free (p : pointer) : I unit :=
  b ← ask (λ s, in_tmp s p);
  if b : bool then change (add_event Freeing) else call_real F_free (λ r, (tt, real_free p r)).

Definition realloc_with (init : I unit) (p : pointer) (size : Z) : I pointer :=
  b ← ask (is_found F_malloc);
  if b : bool then call_real F_realloc (real_realloc p size)
  else
    nptr ← malloc_with init size;
    (if decide (nptr ≠ Null ∧ p ≠ Null) then change (add_event (Memmove nptr p size));; free p else mret tt);;
    mret nptr.

Definition calloc_with (init : I unit) (nmemb size : Z) : I pointer :=
  b ← ask (is_found F_malloc);
  if b : bool then call_real F_calloc (real_calloc nmemb size)
  else
    p ← malloc_with init (u64 (nmemb * size));
    (if decide (p ≠ Null) then change (add_event (Memset p (u64 (nmemb * size)))) else mret tt);;
    mret p.

Definition memalign (blocksize bytes : Z) : I pointer := call_real F_memalign (real_memalign blocksize bytes).

(** ** The lookup *)

(** The requests of one lookup; [got]: the pointers they returned so far. *)
Fixpoint run_requests (init : I unit) (l : list request) (got : list pointer) : I (list pointer) :=
  match l with
  | [] => mret got
  | ReqMalloc size :: l => p ← malloc_with init size; run_requests init l (got ++ [p])
  | ReqCalloc nmemb size :: l => p ← calloc_with init nmemb size; run_requests init l (got ++ [p])
  | ReqFree k :: l => free (default Null (got !! k));; run_requests init l got
  | ReqRealloc k size :: l => p ← realloc_with init (default Null (got !! k)) size; run_requests init l (got ++ [p])
  end.

(** [myfn_f = dlsym(RTLD_NEXT, "f")]. *)
Definition lookup_fn (init : I unit) (f : fname) : I unit :=
  run_requests init (dlsym_requests f) [];;
  if dlsym_found f then change (λ s, set_found (f :: found s) s) else mret tt.

(** [init]; the calls a lookup makes may come back to it, so it takes fuel. *)
Fixpoint init (fuel : nat) : I unit :=
  match fuel with
  | O => fail NoFuel
  | S fuel =>
      lookup_fn (init fuel) F_malloc;;
      lookup_fn (init fuel) F_free;;
      lookup_fn (init fuel) F_calloc;;
      lookup_fn (init fuel) F_realloc;;
      lookup_fn (init fuel) F_memalign;;
      ok ← ask (λ s, forallb (λ f, is_found f s) [F_malloc; F_free; F_calloc; F_realloc; F_memalign]);
      if ok : bool then mret tt else fail Exited
  end.

Definition malloc (fuel : nat) := malloc_with (init fuel).
Definition calloc (fuel : nat) := calloc_with (init fuel).
Definition realloc (fuel : nat) := realloc_with (init fuel).

Definition start (r : R) : Interposer := mkInterposer 0 0 [] false [] r.
End interposer.
Arguments Interposer R : clear implicits.

(** ** What the buffer promises *)

Definition req_size (q : request) : option Z :=
  match q with
  | ReqMalloc size | ReqRealloc _ size => Some size
  | ReqCalloc nmemb size => Some (nmemb * size)%Z
  | ReqFree _ => None
  end.
Definition sizes (l : list request) : list Z := omap req_size l.

Definition sum (l : list Z) : Z := foldr Z.add 0%Z l.

(** Chunks one after the other, from [pos]. *)
Fixpoint offsets (pos : Z) (l : list Z) : list Z :=
  match l with [] => [] | size :: l => pos :: offsets (pos + size) l end.

(** Requests that do not wrap and name pointers they have: [n] were given before. *)
Definition fits (n : nat) (q : request) : Prop :=
  match req_size q with Some size => (0 ≤ size < 2 ^ 64 - TMP_SIZE)%Z | None => True end ∧
  match q with ReqFree k | ReqRealloc k _ => k < n | _ => True end.
Fixpoint all_fit (n : nat) (l : list request) : Prop :=
  match l with [] => True | q :: l => fits n q ∧ all_fit (match req_size q with Some _ => S n | None => n end) l end.

(** An event that stays within the first [pos] bytes of the buffer. *)
Definition within (pos : Z) (e : event) : Prop :=
  match e with
  | Memset (Tmp off) n => (0 ≤ off ∧ off + n ≤ pos)%Z
  | Memmove (Tmp dst) (Tmp src) n => (0 ≤ dst ∧ dst + n ≤ pos ∧ 0 ≤ src ∧ src + n ≤ pos)%Z
  | Memset _ _ | Memmove _ _ _ => False
  | Freeing | Report _ _ => True
  end.

Section laws.
  Context {R : Type} `{!CLib R} (init : I (R := R) unit).

(** The state while malloc is looked up. *)
Definition looking (s : Interposer R) : Prop :=
  initializing s = true ∧ is_found F_malloc s = false ∧ (0 ≤ tmppos s < TMP_SIZE)%Z.

Lemma malloc_looking size s :
  looking s → (0 ≤ size < 2 ^ 64 - TMP_SIZE)%Z →
  malloc_with init size s =
    if (tmppos s + size <? TMP_SIZE)%Z
    then (Done (Tmp (tmppos s)), set_pos (tmppos s + size)%Z (u64 (tmpallocs s + 1)) s) else (Exited, s).
Proof.
  intros (Hi & Hf & Hp) Hs. unfold malloc_with, mbind, I_bind, ask, id. rewrite Hf, Hi.
  replace (u64 (tmppos s + size)) with (tmppos s + size)%Z by (symmetry; apply wrap_small; unfold TMP_SIZE in *; lia).
  by destruct (tmppos s + size <? TMP_SIZE)%Z.
Qed.

Lemma looking_pos s p a : looking s → (0 ≤ p < TMP_SIZE)%Z → looking (set_pos p a s).
Proof. intros (Hi & Hf & _) Hp. done. Qed.

Lemma looking_event s e : looking s → looking (add_event e s).
Proof. done. Qed.

(** The outcome of a list of requests: the chunks in order, or the exit of the process. *)
Definition served (l : list request) (offs : list Z) (s : Interposer R) (r : outcome (list pointer) * Interposer R) : Prop :=
  if (tmppos s + sum (sizes l) <? TMP_SIZE)%Z then
    ∃ s' evs, r = (Done (Tmp <$> (offs ++ offsets (tmppos s) (sizes l))), s') ∧ looking s' ∧
      tmppos s' = (tmppos s + sum (sizes l))%Z ∧ found s' = found s ∧ clib s' = clib s ∧
      trace s' = trace s ++ evs ∧ Forall (within (tmppos s')) evs
  else r.1 = Exited.

Lemma sum_nonneg n l : all_fit n l → (0 ≤ sum (sizes l))%Z.
Proof.
  revert n. induction l as [|q l IH]; intros n; simpl; [lia|]. intros [[Hq _] Hl]. apply IH in Hl.
  unfold sizes in *. simpl. destruct (req_size q); simpl in *; lia.
Qed.

Lemma sizes_some q l size : req_size q = Some size → sizes (q :: l) = size :: sizes l.
Proof. intros Hq. unfold sizes. simpl. by rewrite Hq. Qed.

(** One more chunk, after which some events happened. *)
Lemma served_chunk n q l offs s s1 size evs r :
  req_size q = Some size → fits n q → all_fit (S n) l → (tmppos s + size < TMP_SIZE)%Z →
  tmppos s1 = (tmppos s + size)%Z → found s1 = found s → clib s1 = clib s → trace s1 = trace s ++ evs →
  Forall (within (tmppos s1)) evs →
  served l (offs ++ [tmppos s]) s1 r → served (q :: l) offs s r.
Proof.
  intros Hq [Hsz _] Hl Hlt Hp Hf Hc Ht He. rewrite Hq in Hsz. unfold served. rewrite (sizes_some q l size Hq). simpl.
  rewrite Hp, <- Z.add_assoc. case_match; [|done].
  intros (s' & evs' & -> & H1 & H2 & H3 & H4 & H5 & H6). exists s', (evs ++ evs').
  rewrite <- app_assoc. split_and!; try done; try lia; [congruence..|by rewrite H5, Ht, app_assoc|].
  apply Forall_app. split; [|done]. eapply Forall_impl; [exact He|]. pose proof (sum_nonneg _ _ Hl).
  intros [[| |] ? | [| |] [| |] ? | | ? ?]; simpl; try done; lia.
Qed.

Lemma lookup_tmp offs k : k < length offs → ∃ off, default Null ((Tmp <$> offs) !! k) = Tmp off ∧ off ∈ offs.
Proof.
  intros Hk. destruct (lookup_lt_is_Some_2 offs k Hk) as [off Ho]. exists off. rewrite list_lookup_fmap, Ho.
  split; [done|]. by apply list_elem_of_lookup_2 in Ho.
Qed.

Lemma free_looking off s : looking s → (0 ≤ off ≤ tmppos s)%Z → free (Tmp off) s = (Done tt, add_event Freeing s).
Proof.
  intros _ Ho. unfold free, mbind, I_bind, ask, in_tmp.
  by rewrite (proj2 (Z.leb_le 0 off)), (proj2 (Z.leb_le off (tmppos s))) by lia.
Qed.

(** Too much for the buffer. *)
Lemma served_exit n q l offs s size s' :
  req_size q = Some size → all_fit n l → ¬ (tmppos s + size < TMP_SIZE)%Z →
  served (q :: l) offs s (Exited, s').
Proof.
  intros Hq Hl Hge. unfold served. rewrite (sizes_some q l size Hq). simpl. pose proof (sum_nonneg _ _ Hl).
  by rewrite (proj2 (Z.ltb_ge _ _)) by lia.
Qed.

Lemma served_free k l offs s r : served l offs (add_event Freeing s) r → served (ReqFree k :: l) offs s r.
Proof.
  unfold served. change (sizes (ReqFree k :: l)) with (sizes l). simpl. case_match; [|done].
  intros (s' & evs & -> & H1 & H2 & H3 & H4 & H5 & H6). exists s', (Freeing :: evs).
  split_and!; try done; [by rewrite H5, <- app_assoc|by constructor].
Qed.

(** A chunk for a request, and what the function does with it. *)
Lemma request_chunk size s {A} (f : pointer → I A) :
  looking s → (0 ≤ size < 2 ^ 64 - TMP_SIZE)%Z →
  (malloc_with init size ≫= f) s =
    if (tmppos s + size <? TMP_SIZE)%Z
    then f (Tmp (tmppos s)) (set_pos (tmppos s + size)%Z (u64 (tmpallocs s + 1)) s) else (Exited, s).
Proof.
  intros Hs Hz. unfold mbind, I_bind. rewrite malloc_looking by done.
  by destruct (tmppos s + size <? TMP_SIZE)%Z.
Qed.

Lemma run_requests_served l offs s :
  looking s → all_fit (length offs) l → Forall (λ off, 0 ≤ off ≤ tmppos s)%Z offs →
  served l offs s (run_requests init l (Tmp <$> offs) s).
Proof.
  revert offs s. induction l as [|q l IH]; intros offs s Hs Hl Ho.
  - unfold served. simpl. rewrite Z.add_0_r, app_nil_r. pose proof Hs as (_ & _ & Hp).
    rewrite (proj2 (Z.ltb_lt _ _)) by lia. exists s, []. rewrite app_nil_r. split_and!; try done; constructor.
  - destruct Hl as [Hq Hl]. pose proof Hq as [Hz Hk]. pose proof Hs as (_ & Hnf & Hp).
    assert (Hnext : ∀ size s1 evs, req_size q = Some size → (tmppos s + size < TMP_SIZE)%Z → looking s1 →
      tmppos s1 = (tmppos s + size)%Z → found s1 = found s → clib s1 = clib s → trace s1 = trace s ++ evs →
      Forall (within (tmppos s1)) evs →
      served (q :: l) offs s (run_requests init l ((Tmp <$> offs) ++ [Tmp (tmppos s)]) s1)).
    { intros size s1 evs Hqs Hlt Hs1 E1 E2 E3 E4 E5. rewrite Hqs in Hl, Hz.
      eapply (served_chunk (length offs) q l offs s s1 size evs); try done.
      change [Tmp (tmppos s)] with (Tmp <$> [tmppos s]). rewrite <- fmap_app. apply IH; [done| |].
      - rewrite length_app. simpl. by rewrite Nat.add_1_r.
      - apply Forall_app. split; [|by repeat constructor; lia]. eapply Forall_impl; [exact Ho|]. simpl. lia. }
    destruct q as [size|nmemb size|k|k size]; simpl in Hz, Hk; cbn [run_requests].
    + rewrite request_chunk by done. destruct (Z.ltb_spec (tmppos s + size) TMP_SIZE) as [Hlt|Hge].
      * apply (Hnext size _ []); simpl; rewrite ?app_nil_r; try done. apply looking_pos; [done|lia].
      * by eapply (served_exit (S (length offs))); [reflexivity|exact Hl|lia].
    + unfold calloc_with, mbind, I_bind, ask. rewrite Hnf.
      replace (u64 (nmemb * size)) with (nmemb * size)%Z by (symmetry; apply wrap_small; unfold TMP_SIZE in *; lia).
      rewrite malloc_looking by done. destruct (Z.ltb_spec (tmppos s + nmemb * size) TMP_SIZE) as [Hlt|Hge].
      * apply (Hnext (nmemb * size)%Z _ [Memset (Tmp (tmppos s)) (nmemb * size)]); simpl; try done.
        { apply looking_event, looking_pos; [done|lia]. }
        apply Forall_singleton. simpl. lia.
      * by eapply (served_exit (S (length offs))); [reflexivity|exact Hl|lia].
    + destruct (lookup_tmp offs k Hk) as (off & Hoff & Hin). rewrite Hoff. unfold mbind, I_bind.
      pose proof (proj1 (Forall_forall _ _) Ho off Hin) as Hb. simpl in Hb.
      rewrite (free_looking off s Hs Hb). apply served_free. by apply IH.
    + destruct (lookup_tmp offs k Hk) as (off & Hoff & Hin). rewrite Hoff.
      pose proof (proj1 (Forall_forall _ _) Ho off Hin) as Hb. simpl in Hb.
      unfold realloc_with, mbind, I_bind, ask. rewrite Hnf, malloc_looking by done.
      destruct (Z.ltb_spec (tmppos s + size) TMP_SIZE) as [Hlt|Hge].
      * rewrite decide_True by done. cbn [change]. rewrite free_looking; [| |simpl; lia].
        2: { by apply looking_event, looking_pos; [|lia]. }
        apply (Hnext size _ [Memmove (Tmp (tmppos s)) (Tmp off) size; Freeing]); simpl; try done.
        -- by apply looking_event, looking_event, looking_pos; [|lia].
        -- by rewrite <- app_assoc.
        -- apply Forall_cons. split; [simpl; lia|by apply Forall_singleton].
      * by eapply (served_exit (S (length offs))); [reflexivity|exact Hl|lia].
Qed.
End laws.

(** ** Chunks do not overlap *)

Lemma offsets_from pos l j off :
  Forall (λ z, 0 ≤ z)%Z l → offsets pos l !! j = Some off → (pos ≤ off)%Z.
Proof.
  revert pos j. induction l as [|z l IH]; intros pos [|j] Hl Hj; simplify_eq/=; [lia|].
  apply Forall_cons in Hl as [Hz Hl]. specialize (IH _ _ Hl Hj). lia.
Qed.

Lemma offsets_chunk pos l j off size :
  Forall (λ z, 0 ≤ z)%Z l → offsets pos l !! j = Some off → l !! j = Some size → (off + size ≤ pos + sum l)%Z.
Proof.
  revert pos j. induction l as [|z l IH]; intros pos [|j] Hl Hj Hs; simplify_eq/=; apply Forall_cons in Hl as [Hz Hl].
  - assert (0 ≤ sum l)%Z; [|lia]. clear -Hl. induction Hl; simpl; lia.
  - specialize (IH _ _ Hl Hj Hs). lia.
Qed.

Lemma offsets_apart pos l i j oi oj size :
  Forall (λ z, 0 ≤ z)%Z l → i < j → offsets pos l !! i = Some oi → l !! i = Some size → offsets pos l !! j = Some oj →
  (oi + size ≤ oj)%Z.
Proof.
  revert pos i j. induction l as [|z l IH]; intros pos [|i] [|j] Hl Hij Hi Hs Hj; simplify_eq/=; try lia;
    apply Forall_cons in Hl as [Hz Hl].
  - by apply offsets_from in Hj.
  - by apply (IH _ i j Hl ltac:(lia) Hi Hs Hj).
Qed.

Lemma all_fit_sizes n l : all_fit n l → Forall (λ z, 0 ≤ z)%Z (sizes l).
Proof.
  revert n. induction l as [|q l IH]; intros n; [constructor|]. intros [[Hz _] Hl]. unfold sizes. simpl.
  destruct (req_size q); [constructor; [lia|]|]; by apply (IH _ Hl).
Qed.

Section properties.
  Context {R : Type} `{!CLib R}.

(** ** Properties *)

(** C37: While malloc is looked up, the buffer serves requests that fit it: each gets a chunk of its own inside the
    buffer, nothing is written or read outside the part handed out, and the C library is not called.  When the sum of
    the requests reaches the size of the buffer the process exits. *)
Theorem tmp_buffer_serves init l (s : Interposer R) :
  looking s → all_fit 0 l →
  let total := (tmppos s + sum (sizes l))%Z in
  let offs := offsets (tmppos s) (sizes l) in
  if (total <? TMP_SIZE)%Z then
    ∃ s' evs, run_requests init l [] s = (Done (Tmp <$> offs), s') ∧ tmppos s' = total ∧ clib s' = clib s ∧
      trace s' = trace s ++ evs ∧ Forall (within total) evs ∧
      (∀ i off size, offs !! i = Some off → sizes l !! i = Some size → (off + size ≤ total)%Z ∧
         ∀ j off', i < j → offs !! j = Some off' → (off + size ≤ off')%Z)
  else (run_requests init l [] s).1 = Exited.
Proof.
  intros Hs Hl total offs. pose proof (run_requests_served init l [] s Hs Hl (Forall_nil_2 _)) as H.
  unfold served in H. simpl in H. fold total in H. pose proof (all_fit_sizes _ _ Hl) as Hz.
  destruct (total <? TMP_SIZE)%Z; [|done]. destruct H as (s' & evs & Hr & _ & Hp & _ & Hc & Ht & He).
  exists s', evs. rewrite Hp in He. split_and!; try done.
  intros i off size Hi Hsz. split; [by eapply offsets_chunk|]. intros j off' Hij Hj. by eapply offsets_apart.
Qed.

(** A size near 2^64 passes the test, because the sum wraps, and the position goes back: the next chunk overlaps
    one handed out before. *)
Theorem huge_request_overlaps init (r : R) :
  let s := set_initializing true (start r) in
  (run_requests init [ReqMalloc 100; ReqMalloc (2 ^ 64 - 50); ReqMalloc 60] [] s).1 = Done [Tmp 0; Tmp 100; Tmp 50].
Proof. reflexivity. Qed.

(** The lookups after the first may not allocate with calloc, nor may free come before the first allocation:
    the functions they need are not there yet. *)
Theorem free_first_calls_null p (s : Interposer R) :
  is_found F_free s = false → in_tmp s p = false → free p s = (NullCall, s).
Proof. intros Hf Ht. unfold free, call_real, mbind, I_bind, ask. by rewrite Ht, Hf. Qed.

Lemma calloc_half_way init nmemb size (s : Interposer R) :
  is_found F_malloc s = true → is_found F_calloc s = false → calloc_with init nmemb size s = (NullCall, s).
Proof. intros Hm Hc. unfold calloc_with, call_real, mbind, I_bind, ask. by rewrite Hm, Hc. Qed.

(** The first lookup asks for [l], the others for nothing, and all succeed. *)
Definition quiet (l : list request) : Prop :=
  dlsym_requests F_malloc = l ∧ (∀ f, f ≠ F_malloc → dlsym_requests f = []) ∧ ∀ f, dlsym_found f = true.

Lemma lookup_quiet init f (s : Interposer R) :
  dlsym_requests f = [] → dlsym_found f = true → lookup_fn init f s = (Done tt, set_found (f :: found s) s).
Proof. intros Hq Hf. unfold lookup_fn, mbind, I_bind. rewrite Hq. simpl. by rewrite Hf. Qed.

Lemma init_quiet fuel l (s : Interposer R) :
  quiet l → all_fit 0 l → looking s → found s = [] →
  if (tmppos s + sum (sizes l) <? TMP_SIZE)%Z then
    ∃ s', init (S fuel) s = (Done tt, s') ∧ clib s' = clib s ∧ tmppos s' = (tmppos s + sum (sizes l))%Z ∧
      ∀ f, is_found f s' = true
  else (init (S fuel) s).1 = Exited.
Proof.
  intros (Hm & Ho & Hf) Hl Hs Hn. pose proof (run_requests_served (init fuel) l [] s Hs Hl (Forall_nil_2 _)) as H.
  unfold served in H. simpl in H. cbn [init]. unfold mbind, I_bind.
  destruct (tmppos s + sum (sizes l) <? TMP_SIZE)%Z.
  - destruct H as (s' & evs & Hr & _ & Hp & Hfs & Hc & _).
    assert (lookup_fn (init fuel) F_malloc s = (Done tt, set_found (F_malloc :: found s') s')) as ->
      by (unfold lookup_fn, mbind, I_bind; by rewrite Hm, Hr, Hf).
    rewrite !lookup_quiet by auto. simpl. eexists. split; [done|]. split_and!; try done.
    intros f. apply bool_decide_eq_true. simpl. destruct f; set_solver.
  - destruct (run_requests (init fuel) l [] s) as [o s'] eqn:E. simpl in H. subst o.
    assert (lookup_fn (init fuel) F_malloc s = (Exited, s')) as ->
      by (unfold lookup_fn, mbind, I_bind; by rewrite Hm, E).
    done.
Qed.

(** The first call, before and after [init]. *)
Lemma malloc_first ini size (s : Interposer R) :
  is_found F_malloc s = false → initializing s = false →
  malloc_with ini size s =
    match ini (set_initializing true s) with
    | (Done _, s1) =>
        let s2 := set_initializing false s1 in
        call_real F_malloc (real_malloc size) (add_event (Report (tmppos s2) (tmpallocs s2)) s2)
    | (Exited, s1) => (Exited, s1)
    | (NullCall, s1) => (NullCall, s1)
    | (NoFuel, s1) => (NoFuel, s1)
    end.
Proof.
  intros Hf Hi. unfold malloc_with, mbind, I_bind, ask. rewrite Hf, Hi. unfold change.
  by destruct (ini (set_initializing true s)) as [[] s1].
Qed.

(** The first call of malloc looks everything up and is then the C library's: if dlsym allocates only while it
    looks malloc up, and no more than the buffer holds, the result is that of the real malloc, every function
    is found, and the initialisation does not come back to itself. *)
Theorem first_malloc_is_real fuel l size (r : R) :
  quiet l → all_fit 0 l → (sum (sizes l) < TMP_SIZE)%Z →
  ∃ s', malloc (S fuel) size (start r) = (Done (real_malloc size r).1, s') ∧
    clib s' = (real_malloc size r).2 ∧ initializing s' = false ∧ tmppos s' = sum (sizes l) ∧
    ∀ f, is_found f s' = true.
Proof.
  intros Hq Hl Hlt. pose proof (init_quiet fuel l (set_initializing true (start r)) Hq Hl) as H.
  rewrite (proj2 (Z.ltb_lt _ _)) in H by (simpl; lia).
  destruct H as (s' & Hi & Hc & Hp & Hf); [done|done|].
  unfold malloc. rewrite malloc_first, Hi by done. cbv zeta. unfold call_real, on_clib, mbind, I_bind, ask.
  set (s1 := add_event _ _). assert (Hm : is_found F_malloc s1 = true) by apply (Hf F_malloc).
  assert (Hc1 : clib s1 = r) by exact Hc. rewrite Hm, Hc1. destruct (real_malloc size r) as [p r'].
  eexists. split; [done|]. split_and!; try done.
Qed.

(** But when a later lookup calls calloc, as the comment at the head of the file says dlsym does, the call goes
    through a null pointer: malloc is found by then and calloc is not. *)
Theorem late_calloc_calls_null fuel nmemb size l size' (r : R) :
  dlsym_requests F_malloc = [] → dlsym_found F_malloc = true → dlsym_requests F_free = ReqCalloc nmemb size :: l →
  (malloc (S fuel) size' (start r)).1 = NullCall.
Proof.
  intros Hq Hf Hc. set (s0 := set_initializing true (start r)).
  assert (Hi : (init (S fuel) s0).1 = NullCall).
  { cbn [init]. unfold mbind, I_bind. rewrite lookup_quiet by done. set (s1 := set_found _ _).
    assert ((lookup_fn (init fuel) F_free s1).1 = NullCall) as H.
    { unfold lookup_fn. rewrite Hc. cbn [run_requests]. unfold mbind, I_bind. by rewrite calloc_half_way. }
    destruct (lookup_fn (init fuel) F_free s1) as [o s2]. simpl in H. by subst o. }
  unfold malloc. rewrite malloc_first by done. fold s0. destruct (init (S fuel) s0) as [o s1]. simpl in Hi. by subst o.
Qed.
End properties.

(** ** Witnesses *)

(** A C library that hands out addresses in order, and whose lookups of malloc and of free make the given requests. *)
Definition demo_clib (first second : list request) : CLib Z := {|
  real_malloc size r := (Real r, (r + size)%Z);
  real_free _ r := r;
  real_calloc nmemb size r := (Real r, (r + nmemb * size)%Z);
  real_realloc _ size r := (Real r, (r + size)%Z);
  real_memalign _ size r := (Real r, (r + size)%Z);
  dlsym_requests f := match f with F_malloc => first | F_free => second | _ => [] end;
  dlsym_found _ := true
|}.

Lemma tmp_buffer_serves_witness :
  ∃ s' : Interposer Z,
    @run_requests Z (demo_clib [] []) (mret tt) [ReqCalloc 1 32; ReqMalloc 100; ReqFree 0]
      [] (set_initializing true (start 4096%Z)) = (Done [Tmp 0; Tmp 32], s').
Proof.
  destruct (@tmp_buffer_serves Z (demo_clib [] []) (mret tt) [ReqCalloc 1 32; ReqMalloc 100; ReqFree 0]
    (set_initializing true (start 4096%Z))) as (s' & _ & Hr & _).
  - split_and!; done.
  - simpl. unfold fits, TMP_SIZE. simpl. lia.
  - exists s'. exact Hr.
Defined.

Lemma first_malloc_is_real_witness :
  ∃ s' : Interposer Z,
    @malloc Z (demo_clib [ReqCalloc 1 32] []) 1 100 (start 4096%Z) = (Done (Real 4096), s') ∧ clib s' = 4196%Z.
Proof.
  destruct (@first_malloc_is_real Z (demo_clib [ReqCalloc 1 32] []) 0 [ReqCalloc 1 32] 100 4096%Z)
    as (s' & Hr & Hc & _).
  - split_and!; [done|by intros []|done].
  - simpl. unfold fits, TMP_SIZE. simpl. lia.
  - reflexivity.
  - by exists s'.
Defined.

Lemma late_calloc_calls_null_witness :
  (@malloc Z (demo_clib [] [ReqCalloc 1 32]) 1 100 (start 4096%Z)).1 = NullCall.
Proof. by apply (@late_calloc_calls_null Z (demo_clib [] [ReqCalloc 1 32]) 0 1 32 [] 100 4096%Z). Defined.
