(* ===== verification/Binary64.v ===== *)
(** * Double-precision arithmetic

    The type double with the operations of IEEE 754, rounding to nearest with ties to even: the Standard
    Library's specification of floating-point numbers at 53 bits of precision.  The theorems bound what an
    operation on finite numbers loses and tell when it does not overflow; BezierCurve's arithmetic (Bezier.v) rests on
    them. *)

From S2P Require Import Prelude.
From Stdlib Require Import Reals Lra SpecFloat.

#[local] Open Scope R_scope.

Definition prec : Z := 53.
Definition emax : Z := 1024.

Abbreviation binary64 := spec_float.

(** [*], [+] and [-] of C++. *)
Definition dmul (a b : binary64) : binary64 := SFmul prec emax a b.
Definition dadd (a b : binary64) : binary64 := SFadd prec emax a b.
Definition dsub (a b : binary64) : binary64 := SFsub prec emax a b.

(** The number 1 as a double. *)
Definition done_ : binary64 := S754_finite false 4503599627370496 (-52).

(** ** Powers of two *)

Definition b2 (e : Z) : R := powerRZ 2 e.

Lemma b2_pos e : 0 < b2 e.
Proof. apply powerRZ_lt. lra. Qed.
Lemma b2_add a b : b2 (a + b) = b2 a * b2 b.
Proof. apply powerRZ_add. lra. Qed.
Lemma b2_IZR n : (0 ≤ n)%Z → b2 n = IZR (2 ^ n).
Proof.
  intros Hn. unfold b2. rewrite <- (Z2Nat.id n) at 1 by done. rewrite <- pow_powerRZ.
  rewrite <- (Z2Nat.id n) at 2 by done. by rewrite <- pow_IZR.
Qed.
Lemma b2_S e : b2 (e + 1) = 2 * b2 e.
Proof. rewrite b2_add. unfold b2 at 2. simpl. lra. Qed.
Lemma b2_le a b : (a ≤ b)%Z → b2 a <= b2 b.
Proof.
  intros H. replace b with (a + (b - a))%Z by lia. rewrite b2_add. rewrite (b2_IZR (b - a)) by lia.
  pose proof (b2_pos a). assert (1 <= IZR (2 ^ (b - a))) by (apply IZR_le; lia). nra.
Qed.
Lemma b2_lt_inv a b : b2 a < b2 b → (a < b)%Z.
Proof. intros H. destruct (Z.lt_ge_cases a b) as [|Hge]; [done|]. apply b2_le in Hge. lra. Qed.

(** ** What a double stands for *)

Definition finite (x : binary64) : bool := match x with S754_zero _ | S754_finite _ _ _ => true | _ => false end.

Definition val (x : binary64) : R :=
  match x with S754_finite s m e => IZR (cond_Zopp s (Zpos m)) * b2 e | _ => 0 end.

(** The numbers a double can hold. *)
Definition valid (x : binary64) : bool := valid_binary prec emax x.

(** [2^-53] and half the smallest double. *)
Definition u : R := b2 (-53).
Definition eta : R := b2 (-1075).

(** ** Digits *)

Lemma digits_bounds p : (2 ^ (Zpos (digits2_pos p) - 1) ≤ Zpos p < 2 ^ Zpos (digits2_pos p))%Z.
Proof.
  induction p as [p IH|p IH|]; cbn [digits2_pos]; [| |by vm_compute].
  all: rewrite Pos2Z.inj_succ; replace (Z.succ (Zpos (digits2_pos p)) - 1)%Z with (Z.succ (Zpos (digits2_pos p) - 1)) by lia;
    rewrite !Z.pow_succ_r by lia; lia.
Qed.

Lemma digits_unique p d : (2 ^ (d - 1) ≤ Zpos p < 2 ^ d)%Z → Zpos (digits2_pos p) = d.
Proof.
  intros [H1 H2]. destruct (digits_bounds p) as [H3 H4].
  assert (0 < d)%Z as Hd.
  { destruct (Z.lt_ge_cases 0 d); [done|]. destruct (Z.eq_dec d 0) as [->|]; [simpl in H2; lia|].
    rewrite (Z.pow_neg_r 2 d) in H2 by lia. lia. }
  assert (Zpos (digits2_pos p) - 1 < d)%Z by (apply (Z.pow_lt_mono_r_iff 2); lia).
  assert (d - 1 < Zpos (digits2_pos p))%Z by (apply (Z.pow_lt_mono_r_iff 2); lia). lia.
Qed.

Lemma digits_le p q : (Zpos p ≤ Zpos q)%Z → (Zpos (digits2_pos p) ≤ Zpos (digits2_pos q))%Z.
Proof.
  intros H. destruct (digits_bounds p) as [H1 _], (digits_bounds q) as [_ H2].
  assert (Zpos (digits2_pos p) - 1 < Zpos (digits2_pos q))%Z by (apply (Z.pow_lt_mono_r_iff 2); lia). lia.
Qed.

(** ** Shifting right *)

(** A real [x] is where a record of shifting says: its integer part, and whether it is exact, below, at or above the half. *)
Definition located (r : shr_record) (x : R) : Prop :=
  (0 ≤ shr_m r)%Z ∧
  match shr_r r, shr_s r with
  | false, false => x = IZR (shr_m r)
  | false, true => IZR (shr_m r) < x < IZR (shr_m r) + / 2
  | true, false => x = IZR (shr_m r) + / 2
  | true, true => IZR (shr_m r) + / 2 < x < IZR (shr_m r) + 1
  end.

Lemma located_shr_1 r x : located r x → located (shr_1 r) (x / 2).
Proof.
  destruct r as [m r s]. unfold located. cbn [shr_m shr_r shr_s]. intros [Hm Hx].
  destruct m as [|[p|p|]|p]; [..|lia]; cbn [shr_1]; (split; [done|]); cbn [shr_m shr_r shr_s];
    try rewrite (Pos2Z.inj_xI p) in Hx; try rewrite (Pos2Z.inj_xO p) in Hx; rewrite ?plus_IZR, ?mult_IZR in Hx;
    destruct r, s; simpl orb; cbv iota; lra.
Qed.

Lemma located_shr p r x : located r x → located (iter_pos shr_1 p r) (x / b2 (Zpos p)).
Proof.
  revert r x. induction p as [p IH|p IH|]; intros r x H; cbn [iter_pos].
  - apply located_shr_1, IH, IH in H. replace (x / b2 (Zpos p~1)) with (x / 2 / b2 (Zpos p) / b2 (Zpos p)); [done|].
    rewrite Pos2Z.inj_xI. replace (2 * Zpos p + 1)%Z with (Zpos p + Zpos p + 1)%Z by lia. rewrite b2_S, b2_add.
    pose proof (b2_pos (Zpos p)). field. lra.
  - apply IH, IH in H. replace (x / b2 (Zpos p~0)) with (x / b2 (Zpos p) / b2 (Zpos p)); [done|].
    rewrite Pos2Z.inj_xO. replace (2 * Zpos p)%Z with (Zpos p + Zpos p)%Z by lia. rewrite b2_add.
    pose proof (b2_pos (Zpos p)). field. lra.
  - apply located_shr_1 in H. unfold b2. simpl. by rewrite Rmult_1_r.
Qed.

Lemma located_exact m : (0 ≤ m)%Z → located (shr_record_of_loc m loc_Exact) (IZR m).
Proof. by split. Qed.

(** Rounding to nearest: half a unit at most, and not up beyond the next integer. *)
Lemma round_nearest r x :
  located r x →
  let m := round_nearest_even (shr_m r) (loc_of_shr_record r) in
  Rabs (IZR m - x) <= / 2 ∧ (shr_m r ≤ m ≤ shr_m r + 1)%Z.
Proof.
  destruct r as [m r s]. intros [Hm Hx]. cbn [shr_m shr_r shr_s] in *.
  destruct r, s; cbn [loc_of_shr_record round_nearest_even].
  - rewrite plus_IZR. split; [apply Rabs_le; lra|lia].
  - destruct (Z.even m); [|rewrite plus_IZR]; (split; [apply Rabs_le; lra|lia]).
  - split; [apply Rabs_le; lra|lia].
  - split; [apply Rabs_le; lra|lia].
Qed.

(** ** Rounding an exact number *)

Definition fexp64 (e : Z) : Z := Z.max (e - 53) (-1074).
Lemma fexp64_eq e : fexp prec emax e = fexp64 e.
Proof. reflexivity. Qed.

(** The digits of the number [m * 2 ^ e]. *)
Definition magnitude (m : positive) (e : Z) : Z := (Zpos (digits2_pos m) + e)%Z.

Lemma magnitude_bounds m e : b2 (magnitude m e - 1) <= IZR (Zpos m) * b2 e < b2 (magnitude m e).
Proof.
  unfold magnitude. destruct (digits_bounds m) as [H1 H2].
  replace (Zpos (digits2_pos m) + e - 1)%Z with (Zpos (digits2_pos m) - 1 + e)%Z by lia.
  rewrite !b2_add, (b2_IZR (_ - 1)), (b2_IZR (Zpos (digits2_pos m))) by lia. pose proof (b2_pos e).
  split; [apply Rmult_le_compat_r; [lra|by apply IZR_le]|apply Rmult_lt_compat_r; [lra|by apply IZR_lt]].
Qed.

Lemma magnitude_unique m e d : b2 (d - 1) <= IZR (Zpos m) * b2 e < b2 d → magnitude m e = d.
Proof.
  intros [H1 H2]. destruct (magnitude_bounds m e) as [H3 H4].
  assert (magnitude m e - 1 < d)%Z by (apply b2_lt_inv; lra).
  assert (d - 1 < magnitude m e)%Z by (apply b2_lt_inv; lra). lia.
Qed.

(** Mantissa and exponent of the rounded number: [m * 2 ^ e] to the nearest multiple of [2 ^ e']. *)
Lemma first_shift m e :
  let '(r, e') := shr_fexp prec emax (Zpos m) e loc_Exact in
  e' = Z.max e (fexp64 (magnitude m e)) ∧ located r (IZR (Zpos m) * b2 e / b2 e').
Proof.
  unfold shr_fexp. rewrite fexp64_eq. change (Zdigits2 (Zpos m) + e)%Z with (magnitude m e). unfold shr.
  pose proof (located_exact (Zpos m) ltac:(lia)) as Hl. pose proof (b2_pos e).
  destruct (fexp64 (magnitude m e) - e)%Z as [|p|p] eqn:E.
  - split; [lia|]. replace (_ * _ / _) with (IZR (Zpos m)) by (field; lra). done.
  - split; [lia|]. replace (_ * _ / _) with (IZR (Zpos m) / b2 (Zpos p)); [by apply located_shr|].
    rewrite b2_add. pose proof (b2_pos (Zpos p)). field. lra.
  - split; [lia|]. replace (_ * _ / _) with (IZR (Zpos m)) by (field; lra). done.
Qed.

(** The integer that is rounded to has 53 digits, or is the next power of two. *)
Lemma rounded_small m e :
  let e' := Z.max e (fexp64 (magnitude m e)) in 0 <= IZR (Zpos m) * b2 e / b2 e' < IZR (2 ^ 53).
Proof.
  intros e'. pose proof (b2_pos e'). destruct (magnitude_bounds m e) as [H1 H2].
  pose proof (b2_pos (magnitude m e - 1)). split.
  - apply Rmult_le_pos; [lra|]. left. by apply Rinv_0_lt_compat.
  - apply (Rmult_lt_reg_r (b2 e')); [done|]. replace (_ / b2 e' * b2 e') with (IZR (Zpos m) * b2 e) by (field; lra).
    rewrite <- b2_IZR, <- b2_add by lia. eapply Rlt_le_trans; [exact H2|]. apply b2_le. unfold e', fexp64. lia.
Qed.

(** The second shift takes at most the digit that rounding up to a power of two added. *)
Lemma second_shift q e' :
  (0 ≤ q ≤ 2 ^ 53)%Z → (-1074 ≤ e')%Z →
  ∃ e2, shr_fexp prec emax q e' loc_Exact = (Build_shr_record (if (q =? 2 ^ 53)%Z then 2 ^ 52 else q) false false, e2) ∧
    e2 = if (q =? 2 ^ 53)%Z then (e' + 1)%Z else e'.
Proof.
  intros Hq He. unfold shr_fexp. rewrite fexp64_eq. destruct (Z.eqb_spec q (2 ^ 53)) as [->|Hne].
  - replace (fexp64 (Zdigits2 (2 ^ 53) + e') - e')%Z with 1%Z by (unfold fexp64; simpl Zdigits2; lia). by eexists.
  - exists e'. split; [|done]. unfold shr. assert (fexp64 (Zdigits2 q + e') - e' ≤ 0)%Z as Hle.
    { unfold fexp64. destruct q as [|p|p]; [simpl; lia| |lia].
      assert (Zpos (digits2_pos p) ≤ 53)%Z; [|simpl Zdigits2; lia].
      destruct (digits_bounds p) as [H1 _]. assert (Zpos (digits2_pos p) - 1 < 53)%Z; [|lia].
      apply (Z.pow_lt_mono_r_iff 2); lia. }
    by destruct (fexp64 (Zdigits2 q + e') - e')%Z; [| lia|].
Qed.

Definition sign (s : bool) : R := if s then -1 else 1.

Lemma sign_abs s : Rabs (sign s) = 1.
Proof. destruct s; unfold sign; [rewrite Rabs_left by lra; lra|apply Rabs_R1]. Qed.

Lemma val_finite s m e : val (S754_finite s m e) = sign s * (IZR (Zpos m) * b2 e).
Proof. simpl. destruct s; simpl cond_Zopp; unfold sign; [|ring]. change (Z.neg m) with (- Zpos m)%Z. rewrite opp_IZR. ring. Qed.

(** What rounding makes of [m * 2 ^ e]: the integer [q] times the unit [2 ^ e'], unless it is too large. *)
Lemma round_aux s m e :
  let e' := Z.max e (fexp64 (magnitude m e)) in
  ∃ q, (0 ≤ q ≤ 2 ^ 53)%Z ∧ Rabs (IZR q - IZR (Zpos m) * b2 e / b2 e') <= / 2 ∧
    binary_round_aux prec emax s (Zpos m) e loc_Exact =
    match q with
    | Zpos p =>
        let '(p', e2) := if (q =? 2 ^ 53)%Z then (2 ^ 52, e' + 1)%Z else (q, e') in
        match p' with
        | Zpos p' => if (e2 <=? 971)%Z then S754_finite s p' e2 else S754_infinity s
        | _ => S754_nan
        end
    | _ => S754_zero s
    end.
Proof.
  intros e'. pose proof (first_shift m e) as H1. unfold binary_round_aux.
  destruct (shr_fexp prec emax (Zpos m) e loc_Exact) as [r e1]. destruct H1 as [-> Hl]. fold e' in Hl |- *.
  destruct (round_nearest r _ Hl) as [Hr Hb]. cbv zeta in *.
  set (q := round_nearest_even (shr_m r) (loc_of_shr_record r)) in *. exists q.
  assert (0 ≤ q ≤ 2 ^ 53)%Z as Hq.
  { destruct Hl as [Hm Hx]. split; [lia|]. destruct (rounded_small m e) as [_ Hs]. cbv zeta in Hs. fold e' in Hs.
    assert (shr_m r < 2 ^ 53)%Z; [|lia]. apply lt_IZR. destruct (shr_r r), (shr_s r); lra. }
  split; [done|]. split; [done|].
  destruct (second_shift q e' Hq) as (e2 & -> & ->); [unfold e', fexp64; lia|]. cbn [shr_m].
  destruct (Z.eqb_spec q (2 ^ 53)) as [Heq|Hne]; [by rewrite Heq|]. by destruct q; [| |lia].
Qed.

(** The unit is small against the number, or the smallest there is. *)
Lemma unit_small m e :
  (e < fexp64 (magnitude m e))%Z → b2 (fexp64 (magnitude m e)) / 2 <= u * (IZR (Zpos m) * b2 e) + eta.
Proof.
  intros _. unfold fexp64. destruct (magnitude_bounds m e) as [H _]. pose proof (b2_pos (magnitude m e - 1)).
  replace (b2 (Z.max (magnitude m e - 53) (-1074)) / 2) with (b2 (Z.max (magnitude m e - 53) (-1074) - 1)).
  2: { replace (b2 (Z.max _ _)) with (b2 (Z.max (magnitude m e - 53) (-1074) - 1 + 1)) by (f_equal; lia). rewrite b2_S. field. }
  pose proof (b2_pos (-53)) as Hu. pose proof (b2_pos (-1075)) as He. fold u in Hu. fold eta in He.
  destruct (Z.max_spec (magnitude m e - 53) (-1074)) as [[_ ->]|[_ ->]].
  - change (-1074 - 1)%Z with (-1075)%Z. fold eta. nra.
  - replace (magnitude m e - 53 - 1)%Z with (-53 + (magnitude m e - 1))%Z by lia. rewrite b2_add. fold u. nra.
Qed.

(** The error of rounding a number that does not get too large. *)
Lemma round_aux_error s m e :
  finite (binary_round_aux prec emax s (Zpos m) e loc_Exact) = true →
  Rabs (val (binary_round_aux prec emax s (Zpos m) e loc_Exact) - sign s * (IZR (Zpos m) * b2 e)) <=
  u * (IZR (Zpos m) * b2 e) + eta.
Proof.
  destruct (round_aux s m e) as (q & Hq & Herr & ->). cbv zeta in *.
  set (e' := Z.max e (fexp64 (magnitude m e))) in *. set (v := IZR (Zpos m) * b2 e) in *. intros Hfin.
  assert (val match q with
    | Zpos p => let '(p', e2) := if (q =? 2 ^ 53)%Z then (2 ^ 52, e' + 1)%Z else (q, e') in
        match p' with Zpos p' => if (e2 <=? 971)%Z then S754_finite s p' e2 else S754_infinity s | _ => S754_nan end
    | _ => S754_zero s end = sign s * (IZR q * b2 e')) as ->.
  { destruct q as [|p|p]; [simpl; ring| |lia]. destruct (Z.eqb_spec (Zpos p) (2 ^ 53)) as [->|_].
    - change (2 ^ 52)%Z with 4503599627370496%Z in *. destruct (_ <=? _)%Z; [|done]. rewrite val_finite, b2_S.
      change (2 ^ 53)%Z with (2 * 4503599627370496)%Z. rewrite mult_IZR. ring.
    - destruct (_ <=? _)%Z; [|done]. apply val_finite. }
  pose proof (b2_pos e') as He'. assert (0 < v) as Hv by (apply Rmult_lt_0_compat; [by apply IZR_lt|apply b2_pos]).
  assert (Rabs (sign s * (IZR q * b2 e') - sign s * v) = Rabs (IZR q - v / b2 e') * b2 e') as ->.
  { replace (sign s * (IZR q * b2 e') - sign s * v) with (sign s * ((IZR q - v / b2 e') * b2 e')) by (field; lra).
    rewrite !Rabs_mult, (Rabs_pos_eq (b2 e')), sign_abs by lra. ring. }
  pose proof (b2_pos (-53)) as Hu. fold u in Hu. pose proof (b2_pos (-1075)) as Heta. fold eta in Heta.
  destruct (Z.le_gt_cases (fexp64 (magnitude m e)) e) as [Hle|Hlt].
  - assert (e' = e) as Hee by lia. rewrite Hee in *. assert (v / b2 e = IZR (Zpos m)) as Hx by (unfold v; field; lra).
    rewrite Hx in Herr |- *. assert (q = Zpos m) as ->.
    { rewrite <- minus_IZR in Herr. destruct (Rabs_def2 (IZR (q - Zpos m)) 1 ltac:(lra)) as [H1 H2].
      assert (-1 < q - Zpos m)%Z by (apply lt_IZR; lra). assert (q - Zpos m < 1)%Z by (apply lt_IZR; lra). lia. }
    rewrite Rminus_diag, Rabs_R0. nra.
  - assert (e' = fexp64 (magnitude m e)) as Hee by lia. pose proof (unit_small m e Hlt) as Hs. fold v in Hs. rewrite <- Hee in Hs.
    nra.
Qed.

(** ** What an operation promises *)

Definition good (x : binary64) : Prop := finite x = true ∧ valid x = true.

(** [r] is [x] rounded: when [x] is below [2 ^ 1023] there is no overflow, and the error is relative, or that of the
    smallest doubles. *)
Definition rounds (r : binary64) (x : R) : Prop :=
  Rabs x < b2 1023 → good r ∧ Rabs (val r - x) <= u * Rabs x + eta.

Lemma unit_positive : 0 < u ∧ 0 < eta.
Proof. split; apply b2_pos. Qed.

Lemma rounds_exact r : good r → rounds r (val r).
Proof.
  intros Hg _. split; [done|]. rewrite Rminus_diag, Rabs_R0. destruct unit_positive.
  pose proof (Rabs_pos (val r)). nra.
Qed.

Lemma rounds_zero s x : x = 0 → rounds (S754_zero s) x.
Proof. intros ->. by apply (rounds_exact (S754_zero s)). Qed.

(** When nothing is lost to the left, the result is a double in its canonical form. *)
Lemma round_aux_fits s m e :
  (e ≤ fexp64 (magnitude m e))%Z → IZR (Zpos m) * b2 e < b2 1023 →
  good (binary_round_aux prec emax s (Zpos m) e loc_Exact).
Proof.
  intros Hle Hv. destruct (round_aux s m e) as (q & Hq & Herr & ->). cbv zeta in *.
  rewrite (Z.max_r _ _ Hle) in *. set (e' := fexp64 (magnitude m e)) in *.
  destruct (magnitude_bounds m e) as [Hm _]. assert (magnitude m e - 1 < 1023)%Z by (apply b2_lt_inv; lra).
  assert (-1074 ≤ e' ≤ 970)%Z by (unfold e', fexp64; lia).
  destruct q as [|p|p]; [done| |lia]. destruct (Z.eqb_spec (Zpos p) (2 ^ 53)) as [Heq|Hne].
  - change (2 ^ 52)%Z with (Zpos 4503599627370496). cbv iota. rewrite (proj2 (Z.leb_le _ _)) by lia.
    split; [done|]. unfold valid, valid_binary, bounded, canonical_mantissa. rewrite fexp64_eq.
    apply andb_true_iff. split; [apply Z.eqb_eq|apply Z.leb_le; unfold emax, prec; lia].
    change (Zpos (digits2_pos 4503599627370496)) with 53%Z. unfold fexp64. lia.
  - rewrite (proj2 (Z.leb_le _ _)) by lia. split; [done|]. unfold valid, valid_binary, bounded, canonical_mantissa.
    rewrite fexp64_eq. apply andb_true_iff. split; [apply Z.eqb_eq|apply Z.leb_le; unfold emax, prec; lia].
    assert (Zpos (digits2_pos p) ≤ 53)%Z as Hd.
    { destruct (digits_bounds p) as [H1 _]. assert (Zpos (digits2_pos p) - 1 < 53)%Z; [|lia].
      apply (Z.pow_lt_mono_r_iff 2); lia. }
    destruct (Z.le_gt_cases (magnitude m e - 53) (-1074)) as [Hsub|Hnorm]; [unfold e', fexp64 in *; lia|].
    assert (e' = magnitude m e - 53)%Z as He' by (unfold e', fexp64; lia).
    assert (Zpos (digits2_pos p) = 53)%Z as ->; [|unfold fexp64; lia]. apply digits_unique. split; [|lia].
    assert (b2 52 <= IZR (Zpos m) * b2 e / b2 e') as Hx.
    { pose proof (b2_pos e'). apply (Rmult_le_reg_r (b2 e')); [done|].
      replace (_ / b2 e' * b2 e') with (IZR (Zpos m) * b2 e) by (field; lra). rewrite <- b2_add, He'.
      by replace (52 + (magnitude m e - 53))%Z with (magnitude m e - 1)%Z by lia. }
    rewrite (b2_IZR 52) in Hx by lia.
    assert (2 ^ 52 - 1 < Zpos p)%Z; [|simpl; lia]. apply lt_IZR. rewrite minus_IZR.
    destruct (Rabs_def2 (IZR (Zpos p) - IZR (Zpos m) * b2 e / b2 e') 1 ltac:(lra)) as [_ H2].
    revert Herr. unfold Rabs. destruct (Rcase_abs _); intros; lra.
Qed.

Lemma round_aux_rounds s m e :
  (e ≤ fexp64 (magnitude m e))%Z →
  rounds (binary_round_aux prec emax s (Zpos m) e loc_Exact) (sign s * (IZR (Zpos m) * b2 e)).
Proof.
  intros Hle Hx. assert (0 < IZR (Zpos m) * b2 e) as Hv by (apply Rmult_lt_0_compat; [by apply IZR_lt|apply b2_pos]).
  set (v := IZR (Zpos m) * b2 e) in *. assert (Rabs (sign s * v) = v) as Habs by (rewrite Rabs_mult, sign_abs, Rabs_pos_eq; lra).
  rewrite Habs in Hx |- *.
  pose proof (round_aux_fits s m e Hle Hx) as Hg. split; [done|]. by apply round_aux_error, Hg.
Qed.

(** ** Multiplication *)

Lemma valid_canonical s m e : valid (S754_finite s m e) = true → e = fexp64 (magnitude m e) ∧ (e ≤ 971)%Z.
Proof.
  unfold valid, valid_binary, bounded, canonical_mantissa. rewrite fexp64_eq, andb_true_iff, Z.eqb_eq, Z.leb_le.
  unfold emax, prec. intros [H1 H2]. split; [done|lia].
Qed.

(** The product of two canonical numbers has no digit too few. *)
Lemma product_low m1 e1 m2 e2 :
  e1 = fexp64 (magnitude m1 e1) → e2 = fexp64 (magnitude m2 e2) →
  (e1 + e2 ≤ fexp64 (magnitude (m1 * m2) (e1 + e2)))%Z.
Proof.
  unfold magnitude, fexp64. intros H1 H2.
  pose proof (digits_le m1 (m1 * m2) ltac:(nia)). pose proof (digits_le m2 (m1 * m2) ltac:(nia)). lia.
Qed.

Theorem dmul_rounds a b : good a → good b → rounds (dmul a b) (val a * val b).
Proof.
  intros [Ha Hva] [Hb Hvb]. unfold dmul.
  destruct a as [sa|sa| |sa ma ea], b as [sb|sb| |sb mb eb]; try done; cbn [SFmul].
  - apply rounds_zero. cbn [val]. ring.
  - apply rounds_zero. cbn [val]. ring.
  - apply rounds_zero. cbn [val]. ring.
  - apply valid_canonical in Hva as [Hva _]. apply valid_canonical in Hvb as [Hvb _].
    replace (val _ * val _) with (sign (xorb sa sb) * (IZR (Zpos (ma * mb)) * b2 (ea + eb))).
    + by apply round_aux_rounds, product_low.
    + rewrite !val_finite, Pos2Z.inj_mul, mult_IZR, b2_add. destruct sa, sb; unfold sign; simpl xorb; cbv iota; ring.
Qed.

(** ** Addition *)

Lemma iter_xO m d : Zpos (Pos.iter xO m d) = (Zpos m * 2 ^ Zpos d)%Z.
Proof.
  revert m. induction d as [|d IH] using Pos.peano_ind; intros m; [simpl; lia|].
  rewrite Pos.iter_succ, Pos2Z.inj_succ, Z.pow_succ_r by lia. rewrite Pos2Z.inj_xO, IH. lia.
Qed.

(** Aligning a number to an exponent that is not above its own changes nothing but its form. *)
Lemma shl_align_same m e e' :
  let '(m1, e1) := shl_align m e e' in
  e1 = Z.min e e' ∧ IZR (Zpos m1) * b2 e1 = IZR (Zpos m) * b2 e ∧ magnitude m1 e1 = magnitude m e.
Proof.
  unfold shl_align. destruct (e' - e)%Z as [|d|d] eqn:E; [split_and!; [lia|done..]..|].
  assert (IZR (Zpos (Pos.iter xO m d)) * b2 e' = IZR (Zpos m) * b2 e) as Hv.
  { rewrite iter_xO, mult_IZR, <- b2_IZR by lia. rewrite Rmult_assoc, <- b2_add. do 2 f_equal. lia. }
  split_and!; [lia|done|]. apply magnitude_unique. rewrite Hv. apply magnitude_bounds.
Qed.

Lemma round_rounds s m e : rounds (binary_round prec emax s m e) (sign s * (IZR (Zpos m) * b2 e)).
Proof.
  unfold binary_round. rewrite fexp64_eq. change (Zpos (digits2_pos m) + e)%Z with (magnitude m e).
  pose proof (shl_align_same m e (fexp64 (magnitude m e))) as H.
  destruct (shl_align m e (fexp64 (magnitude m e))) as [m1 e1]. destruct H as (He & Hv & Hm).
  rewrite <- Hv. apply round_aux_rounds. rewrite Hm. lia.
Qed.

Lemma normalize_rounds m e szero : rounds (binary_normalize prec emax m e szero) (IZR m * b2 e).
Proof.
  destruct m as [|m|m]; cbn [binary_normalize].
  - replace (0 * b2 e) with (val (S754_zero szero)) by (cbn [val]; ring). by apply rounds_exact.
  - replace (_ * _) with (sign false * (IZR (Zpos m) * b2 e)) by (unfold sign; ring). apply round_rounds.
  - replace (_ * _) with (sign true * (IZR (Zpos m) * b2 e)); [apply round_rounds|].
    change (Zneg m) with (- Zpos m)%Z. rewrite opp_IZR. unfold sign. ring.
Qed.

(** A summand at the exponent of the sum. *)
Lemma aligned s m e e' :
  (e' ≤ e)%Z → IZR (cond_Zopp s (Zpos (shl_align m e e').1)) * b2 e' = val (S754_finite s m e).
Proof.
  intros He. pose proof (shl_align_same m e e') as H. destruct (shl_align m e e') as [m1 e1]. destruct H as (He1 & Hv & _).
  rewrite Z.min_r in He1 by done. subst e1. rewrite val_finite, <- Hv. cbn [fst]. destruct s; simpl cond_Zopp; unfold sign; [|ring].
  change (Zneg m1) with (- Zpos m1)%Z. rewrite opp_IZR. ring.
Qed.

Theorem dadd_rounds a b : good a → good b → rounds (dadd a b) (val a + val b).
Proof.
  intros Ha Hb. pose proof Ha as [Hfa _]. pose proof Hb as [Hfb _]. unfold dadd.
  destruct a as [sa|sa| |sa ma ea], b as [sb|sb| |sb mb eb]; try done; cbn [SFadd].
  - destruct sa, sb; apply rounds_zero; cbn [val]; ring.
  - replace (_ + _) with (val (S754_finite sb mb eb)) by (cbn [val]; ring). by apply rounds_exact.
  - replace (_ + _) with (val (S754_finite sa ma ea)) by (cbn [val]; ring). by apply rounds_exact.
  - rewrite <- (aligned sa ma ea (Z.min ea eb)), <- (aligned sb mb eb (Z.min ea eb)), <- Rmult_plus_distr_r, <- plus_IZR by lia.
    apply normalize_rounds.
Qed.

Theorem dsub_rounds a b : good a → good b → rounds (dsub a b) (val a - val b).
Proof.
  intros Ha Hb. pose proof Ha as [Hfa _]. pose proof Hb as [Hfb Hvb]. unfold dsub.
  destruct a as [sa|sa| |sa ma ea], b as [sb|sb| |sb mb eb]; try done; cbn [SFsub].
  - destruct sa, sb; apply rounds_zero; cbn [val]; ring.
  - replace (_ - _) with (val (S754_finite (negb sb) mb eb)); [by apply rounds_exact|].
    rewrite !val_finite. destruct sb; unfold sign; simpl negb; cbn [val]; cbv iota; ring.
  - replace (_ - _) with (val (S754_finite sa ma ea)) by (cbn [val]; ring). by apply rounds_exact.
  - rewrite <- (aligned sa ma ea (Z.min ea eb)), <- (aligned sb mb eb (Z.min ea eb)), <- Rmult_minus_distr_r, <- minus_IZR by lia.
    apply normalize_rounds.
Qed.

Lemma done_good : good done_ ∧ val done_ = 1.
Proof. split; [done|]. unfold val, b2. simpl. field_simplify. lra. Qed.
