(* ===== verification/Bezier.v ===== *)
(** * Bézier curves (curve/core)

    [BezierCurveRecursiveDefine] of bezier_curve.h with the points of basic_types.h and
    the operators of utils.h, in the double precision they compute in (Binary64.v).  The reference is
    the sum of Bernstein polynomials over the reals. *)

From S2P Require Import Prelude Binary64.
From Stdlib Require Import Reals Lra.

#[local] Open Scope R_scope.

Record Point2D := mkPoint2D { x : binary64; y : binary64 }.

(** [operator*] and [operator+]. *)
Definition scale (v : binary64) (p : Point2D) : Point2D := mkPoint2D (dmul (x p) v) (dmul (y p) v).
Definition plus (a b : Point2D) : Point2D := mkPoint2D (dadd (x a) (x b)) (dadd (y a) (y b)).

(** The objects of the class template, by order: a copy of one point, or the two curves of the
    order below. *)
Inductive BezierCurve : nat → Type :=
  | Curve0 (p : Point2D) : BezierCurve 0
  | CurveS {order : nat} (c_a c_b : BezierCurve order) : BezierCurve (S order).

(** The constructors: the array of points is read from [p], the second curve's from [p + 1]; [None]
    where a point outside the array would be read. *)
Fixpoint make_curve (order : nat) (points : list Point2D) (p : nat) : option (BezierCurve order) :=
  match order with
  | O => q ← points !! p; Some (Curve0 q)
  | S order => c_a ← make_curve order points p; c_b ← make_curve order points (S p); Some (CurveS c_a c_b)
  end.

Fixpoint calc {order : nat} (c : BezierCurve order) (t : binary64) : Point2D :=
  match c with
  | Curve0 p => p
  | CurveS c_a c_b => plus (scale (dsub done_ t) (calc c_a t)) (scale t (calc c_b t))
  end.

(** ** The definition by Bernstein polynomials, a coordinate at a time *)

Fixpoint sum (n : nat) (f : nat → R) : R := match n with O => 0 | S n => sum n f + f n end.

Fixpoint choose (n k : nat) : nat :=
  match n, k with
  | _, O => 1
  | O, S _ => 0
  | S n, S k => choose n k + choose n (S k)
  end.

Definition bernstein (n i : nat) (t : R) : R := INR (choose n i) * t ^ i * (1 - t) ^ (n - i).

Definition bezier (order : nat) (f : nat → R) (t : R) : R := sum (S order) (λ i, bernstein order i t * f i).

(** ** The recursion over the reals *)

Lemma sum_scale n v f : v * sum n f = sum n (λ i, v * f i).
Proof. induction n as [|n IH]; simpl; [ring|]. rewrite <- IH. ring. Qed.

Lemma sum_plus n f g : sum n f + sum n g = sum n (λ i, f i + g i).
Proof. induction n as [|n IH]; simpl; [ring|]. rewrite <- IH. ring. Qed.

Lemma sum_ext n f g : (∀ i, (i < n)%nat → f i = g i) → sum n f = sum n g.
Proof. induction n as [|n IH]; intros H; simpl; [done|]. rewrite IH by (intros; apply H; lia). f_equal. apply H. lia. Qed.

(** The first term apart. *)
Lemma sum_first n f : sum (S n) f = f O + sum n (λ i, f (S i)).
Proof. induction n as [|n IH]; [simpl; ring|]. cbn [sum] in *. rewrite IH. ring. Qed.

Lemma choose_over n k : (n < k)%nat → choose n k = O.
Proof.
  revert k. induction n as [|n IH]; intros [|k] H; cbn [choose]; try lia.
  rewrite (IH k), (IH (S k)) by lia. done.
Qed.

(** Pascal's rule for the polynomials. *)
Lemma bernstein_S n i t : (i ≤ n)%nat →
  bernstein (S n) (S i) t = (1 - t) * bernstein n (S i) t + t * bernstein n i t.
Proof.
  intros Hi. unfold bernstein. cbn [choose]. rewrite plus_INR.
  replace (S n - S i)%nat with (n - i)%nat by lia. destruct (decide (i = n)) as [->|Hne].
  - rewrite (choose_over n (S n)), Nat.sub_diag by lia. simpl. ring.
  - assert (Hs : (n - i = S (n - S i))%nat) by lia. rewrite Hs. simpl. ring.
Qed.

Lemma bernstein_0 n t : bernstein (S n) 0 t = (1 - t) * bernstein n 0 t.
Proof. unfold bernstein. rewrite !Nat.sub_0_r. destruct n; simpl; ring. Qed.

Lemma bernstein_over n t : bernstein n (S n) t = 0.
Proof. unfold bernstein. rewrite choose_over by lia. simpl. ring. Qed.

Lemma bezier_S n f t : bezier (S n) f t = (1 - t) * bezier n f t + t * bezier n (λ i, f (S i)) t.
Proof.
  unfold bezier at 1. rewrite sum_first, bernstein_0.
  rewrite (sum_ext _ _ (λ i, (1 - t) * (bernstein n (S i) t * f (S i)) + t * (bernstein n i t * f (S i)))).
  2: { intros i Hi. rewrite bernstein_S by lia. ring. }
  rewrite <- sum_plus, <- !sum_scale, <- Rplus_assoc. f_equal.
  unfold bezier. rewrite (sum_first n (λ i, bernstein n i t * f i)). cbn [sum]. rewrite bernstein_over. ring.
Qed.

Lemma bezier_0 f t : bezier 0 f t = f O.
Proof. unfold bezier, bernstein. simpl. ring. Qed.

(** A convex combination of numbers within a bound. *)
Lemma convex M t a b : 0 <= t <= 1 → Rabs a <= M → Rabs b <= M → Rabs ((1 - t) * a + t * b) <= M.
Proof.
  intros Ht Ha Hb. eapply Rle_trans; [apply Rabs_triang|].
  rewrite !Rabs_mult, (Rabs_pos_eq (1 - t)), (Rabs_pos_eq t) by lra.
  assert ((1 - t) * Rabs a <= (1 - t) * M) by (apply Rmult_le_compat_l; lra).
  assert (t * Rabs b <= t * M) by (apply Rmult_le_compat_l; lra). lra.
Qed.

(** The curve stays within the bound of the points. *)
Lemma bezier_bound M n f t : 0 <= t <= 1 → (∀ i, (i ≤ n)%nat → Rabs (f i) <= M) → Rabs (bezier n f t) <= M.
Proof.
  intros Ht. revert f. induction n as [|n IH]; intros f Hf.
  - rewrite bezier_0. by apply Hf.
  - rewrite bezier_S. apply convex; [done|apply IH; intros; apply Hf; lia..].
Qed.

(** ** One level of the recursion *)

(** What a level multiplies the bound of the points and their error by, and what it adds at most. *)
Definition growth : R := (1 + u) ^ 2 * (1 + u + eta).
Definition bound (M : R) (n : nat) : R := (M + 4 * INR n * eta) * growth ^ n.

Lemma small : 0 < u <= / 8 ∧ 0 < eta <= u.
Proof.
  destruct unit_positive. split; (split; [done|]).
  - apply Rle_trans with (b2 (-3)); [apply b2_le; lia|]. unfold b2. simpl. lra.
  - apply b2_le. lia.
Qed.

Lemma growth_ge_1 : 1 + u + eta <= growth.
Proof. unfold growth. destruct small as [[? ?] [? ?]]. nra. Qed.

Lemma bound_S M n : 0 <= M → (bound M n + 4 * eta) * growth <= bound M (S n).
Proof.
  intros HM. unfold bound. rewrite S_INR. cbn [pow]. pose proof growth_ge_1. destruct small as [[? ?] [? ?]].
  assert (1 <= growth ^ n) by (apply pow_R1_Rle; lra).
  assert (4 * eta <= 4 * eta * growth ^ n) by nra.
  replace ((M + 4 * (INR n + 1) * eta) * (growth * growth ^ n)) with
    (((M + 4 * INR n * eta) * growth ^ n + 4 * eta * growth ^ n) * growth) by ring.
  apply Rmult_le_compat_r; lra.
Qed.

Lemma bound_ge M n : 0 <= M → M <= bound M n.
Proof.
  intros HM. unfold bound. pose proof growth_ge_1. destruct small as [[? ?] [? ?]].
  assert (1 <= growth ^ n) by (apply pow_R1_Rle; lra). pose proof (pos_INR n).
  assert (0 <= 4 * INR n * eta) by (repeat apply Rmult_le_pos; lra).
  replace M with (M * 1) at 1 by ring. apply Rmult_le_compat; lra.
Qed.

Lemma triang3 a b c : Rabs (a + b + c) <= Rabs a + Rabs b + Rabs c.
Proof. eapply Rle_trans; [apply Rabs_triang|]. pose proof (Rabs_triang a b). lra. Qed.

(** The product of a coordinate, near [al], and a weight, near [w]. *)
Lemma weighted A M a al W w P du dw :
  0 <= w <= 1 → Rabs al <= M → Rabs (a - al) <= A - M → 0 <= dw → 0 <= du →
  Rabs (W - w) <= dw → Rabs (P - a * W) <= u * Rabs (a * W) + du →
  Rabs (a * W) <= A * (w + dw) ∧
  Rabs (P - w * al) <= u * (A * (w + dw)) + du + A * dw + (A - M) * w.
Proof.
  intros Hw Hal Ha Hdw Hdu HW HP. destruct small as [[? ?] _].
  assert (Rabs a <= A) as HA.
  { replace a with ((a - al) + al) by ring. eapply Rle_trans; [apply Rabs_triang|]. lra. }
  assert (Rabs W <= w + dw) as HWa.
  { replace W with ((W - w) + w) by ring. eapply Rle_trans; [apply Rabs_triang|]. rewrite (Rabs_pos_eq w) by lra. lra. }
  assert (Rabs (a * W) <= A * (w + dw)) as HaW.
  { rewrite Rabs_mult. apply Rmult_le_compat; auto using Rabs_pos. }
  split; [done|]. replace (P - w * al) with ((P - a * W) + a * (W - w) + (a - al) * w) by ring.
  eapply Rle_trans; [apply triang3|]. rewrite !(Rabs_mult _ (W - w)), (Rabs_mult _ w), (Rabs_pos_eq w) by lra.
  assert (Rabs a * Rabs (W - w) <= A * dw) by (apply Rmult_le_compat; auto using Rabs_pos).
  assert (u * Rabs (a * W) <= u * (A * (w + dw))) by (apply Rmult_le_compat_l; lra).
  assert (Rabs (a - al) * w <= (A - M) * w) by (apply Rmult_le_compat_r; lra). lra.
Qed.

Lemma rounding_zero x : Rabs (x - x) <= u * Rabs x + 0.
Proof. rewrite Rminus_diag, Rabs_R0. destruct unit_positive. pose proof (Rabs_pos x). pose proof (Rmult_le_pos u (Rabs x)). lra. Qed.

(** A coordinate of [(1 - t) * a + t * b]. *)
Lemma level A M a b t al be :
  good a → good b → good t → 0 <= val t <= 1 → Rabs al <= M → Rabs be <= M →
  Rabs (val a - al) <= A - M → Rabs (val b - be) <= A - M → (A + 4 * eta) * growth < b2 1023 →
  let r := dadd (dmul a (dsub done_ t)) (dmul b t) in
  good r ∧ Rabs (val r - ((1 - val t) * al + val t * be)) <= (A + 4 * eta) * growth - M.
Proof.
  intros Ha Hb Ht Ht01 Hal Hbe Haa Hbb HA. cbv zeta. destruct small as [[Hu0 Hu1] [He0 He1]].
  pose proof growth_ge_1 as Hg. pose proof (Rabs_pos al). pose proof (Rabs_pos (val a - al)). set (T := val t) in *.
  assert (A * (1 + u + eta) <= A * growth) as HAg by (apply Rmult_le_compat_l; lra).
  assert (0 <= 4 * eta * growth) by (apply Rmult_le_pos; lra).
  assert (0 <= A) as HA0 by lra. assert (0 <= A * u) by (apply Rmult_le_pos; lra).
  assert (0 <= A * eta) by (apply Rmult_le_pos; lra). assert (4 * eta * 1 <= 4 * eta * growth) by (apply Rmult_le_compat_l; lra).
  assert (0 <= u * (1 - T) <= u) as HuT by (split; [apply Rmult_le_pos; lra|]; assert (0 <= u * T) by (apply Rmult_le_pos; lra); lra).
  (* the first weight *)
  destruct done_good as [Hd1 Hd2].
  destruct (dsub_rounds done_ t Hd1 Ht) as [Hw HW].
  { rewrite Hd2. fold T. rewrite Rabs_pos_eq by lra. apply Rle_lt_trans with (b2 0); [unfold b2; simpl; lra|]. 
    assert (b2 0 < b2 1023); [|lra]. apply Rlt_le_trans with (b2 1); [unfold b2; simpl; lra|apply b2_le; lia]. }
  rewrite Hd2 in HW. fold T in HW. rewrite (Rabs_pos_eq (1 - T)) in HW by lra. set (w := dsub done_ t) in *.
  (* the products *)
  destruct (weighted A M (val a) al (val w) (1 - T) (val a * val w) 0 (u * (1 - T) + eta)) as [HaW _];
    [lra|done|done|lra|lra|done|by apply rounding_zero|].
  assert (Rabs (val a * val w) <= A * (1 + u + eta)) as HaW'.
  { eapply Rle_trans; [exact HaW|]. apply Rmult_le_compat_l; lra. }
  destruct (dmul_rounds a w Ha Hw) as [Hp HP]; [lra|].
  destruct (weighted A M (val b) be T T (val b * T) 0 0) as [HbT _];
    [lra|done|done|lra|lra|rewrite Rminus_diag, Rabs_R0; lra|by apply rounding_zero|].
  destruct (dmul_rounds b t Hb Ht) as [Hq HQ]; [fold T|fold T in HQ].
  { assert (A * (T + 0) <= A * 1) by (apply Rmult_le_compat_l; lra). lra. }
  destruct (weighted A M (val a) al (val w) (1 - T) (val (dmul a w)) eta (u * (1 - T) + eta)) as [_ HP1];
    [lra|done|done|lra|lra|done|done|].
  destruct (weighted A M (val b) be T T (val (dmul b t)) eta 0) as [_ HQ1];
    [lra|done|done|lra|lra|rewrite Rminus_diag, Rabs_R0; lra|done|].
  set (P := val (dmul a w)) in *. set (Q := val (dmul b t)) in *. set (ex := (1 - T) * al + T * be).
  (* their sum *)
  assert (Rabs (P + Q - ex) <= A * (1 + u) ^ 2 - M + A * (1 + u) * eta + 2 * eta) as HF.
  { replace (P + Q - ex) with ((P - (1 - T) * al) + (Q - T * be)) by (unfold ex; ring).
    eapply Rle_trans; [apply Rabs_triang|]. assert (0 <= T * (A * (u * (1 + u)))) by (repeat apply Rmult_le_pos; lra).
    assert (0 <= T * (A * u)) by (apply Rmult_le_pos; lra). assert (0 <= A * u * eta) by (apply Rmult_le_pos; lra). lra. }
  assert (Rabs ex <= M) as Hex.
  { by apply convex. }
  set (F := A * (1 + u) ^ 2 - M + A * (1 + u) * eta + 2 * eta) in *.
  assert (Rabs (P + Q) <= M + F) as HPQ.
  { replace (P + Q) with (ex + (P + Q - ex)) by ring. eapply Rle_trans; [apply Rabs_triang|]. lra. }
  assert ((1 + u) * (M + F) + eta <= (A + 4 * eta) * growth) as Hfin.
  { unfold F. replace ((1 + u) * (M + (A * (1 + u) ^ 2 - M + A * (1 + u) * eta + 2 * eta)) + eta) with
      (A * growth + (3 + 2 * u) * eta) by (unfold growth; ring).
    assert ((3 + 2 * u) * eta <= 4 * eta) by (apply Rmult_le_compat_r; lra). lra. }
  assert (0 <= M + F) by (pose proof (Rabs_pos (P + Q)); lra).
  destruct (dadd_rounds (dmul a w) (dmul b t) Hp Hq) as [Hr HR]; [fold P Q|fold P Q in HR].
  { assert (0 <= u * (M + F)) by (apply Rmult_le_pos; lra). lra. }
  split; [done|]. replace (val _ - ex) with ((val (dadd (dmul a w) (dmul b t)) - (P + Q)) + (P + Q - ex)) by ring.
  eapply Rle_trans; [apply Rabs_triang|]. assert (u * Rabs (P + Q) <= u * (M + F)) by (apply Rmult_le_compat_l; lra). lra.
Qed.

(** ** The whole recursion *)

(** A point of doubles, both of them within [M]. *)
Definition within (M : R) (q : Point2D) : Prop :=
  good (x q) ∧ good (y q) ∧ Rabs (val (x q)) <= M ∧ Rabs (val (y q)) <= M.

(** [q] is a point of doubles near the point [(ex, ey)]. *)
Definition near (eps : R) (q : Point2D) (ex ey : R) : Prop :=
  good (x q) ∧ good (y q) ∧ Rabs (val (x q) - ex) <= eps ∧ Rabs (val (y q) - ey) <= eps.

Definition point_at (points : list Point2D) (i : nat) : Point2D :=
  default (mkPoint2D (SpecFloat.S754_zero false) (SpecFloat.S754_zero false)) (points !! i).

Lemma make_curve_some order points p :
  (p + order < length points)%nat → is_Some (make_curve order points p).
Proof.
  revert p. induction order as [|n IH]; intros p H; cbn [make_curve].
  - destruct (lookup_lt_is_Some_2 points p ltac:(lia)) as [q ->]. eauto.
  - destruct (IH p ltac:(lia)) as [a ->], (IH (S p) ltac:(lia)) as [b ->]. eauto.
Qed.

Lemma calc_near M order points p c t :
  0 <= M → Forall (within M) points → good t → 0 <= val t <= 1 → bound M order < b2 1023 →
  make_curve order points p = Some c → (p + order < length points)%nat →
  near (bound M order - M) (calc c t) (bezier order (λ i, val (x (point_at points (p + i)))) (val t))
    (bezier order (λ i, val (y (point_at points (p + i)))) (val t)).
Proof.
  intros HM Hall Ht Ht01. rewrite Forall_lookup in Hall. revert p c.
  assert (∀ i, (i < length points)%nat → within M (point_at points i)) as Hat.
  { intros i Hi. unfold point_at. destruct (lookup_lt_is_Some_2 points i Hi) as [q Hq]. rewrite Hq. by apply (Hall i). }
  induction order as [|n IH]; intros p c Hb; cbn [make_curve].
  - destruct (points !! p) as [q|] eqn:E; [|done]. intros [= <-] _. rewrite !bezier_0, Nat.add_0_r. unfold point_at.
    rewrite E. destruct (Hall p q E) as (H1 & H2 & _). cbn [calc default]. split; [done|]. split; [done|].
    unfold bound. simpl INR. simpl pow. rewrite !Rminus_diag, Rabs_R0. lra.
  - destruct (make_curve n points p) as [a|] eqn:Ea; [|done].
    destruct (make_curve n points (S p)) as [b|] eqn:Eb; [|done]. intros [= <-] Hlen.
    pose proof (bound_S M n HM) as HS. pose proof growth_ge_1. destruct small as [[? ?] [? ?]].
    pose proof (bound_ge M n HM) as Hge.
    assert (bound M n * 1 <= (bound M n + 4 * eta) * growth) by (apply Rmult_le_compat; lra).
    destruct (IH p a ltac:(lra) Ea ltac:(lia)) as (Gax & Gay & Hax & Hay).
    destruct (IH (S p) b ltac:(lra) Eb ltac:(lia)) as (Gbx & Gby & Hbx & Hby).
    assert (∀ (g : Point2D → R) k, (∀ q, within M q → Rabs (g q) <= M) → (k + n < length points)%nat →
      Rabs (bezier n (λ i, g (point_at points (k + i))) (val t)) <= M) as Hbez.
    { intros g k Hg Hk. apply bezier_bound; [done|]. intros i Hi. apply Hg, Hat. lia. }
    assert (∀ g, bezier (S n) (λ i, g (point_at points (p + i))) (val t) =
      (1 - val t) * bezier n (λ i, g (point_at points (p + i))) (val t) +
      val t * bezier n (λ i, g (point_at points (S p + i))) (val t)) as HS'.
    { intros g. rewrite bezier_S. do 2 f_equal. unfold bezier. apply sum_ext. intros i _. by rewrite Nat.add_succ_r. }
    rewrite (HS' (λ q, val (x q))), (HS' (λ q, val (y q))). cbn [calc].
    destruct (level (bound M n) M (x (calc a t)) (x (calc b t)) t _ _ Gax Gbx Ht Ht01
      (Hbez (λ q, val (x q)) p ltac:(by intros q (_ & _ & ? & _)) ltac:(lia))
      (Hbez (λ q, val (x q)) (S p) ltac:(by intros q (_ & _ & ? & _)) ltac:(lia)) Hax Hbx ltac:(lra)) as [Gx Hx].
    destruct (level (bound M n) M (y (calc a t)) (y (calc b t)) t _ _ Gay Gby Ht Ht01
      (Hbez (λ q, val (y q)) p ltac:(by intros q (_ & _ & _ & ?)) ltac:(lia))
      (Hbez (λ q, val (y q)) (S p) ltac:(by intros q (_ & _ & _ & ?)) ltac:(lia)) Hay Hby ltac:(lra)) as [Gy Hy].
    split; [exact Gx|]. split; [exact Gy|]. cbn [plus scale x y]. split; lra.
Qed.

(** ** The bound in numbers *)

Lemma growth_le : growth <= 1 + 5 * u.
Proof.
  unfold growth. destruct small as [[Hu _] [He0 He1]].
  assert (u <= / 32) as Hu1. { apply Rle_trans with (b2 (-5)); [apply b2_le; lia|]. unfold b2. simpl. lra. }
  apply Rle_trans with ((1 + u) ^ 2 * (1 + 2 * u)); [apply Rmult_le_compat_l; [apply pow_le|]; lra|]. simpl. nra.
Qed.

Lemma pow_small z n : 0 <= z → 2 * INR n * z <= 1 → (1 + z) ^ n <= 1 + 2 * INR n * z.
Proof.
  intros Hz. induction n as [|n IH]; [simpl; lra|]. rewrite S_INR. cbn [pow]. intros H. pose proof (pos_INR n).
  assert (0 <= INR n * z) by (apply Rmult_le_pos; lra).
  apply Rle_trans with ((1 + z) * (1 + 2 * INR n * z)); [apply Rmult_le_compat_l; lra|].
  assert (2 * INR n * z * z <= 1 * z) by (apply Rmult_le_compat_r; lra). lra.
Qed.

Lemma bound_explicit M n :
  0 <= M → (Z.of_nat n < 2 ^ 32)%Z →
  bound M n <= M + 10 * INR n * (u * M + eta) ∧ bound M n <= 2 * M + 8 * INR n * eta.
Proof.
  intros HM Hn. unfold bound. pose proof growth_le. pose proof growth_ge_1. destruct small as [[Hu _] [He _]]. pose proof (pos_INR n).
  assert (10 * INR n * u <= 1) as Hnu.
  { assert (INR n <= b2 32) as Hn32 by (rewrite INR_IZR_INZ, b2_IZR by lia; apply IZR_le; lia).
    apply Rle_trans with (16 * b2 32 * u).
    - apply Rmult_le_compat_r; lra.
    - replace 16 with (b2 4) by (unfold b2; simpl; lra). unfold u. rewrite <- !b2_add.
      apply Rle_trans with (b2 0); [apply b2_le; lia|unfold b2; simpl; lra]. }
  assert (growth ^ n <= 1 + 10 * INR n * u) as Hp.
  { apply Rle_trans with ((1 + 5 * u) ^ n); [apply pow_incr; lra|].
    pose proof (pow_small (5 * u) n ltac:(lra) ltac:(lra)). lra. }
  set (N := INR n) in *. set (G := growth ^ n) in *. assert (1 <= G) by (apply pow_R1_Rle; lra).
  assert (0 <= N * eta) as Hne by (apply Rmult_le_pos; lra).
  assert (M * G <= M * (1 + 10 * N * u)) by (apply Rmult_le_compat_l; lra).
  assert (N * eta * G <= N * eta * 2) by (apply Rmult_le_compat_l; lra).
  assert (M * (10 * N * u) <= M * 1) by (apply Rmult_le_compat_l; lra). split; lra.
Qed.

(** ** Properties *)

(** C35: The recursive definition draws the Bézier curve of its control points up to rounding: a curve of order n exists for an
    array of at least n + 1 points; at any t from 0 to 1 and for points within M, at most [2 ^ 1021], the point computed
    in double precision overflows nowhere, and each coordinate is within 10 n (2^-53 M + 2^-1075) of the sum of the
    points weighted by the Bernstein polynomials. *)
Theorem recursive_is_bernstein order points t M :
  (order < length points)%nat → (Z.of_nat order < 2 ^ 32)%Z → 0 <= M <= b2 1021 → Forall (within M) points →
  good t → 0 <= val t <= 1 →
  ∃ c, make_curve order points 0 = Some c ∧
    near (10 * INR order * (u * M + eta)) (calc c t)
      (bezier order (λ i, val (x (point_at points i))) (val t))
      (bezier order (λ i, val (y (point_at points i))) (val t)).
Proof.
  intros Hlen Horder HM Hall Ht Ht01. destruct (make_curve_some order points 0 Hlen) as [c Hc].
  destruct (bound_explicit M order ltac:(lra) Horder) as [H1 H2].
  assert (bound M order < b2 1023) as Hb.
  { assert (8 * INR order * eta <= 1) as Hsmall.
    { assert (INR order <= b2 32) as Hn32 by (rewrite INR_IZR_INZ, b2_IZR by lia; apply IZR_le; lia).
      replace 8 with (b2 3) by (unfold b2; simpl; lra). apply Rle_trans with (b2 3 * b2 32 * eta).
      - apply Rmult_le_compat_r; [destruct small; lra|]. apply Rmult_le_compat_l; [|done]. left. apply b2_pos.
      - unfold eta. rewrite <- !b2_add. apply Rle_trans with (b2 0); [apply b2_le; lia|unfold b2; simpl; lra]. }
    pose proof (b2_S 1021). pose proof (b2_S 1022). change (1021 + 1)%Z with 1022%Z in *. change (1022 + 1)%Z with 1023%Z in *.
    assert (b2 1 <= b2 1021) by (apply b2_le; lia). assert (b2 1 = 2) by (unfold b2; simpl; lra). lra. }
  exists c. split; [done|].
  destruct (calc_near M order points 0 c t ltac:(lra) Hall Ht Ht01 Hb Hc Hlen) as (Gx & Gy & Hx & Hy).
  split; [done|]. split; [done|]. split; (eapply Rle_trans; [eassumption|lra]).
Qed.

(** ** Witness *)

(** The points (0, 0), (1, 1), (1, 0) at 0.5. *)
Definition half : binary64 := SpecFloat.S754_finite false 4503599627370496 (-53).
Definition zero64 : binary64 := SpecFloat.S754_zero false.

Lemma recursive_is_bernstein_witness :
  let points := [mkPoint2D zero64 zero64; mkPoint2D done_ done_; mkPoint2D done_ zero64] in
  ∃ c, make_curve 2 points 0 = Some c ∧
    near (10 * INR 2 * (u * 1 + eta)) (calc c half) (3 / 4) (1 / 2) ∧
    calc c half = mkPoint2D (SpecFloat.S754_finite false 6755399441055744 (-53)) half.
Proof.
  intros points. assert (val half = 1 / 2) as Hh by (unfold val, b2; simpl; field_simplify; lra).
  destruct done_good as [Hg H1].
  destruct (recursive_is_bernstein 2 points half 1) as (c & Hc & Hn).
  - simpl. lia.
  - done.
  - split; [lra|]. apply Rle_trans with (b2 0); [unfold b2; simpl; lra|apply b2_le; lia].
  - repeat apply Forall_cons_2; [..|constructor]; (split; [done|split; [done|]]); cbn [x y]; rewrite ?H1;
      change (val zero64) with 0; rewrite ?Rabs_R0, ?Rabs_R1; lra.
  - done.
  - rewrite Hh. lra.
  - exists c. split; [exact Hc|]. split.
    + rewrite Hh in Hn. unfold bezier, bernstein, point_at, points in Hn. cbn -[val near] in Hn. rewrite H1 in Hn.
      change (val zero64) with 0 in Hn. destruct Hn as (G1 & G2 & Hx & Hy). split; [exact G1|]. split; [exact G2|].
      split; [eapply Rle_trans; [|exact Hx]|eapply Rle_trans; [|exact Hy]]; right; f_equal; simpl; lra.
    + vm_compute in Hc. injection Hc as <-. vm_compute. reflexivity.
Defined.
