(* ===== verification/Intervals.v ===== *)
(** * Bounds of real expressions, computed

    An expression over the integers with sine, cosine and square root has an interval that is computed
    in fixed-point arithmetic and proved to hold its value.  The theorems on numeric tests (Geodetic.v) rest on it: the
    expression is read off the goal, the interval is evaluated and compared. *)

From Stdlib Require Import Reals Lra Rtrigo_alt.
From S2P Require Import Prelude.

#[local] Open Scope R_scope.

(** ** Expressions *)

Inductive expr :=
  | EInt (z : Z)
  | EAdd (a b : expr) | ESub (a b : expr) | EMul (a b : expr) | EDiv (a b : expr) | EOpp (a : expr)
  | ESqrt (a : expr) | ESin (a : expr) | ECos (a : expr).

Fixpoint eval (x : expr) : R :=
  match x with
  | EInt z => IZR z
  | EAdd a b => eval a + eval b
  | ESub a b => eval a - eval b
  | EMul a b => eval a * eval b
  | EDiv a b => eval a / eval b
  | EOpp a => - eval a
  | ESqrt a => sqrt (eval a)
  | ESin a => sin (eval a)
  | ECos a => cos (eval a)
  end.

(** ** Intervals *)

(** The ends count parts of [one]; results are rounded outwards. *)
Definition bits : Z := 64.
Definition one : Z := Z.shiftl 1 bits.
Definition interval : Type := Z * Z.
Definition inside (v : R) (i : interval) : Prop := IZR i.1 <= v * IZR one <= IZR i.2.

Definition i_int (k : Z) : interval := (Z.shiftl k bits, Z.shiftl k bits).
Definition i_add (i j : interval) : interval := (i.1 + j.1, i.2 + j.2)%Z.
Definition i_opp (i : interval) : interval := (- i.2, - i.1)%Z.

(** The quotients below and above. *)
Definition below (p d : Z) : Z := (p / d)%Z.
Definition above (p d : Z) : Z := (- (- p / d))%Z.
Definition i_mul (i j : interval) : interval :=
  let p := (i.1 * j.1)%Z in let q := (i.1 * j.2)%Z in let r := (i.2 * j.1)%Z in let s := (i.2 * j.2)%Z in
  (Z.shiftr (Z.min (Z.min p q) (Z.min r s)) bits, - Z.shiftr (- Z.max (Z.max p q) (Z.max r s)) bits)%Z.
Definition i_div (i j : interval) : option interval :=
  if (0 <? j.1)%Z && (0 <? j.2)%Z then
    let p := Z.shiftl i.1 bits in let q := Z.shiftl i.2 bits in
    Some (Z.min (below p j.1) (below p j.2), Z.max (above q j.1) (above q j.2))
  else None.

Definition i_sqrt (i : interval) : option interval :=
  if (0 <=? i.1)%Z then Some (Z.sqrt (Z.shiftl i.1 bits), Z.sqrt (Z.shiftl i.2 bits) + 1)%Z else None.

(** The partial sums of the sine's series, up to a term and without it; [t] holds the term of index [i], [v2] the
    square of the argument. *)
Fixpoint sin_sums (k : nat) (v2 t : interval) (i : Z) : interval * interval :=
  match k with
  | O => (t, i_int 0)
  | S k =>
      let d := ((2 * i + 2) * (2 * i + 3))%Z in
      let next := i_mul (i_opp t) v2 in
      let '(s, s') := sin_sums k v2 (below next.1 d, above next.2 d) (i + 1) in
      (i_add t s, i_add t s')
  end.
Definition sin_terms : nat := 4.
Definition sin_between (n : nat) (i : interval) : interval :=
  let '(s, s') := sin_sums (2 * (n + 1)) (i_mul i i) i 0 in (s'.1, s.2).

(** The argument has to be between -4 and 4, with one sign. *)
Definition i_sin (i : interval) : option interval :=
  if (0 <=? i.1)%Z && (i.2 <=? 4 * one)%Z then Some (sin_between sin_terms i)
  else if (i.2 <=? 0)%Z && (- i.1 <=? 4 * one)%Z then Some (i_opp (sin_between sin_terms (i_opp i)))
  else None.

(** By the double angle. *)
Definition i_cos (i : interval) : option interval :=
  half ← i_div i (i_int 2);
  s ← i_sin half;
  Some (i_add (i_int 1) (i_opp (i_mul (i_int 2) (i_mul s s)))).

Fixpoint bounds (x : expr) : option interval :=
  match x with
  | EInt z => Some (i_int z)
  | EAdd a b => i ← bounds a; j ← bounds b; Some (i_add i j)
  | ESub a b => i ← bounds a; j ← bounds b; Some (i_add i (i_opp j))
  | EMul a b => i ← bounds a; j ← bounds b; Some (i_mul i j)
  | EDiv a b => i ← bounds a; j ← bounds b; i_div i j
  | EOpp a => i_opp <$> bounds a
  | ESqrt a => i ← bounds a; i_sqrt i
  | ESin a => i ← bounds a; i_sin i
  | ECos a => i ← bounds a; i_cos i
  end.

(** ** Soundness *)

Lemma one_pos : 0 < IZR one.
Proof. apply IZR_lt. reflexivity. Qed.

Lemma IZR_shiftl k : IZR (Z.shiftl k bits) = IZR k * IZR one.
Proof. unfold one. rewrite !Z.shiftl_mul_pow2, Z.mul_1_l by done. apply mult_IZR. Qed.

Lemma shiftr_one p : Z.shiftr p bits = (p / one)%Z.
Proof. unfold one. by rewrite Z.shiftr_div_pow2, Z.shiftl_mul_pow2, Z.mul_1_l. Qed.

Lemma le_div s v w : 0 < s → w * s <= v → w <= v / s.
Proof. intros Hs H. apply (Rmult_le_reg_r s); [done|]. unfold Rdiv. rewrite Rmult_assoc, Rinv_l by lra. lra. Qed.

Lemma below_le p d : (0 < d)%Z → IZR (below p d) <= IZR p / IZR d.
Proof.
  intros Hd. apply IZR_lt in Hd as Hd'. apply le_div; [lra|]. rewrite <- mult_IZR. apply IZR_le.
  unfold below. rewrite Z.mul_comm. by apply Z.mul_div_le.
Qed.

Lemma above_ge p d : (0 < d)%Z → IZR p / IZR d <= IZR (above p d).
Proof.
  intros Hd. pose proof (below_le (- p) d Hd) as H. unfold below, above in *.
  rewrite !opp_IZR in *. lra.
Qed.

Lemma IZR_min p q : IZR (Z.min p q) <= IZR p ∧ IZR (Z.min p q) <= IZR q.
Proof. split; apply IZR_le; lia. Qed.

Lemma IZR_max p q : IZR p <= IZR (Z.max p q) ∧ IZR q <= IZR (Z.max p q).
Proof. split; apply IZR_le; lia. Qed.

Lemma i_int_in k : inside (IZR k) (i_int k).
Proof. unfold inside, i_int. cbn [fst snd]. rewrite IZR_shiftl. lra. Qed.

Lemma i_add_in v w i j : inside v i → inside w j → inside (v + w) (i_add i j).
Proof. unfold inside, i_add. cbn [fst snd]. rewrite !plus_IZR. lra. Qed.

Lemma i_opp_in v i : inside v i → inside (- v) (i_opp i).
Proof. unfold inside, i_opp. cbn [fst snd]. rewrite !opp_IZR. lra. Qed.

(** A product is between those of the ends. *)
Lemma mul_ends a b c : a <= b <= c → ∀ d, (a * d <= b * d ∨ c * d <= b * d) ∧ (b * d <= a * d ∨ b * d <= c * d).
Proof. intros H d. destruct (Rle_dec 0 d); split; [left|right|right|left]; nra. Qed.

Lemma mul_between a b c d v w :
  IZR a <= v <= IZR b → IZR c <= w <= IZR d →
  IZR (Z.min (Z.min (a * c) (a * d)) (Z.min (b * c) (b * d))) <= v * w <=
  IZR (Z.max (Z.max (a * c) (a * d)) (Z.max (b * c) (b * d))).
Proof.
  intros Hv Hw.
  destruct (IZR_min (Z.min (a * c) (a * d)) (Z.min (b * c) (b * d))), (IZR_min (a * c) (a * d)),
    (IZR_min (b * c) (b * d)), (IZR_max (Z.max (a * c) (a * d)) (Z.max (b * c) (b * d))),
    (IZR_max (a * c) (a * d)), (IZR_max (b * c) (b * d)).
  rewrite !mult_IZR in *.
  destruct (mul_ends _ _ _ Hv w) as [L1 U1].
  destruct (mul_ends _ _ _ Hw (IZR a)) as [L2 U2]. destruct (mul_ends _ _ _ Hw (IZR b)) as [L3 U3].
  rewrite !(Rmult_comm w), !(Rmult_comm (IZR c)), !(Rmult_comm (IZR d)) in *.
  split; [destruct L1, L2, L3|destruct U1, U2, U3]; lra.
Qed.

Lemma i_mul_in v w i j : inside v i → inside w j → inside (v * w) (i_mul i j).
Proof.
  intros Hv Hw. destruct i as [a b], j as [c d]. destruct (mul_between _ _ _ _ _ _ Hv Hw) as [L U].
  unfold inside, i_mul in *. cbn [fst snd] in *. rewrite !shiftr_one. pose proof one_pos as Ho.
  pose proof (below_le (Z.min (Z.min (a * c) (a * d)) (Z.min (b * c) (b * d))) one eq_refl) as Hl.
  pose proof (above_ge (Z.max (Z.max (a * c) (a * d)) (Z.max (b * c) (b * d))) one eq_refl) as Hh.
  unfold below, above in *.
  replace (v * w * IZR one) with (v * IZR one * (w * IZR one) / IZR one) by (field; lra).
  split; [eapply Rle_trans; [apply Hl|]|eapply Rle_trans; [|apply Hh]];
    (apply Rmult_le_compat_r; [by apply Rlt_le, Rinv_0_lt_compat|done]).
Qed.

(** A quotient is between those by the ends. *)
Lemma div_ends p c w d :
  0 < c → c <= w <= d → (p / c <= p / w ∨ p / d <= p / w) ∧ (p / w <= p / c ∨ p / w <= p / d).
Proof.
  intros Hc [H1 H2]. assert (/ d <= / w <= / c) as Hi by (split; apply Rinv_le_contravar; lra).
  unfold Rdiv. rewrite !(Rmult_comm p). destruct (mul_ends _ _ _ Hi p). tauto.
Qed.

Lemma i_div_in v w i j k : inside v i → inside w j → i_div i j = Some k → inside (v / w) k.
Proof.
  unfold i_div, inside. destruct i as [a b], j as [c d]. cbn [fst snd]. intros Hv Hw.
  destruct (0 <? c)%Z eqn:Hc; [|done]. destruct (0 <? d)%Z eqn:Hd; [|done]. intros [= <-]. cbn [fst snd].
  apply Z.ltb_lt in Hc, Hd. pose proof one_pos as Ho. pose proof (IZR_lt _ _ Hc) as Hc'.
  set (w' := w * IZR one) in *. set (p := Z.shiftl a bits). set (q := Z.shiftl b bits).
  destruct (div_ends (IZR p) (IZR c) w' (IZR d) Hc' Hw) as [L _].
  destruct (div_ends (IZR q) (IZR c) w' (IZR d) Hc' Hw) as [_ U].
  assert (0 < w') as Hw' by lra. assert (0 < / w') as Hi by (by apply Rinv_0_lt_compat).
  assert (v / w * IZR one = v * IZR one * IZR one * / w') as ->.
  { unfold w'. field. split; [lra|]. intros ->. unfold w' in Hw'. lra. }
  assert (IZR p / w' <= v * IZR one * IZR one * / w') by
    (apply Rmult_le_compat_r; [lra|]; unfold p; rewrite IZR_shiftl; apply Rmult_le_compat_r; lra).
  assert (v * IZR one * IZR one * / w' <= IZR q / w') by
    (apply Rmult_le_compat_r; [lra|]; unfold q; rewrite IZR_shiftl; apply Rmult_le_compat_r; lra).
  pose proof (below_le p c Hc). pose proof (below_le p d Hd).
  pose proof (above_ge q c Hc). pose proof (above_ge q d Hd).
  destruct (IZR_min (below p c) (below p d)), (IZR_max (above q c) (above q d)).
  destruct L, U; lra.
Qed.

Lemma le_sqrt r v : 0 <= r → r * r <= v → r <= sqrt v.
Proof. intros Hr H. rewrite <- (sqrt_square r Hr). by apply sqrt_le_1_alt. Qed.

Lemma sqrt_le_of r v : 0 <= r → v <= r * r → sqrt v <= r.
Proof. intros Hr H. rewrite <- (sqrt_square r Hr). by apply sqrt_le_1_alt. Qed.

Lemma Zsqrt_low z : (0 <= z → Z.sqrt z * Z.sqrt z <= z)%Z.
Proof. intros H. by destruct (Z.sqrt_spec z H). Qed.

Lemma Zsqrt_high z : (z <= (Z.sqrt z + 1) * (Z.sqrt z + 1))%Z.
Proof. destruct (Z.le_gt_cases 0 z) as [H|H]; [destruct (Z.sqrt_spec z H)|]; nia. Qed.

Lemma i_sqrt_in v i k : inside v i → i_sqrt i = Some k → inside (sqrt v) k.
Proof.
  unfold i_sqrt, inside. destruct i as [a b]. cbn [fst snd]. intros [Hl Hh].
  destruct (0 <=? a)%Z eqn:Ha; [|done]. intros [= <-]. cbn [fst snd]. apply Z.leb_le in Ha.
  pose proof one_pos as Ho. pose proof (IZR_le _ _ Ha) as Ha'.
  assert (0 <= v) as Hv by (apply (Rmult_le_reg_r (IZR one)); lra).
  assert (sqrt v * IZR one = sqrt (v * IZR one * IZR one)) as ->.
  { rewrite Rmult_assoc, sqrt_mult_alt, sqrt_square by lra. done. }
  split.
  - apply le_sqrt; [apply IZR_le, Z.sqrt_nonneg|]. rewrite <- mult_IZR.
    eapply Rle_trans; [apply IZR_le, Zsqrt_low|]; [by apply Z.shiftl_nonneg|].
    rewrite IZR_shiftl. apply Rmult_le_compat_r; lra.
  - apply sqrt_le_of; [apply IZR_le; pose proof (Z.sqrt_nonneg (Z.shiftl b bits)); lia|]. rewrite <- mult_IZR.
    eapply Rle_trans; [|apply IZR_le, Zsqrt_high]. rewrite IZR_shiftl. apply Rmult_le_compat_r; lra.
Qed.

(** The series of the sine. *)
Lemma sin_term_next v n :
  sin_term v (S n) = - sin_term v n * (v * v) / IZR ((2 * Z.of_nat n + 2) * (2 * Z.of_nat n + 3)).
Proof.
  unfold sin_term. replace (2 * S n + 1)%nat with (S (S (2 * n + 1))) by lia.
  rewrite !fact_simpl, !mult_INR, !S_INR, plus_INR, mult_INR. cbn [INR pow].
  assert (IZR ((2 * Z.of_nat n + 2) * (2 * Z.of_nat n + 3)) = (2 * INR n + 2) * (2 * INR n + 3)) as ->.
  { by rewrite mult_IZR, !plus_IZR, !mult_IZR, <- INR_IZR_INZ. }
  pose proof (pos_INR n). pose proof (INR_fact_neq_0 (2 * n + 1)).
  field. repeat split; lra.
Qed.

Lemma part_in v i d : (0 < d)%Z → inside v i → inside (v / IZR d) (below i.1 d, above i.2 d).
Proof.
  intros Hd [Hl Hh]. unfold inside. cbn [fst snd]. pose proof (IZR_lt _ _ Hd).
  assert (0 < / IZR d) by (by apply Rinv_0_lt_compat).
  replace (v / IZR d * IZR one) with (v * IZR one / IZR d) by (field; lra).
  split; [eapply Rle_trans; [by apply below_le|]|eapply Rle_trans; [|by apply above_ge]];
    apply Rmult_le_compat_r; lra.
Qed.

Definition sum_before (f : nat → R) (k : nat) : R := match k with O => 0 | S k => sum_f_R0 f k end.

Lemma series_first f k : sum_f_R0 f k = f O + sum_before (λ j, f (S j)) k.
Proof. destruct k as [|k]; [simpl; ring|]. by rewrite decomp_sum by lia. Qed.

Lemma sin_sums_in k v v2 t n :
  inside (v * v) v2 → inside (sin_term v n) t →
  inside (sum_f_R0 (λ j, sin_term v (j + n)) k) (sin_sums k v2 t (Z.of_nat n)).1 ∧
  inside (sum_before (λ j, sin_term v (j + n)) k) (sin_sums k v2 t (Z.of_nat n)).2.
Proof.
  intros Hv2. revert t n. induction k as [|k IH]; intros t n Ht; cbn [sin_sums]; [split; [done|apply i_int_in]|].
  replace (Z.of_nat n + 1)%Z with (Z.of_nat (S n)) by lia.
  set (next := (below _ _, above _ _)). assert (inside (sin_term v (S n)) next) as Hnext.
  { rewrite sin_term_next. apply part_in; [lia|]. by apply i_mul_in; [apply i_opp_in|]. }
  specialize (IH next (S n) Hnext). destruct (sin_sums k v2 next _) as [s s']. destruct IH as [H1 H2]. cbn [fst snd] in *.
  assert (∀ j, sin_term v (j + S n) = sin_term v (S j + n)) as Hs by (intros j; f_equal; lia).
  assert (sum_f_R0 (λ j, sin_term v (j + S n)) k = sum_before (λ j, sin_term v (S j + n)) (S k)) as H1'
    by (apply sum_eq; intros; apply Hs).
  assert (sum_before (λ j, sin_term v (j + S n)) k = sum_before (λ j, sin_term v (S j + n)) k) as H2'
    by (destruct k; [done|]; apply sum_eq; intros; apply Hs).
  rewrite H1' in H1. rewrite H2' in H2.
  split; [|cbn [sum_before]]; rewrite series_first; by apply i_add_in.
Qed.

Lemma sin_between_in n v i : 0 <= v <= 4 → inside v i → inside (sin v) (sin_between n i).
Proof.
  intros [H0 H4] Hv. destruct (pre_sin_bound v n H0 H4) as [Hl Hu]. pose proof one_pos as Ho. unfold sin_between.
  destruct (sin_sums_in (2 * (n + 1)) v (i_mul i i) i 0) as [Hs Hs']; [by apply i_mul_in|..].
  { by replace (sin_term v 0) with v by (unfold sin_term; simpl; field). }
  change (Z.of_nat 0) with 0%Z in *. destruct (sin_sums _ _ _ _) as [s s']. cbn [fst snd] in *.
  assert (∀ k, sum_f_R0 (λ j, sin_term v (j + 0)) k = sin_approx v k) as Ha
    by (intros k; apply sum_eq; intros; f_equal; lia).
  replace (2 * (n + 1))%nat with (S (2 * n + 1)) in * by lia. cbn [sum_before] in Hs'. rewrite Ha in Hs, Hs'.
  split; [eapply Rle_trans; [apply (proj1 Hs')|]|eapply Rle_trans; [|apply (proj2 Hs)]];
    (apply Rmult_le_compat_r; [lra|done]).
Qed.

Lemma i_sin_in v i k : inside v i → i_sin i = Some k → inside (sin v) k.
Proof.
  pose proof one_pos as Ho. assert (IZR (4 * one) = 4 * IZR one) as H4 by apply mult_IZR.
  unfold i_sin. intros Hv. pose proof Hv as [Hl Hh]. destruct (_ && _) eqn:E.
  - apply andb_true_iff in E as [E1%Z.leb_le%IZR_le E2%Z.leb_le%IZR_le]. intros [= <-].
    apply sin_between_in; [|done]. split; apply (Rmult_le_reg_r (IZR one)); lra.
  - clear E. destruct (_ && _) eqn:E; [|done].
    apply andb_true_iff in E as [E1%Z.leb_le%IZR_le E2%Z.leb_le%IZR_le]. intros [= <-].
    replace (sin v) with (- sin (- v)) by (rewrite sin_neg; ring).
    apply i_opp_in, sin_between_in; [|by apply i_opp_in].
    rewrite opp_IZR in E2. split; apply (Rmult_le_reg_r (IZR one)); lra.
Qed.

Lemma i_cos_in v i k : inside v i → i_cos i = Some k → inside (cos v) k.
Proof.
  unfold i_cos. intros Hv. destruct (i_div _ _) as [h|] eqn:Eh; simpl; [|done].
  destruct (i_sin _) as [s|] eqn:Es; simpl; [|done]. intros [= <-].
  pose proof (i_div_in _ _ _ _ _ Hv (i_int_in 2) Eh) as Hh. pose proof (i_sin_in _ _ _ Hh Es) as Hs.
  replace (cos v) with (1 + - (2 * (sin (v / 2) * sin (v / 2)))).
  - apply i_add_in; [apply i_int_in|]. apply i_opp_in, i_mul_in; [apply i_int_in|by apply i_mul_in].
  - replace v with (2 * (v / 2)) at 3 by field. rewrite cos_2a_sin. ring.
Qed.

(** The interval holds the value. *)
Theorem bounds_sound x i : bounds x = Some i → inside (eval x) i.
Proof.
  revert i. induction x; intros i H; simpl in *.
  - injection H as <-. apply i_int_in.
  - destruct (bounds x1), (bounds x2); simplify_eq/=. apply i_add_in; auto.
  - destruct (bounds x1), (bounds x2); simplify_eq/=. apply i_add_in; [|apply i_opp_in]; auto.
  - destruct (bounds x1), (bounds x2); simplify_eq/=. apply i_mul_in; auto.
  - destruct (bounds x1), (bounds x2); simplify_eq/=. by eapply i_div_in; eauto.
  - destruct (bounds x); simplify_eq/=. apply i_opp_in; auto.
  - destruct (bounds x); simplify_eq/=. by eapply i_sqrt_in; eauto.
  - destruct (bounds x); simplify_eq/=. by eapply i_sin_in; eauto.
  - destruct (bounds x); simplify_eq/=. by eapply i_cos_in; eauto.
Qed.

(** ** Comparisons *)

(** Whether the value is computed to be less than another. *)
Definition less (x y : expr) : bool :=
  match bounds (ESub y x) with Some i => (0 <? i.1)%Z | None => false end.

Lemma less_sound x y : less x y = true → eval x < eval y.
Proof.
  unfold less. destruct (bounds (ESub y x)) as [i|] eqn:E; [|done]. intros H%Z.ltb_lt%IZR_lt.
  apply bounds_sound in E as [Hl _]. simpl in Hl. pose proof one_pos. nra.
Qed.

Lemma abs_less x y : less x y = true → less (EOpp x) y = true → Rabs (eval x) < eval y.
Proof. intros H1%less_sound H2%less_sound. simpl in H2. apply Rabs_def1; lra. Qed.

(** The expression of a real term. *)
Ltac reify t :=
  lazymatch t with
  | IZR ?z => constr:(EInt z)
  | ?u + ?v => let x := reify u in let y := reify v in constr:(EAdd x y)
  | ?u - ?v => let x := reify u in let y := reify v in constr:(ESub x y)
  | ?u * ?v => let x := reify u in let y := reify v in constr:(EMul x y)
  | ?u / ?v => let x := reify u in let y := reify v in constr:(EDiv x y)
  | - ?u => let x := reify u in constr:(EOpp x)
  | sqrt ?u => let x := reify u in constr:(ESqrt x)
  | sin ?u => let x := reify u in constr:(ESin x)
  | cos ?u => let x := reify u in constr:(ECos x)
  end.

(** [Rabs u < v] by computation. *)
Ltac by_bounds :=
  lazymatch goal with
  | |- Rabs ?u < ?v =>
      let x := reify u in let y := reify v in
      apply (abs_less x y); vm_compute; reflexivity
  end.

Example sin_half : Rabs (sin (1 / 2) - 479425538604203 / 1000000000000000) < 1 / 1000000000000000.
Proof. by_bounds. Qed.
