(* ===== verification/Geodetic.v ===== *)
(** * Geographic coordinates (geodetic/main.cpp)

    Conversions between geodetic coordinates, earth-centred coordinates (ECEF) and the east,
    north, up frame of a point (ENU).  A double is read as the real number it stands for and
    std::sin, std::cos and sqrt as the functions they approximate: rounding is not modelled.  A function that
    writes through a pointer returns what it writes. *)

From Stdlib Require Import Reals Lra.
From S2P Require Import Prelude Intervals.

#[local] Open Scope R_scope.

(** The constants, as their literals. *)
Definition PI : R := 314159265358979323846 / 100000000000000000000.
Definition EPSILON : R := 1 / 1000000.
Definition centimeter : R := 1 / 100.
Definition a : R := 6378137.
Definition f : R := 1 / (298257223563 / 1000000000).
Definition e2 : R := f * (2 - f).

Definition degree_to_radian (degrees : R) : R := (PI / 180) * degrees.

Definition N (phi : R) : R :=
  let sin_phi := sin phi in
  a / sqrt (1 - e2 * (sin_phi * sin_phi)).

Record GeoditicCoord := mkGeo { latitude : R; longitude : R; height : R }.
Record EcefCoord := mkEcef { x : R; y : R; z : R }.
Record EnuCoord := mkEnu { e : R; n : R; u : R }.

(** The first [geodetic_to_ecef], of the sines and cosines. *)
Definition geodetic_to_ecef_trig (sin_phi cos_phi sin_lambda cos_lambda N_phi h : R) : EcefCoord :=
  mkEcef ((N_phi + h) * cos_phi * cos_lambda)
         ((N_phi + h) * cos_phi * sin_lambda)
         (((1 - e2) * N_phi + h) * sin_phi).

Definition geodetic_to_ecef (geo : GeoditicCoord) : EcefCoord :=
  let lambda := degree_to_radian (longitude geo) in
  let phi := degree_to_radian (latitude geo) in
  let h := height geo in
  geodetic_to_ecef_trig (sin phi) (cos phi) (sin lambda) (cos lambda) (N phi) h.

Definition ecef_to_enu (sin_phi0 cos_phi0 sin_lambda0 cos_lambda0 : R) (ecef0 ecef : EcefCoord) : EnuCoord :=
  let dx := x ecef - x ecef0 in
  let dy := y ecef - y ecef0 in
  let dz := z ecef - z ecef0 in
  mkEnu (- sin_lambda0 * dx + cos_lambda0 * dy)
        (- sin_phi0 * cos_lambda0 * dx + - sin_phi0 * sin_lambda0 * dy + cos_phi0 * dz)
        (cos_phi0 * cos_lambda0 * dx + cos_phi0 * sin_lambda0 * dy + sin_phi0 * dz).

Definition geodetic_to_enu (geo0 geo : GeoditicCoord) : EnuCoord :=
  let lambda0 := degree_to_radian (longitude geo0) in
  let phi0 := degree_to_radian (latitude geo0) in
  let h0 := height geo0 in
  let ecef0 := geodetic_to_ecef_trig (sin phi0) (cos phi0) (sin lambda0) (cos lambda0) (N phi0) h0 in
  let ecef := geodetic_to_ecef geo in
  ecef_to_enu (sin phi0) (cos phi0) (sin lambda0) (cos lambda0) ecef0 ecef.

Definition enu_to_ecef (sin_phi0 cos_phi0 sin_lambda0 cos_lambda0 : R) (ecef0 : EcefCoord) (enu : EnuCoord)
    : EcefCoord :=
  mkEcef (- sin_lambda0 * e enu + - sin_phi0 * cos_lambda0 * n enu + cos_phi0 * cos_lambda0 * u enu + x ecef0)
         (cos_lambda0 * e enu + - sin_phi0 * sin_lambda0 * n enu + cos_phi0 * sin_lambda0 * u enu + y ecef0)
         (cos_phi0 * n enu + sin_phi0 * u enu + z ecef0).

(** ** The tests *)

Definition almost_equal (v w epsilon : R) : bool := if Rlt_dec (Rabs (v - w)) epsilon then true else false.

(** [None] is the process aborted. *)
Definition test_assert (val : bool) : option () := if val then Some () else None.
Definition test_geodetic_to_ecef : option () :=
  let geo := mkGeo (340000005 / 10000000) (- (1173335693 / 10000000)) (25172 / 100) in
  let ecef := geodetic_to_ecef geo in
  test_assert (almost_equal (x ecef) (- (243060183 / 100)) centimeter);;
  test_assert (almost_equal (y ecef) (- (470244272 / 100)) centimeter);;
  test_assert (almost_equal (z ecef) (354658737 / 100) centimeter).

Definition test_ecef_to_enu : option () :=
  let geo0 := mkGeo (340000005 / 10000000) (- (1173335693 / 10000000)) (25172 / 100) in
  let ecef0 := geodetic_to_ecef geo0 in
  let sin_phi0 := sin (degree_to_radian (latitude geo0)) in
  let cos_phi0 := cos (degree_to_radian (latitude geo0)) in
  let sin_lambda0 := sin (degree_to_radian (longitude geo0)) in
  let cos_lambda0 := cos (degree_to_radian (longitude geo0)) in
  let enu_of := ecef_to_enu sin_phi0 cos_phi0 sin_lambda0 cos_lambda0 ecef0 in
  let enu := enu_of (mkEcef (x ecef0 + 1) (y ecef0) (z ecef0)) in
  let enu' := enu_of (mkEcef (x ecef0) (y ecef0 + 1) (z ecef0)) in
  let enu'' := enu_of (mkEcef (x ecef0) (y ecef0) (z ecef0 + 1)) in
  test_assert (almost_equal (e enu) (88834836 / 100000000) EPSILON);;
  test_assert (almost_equal (n enu) (25676467 / 100000000) EPSILON);;
  test_assert (almost_equal (u enu) (- (38066927 / 100000000)) EPSILON);;
  test_assert (almost_equal (e enu') (- (45917011 / 100000000)) EPSILON);;
  test_assert (almost_equal (n enu') (49675810 / 100000000) EPSILON);;
  test_assert (almost_equal (u enu') (- (73647416 / 100000000)) EPSILON);;
  test_assert (almost_equal (e enu'') 0 EPSILON);;
  test_assert (almost_equal (n enu'') (82903757 / 100000000) EPSILON);;
  test_assert (almost_equal (u enu'') (55919291 / 100000000) EPSILON).

Definition test_geodetic_to_enu : option () :=
  let geo0 := mkGeo (46017 / 1000) (7750 / 1000) 1673 in
  let geo := mkGeo (45976 / 1000) (7658 / 1000) 4531 in
  let enu := geodetic_to_enu geo0 geo in
  test_assert (almost_equal (e enu) (- (713476 / 100)) centimeter);;
  test_assert (almost_equal (n enu) (- (455632 / 100)) centimeter);;
  test_assert (almost_equal (u enu) (285239 / 100) centimeter).

Definition test_enu_to_ecef : option () :=
  let geo0 := mkGeo (340000005 / 10000000) (- (1173335693 / 10000000)) (25172 / 100) in
  let ecef0 := geodetic_to_ecef geo0 in
  let sin_phi0 := sin (degree_to_radian (latitude geo0)) in
  let cos_phi0 := cos (degree_to_radian (latitude geo0)) in
  let sin_lambda0 := sin (degree_to_radian (longitude geo0)) in
  let cos_lambda0 := cos (degree_to_radian (longitude geo0)) in
  let enu := ecef_to_enu sin_phi0 cos_phi0 sin_lambda0 cos_lambda0 ecef0
               (mkEcef (x ecef0 + 1) (y ecef0 + 1) (z ecef0 + 1)) in
  let ecef := enu_to_ecef sin_phi0 cos_phi0 sin_lambda0 cos_lambda0 ecef0 enu in
  test_assert (almost_equal (x ecef) (x ecef0 + 1) EPSILON);;
  test_assert (almost_equal (y ecef) (y ecef0 + 1) EPSILON);;
  test_assert (almost_equal (z ecef) (z ecef0 + 1) EPSILON).

Definition main : option Z :=
  test_geodetic_to_ecef;; test_ecef_to_enu;; test_geodetic_to_enu;; test_enu_to_ecef;; Some 0%Z.

(** ** Specification *)

(** The polar radius. *)
Definition b : R := a * (1 - f).

(** The ellipsoid of revolution. *)
Definition on_ellipsoid (p : EcefCoord) : Prop := (x p)² / a² + (y p)² / a² + (z p)² / b² = 1.

(** The outer normal of the ellipsoid at a point is along the gradient of its equation. *)
Definition gradient (p : EcefCoord) : EcefCoord := mkEcef (2 * x p / a²) (2 * y p / a²) (2 * z p / b²).

Definition move (p : EcefCoord) (r : R) (d : EcefCoord) : EcefCoord :=
  mkEcef (x p + r * x d) (y p + r * y d) (z p + r * z d).
Definition distance2 (p q : EcefCoord) : R := (x p - x q)² + (y p - y q)² + (z p - z q)².

(** ** Lemmas *)

Lemma sin2_cos2' t : sin t * sin t = 1 - cos t * cos t.
Proof. pose proof (sin2_cos2 t) as H. unfold Rsqr in H. lra. Qed.

Lemma ecef_eq p q : x p = x q → y p = y q → z p = z q → p = q.
Proof. destruct p, q. simpl. by intros -> -> ->. Qed.

Lemma enu_eq p q : e p = e q → n p = n q → u p = u q → p = q.
Proof. destruct p, q. simpl. by intros -> -> ->. Qed.

(** An identity of the sines and cosines of two angles: the squares of the sines away. *)
Ltac trig phi lambda := simpl; unfold Rsqr; ring [(sin2_cos2' phi) (sin2_cos2' lambda)].

Lemma f_bounds : 0 < f < 1 / 298.
Proof. unfold f. split; lra. Qed.

Lemma e2_bounds : 0 < e2 < 1 / 100.
Proof. pose proof f_bounds. unfold e2. split; nra. Qed.

Lemma radicand_pos phi : 0 < 1 - e2 * (sin phi * sin phi).
Proof.
  pose proof e2_bounds. pose proof (sin2_cos2' phi). assert (0 <= cos phi * cos phi) by nra.
  assert (0 <= sin phi * sin phi) by nra. nra.
Qed.

Lemma N_pos phi : 0 < N phi.
Proof. unfold N, a. apply Rdiv_lt_0_compat; [lra|]. apply sqrt_lt_R0, radicand_pos. Qed.

Lemma N_square phi : N phi * N phi * (1 - e2 * (sin phi * sin phi)) = a * a.
Proof.
  unfold N. pose proof (radicand_pos phi) as Hr. set (r := 1 - e2 * (sin phi * sin phi)) in *.
  pose proof (sqrt_lt_R0 r Hr) as Hs. pose proof (sqrt_sqrt r (Rlt_le _ _ Hr)) as Hq.
  rewrite <- Hq at 3. field. lra.
Qed.

Lemma b_square : b * b = a * a * (1 - e2).
Proof. unfold b, e2. ring. Qed.

Lemma b_pos : 0 < b.
Proof. pose proof f_bounds. unfold b, a. nra. Qed.

(** ** Properties *)

(** The conversion into the frame of a point keeps the distance to it. *)
Lemma enu_distance phi0 lambda0 ecef0 p :
  let enu := ecef_to_enu (sin phi0) (cos phi0) (sin lambda0) (cos lambda0) ecef0 p in
  (e enu)² + (n enu)² + (u enu)² = distance2 p ecef0.
Proof. unfold distance2. trig phi0 lambda0. Qed.

Lemma enu_trip phi0 lambda0 ecef0 :
  let sp := sin phi0 in let cp := cos phi0 in let sl := sin lambda0 in let cl := cos lambda0 in
  (∀ ecef, enu_to_ecef sp cp sl cl ecef0 (ecef_to_enu sp cp sl cl ecef0 ecef) = ecef) ∧
  (∀ enu, ecef_to_enu sp cp sl cl ecef0 (enu_to_ecef sp cp sl cl ecef0 enu) = enu).
Proof. split; intros r; [apply ecef_eq|apply enu_eq]; trig phi0 lambda0. Qed.

(** An assertion that holds, before the rest of a test and at its end. *)
Lemma assert_then {A} v w eps (k : option A) r :
  Rabs (v - w) < eps → k = r → (test_assert (almost_equal v w eps);; k) = r.
Proof. intros H <-. unfold almost_equal. by destruct (Rlt_dec _ _). Qed.

Lemma assert_last v w eps : Rabs (v - w) < eps → test_assert (almost_equal v w eps) = Some ().
Proof. intros H. unfold almost_equal. by destruct (Rlt_dec _ _). Qed.

Ltac assertions := cbv zeta; repeat apply assert_then; try apply assert_last; [..|try reflexivity].

(** The values are expressions of integers, sines, cosines and square roots. *)
Ltac test_by_bounds :=
  assertions;
  unfold EPSILON, centimeter, geodetic_to_enu, ecef_to_enu, geodetic_to_ecef, geodetic_to_ecef_trig, N,
    degree_to_radian, PI, a, e2, f;
  cbn [x y z e n u latitude longitude height]; cbv zeta; by_bounds.

Lemma test_geodetic_to_ecef_passes : test_geodetic_to_ecef = Some ().
Proof. unfold test_geodetic_to_ecef. test_by_bounds. Qed.

(** The points of the test are one metre from the origin of the frame. *)
Lemma test_ecef_to_enu_passes : test_ecef_to_enu = Some ().
Proof.
  unfold test_ecef_to_enu. cbv zeta. set (p := geodetic_to_ecef _). unfold ecef_to_enu. cbn [x y z].
  assert (∀ r, r + 1 - r = 1) as Hr by (intros; ring). rewrite !Hr, !Rminus_diag. clear p Hr. test_by_bounds.
Qed.

Lemma test_geodetic_to_enu_passes : test_geodetic_to_enu = Some ().
Proof. unfold test_geodetic_to_enu. test_by_bounds. Qed.

Lemma test_enu_to_ecef_passes : test_enu_to_ecef = Some ().
Proof.
  unfold test_enu_to_ecef. cbv zeta. rewrite (proj1 (enu_trip _ _ _)). cbn [x y z].
  assertions; rewrite Rminus_diag, Rabs_R0; unfold EPSILON; lra.
Qed.

(** The program's tests pass: the conversions of its coordinates agree with the reference values, to a
    centimetre or a micrometre, so main returns 0 and aborts nowhere. *)
Theorem main_tests_pass : main = Some 0%Z.
Proof.
  unfold main. by rewrite test_geodetic_to_ecef_passes, test_ecef_to_enu_passes, test_geodetic_to_enu_passes,
    test_enu_to_ecef_passes.
Qed.

(** [geodetic_to_ecef] puts a point of height zero on the ellipsoid of radii a and a (1 - f), with the vertical
    of its latitude and longitude the outer normal there, and a point of height h at h along this vertical. *)
Theorem geodetic_on_ellipsoid geo :
  let phi := degree_to_radian (latitude geo) in
  let lambda := degree_to_radian (longitude geo) in
  let up := mkEcef (cos phi * cos lambda) (cos phi * sin lambda) (sin phi) in
  let ground := geodetic_to_ecef (mkGeo (latitude geo) (longitude geo) 0) in
  on_ellipsoid ground ∧
  gradient ground = move (mkEcef 0 0 0) (2 * N phi / a²) up ∧ 0 < 2 * N phi / a² ∧
  geodetic_to_ecef geo = move ground (height geo) up.
Proof.
  intros phi lambda up ground. pose proof (N_square phi) as HN. pose proof (N_pos phi) as HNp.
  pose proof b_square as Hb. pose proof b_pos as Hbp. pose proof e2_bounds as He.
  assert (Ha : 0 < a) by (unfold a; lra). assert (Hb2 : b² = a² * (1 - e2)) by exact Hb.
  split_and!.
  - subst ground. unfold on_ellipsoid, geodetic_to_ecef, geodetic_to_ecef_trig. cbn [x y z latitude longitude height].
    fold phi lambda. rewrite !Rplus_0_r, Hb2. unfold Rsqr.
    transitivity (N phi * N phi * (cos phi * cos phi * (cos lambda * cos lambda + sin lambda * sin lambda)
                    + (1 - e2) * (sin phi * sin phi)) / (a * a)); [field; lra|].
    replace (cos phi * cos phi * _ + _) with (1 - e2 * (sin phi * sin phi)) by trig phi lambda.
    rewrite HN. field. lra.
  - apply ecef_eq; subst ground; unfold up, gradient, move, geodetic_to_ecef, geodetic_to_ecef_trig;
      cbn [x y z latitude longitude height]; fold phi lambda; rewrite ?Hb2; unfold Rsqr; field; lra.
  - apply Rdiv_lt_0_compat; [lra|]. unfold Rsqr. nra.
  - apply ecef_eq; subst ground; unfold up, move, geodetic_to_ecef, geodetic_to_ecef_trig; cbn; fold phi lambda; ring.
Qed.

(** In the frame of a point, a point of the same latitude and longitude is straight up, by the
    difference of the heights; the point itself is the origin. *)
Theorem geodetic_to_enu_above lat lon h0 h :
  geodetic_to_enu (mkGeo lat lon h0) (mkGeo lat lon h) = mkEnu 0 0 (h - h0).
Proof.
  set (phi := degree_to_radian lat). set (lambda := degree_to_radian lon).
  apply enu_eq; unfold geodetic_to_enu, geodetic_to_ecef; cbn; fold phi lambda; trig phi lambda.
Qed.

(** Seen from any point, the two conversions are inverse: [enu_to_ecef] turns the output of [geodetic_to_enu]
    back into the ECEF coordinates, and [ecef_to_enu] every output of [enu_to_ecef] into its input; distances are
    kept. *)
Theorem geodetic_enu_roundtrip geo0 :
  let phi0 := degree_to_radian (latitude geo0) in
  let lambda0 := degree_to_radian (longitude geo0) in
  let sp := sin phi0 in let cp := cos phi0 in let sl := sin lambda0 in let cl := cos lambda0 in
  let ecef0 := geodetic_to_ecef geo0 in
  (∀ geo, enu_to_ecef sp cp sl cl ecef0 (geodetic_to_enu geo0 geo) = geodetic_to_ecef geo) ∧
  (∀ enu, ecef_to_enu sp cp sl cl ecef0 (enu_to_ecef sp cp sl cl ecef0 enu) = enu) ∧
  (∀ p, (e (geodetic_to_enu geo0 p))² + (n (geodetic_to_enu geo0 p))² + (u (geodetic_to_enu geo0 p))²
        = distance2 (geodetic_to_ecef p) ecef0).
Proof.
  intros phi0 lambda0 sp cp sl cl ecef0. split_and!; intros; [apply enu_trip..|].
  unfold geodetic_to_enu. fold phi0 lambda0. apply enu_distance.
Qed.
