(* ===== verification/Threads.v ===== *)
(** * Programs of a few threads (src/thread/)

    What the examples of thread/ use of the standard library - std::thread, a mutex, a condition
    variable, a promise with its future - as the instructions of a small machine, and a checker that
    visits every state a program can reach.  A step is one instruction of one thread; a line that is
    printed is one instruction.  The examples themselves are in ThreadDemos.v. *)

From S2P Require Import Prelude CppString.

(** ** Instructions *)

(** Handles (variables of type std::thread), cells (the shared integers) and procedures (the bodies
    of lambdas and the handlers of exceptions) are numbers. *)
Inductive instr :=
  | Say (s : string)                  (* std::cout << s << std::endl *)
  | SayReg (s : string)               (* ... followed by the value read last *)
  | SayExc (s : string)               (* ... followed by e.what() *)
  | SayValid (s : string)             (* ... followed by f.valid() *)
  | Spawn (h proc : nat)              (* h is a new std::thread that runs proc *)
  | Move (h h' : nat)                 (* h' = std::move(h) *)
  | Join (h : nat)
  | Detach (h : nat)
  | IfJoinable (h yes no : nat)       (* the procedure to go on with *)
  | Lock | Unlock
  | WaitFor (c : nat) (v : Z)         (* cv.wait(lk, [&]{ return c == v; }) *)
  | NotifyOne
  | Load (c : nat) | StoreInc         (* the two accesses of c++ *)
  | Store (c : nat) (v : Z)
  | SetValue (v : Z)                  (* promise::set_value *)
  | SetException                      (* promise::set_exception(std::current_exception()) *)
  | Get | FutureWait                  (* future::get, future::wait *)
  | Throw_ (what : string)
  | EndTry (hs : list nat) (handler : nat) (* the end of a try block that declares the threads hs *)
  | EndScope (hs : list nat).         (* the end of the function: its variables are destroyed *)

#[global] Instance instr_eq_dec : EqDecision instr.
Proof. solve_decision. Defined.

(** ** States *)

Inductive phase := Running | Asleep | Woken.

#[global] Instance phase_eq_dec : EqDecision phase.
Proof. solve_decision. Defined.

(** [seen]: the cell and the value that were read last; [exc]: the exception being handled. *)
Record thread := mkThread { code : list instr; seen : nat * Z; exc : string; ph : phase }.

#[global] Instance thread_eq_dec : EqDecision thread.
Proof. solve_decision. Defined.

(** [Undefined]: a variable was used after its function returned, a locked mutex destroyed, or get
    called on a future that has no state; [Aborted]: std::terminate was called. *)
Inductive verdict := Fine | Undefined | Aborted.

#[global] Instance verdict_eq_dec : EqDecision verdict.
Proof. solve_decision. Defined.

Record world := mkWorld {
  threads : list thread;
  handles : list (option nat);        (* [Some i] for a joinable variable *)
  mtx : option nat;
  cells : list Z;
  shared : option (Z + string);       (* what the promise was given *)
  valid : bool;                       (* whether the future still has the state *)
  alive : bool;                       (* whether the variables are *)
  status : verdict;
  out : list string
}.

#[global] Instance world_eq_dec : EqDecision world.
Proof. solve_decision. Defined.

Definition set_threads x w := mkWorld x (handles w) (mtx w) (cells w) (shared w) (valid w) (alive w) (status w) (out w).
Definition set_handles x w := mkWorld (threads w) x (mtx w) (cells w) (shared w) (valid w) (alive w) (status w) (out w).
Definition set_mtx x w := mkWorld (threads w) (handles w) x (cells w) (shared w) (valid w) (alive w) (status w) (out w).
Definition set_cells x w := mkWorld (threads w) (handles w) (mtx w) x (shared w) (valid w) (alive w) (status w) (out w).
Definition set_shared x w := mkWorld (threads w) (handles w) (mtx w) (cells w) x (valid w) (alive w) (status w) (out w).
Definition set_valid x w := mkWorld (threads w) (handles w) (mtx w) (cells w) (shared w) x (alive w) (status w) (out w).
Definition set_alive x w := mkWorld (threads w) (handles w) (mtx w) (cells w) (shared w) (valid w) x (status w) (out w).
Definition set_status x w := mkWorld (threads w) (handles w) (mtx w) (cells w) (shared w) (valid w) (alive w) x (out w).
Definition say s w := mkWorld (threads w) (handles w) (mtx w) (cells w) (shared w) (valid w) (alive w) (status w) (out w ++ [s]).

Definition set_code c t := mkThread c (seen t) (exc t) (ph t).
Definition set_seen x t := mkThread (code t) x (exc t) (ph t).
Definition set_exc e t := mkThread (code t) (seen t) e (ph t).
Definition set_ph p t := mkThread (code t) (seen t) (exc t) p.

Definition at_thread (i : nat) (f : thread → thread) (w : world) : world := set_threads (alter f i (threads w)) w.
Definition handle (h : nat) (w : world) : option nat := mjoin (handles w !! h).
Definition cell (c : nat) (w : world) : Z := default 0%Z (cells w !! c).
Definition finished (i : nat) (w : world) : bool :=
  match threads w !! i with Some t => match code t with [] => true | _ => false end | None => true end.

Definition number (z : Z) : string := String.string_of_list_ascii (to_string z).
Definition digit (b : bool) : string := if b then "1" else "0".

(** What std::system_error says for the two errors of std::thread, and std::future_error for a promise
    that was given two values. *)
Definition EINVAL_text : string := "Invalid argument".
Definition EDEADLK_text : string := "Resource deadlock avoided".
Definition satisfied_text : string := "Promise already satisfied".

(** ** Steps *)

Section machine.
Context (procs : list (list instr)).

Definition proc (k : nat) : list instr := default [] (procs !! k).

(** The destructors of threads: one that is joinable ends the process. *)
Definition joinable (w : world) (h : nat) : bool := match handle h w with Some _ => true | None => false end.

Fixpoint unwind (c : list instr) : option (list nat * nat * list instr) :=
  match c with
  | [] => None
  | EndTry hs k :: c => Some (hs, k, c)
  | _ :: c => unwind c
  end.

Definition raise (i : nat) (e : string) (rest : list instr) (w : world) : list world :=
  match unwind rest with
  | None => [set_status Aborted w]
  | Some (hs, k, c) =>
      if existsb (joinable w) hs then [set_status Aborted w]
      else [at_thread i (set_exc e ∘ set_code (proc k ++ c)) w]
  end.

(** The threads that sleep in the condition variable. *)
Definition sleepers (w : world) : list nat :=
  filter (λ j, bool_decide (ph <$> threads w !! j = Some Asleep)) (seq 0 (length (threads w))).

Definition is_free (w : world) : bool := match mtx w with None => true | Some _ => false end.

(** Thread [i] executes [c]; [w] is the state in which it has gone past it, and [rest] what follows. *)
Definition exec_instr (i : nat) (t : thread) (c : instr) (rest : list instr) (w0 w : world) : list world :=
  match c with
  | Say s => [say s w]
  | SayReg s => [say (s +:+ number (seen t).2) w]
  | SayExc s => [say (s +:+ exc t) w]
  | SayValid s => [say (s +:+ digit (valid w)) w]
  | Spawn h k =>
      [set_handles (<[h := Some (length (threads w))]> (handles w))
         (set_threads (threads w ++ [mkThread (proc k) (0, 0%Z) EmptyString Running]) w)]
  | Move h h' =>
      if joinable w h' then [set_status Aborted w]
      else [set_handles (<[h := None]> (<[h' := handle h w]> (handles w))) w]
  | Join h =>
      match handle h w with
      | None => raise i EINVAL_text rest w
      | Some j =>
          if decide (j = i) then raise i EDEADLK_text rest w
          else if finished j w then [set_handles (<[h := None]> (handles w)) w]
          else []
      end
  | Detach h =>
      match handle h w with
      | None => raise i EINVAL_text rest w
      | Some _ => [set_handles (<[h := None]> (handles w)) w]
      end
  | IfJoinable h yes no =>
      [at_thread i (set_code (proc (if joinable w h then yes else no) ++ rest)) w]
  | Lock => if is_free w then [set_mtx (Some i) w] else []
  | Unlock => [set_mtx None w]
  | WaitFor x v =>
      match ph t with
      | Running =>
          if (cell x w =? v)%Z then [w] else [at_thread i (set_ph Asleep) (set_mtx None w0)]
      | Asleep => []
      | Woken => if is_free w then [at_thread i (set_ph Running) (set_mtx (Some i) w0)] else []
      end
  | NotifyOne =>
      match sleepers w with
      | [] => [w]
      | l => map (λ j, at_thread j (set_ph Woken) w) l
      end
  | Load x => [at_thread i (set_seen (x, cell x w)) w]
  | StoreInc => [set_cells (<[(seen t).1 := ((seen t).2 + 1)%Z]> (cells w)) w]
  | Store x v => [set_cells (<[x := v]> (cells w)) w]
  | SetValue v =>
      match shared w with
      | Some _ => raise i satisfied_text rest w
      | None => [set_shared (Some (inl v)) w]
      end
  | SetException =>
      match shared w with
      | Some _ => raise i satisfied_text rest w
      | None => [set_shared (Some (inr (exc t))) w]
      end
  | Get =>
      if valid w then
        match shared w with
        | None => []
        | Some (inl v) => [at_thread i (set_seen (0, v)) (set_valid false w)]
        | Some (inr e) => raise i e rest (set_valid false w)
        end
      else [set_status Undefined w]
  | FutureWait =>
      if valid w then match shared w with None => [] | Some _ => [w] end
      else [set_status Undefined w]
  | Throw_ e => raise i e rest w
  | EndTry hs _ => if existsb (joinable w) hs then [set_status Aborted w] else [w]
  | EndScope hs =>
      if existsb (joinable w) hs then [set_status Aborted w]
      else if is_free w then [set_alive false w]
      else [set_status Undefined w]
  end.

(** The instructions that touch no variable of the function. *)
Definition untied (c : instr) : bool :=
  match c with Say _ | SayReg _ | SayExc _ | Throw_ _ | EndTry _ _ => true | _ => false end.

Definition thread_steps (w : world) (i : nat) : list world :=
  match threads w !! i with
  | Some t =>
      match code t with
      | [] => []
      | c :: rest =>
          if alive w || untied c then exec_instr i t c rest w (at_thread i (set_code rest) w)
          else [set_status Undefined w]
      end
  | None => []
  end.

(** What can happen next; nothing after undefined behaviour or the end of the process. *)
Definition steps (w : world) : list world :=
  match status w with
  | Fine => flat_map (thread_steps w) (seq 0 (length (threads w)))
  | _ => []
  end.

(** A thread may also wake in the condition variable for no reason. *)
Definition wakes (w : world) : list world :=
  match status w with
  | Fine => map (λ j, at_thread j (set_ph Woken) w) (sleepers w)
  | _ => []
  end.

Definition thread_step (w w' : world) : Prop := w' ∈ steps w.
Definition any_step (w w' : world) : Prop := w' ∈ steps w ++ wakes w.

(** A program starts in its first procedure, with [ncells] cells at 0 and [nhandles] empty handles. *)
Definition boot (ncells nhandles : nat) : world :=
  mkWorld [mkThread (proc 0) (0, 0%Z) EmptyString Running] (replicate nhandles None) None (replicate ncells 0%Z)
    None true true Fine [].

Definition reaches (w w' : world) : Prop := rtc any_step w w'.

(** Nothing can happen, except that a thread wakes for no reason. *)
Definition at_rest (w : world) : Prop := ∀ w', ¬ thread_step w w'.

Definition all_finished (w : world) : bool := forallb (λ t, match code t with [] => true | _ => false end) (threads w).

(** ** The checker *)

(** The states that are reached from [todo], added to [seen_]; [None] when the fuel is short. *)
Fixpoint explore (fuel : nat) (seen_ todo : list world) : option (list world) :=
  match todo with
  | [] => Some seen_
  | w :: todo =>
      match fuel with
      | 0 => None
      | S fuel =>
          if bool_decide (w ∈ seen_) then explore fuel seen_ todo
          else explore fuel (w :: seen_) ((steps w ++ wakes w) ++ todo)
      end
  end.

Definition checks (fuel : nat) (w : world) (P : world → bool) : bool :=
  match explore fuel [] [w] with Some l => forallb P l | None => false end.

(** No run from [w] has more than [n] steps. *)
Fixpoint ends_within (n : nat) (w : world) : bool :=
  match n with
  | 0 => match steps w with [] => true | _ => false end
  | S n => forallb (ends_within n) (steps w)
  end.

(** The state after the threads of [sched] each take a step; where there is a choice, the first. *)
Fixpoint follow (sched : list nat) (w : world) : option world :=
  match sched with
  | [] => Some w
  | i :: sched =>
      match status w, thread_steps w i with
      | Fine, w' :: _ => follow sched w'
      | _, _ => None
      end
  end.

(** ** Lemmas *)

Definition closed (seen_ todo : list world) : Prop :=
  ∀ w w', w ∈ seen_ → any_step w w' → w' ∈ seen_ ++ todo.

Lemma explore_closed fuel seen_ todo l :
  closed seen_ todo → explore fuel seen_ todo = Some l →
  seen_ ++ todo ⊆ l ∧ closed l [].
Proof.
  revert seen_ todo. induction fuel as [|fuel IH]; intros seen_ [|w todo] Hc Hl; simplify_eq/=.
  1,2: by rewrite app_nil_r.
  destruct (bool_decide_reflect (w ∈ seen_)) as [Hin|Hnew].
  - destruct (IH seen_ todo) as [Hsub Hcl]; [|done|].
    + intros x x' Hx Hs. specialize (Hc _ _ Hx Hs). set_solver.
    + split; [set_solver|done].
  - destruct (IH (w :: seen_) ((steps w ++ wakes w) ++ todo)) as [Hsub Hcl]; [|done|].
    + intros x x' Hx Hs. apply elem_of_cons in Hx as [->|Hx].
      * unfold any_step in Hs. set_solver.
      * specialize (Hc _ _ Hx Hs). set_solver.
    + split; [set_solver|done].
Qed.

Lemma checks_sound fuel w P : checks fuel w P = true → ∀ w', reaches w w' → P w' = true.
Proof.
  unfold checks. destruct (explore fuel [] [w]) as [l|] eqn:E; [|done]. intros HP w' Hr.
  apply explore_closed in E as [Hsub Hcl]; [|by intros ? ? ?%elem_of_nil].
  assert (w' ∈ l) as Hw'.
  { apply (rtc_invariant any_step (λ x, x ∈ l) w); [|set_solver|done].
    intros a b Ha Hs. specialize (Hcl _ _ Ha Hs). by rewrite app_nil_r in Hcl. }
  rewrite forallb_forall in HP. apply HP. by apply list_elem_of_In.
Qed.

Lemma ends_within_sound n w : ends_within n w = true → ∀ m w', nsteps thread_step m w w' → m ≤ n.
Proof.
  revert w. induction n as [|n IH]; simpl; intros w Hn m w' Hm.
  - inversion Hm as [|m' ? y ? Hs]; [done|subst]. unfold thread_step in Hs. by destruct (steps w); [apply elem_of_nil in Hs|].
  - inversion Hm as [|m' ? y ? Hs Hr]; subst; [lia|].
    rewrite forallb_forall in Hn. specialize (Hn y). rewrite <- list_elem_of_In in Hn.
    specialize (IH y (Hn Hs) _ _ Hr). lia.
Qed.

Lemma at_rest_steps w : at_rest w ↔ steps w = [].
Proof.
  unfold at_rest, thread_step. split; intros H.
  - destruct (steps w) as [|w' l]; [done|]. destruct (H w'). set_solver.
  - rewrite H. intros w' ?%elem_of_nil. done.
Qed.

Lemma thread_steps_in w i w' : status w = Fine → w' ∈ thread_steps w i → thread_step w w'.
Proof.
  intros Hf Hin. unfold thread_step, steps. rewrite Hf. apply list_elem_of_In, in_flat_map.
  exists i. split; [|by apply list_elem_of_In].
  apply in_seq. unfold thread_steps in Hin. destruct (threads w !! i) eqn:E; [|by apply elem_of_nil in Hin].
  apply lookup_lt_Some in E. lia.
Qed.

Lemma follow_reaches sched w w' : follow sched w = Some w' → reaches w w'.
Proof.
  revert w. induction sched as [|i sched IH]; simpl; intros w H; simplify_eq; [apply rtc_refl|].
  destruct (status w) eqn:Hf; [|done..]. destruct (thread_steps w i) as [|w1 l] eqn:E; [done|].
  eapply rtc_l; [|by apply IH].
  assert (thread_step w w1) as Hs by (apply (thread_steps_in _ i); [done|rewrite E; set_solver]).
  unfold any_step. unfold thread_step in Hs. set_solver.
Qed.
End machine.

(** A state of a program that [P] holds of, whenever nothing more can happen in it. *)
Definition rests_with (procs : list (list instr)) (P : world → bool) (w : world) : bool :=
  match steps procs w with [] => P w | _ => true end.
