(* ===== verification/ThreadDemos.v ===== *)
(** * The examples of src/thread/, under every schedule

    The functions of create_thread/, pass_arguments_to_thread/, join_detach_thread/, use_future/ and
    use_condition_variable/ as programs of the machine of Threads.v: a program is the list of its
    procedures, the function first, then the bodies of its threads and the handlers of its exceptions.
    The sleeps of the code say nothing about the order of steps and are left out. *)

From S2P Require Import Prelude Threads.

(** ** create_thread/ *)

(** The three programs pass a function, a lambda and a function object. *)
Definition create_Func : list instr := [Say "Hello World"].
Definition create_Run : list (list instr) := [[Spawn 0 1; Join 0; EndScope [0]]; create_Func].

Definition lambda_Run : list (list instr) := [[Spawn 0 1; Join 0; EndScope [0]]; [Say "Hello World"]].
Definition object_call : list instr := [Say "Hello World"].
Definition object_Run : list (list instr) := [[Spawn 0 1; Join 0; EndScope [0]]; object_call].

(** create_thread_without_join_or_detach: the thread is still joinable where Run ends. *)
Definition unjoined_count : list instr := map (λ i, Say ("i: " +:+ number (Z.of_nat i))) (seq 0 10).
Definition unjoined_Run : list (list instr) :=
  [[Spawn 0 1; Say "Run() end"; EndScope [0]]; unjoined_count ++ [Lock; Store 0 1; Unlock; NotifyOne]].

(** ** pass_arguments_to_thread/ *)

(** Cell 0 is [a]; cell 1 the copy of it that the thread is given. *)
Definition increment (c : nat) : list instr := [Load c; StoreInc].
Definition show (f : string) : list instr := [Load 0; SayReg ("[" +:+ f +:+ "] a: "); EndScope [0]].

Definition PassByReferenceLambdaCaptureReference : list (list instr) :=
  [[Store 0 0; Spawn 0 1; Join 0] ++ show "PassByReferenceLambdaCaptureReference"; increment 0].
Definition PassByConstReference : list (list instr) :=
  [[Store 0 0; Store 1 0; Spawn 0 1; Join 0] ++ show "PassByConstReference"; increment 1].
Definition PassByConstReferenceUseStdRef : list (list instr) :=
  [[Store 0 0; Spawn 0 1; Join 0] ++ show "PassByConstReferenceUseStdRef"; increment 0].
Definition PassByReferenceUseStdRef : list (list instr) :=
  [[Store 0 0; Spawn 0 1; Join 0] ++ show "PassByReferenceUseStdRef"; increment 0].

(** A::Func, whose constant [a] is 1. *)
Definition A_Func (s : string) : list instr := [Say ("[Func] " +:+ s +:+ " 1")].
Definition CallMemberFunction : list (list instr) := [[Spawn 0 1; Join 0; EndScope [0]]; A_Func "a"].

(** ** join_detach_thread/join_thread/ *)

Definition report_exception (f : string) : list instr := [SayExc ("[" +:+ f +:+ "] exception: ")].

(** Variables: 0 is [t], 1 is [t2] or the temporary that is assigned to [t]. *)
Definition JoinNotJoinableThread1 : list (list instr) :=
  [[Spawn 0 1; Move 0 1; Join 1; Join 0; EndTry [1; 0] 2; EndScope []];
   [Say "run 1"]; report_exception "JoinNotJoinableThread1"].

Definition JoinNotJoinableThread2 : list (list instr) :=
  [[Join 0; EndTry [0] 1; EndScope []]; report_exception "JoinNotJoinableThread2"].

(** The procedures 3 and on are those of the thread. *)
Definition CallThreadJoin1 : list instr := [Join 0; EndTry [] 3].
Definition JoinSelf1 : list (list instr) :=
  [[Spawn 1 1; Move 1 0; Join 0; EndTry [1; 0] 2; EndScope []];
   CallThreadJoin1; report_exception "JoinSelf1"; report_exception "CallThreadJoin1"].

Definition CallThreadJoin2 : list instr := [IfJoinable 0 4 5; EndTry [] 3].
Definition JoinSelf2 : list (list instr) :=
  [[Spawn 1 1; Move 1 0; Join 0; EndTry [1; 0] 2; EndScope []];
   CallThreadJoin2; report_exception "JoinSelf2"; report_exception "CallThreadJoin2";
   [Join 0]; [Say "[CallThreadJoin2] not joinable"]].

(** ** join_detach_thread/detach_thread/ *)

(** Cell 0 is [ready]. *)
Definition DetachNotJoinableThread1 : list (list instr) :=
  [[Spawn 0 1; Move 0 1; Detach 1; Lock; WaitFor 0 1; Unlock; Detach 0; EndTry [1; 0] 2; EndScope []];
   [Say "run 1"; Lock; Store 0 1; Unlock; NotifyOne];
   report_exception "DetachNotJoinableThread1"].

Definition DetachNotJoinableThread2 : list (list instr) :=
  [[Detach 0; EndTry [0] 1; EndScope []]; report_exception "DetachNotJoinableThread2"].

Definition CallThreadDetach : list instr := [Detach 0; Lock; Store 0 1; Unlock; NotifyOne; EndTry [] 3].
Definition DetachSelf : list (list instr) :=
  [[Spawn 1 1; Move 1 0; Lock; WaitFor 0 1; Unlock; EndTry [1; 0] 2; EndScope []];
   CallThreadDetach; report_exception "DetachSelf"; report_exception "CallThreadDetach"].

(** ** use_future/ *)

(** set_value() of a promise of void gives the number 0. *)
Definition UseFutureToGetValue : list (list instr) :=
  [[Spawn 0 1; Get; SayReg "[UseFutureToGetValue] "; Join 0; EndScope [0]]; [SetValue 1]].

Definition UseFutureToWait : list (list instr) :=
  [[Spawn 0 1; FutureWait; Say "[UseFutureToWait]"; Join 0; EndScope [0]]; [SetValue 0]].

Definition PromiseToThrow : list instr := [Throw_ "error in PromiseToThrow"; EndTry [] 3].

(** The handler of PromiseToThrow, which ignores what set_exception throws. *)
Definition give_exception : list instr := [SetException; EndTry [] 4].

Definition UseFutureToHandleException : list (list instr) :=
  [[Spawn 0 1; SayValid "[UseFutureToHandleException] valid: "; Get; EndTry [] 2; Join 0;
    SayValid "[UseFutureToHandleException] valid: "; EndScope [0]];
   PromiseToThrow; report_exception "UseFutureToHandleException"; give_exception; []].

Definition UseFutureToHandleException2 : list (list instr) :=
  [[Spawn 0 1; Join 0; SayValid "[UseFutureToHandleException2] valid: "; Get; EndTry [] 2;
    SayValid "[UseFutureToHandleException2] valid: "; Get; EndTry [] 2; EndScope [0]];
   PromiseToThrow; report_exception "UseFutureToHandleException2"; give_exception; []].

(** The task is called by the function itself; what it throws goes to the future. *)
Definition UsePackagedTask : list (list instr) :=
  [[SetValue 1; Get; SayReg "[UsePackagedTask] "; EndScope []]].

Definition UsePackagedTaskHandleException : list (list instr) :=
  [[Throw_ "packaged_task error"; EndTry [] 1; Get; EndTry [] 2; EndScope []];
   [SetException]; report_exception "UsePackagedTaskHandleException"].

(** std::async may run the function in a thread, which the future joins, or in [get]. *)
Definition UseAsync (deferred : bool) : list (list instr) :=
  if deferred then [[SetValue 1; Get; SayReg "[UseAsync] "; EndScope []]]
  else [[Spawn 0 1; Get; SayReg "[UseAsync] "; Join 0; EndScope [0]]; [SetValue 1]].

Definition UseAsyncHandleException (deferred : bool) : list (list instr) :=
  if deferred then
    [[Throw_ "async runtime_error"; EndTry [] 1; Get; EndTry [] 2; EndScope []];
     [SetException]; report_exception "UseAsyncHandleException"]
  else
    [[Spawn 0 1; Get; EndTry [] 2; Join 0; EndScope [0]];
     [Throw_ "async runtime_error"; EndTry [] 3]; report_exception "UseAsyncHandleException"; [SetException]].

(** ** use_condition_variable/ *)

(** Cell 0 is [step]. *)
Definition handshake_Run : list (list instr) :=
  [[Spawn 0 1; Detach 0; Lock; Store 0 1; Unlock; NotifyOne; Lock; WaitFor 0 2; Unlock; Say "step: 2"; EndScope [0]];
   [Lock; WaitFor 0 1; Unlock; Say "step: 1"; Lock; Store 0 2; Unlock; NotifyOne]].

(** ** What they promise *)

Definition start (procs : list (list instr)) : world := boot procs 2 2.

Definition fine (w : world) : bool := bool_decide (status w = Fine).
Definition has_printed (lines : list string) (w : world) : bool := bool_decide (out w = lines).

(** In every schedule the program ends, having printed the lines and done nothing undefined. *)
Record prints (procs : list (list instr)) (lines : list string) : Prop := {
  never_undefined w : reaches procs (start procs) w → status w = Fine;
  ends_printed w : reaches procs (start procs) w → at_rest procs w → all_finished w = true ∧ out w = lines;
  bounded : ∃ n, ∀ m w, nsteps (thread_step procs) m (start procs) w → m ≤ n
}.

(** The functions that keep their promise, with what they print. *)
Definition sound_demos : list (list (list instr) * list string) := [
  (create_Run, ["Hello World"]);
  (lambda_Run, ["Hello World"]);
  (object_Run, ["Hello World"]);
  (PassByReferenceLambdaCaptureReference, ["[PassByReferenceLambdaCaptureReference] a: 1"]);
  (PassByConstReference, ["[PassByConstReference] a: 0"]);
  (PassByConstReferenceUseStdRef, ["[PassByConstReferenceUseStdRef] a: 1"]);
  (PassByReferenceUseStdRef, ["[PassByReferenceUseStdRef] a: 1"]);
  (CallMemberFunction, ["[Func] a 1"]);
  (JoinNotJoinableThread1, ["run 1"; "[JoinNotJoinableThread1] exception: Invalid argument"]);
  (JoinNotJoinableThread2, ["[JoinNotJoinableThread2] exception: Invalid argument"]);
  (DetachNotJoinableThread2, ["[DetachNotJoinableThread2] exception: Invalid argument"]);
  (UseFutureToGetValue, ["[UseFutureToGetValue] 1"]);
  (UseFutureToWait, ["[UseFutureToWait]"]);
  (UseFutureToHandleException,
    ["[UseFutureToHandleException] valid: 1"; "[UseFutureToHandleException] exception: error in PromiseToThrow";
     "[UseFutureToHandleException] valid: 0"]);
  (UsePackagedTask, ["[UsePackagedTask] 1"]);
  (UsePackagedTaskHandleException, ["[UsePackagedTaskHandleException] exception: packaged_task error"]);
  (UseAsync false, ["[UseAsync] 1"]);
  (UseAsync true, ["[UseAsync] 1"]);
  (UseAsyncHandleException false, ["[UseAsyncHandleException] exception: async runtime_error"]);
  (UseAsyncHandleException true, ["[UseAsyncHandleException] exception: async runtime_error"])].

(** What the checker looks at. *)
Definition prints_check (p : list (list instr) * list string) : bool :=
  checks p.1 1000 (start p.1)
    (λ w, fine w && rests_with p.1 (λ w, all_finished w && has_printed p.2 w) w) &&
  ends_within p.1 30 (start p.1).

(** ** Theorems *)

Lemma prints_checked p : prints_check p = true → prints p.1 p.2.
Proof.
  unfold prints_check. intros [Hc He]%andb_prop.
  assert (∀ w, reaches p.1 (start p.1) w → fine w && rests_with p.1 (λ w, all_finished w && has_printed p.2 w) w = true)
    as Hall by exact (checks_sound _ _ _ _ Hc).
  split.
  - intros w Hw. apply Hall, andb_prop in Hw as [Hf _]. by apply bool_decide_eq_true in Hf.
  - intros w Hw Hr%at_rest_steps. apply Hall, andb_prop in Hw as [_ Hp]. unfold rests_with in Hp.
    rewrite Hr in Hp. apply andb_prop in Hp as [? Hp]. by apply bool_decide_eq_true in Hp.
  - exists 30. intros m w. by apply ends_within_sound.
Qed.

(** A schedule that leads to a state which [P] holds of. *)
Definition leads_to (procs : list (list instr)) (sched : list nat) (P : world → bool) : bool :=
  match follow procs sched (start procs) with Some w => P w | None => false end.

Lemma leads_to_reaches procs sched P : leads_to procs sched P = true → ∃ w, reaches procs (start procs) w ∧ P w = true.
Proof.
  unfold leads_to. destruct (follow procs sched (start procs)) as [w|] eqn:E; [|done].
  intros HP. exists w. split; [|done]. by eapply follow_reaches.
Qed.

Lemma rests_with_rest procs P w : rests_with procs P w = true → at_rest procs w → P w = true.
Proof. unfold rests_with. intros H Hr%at_rest_steps. by rewrite Hr in H. Qed.

Definition is_undefined (w : world) : bool := bool_decide (status w = Undefined).

(** C38: In every schedule the functions of create_thread/, pass_arguments_to_thread/, join_detach_thread/ and use_future/
    that are listed end, print just the lines listed, and neither abort nor do anything undefined. *)
Theorem demos_print : Forall (λ p, prints p.1 p.2) sound_demos.
Proof.
  assert (forallb prints_check sound_demos = true) as Hall by (vm_compute; reflexivity).
  rewrite forallb_forall in Hall. apply Forall_forall. intros p Hp. by apply prints_checked, Hall, list_elem_of_In.
Qed.

(** What Run of use_condition_variable prints so far, and that it does not hang. *)
Definition handshake_state (w : world) : bool :=
  bool_decide (out w ∈ [[]; ["step: 1"]; ["step: 1"; "step: 2"]] ∧ status w ≠ Aborted) &&
  rests_with handshake_Run (λ w, is_undefined w || all_finished w && has_printed ["step: 1"; "step: 2"] w) w.

(** A run of it without a spurious wake-up takes at most 24 steps. *)
Lemma handshake_bounded m w : nsteps (thread_step handshake_Run) m (start handshake_Run) w → m ≤ 24.
Proof. apply ends_within_sound. vm_compute. reflexivity. Qed.

(** The two threads of use_condition_variable take turns in every schedule: step 1 is printed before step 2, neither waits for
    ever, and a run that does nothing undefined ends with both printed. *)
Theorem handshake_in_order w :
  reaches handshake_Run (start handshake_Run) w →
  (out w = [] ∨ out w = ["step: 1"] ∨ out w = ["step: 1"; "step: 2"]) ∧ status w ≠ Aborted ∧
  (at_rest handshake_Run w → status w = Undefined ∨ all_finished w = true ∧ out w = ["step: 1"; "step: 2"]).
Proof.
  assert (checks handshake_Run 4000 (start handshake_Run) handshake_state = true) as Hc
    by (vm_compute; reflexivity).
  intros Hw. apply (checks_sound _ _ _ _ Hc), andb_prop in Hw as [[Ho Ha]%bool_decide_eq_true Hr]. clear Hc.
  split; [by rewrite !elem_of_cons, elem_of_nil in Ho; tauto|]. split; [done|].
  intros Hrest. apply (rests_with_rest _ _ _ Hr), orb_prop in Hrest as [Hu|Hd].
  - left. by apply bool_decide_eq_true in Hu.
  - right. apply andb_prop in Hd as [? Hd]. by apply bool_decide_eq_true in Hd.
Qed.

(** The functions whose detached thread notifies after it has let the function return, with a schedule. *)
Definition late_notifiers : list (list (list instr) * list nat) := [
  (handshake_Run, [0; 0; 0; 0; 0; 0; 1; 1; 1; 1; 1; 1; 1; 0; 0; 0; 0; 0; 1]);
  (DetachNotJoinableThread1, [0; 0; 0; 1; 1; 1; 1; 0; 0; 0; 0; 0; 0; 1]);
  (DetachSelf, [0; 0; 1; 1; 1; 1; 0; 0; 0; 0; 0; 1])].

(** In the three functions that detach a thread which notifies them, the thread may notify a condition variable that
    is already destroyed: the function is let go by the value, not by the notification. *)
Theorem late_notify_undefined :
  Forall (λ p, ∃ w, reaches p.1 (start p.1) w ∧ status w = Undefined) late_notifiers.
Proof.
  assert (forallb (λ p, leads_to p.1 p.2 is_undefined) late_notifiers = true) as Hall by (vm_compute; reflexivity).
  rewrite forallb_forall in Hall. apply Forall_forall. intros p Hp.
  destruct (leads_to_reaches p.1 p.2 is_undefined) as (w & Hr & Hu); [by apply Hall, list_elem_of_In|].
  exists w. split; [done|]. by apply bool_decide_eq_true in Hu.
Qed.

(** How the functions in which a thread joins itself may end. *)
Definition self_joins : list (list (list instr) * list string) := [
  (JoinSelf1, ["[CallThreadJoin1] exception: Resource deadlock avoided"; "[CallThreadJoin1] exception: Invalid argument"]);
  (JoinSelf2, ["[CallThreadJoin2] exception: Resource deadlock avoided"; "[CallThreadJoin2] not joinable"])].

Definition self_join_state (procs : list (list instr)) (lines : list string) (w : world) : bool :=
  fine w && rests_with procs (λ w, all_finished w && bool_decide (out w ∈ map (λ l, [l]) lines)) w.

(** A schedule that makes the thread run before it is assigned to the variable, and one after. *)
Definition self_join_scheds (procs : list (list instr)) (lines : list string) : bool :=
  forallb (λ l, existsb (λ sched, leads_to procs sched (has_printed [l]))
    [[0; 0; 1; 1; 1]; [0; 1; 1; 1]; [0; 0; 1; 1]; [0; 1; 1]]) lines.

(** A thread that joins itself is refused and its function ends, but what it prints depends on whether it runs
    before or after it is assigned to the variable: both lines occur, and no other. *)
Theorem self_join_refused :
  Forall (λ p, (∀ w, reaches p.1 (start p.1) w → at_rest p.1 w →
                  status w = Fine ∧ all_finished w = true ∧ ∃ l, l ∈ p.2 ∧ out w = [l]) ∧
               (∀ l, l ∈ p.2 → ∃ w, reaches p.1 (start p.1) w ∧ out w = [l])) self_joins.
Proof.
  assert (forallb (λ p, checks p.1 1000 (start p.1) (self_join_state p.1 p.2) && self_join_scheds p.1 p.2) self_joins = true)
    as Hall by (vm_compute; reflexivity).
  rewrite forallb_forall in Hall. apply Forall_forall. intros p Hp.
  apply list_elem_of_In, Hall, andb_prop in Hp as [Hc Hs]. split.
  - intros w Hw Hr. apply (checks_sound _ _ _ _ Hc), andb_prop in Hw as [Hf Hw].
    apply (rests_with_rest _ _ _ Hw), andb_prop in Hr as [Hfin Ho].
    apply bool_decide_eq_true in Hf, Ho. apply list_elem_of_In, in_map_iff in Ho as (l & <- & Hl%list_elem_of_In). eauto.
  - intros l Hl%list_elem_of_In. unfold self_join_scheds in Hs. rewrite forallb_forall in Hs.
    apply Hs, existsb_exists in Hl as (sched & _ & Hl). apply leads_to_reaches in Hl as (w & Hw & Ho).
    exists w. split; [done|]. by apply bool_decide_eq_true in Ho.
Qed.

(** The function still waits, in a run of DetachSelf. *)
Definition still_waits (w : world) : bool :=
  match threads w with t :: _ => match code t with WaitFor 0 1%Z :: _ => true | _ => false end | [] => false end.

(** DetachSelf waits for ever when its thread runs before it is assigned to the variable: the detach throws and nothing
    sets [ready]. *)
Theorem detach_self_hangs :
  ∃ w, reaches DetachSelf (start DetachSelf) w ∧
    out w = ["[CallThreadDetach] exception: Invalid argument"] ∧
    ∀ w', reaches DetachSelf w w' → still_waits w' = true.
Proof.
  destruct (follow DetachSelf [0; 1; 1; 0; 0; 0] (start DetachSelf)) as [w|] eqn:E;
    [|by vm_compute in E].
  exists w. split; [by eapply follow_reaches|]. revert E. vm_compute (follow _ _ _). intros [= <-]. split; [done|].
  apply (checks_sound _ 1000). vm_compute. reflexivity.
Qed.

(** A thread that is neither joined nor detached ends the process, in every schedule. *)
Theorem without_join_aborts w :
  reaches unjoined_Run (start unjoined_Run) w →
  at_rest unjoined_Run w → status w = Aborted ∧ "Run() end" ∈ out w.
Proof.
  assert (checks unjoined_Run 4000 (start unjoined_Run)
    (rests_with unjoined_Run (λ w, bool_decide (status w = Aborted ∧ "Run() end" ∈ out w))) = true)
    as Hc by (vm_compute; reflexivity).
  intros Hw Hr. apply (checks_sound _ _ _ _ Hc) in Hw. clear Hc. apply (rests_with_rest _ _ _ Hw) in Hr.
  by apply bool_decide_eq_true in Hr.
Qed.

(** UseFutureToHandleException2 reads its future a second time, when it has no state left; everything before that
    is printed. *)
Theorem second_get_undefined w :
  reaches UseFutureToHandleException2 (start UseFutureToHandleException2) w →
  at_rest UseFutureToHandleException2 w →
  status w = Undefined ∧
  out w = ["[UseFutureToHandleException2] valid: 1"; "[UseFutureToHandleException2] exception: error in PromiseToThrow";
           "[UseFutureToHandleException2] valid: 0"].
Proof.
  assert (checks UseFutureToHandleException2 1000 (start UseFutureToHandleException2)
    (rests_with UseFutureToHandleException2 (λ w, bool_decide (status w = Undefined ∧
       out w = ["[UseFutureToHandleException2] valid: 1"; "[UseFutureToHandleException2] exception: error in PromiseToThrow";
           "[UseFutureToHandleException2] valid: 0"]))) = true) as Hc by (vm_compute; reflexivity).
  intros Hw Hr. apply (checks_sound _ _ _ _ Hc) in Hw. clear Hc. apply (rests_with_rest _ _ _ Hw) in Hr.
  by apply bool_decide_eq_true in Hr.
Qed.

(** ** Witnesses *)

(** The state in which both threads of use_condition_variable have ended. *)
Definition handshake_end : world :=
  default (start handshake_Run)
    (follow handshake_Run [0; 0; 0; 0; 0; 0; 1; 1; 1; 1; 1; 1; 1; 1; 0; 0; 0; 0; 0] (start handshake_Run)).

Lemma handshake_reached : reaches handshake_Run (start handshake_Run) handshake_end.
Proof. apply (follow_reaches _ [0; 0; 0; 0; 0; 0; 1; 1; 1; 1; 1; 1; 1; 1; 0; 0; 0; 0; 0]). vm_compute. reflexivity. Qed.

Lemma handshake_in_order_witness :
  all_finished handshake_end = true ∧ status handshake_end = Fine ∧ at_rest handshake_Run handshake_end ∧
  (status handshake_end = Undefined ∨ all_finished handshake_end = true ∧ out handshake_end = ["step: 1"; "step: 2"]).
Proof.
  assert (at_rest handshake_Run handshake_end) as Hr by (apply at_rest_steps; vm_compute; reflexivity).
  split; [vm_compute; reflexivity|]. split; [vm_compute; reflexivity|]. split; [done|].
  apply (handshake_in_order handshake_end handshake_reached), Hr.
Defined.
