(* ===== verification/OperatorNew.v ===== *)
(** * Allocation functions and lifetimes (syntax/operator_new/main.cpp)

    The program replaces operator new and delete, for all classes and for one, and calls them through
    new-expressions.  The heap holds blocks and the objects that live in them: a pointer is a block and an
    offset, and using storage or an object that is not there is undefined. *)

From S2P Require Import Prelude.

(** ** The heap *)

(** [None] is the null pointer. *)
Abbreviation ptr := (option (nat * Z)).

(** A line that is printed: a text, or one of an allocation function with its arguments. *)
Inductive event :=
  | Line (s : string)
  | NewLine (op : string) (p : ptr) (size : Z)
  | DeleteLine (op : string) (p : ptr).

(** [refusals]: whether malloc fails, for the next calls (it succeeds after the last); [counts]: what a
    new-expression notes before the elements of an array. *)
Record Heap := mkHeap {
  blocks : gmap nat Z; next : nat; refusals : list bool;
  live : gset (nat * Z); counts : gmap (nat * Z) nat; log : list event
}.

Definition set_blocks x h := mkHeap x (next h) (refusals h) (live h) (counts h) (log h).
Definition set_live x h := mkHeap (blocks h) (next h) (refusals h) x (counts h) (log h).
Definition set_counts x h := mkHeap (blocks h) (next h) (refusals h) (live h) x (log h).

Definition print (e : event) : M Heap unit :=
  modify (λ h, mkHeap (blocks h) (next h) (refusals h) (live h) (counts h) (log h ++ [e])).

Definition malloc (size : Z) : M Heap ptr := λ h,
  match refusals h with
  | true :: l => (Ok None, mkHeap (blocks h) (next h) l (live h) (counts h) (log h))
  | l => (Ok (Some (next h, 0%Z)),
          mkHeap (<[next h := size]> (blocks h)) (S (next h)) (tail l) (live h) (counts h) (log h))
  end.

Definition free (p : ptr) : M Heap unit := λ h,
  match p with
  | None => (Ok tt, h)
  | Some (b, o) =>
      if decide (o = 0%Z ∧ is_Some (blocks h !! b)) then (Ok tt, set_blocks (delete b (blocks h)) h) else (Undef, h)
  end.

(** The bytes from [a] are there. *)
Definition storage (a : nat * Z) (size : Z) : M Heap unit := λ h,
  match blocks h !! a.1 with
  | Some n => if ((0 <=? a.2) && (a.2 + size <=? n))%Z then (Ok tt, h) else (Undef, h)
  | None => (Undef, h)
  end.

(** ** The allocation functions *)

Definition operator_new (size : Z) : M Heap ptr :=
  p ← malloc size; print (NewLine "operator new" p size);; mret p.
Definition operator_delete (p : ptr) : M Heap unit :=
  print (DeleteLine "operator delete" p);; free p.
Definition operator_new_array (size : Z) : M Heap ptr :=
  p ← malloc size; print (NewLine "operator new[]" p size);; mret p.
Definition operator_delete_array (p : ptr) : M Heap unit :=
  print (DeleteLine "operator delete[]" p);; free p.

Definition B_operator_new (size : Z) : M Heap ptr :=
  p ← malloc size; print (NewLine "B::operator new" p size);; mret p.
Definition B_operator_delete (p : ptr) : M Heap unit :=
  print (DeleteLine "B::operator delete" p);; free p.
Definition B_operator_new_array (size : Z) : M Heap ptr :=
  p ← malloc size; print (NewLine "B::operator new[]" p size);; mret p.
Definition B_operator_delete_array (p : ptr) : M Heap unit :=
  print (DeleteLine "B::operator delete[]" p);; free p.

Definition B_placement_new (size : Z) (p : ptr) : M Heap ptr :=
  print (NewLine "B::Placement new" p size);; mret p.
Definition B_placement_delete (p : ptr) : M Heap unit := print (DeleteLine "B::Placement delete" p).
Definition B_placement_new_array (size : Z) (p : ptr) : M Heap ptr :=
  print (NewLine "B::Placement new[]" p size);; mret p.
Definition B_placement_delete_array (p : ptr) : M Heap unit := print (DeleteLine "B::Placement delete[]" p).

Definition C_placement_new (size : Z) (p : ptr) : M Heap ptr :=
  print (NewLine "C::Placement new" p size);; mret p.
Definition C_placement_delete (p : ptr) : M Heap unit := print (DeleteLine "C::Placement delete" p).
Definition C_placement_new_array (size : Z) (p : ptr) : M Heap ptr :=
  print (NewLine "C::Placement new[]" p size);; mret p.
Definition C_placement_delete_array (p : ptr) : M Heap unit := print (DeleteLine "C::Placement delete[]" p).

(** The functions a new-expression finds for a class, and those it finds for a placement.  [reserved]: they
    are the ones of the library, which return the pointer they are given. *)
Record Alloc := mkAlloc {
  al_new : Z → M Heap ptr; al_delete : ptr → M Heap unit;
  al_new_array : Z → M Heap ptr; al_delete_array : ptr → M Heap unit
}.
Record Place := mkPlace {
  pl_new : Z → ptr → M Heap ptr; pl_delete : ptr → M Heap unit;
  pl_new_array : Z → ptr → M Heap ptr; pl_delete_array : ptr → M Heap unit; reserved : bool
}.

Definition A_alloc : Alloc := mkAlloc operator_new operator_delete operator_new_array operator_delete_array.
Definition B_alloc : Alloc := mkAlloc B_operator_new B_operator_delete B_operator_new_array B_operator_delete_array.

Definition A_place : Place := mkPlace (λ _, mret) (λ _, mret tt) (λ _, mret) (λ _, mret tt) true.
Definition B_place : Place :=
  mkPlace B_placement_new B_placement_delete B_placement_new_array B_placement_delete_array false.
Definition C_place : Place :=
  mkPlace C_placement_new C_placement_delete C_placement_new_array C_placement_delete_array false.

(** ** The classes *)

Record Class_ := mkClass { cname : string; csize : Z; throws : bool }.

Definition A : Class_ := mkClass "A" 4 false.
Definition B : Class_ := mkClass "B" 8 false.
Definition C : Class_ := mkClass "C" 4 true.

(** The bodies of the constructors and destructors; C() throws. *)
Definition ctor (T : Class_) : M Heap unit :=
  print (Line (cname T +:+ "()"));; if throws T then throw RuntimeError else mret tt.
Definition dtor (T : Class_) : M Heap unit := print (Line ("~" +:+ cname T +:+ "()")).

(** An object lives from the end of its constructor to its destructor. *)
Definition construct (T : Class_) (a : nat * Z) : M Heap unit :=
  storage a (csize T);; ctor T;; modify (λ h, set_live (live h ∪ {[a]}) h).

Definition destroy (T : Class_) (a : nat * Z) : M Heap unit :=
  h ← get;
  if decide (a ∈ live h) then modify (λ h, set_live (live h ∖ {[a]}) h);; dtor T else undef.

(** [m], and where it throws [clean] before the exception goes on. *)
Definition cleaning {A} (m : M Heap A) (clean : M Heap unit) : M Heap A := λ h,
  match m h with
  | (Throw e, h') => (clean;; throw e) h'
  | r => r
  end.

(** ** New-expressions *)

Definition shift (a : nat * Z) (d : Z) : nat * Z := (a.1, (a.2 + d)%Z).
Definition element (T : Class_) (a : nat * Z) (i : nat) : nat * Z := shift a (csize T * Z.of_nat i).

(** The elements before [i], from the last to the first. *)
Fixpoint destroy_down (T : Class_) (a : nat * Z) (i : nat) : M Heap unit :=
  match i with 0 => mret tt | S i => destroy T (element T a i);; destroy_down T a i end.

Fixpoint construct_up (T : Class_) (a : nat * Z) (i n : nat) : M Heap unit :=
  match n with
  | 0 => mret tt
  | S n => cleaning (construct T (element T a i)) (destroy_down T a i);; construct_up T a (S i) n
  end.

Definition new_ (T : Class_) (al : Alloc) : M Heap (nat * Z) :=
  p ← al_new al (csize T);
  match p with
  | None => undef
  | Some a => cleaning (construct T a) (al_delete al p);; mret a
  end.

Definition delete_ (T : Class_) (al : Alloc) (a : nat * Z) : M Heap unit :=
  destroy T a;; al_delete al (Some a).

Definition place (T : Class_) (pl : Place) (buf : ptr) : M Heap (nat * Z) :=
  p ← pl_new pl (csize T) buf;
  match p with
  | None => undef
  | Some a => cleaning (construct T a) (pl_delete pl p);; mret a
  end.

Section arrays.
(** What a new-expression asks for besides the elements of an array, to note their number; none with the
    placement functions of the library. *)
Context (overhead : Z).

Definition fill_array (T : Class_) (a : nat * Z) (x : Z) (n : nat) (clean : M Heap unit) : M Heap (nat * Z) :=
  storage a x;;
  cleaning (construct_up T (shift a x) 0 n) clean;;
  modify (λ h, set_counts (<[shift a x := n]> (counts h)) h);;
  mret (shift a x).

Definition new_array (T : Class_) (al : Alloc) (n : nat) : M Heap (nat * Z) :=
  let size := (csize T * Z.of_nat n + overhead)%Z in
  if (2 ^ 64 <=? size)%Z then throw RuntimeError
  else
    p ← al_new_array al size;
    match p with
    | None => undef
    | Some a => fill_array T a overhead n (al_delete_array al p)
    end.

Definition delete_array (T : Class_) (al : Alloc) (a : nat * Z) : M Heap unit :=
  h ← get;
  match counts h !! a with
  | None => undef
  | Some n => destroy_down T a n;; al_delete_array al (Some (shift a (- overhead)))
  end.

Definition place_array (T : Class_) (pl : Place) (buf : ptr) (n : nat) : M Heap (nat * Z) :=
  let x := if reserved pl then 0%Z else overhead in
  p ← pl_new_array pl (csize T * Z.of_nat n + x)%Z buf;
  match p with
  | None => undef
  | Some a => fill_array T a x n (pl_delete_array pl p)
  end.

(** ** The program *)

Definition CallNew (T : Class_) (al : Alloc) : M Heap unit :=
  p ← new_ T al; delete_ T al p.

Definition CallNewArray (T : Class_) (al : Alloc) (size : nat) : M Heap unit :=
  p ← new_array T al size; delete_array T al p.

Definition CallPlacementNew (T : Class_) (pl : Place) : M Heap unit :=
  buf ← malloc (csize T);
  try_catch (p ← place T pl buf; destroy T p) (print (Line "exception"));;
  free buf.

Definition CallPlacementNewArray (T : Class_) (pl : Place) (size : nat) : M Heap unit :=
  buf ← malloc (u64 (csize T * Z.of_nat size));
  try_catch (p ← place_array T pl buf size; for_each (λ _, destroy T p) (seq 0 size)) (print (Line "exception"));;
  free buf.

(** main, without the lines that separate its parts. *)
Definition main : M Heap unit :=
  CallNew A A_alloc;; CallNew B B_alloc;;
  CallNewArray A A_alloc 2;; CallNewArray B B_alloc 2;;
  CallPlacementNew A A_place;; CallPlacementNew B B_place;;
  CallPlacementNewArray A A_place 2;; CallPlacementNewArray B B_place 2;;
  CallPlacementNew C C_place;; CallPlacementNewArray C C_place 2.
End arrays.

Definition empty_heap : Heap := mkHeap ∅ 0 [] ∅ ∅ [].

(** ** What the functions of a class promise *)

Definition logs (es : list event) (h : Heap) : Heap :=
  mkHeap (blocks h) (next h) (refusals h) (live h) (counts h) (log h ++ es).

(** The allocation functions take from malloc, give to free, and say so in the name of [scope]. *)
Class Allocates (al : Alloc) (scope : string) : Prop := {
  al_new_run size h : al_new al size h =
    (p ← malloc size; print (NewLine (scope +:+ "operator new") p size);; mret p) h;
  al_delete_run p h : al_delete al p h = (print (DeleteLine (scope +:+ "operator delete") p);; free p) h;
  al_new_array_run size h : al_new_array al size h =
    (p ← malloc size; print (NewLine (scope +:+ "operator new[]") p size);; mret p) h;
  al_delete_array_run p h : al_delete_array al p h = (print (DeleteLine (scope +:+ "operator delete[]") p);; free p) h
}.

#[global] Instance A_allocates : Allocates A_alloc EmptyString.
Proof. by split. Qed.

#[global] Instance B_allocates : Allocates B_alloc "B::".
Proof. by split. Qed.

(** Placement functions return what they are given; those of the library say nothing. *)
Definition noted (pl : Place) (e : event) : list event := if reserved pl then [] else [e].

Class Places (pl : Place) (scope : string) : Prop := {
  pl_new_run size p h : pl_new pl size p h = (Ok p, logs (noted pl (NewLine (scope +:+ "Placement new") p size)) h);
  pl_delete_run p h : pl_delete pl p h = (Ok tt, logs (noted pl (DeleteLine (scope +:+ "Placement delete") p)) h);
  pl_new_array_run size p h :
    pl_new_array pl size p h = (Ok p, logs (noted pl (NewLine (scope +:+ "Placement new[]") p size)) h);
  pl_delete_array_run p h :
    pl_delete_array pl p h = (Ok tt, logs (noted pl (DeleteLine (scope +:+ "Placement delete[]") p)) h)
}.

Lemma logs_nil h : logs [] h = h.
Proof. destruct h. unfold logs. simpl. by rewrite app_nil_r. Qed.

#[global] Instance A_places : Places A_place EmptyString.
Proof. split; intros; unfold noted; simpl; by rewrite logs_nil. Qed.

#[global] Instance B_places : Places B_place "B::".
Proof. by split. Qed.

#[global] Instance C_places : Places C_place "C::".
Proof. by split. Qed.

(** ** States between the steps *)

(** Blocks are given in order, and objects live in blocks. *)
Record wf (h : Heap) : Prop := {
  wf_next b : next h ≤ b → blocks h !! b = None;
  wf_live b o : (b, o) ∈ live h → b < next h
}.

(** [h] with one more block, objects [l] and [counts] changed, and lines printed. *)
Definition during (h : Heap) (size : Z) (l : gset (nat * Z)) (cs : gmap (nat * Z) nat) (es : list event) : Heap :=
  mkHeap (<[next h := size]> (blocks h)) (S (next h)) [] (live h ∪ l) cs (log h ++ es).
Definition after (h : Heap) (cs : gmap (nat * Z) nat) (es : list event) : Heap :=
  mkHeap (blocks h) (S (next h)) [] (live h) cs (log h ++ es).

Definition elements_ (T : Class_) (a : nat * Z) (i n : nat) : gset (nat * Z) := list_to_set (map (element T a) (seq i n)).
Definition born (T : Class_) : event := Line (cname T +:+ "()").
Definition dead (T : Class_) : event := Line ("~" +:+ cname T +:+ "()").

(** ** Lemmas *)

Section lemmas.
Context (T : Class_) (Hsize : (0 < csize T)%Z).

Lemma malloc_run size h : refusals h = [] → malloc size h = (Ok (Some (next h, 0%Z)), during h size ∅ (counts h) []).
Proof. intros Hr. unfold malloc, during. rewrite Hr, app_nil_r, (right_id_L ∅ (∪)). done. Qed.

Lemma during_logs h size l cs es es' : logs es' (during h size l cs es) = during h size l cs (es ++ es').
Proof. unfold logs, during. simpl. by rewrite app_assoc. Qed.

Lemma printed e h : print e h = (Ok tt, logs [e] h).
Proof. done. Qed.

Lemma free_during h size cs es :
  wf h → free (Some (next h, 0%Z)) (during h size ∅ cs es) = (Ok tt, after h cs es).
Proof.
  intros Hw. unfold free, during, after. cbn -[decide].
  rewrite decide_True by (split; [done|]; rewrite lookup_insert_eq; eauto).
  unfold set_blocks. simpl. rewrite delete_insert_eq, (right_id_L ∅ (∪)).
  rewrite delete_id by (apply Hw; lia). done.
Qed.

Lemma wf_after h cs es : wf h → wf (after h cs es).
Proof.
  intros Hw. split; simpl.
  - intros b Hb. apply Hw. lia.
  - intros b o Hb%(wf_live _ Hw). lia.
Qed.

Lemma storage_during h size l cs es d n :
  (0 ≤ d)%Z → (d + n ≤ size)%Z → storage (next h, d) n (during h size l cs es) = (Ok tt, during h size l cs es).
Proof.
  intros Hd Hn. unfold storage, during. simpl. rewrite lookup_insert_eq.
  rewrite (proj2 (Z.leb_le 0 d)), (proj2 (Z.leb_le (d + n) size)) by lia. done.
Qed.

Lemma storage_beyond h size l cs es d n :
  (size < d + n)%Z → storage (next h, d) n (during h size l cs es) = (Undef, during h size l cs es).
Proof.
  intros Hn. unfold storage, during. simpl. rewrite lookup_insert_eq.
  rewrite (proj2 (Z.leb_gt (d + n) size)) by lia. by rewrite andb_false_r.
Qed.

Lemma construct_run h size l cs es d :
  throws T = false → (0 ≤ d)%Z → (d + csize T ≤ size)%Z →
  construct T (next h, d) (during h size l cs es) =
    (Ok tt, during h size (l ∪ {[(next h, d)]}) cs (es ++ [born T])).
Proof.
  intros Ht Hd Hs. unfold construct. rewrite (bind_ok _ _ _ _ _ (storage_during h size l cs es d _ Hd Hs)).
  unfold ctor. rewrite Ht. unfold mbind, M_bind, print, modify, during, set_live, mret, M_ret. simpl.
  by rewrite <- !app_assoc, (assoc_L (∪)).
Qed.

Lemma construct_throws h size l cs es d :
  throws T = true → (0 ≤ d)%Z → (d + csize T ≤ size)%Z →
  construct T (next h, d) (during h size l cs es) = (Throw RuntimeError, during h size l cs (es ++ [born T])).
Proof.
  intros Ht Hd Hs. unfold construct. rewrite (bind_ok _ _ _ _ _ (storage_during h size l cs es d _ Hd Hs)).
  unfold ctor. rewrite Ht. unfold mbind, M_bind, print, modify, during, throw. simpl. by rewrite <- !app_assoc.
Qed.

Lemma destroy_run h size l cs es d :
  wf h → (next h, d) ∈ l →
  destroy T (next h, d) (during h size l cs es) =
    (Ok tt, during h size (l ∖ {[(next h, d)]}) cs (es ++ [dead T])).
Proof.
  intros Hw Hl. unfold destroy, get, mbind, M_bind. rewrite decide_True by (unfold during; simpl; set_solver).
  unfold dtor, print, modify, set_live, during. simpl. rewrite <- app_assoc. do 2 f_equal.
  assert ((next h, d) ∉ live h) as Hn by (intros Hn%(wf_live _ Hw); lia).
  apply set_eq. intros x. rewrite !elem_of_difference, !elem_of_union, !elem_of_difference, elem_of_singleton.
  destruct (decide (x = (next h, d))) as [->|]; tauto.
Qed.

Lemma destroy_dead h size l cs es d :
  wf h → (next h, d) ∉ l →
  destroy T (next h, d) (during h size l cs es) = (Undef, during h size l cs es).
Proof.
  intros Hw Hl. unfold destroy, get, mbind, M_bind. rewrite decide_False; [done|].
  unfold during. simpl. rewrite elem_of_union. intros [?%(wf_live _ Hw)|]; [lia|done].
Qed.

Lemma element_eq b o i : element T (b, o) i = (b, (o + csize T * Z.of_nat i)%Z).
Proof. done. Qed.

Lemma element_inj a i j : element T a i = element T a j → i = j.
Proof. destruct a as [b o]. rewrite !element_eq. intros [= H]. nia. Qed.

Lemma elem_of_elements x a i n : x ∈ elements_ T a i n ↔ ∃ j, i ≤ j < i + n ∧ x = element T a j.
Proof.
  unfold elements_. rewrite elem_of_list_to_set, list_elem_of_fmap. split.
  - intros (j & -> & Hj%elem_of_seq). eauto.
  - intros (j & Hj & ->). exists j. split; [done|]. by apply elem_of_seq.
Qed.

Lemma construct_up_run h size l cs es d i n :
  throws T = false → (0 ≤ d)%Z → (d + csize T * Z.of_nat (i + n) ≤ size)%Z →
  construct_up T (next h, d) i n (during h size l cs es) =
    (Ok tt, during h size (l ∪ elements_ T (next h, d) i n) cs (es ++ replicate n (born T))).
Proof.
  intros Ht Hd. revert i l es. induction n as [|n IH]; intros i l es Hs; simpl.
  - unfold mret, M_ret, elements_. simpl. by rewrite app_nil_r, (right_id_L ∅ (∪)).
  - assert (cleaning (construct T (element T (next h, d) i)) (destroy_down T (next h, d) i) (during h size l cs es)
      = (Ok tt, during h size (l ∪ {[element T (next h, d) i]}) cs (es ++ [born T]))) as Hc.
    { unfold cleaning. rewrite element_eq, construct_run; [done|done|nia|nia]. }
    rewrite (bind_ok _ _ _ _ _ Hc), IH by (by rewrite Nat.add_succ_comm). do 2 f_equal; [|by rewrite <- app_assoc].
    unfold elements_. simpl. by rewrite (assoc_L (∪)).
Qed.

Lemma destroy_down_run h size cs es d n :
  wf h →
  destroy_down T (next h, d) n (during h size (elements_ T (next h, d) 0 n) cs es) =
    (Ok tt, during h size ∅ cs (es ++ replicate n (dead T))).
Proof.
  intros Hw. revert es. induction n as [|n IH]; intros es; simpl.
  - unfold mret, M_ret. by rewrite app_nil_r.
  - assert (elements_ T (next h, d) 0 (S n) ∖ {[element T (next h, d) n]} = elements_ T (next h, d) 0 n) as He.
    { apply set_eq. intros x. rewrite elem_of_difference, elem_of_singleton, !elem_of_elements. split.
      - intros [(j & Hj & ->) Hne]. exists j. split; [|done]. destruct (decide (j = n)); [congruence|lia].
      - intros (j & Hj & ->). split; [exists j; split; [lia|done]|]. intros ?%element_inj. lia. }
    assert (element T (next h, d) n ∈ elements_ T (next h, d) 0 (S n)) as Hin
      by (apply elem_of_elements; exists n; split; [lia|done]).
    rewrite element_eq in *. rewrite (bind_ok _ _ _ _ _ (destroy_run h size _ cs es _ Hw Hin)), He, IH.
    by rewrite <- app_assoc.
Qed.
End lemmas.

(** ** The calls *)

Section calls.
Context (T : Class_) (Hsize : (0 < csize T)%Z) (h : Heap) (Hwf : wf h) (Hr : refusals h = []).

Lemma said_malloc size e k :
  k = NewLine e (Some (next h, 0%Z)) size →
  (p ← malloc size; print (NewLine e p size);; mret p) h = (Ok (Some (next h, 0%Z)), during h size ∅ (counts h) [k]).
Proof. intros ->. rewrite (bind_ok _ _ _ _ _ (malloc_run _ _ Hr)). apply (f_equal (pair _)), during_logs. Qed.

Lemma said_free size cs es e :
  (print e;; free (Some (next h, 0%Z))) (during h size ∅ cs es) = (Ok tt, after h cs (es ++ [e])).
Proof. rewrite (bind_ok _ _ _ _ _ (printed _ _)), during_logs. by apply free_during. Qed.

Lemma shift_back d : shift (shift (next h, 0%Z) d) (- d) = (next h, 0%Z).
Proof. unfold shift. simpl. f_equal. lia. Qed.

Lemma CallNew_run al scope : Allocates al scope → throws T = false →
  CallNew T al h = (Ok tt, after h (counts h)
    [NewLine (scope +:+ "operator new") (Some (next h, 0%Z)) (csize T); born T; dead T;
     DeleteLine (scope +:+ "operator delete") (Some (next h, 0%Z))]).
Proof.
  intros Hal Ht. unfold CallNew, new_, delete_.
  assert (cleaning (construct T (next h, 0%Z)) (al_delete al (Some (next h, 0%Z)))
    (during h (csize T) ∅ (counts h) [NewLine (scope +:+ "operator new") (Some (next h, 0%Z)) (csize T)]) =
    (Ok tt, during h (csize T) (∅ ∪ {[(next h, 0%Z)]}) (counts h)
      [NewLine (scope +:+ "operator new") (Some (next h, 0%Z)) (csize T); born T])) as Hc
    by (unfold cleaning; rewrite construct_run by (done || lia); done).
  erewrite bind_ok; [|erewrite bind_ok; [|rewrite al_new_run; by apply said_malloc];
    simpl; rewrite (bind_ok _ _ _ _ _ Hc); done].
  erewrite bind_ok; [|apply destroy_run; [done..|set_solver]]. rewrite al_delete_run.
  replace ((∅ ∪ {[(next h, 0%Z)]}) ∖ {[(next h, 0%Z)]} : gset (nat * Z)) with (∅ : gset (nat * Z)) by set_solver.
  by rewrite said_free.
Qed.

Lemma fill_array_run size x n es clean :
  throws T = false → (0 ≤ x)%Z → (x + csize T * Z.of_nat n ≤ size)%Z →
  fill_array T (next h, 0%Z) x n clean (during h size ∅ (counts h) es) =
    (Ok (next h, x), during h size (elements_ T (next h, x) 0 n) (<[(next h, x) := n]> (counts h)) (es ++ replicate n (born T))).
Proof.
  intros Ht Hx Hs. unfold fill_array. erewrite bind_ok; [|apply storage_during; lia].
  change (shift (next h, 0%Z) x) with (next h, (0 + x)%Z). rewrite Z.add_0_l.
  erewrite bind_ok; [|unfold cleaning; rewrite construct_up_run by (done || lia); done].
  by rewrite (left_id_L ∅ (∪)).
Qed.

Lemma CallNewArray_run overhead al scope n : Allocates al scope → throws T = false →
  (0 ≤ overhead)%Z → (csize T * Z.of_nat n + overhead < 2 ^ 64)%Z →
  CallNewArray overhead T al n h = (Ok tt, after h (<[(next h, overhead) := n]> (counts h))
    ([NewLine (scope +:+ "operator new[]") (Some (next h, 0%Z)) (csize T * Z.of_nat n + overhead)] ++
     replicate n (born T) ++ replicate n (dead T) ++
     [DeleteLine (scope +:+ "operator delete[]") (Some (next h, 0%Z))])).
Proof.
  intros Hal Ht Ho Hn. unfold CallNewArray, new_array. rewrite (proj2 (Z.leb_gt _ _) Hn).
  erewrite bind_ok; [|erewrite bind_ok; [|rewrite al_new_array_run; by apply said_malloc]; apply fill_array_run; done || lia].
  unfold delete_array. erewrite bind_ok; [|done]. unfold during at 1. cbn [counts]. rewrite lookup_insert_eq.
  erewrite bind_ok; [|by apply destroy_down_run].
  change (next h, overhead) with (shift (next h, 0%Z) overhead) at 1. rewrite shift_back, al_delete_array_run, said_free.
  by rewrite <- !app_assoc.
Qed.
Lemma placed size pl scope : Places pl scope →
  ∀ k, pl_new pl k (Some (next h, 0%Z)) (during h size ∅ (counts h) []) =
    (Ok (Some (next h, 0%Z)), during h size ∅ (counts h) (noted pl (NewLine (scope +:+ "Placement new") (Some (next h, 0%Z)) k))).
Proof. intros Hp k. by rewrite pl_new_run, during_logs. Qed.

Lemma CallPlacementNew_run pl scope : Places pl scope →
  CallPlacementNew T pl h = (Ok tt, after h (counts h)
    (noted pl (NewLine (scope +:+ "Placement new") (Some (next h, 0%Z)) (csize T)) ++ [born T] ++
     if throws T then noted pl (DeleteLine (scope +:+ "Placement delete") (Some (next h, 0%Z))) ++ [Line "exception"]
     else [dead T])).
Proof.
  intros Hp. unfold CallPlacementNew, place. rewrite (bind_ok _ _ _ _ _ (malloc_run _ _ Hr)).
  erewrite (bind_ok (try_catch _ _)); [by apply free_during|]. unfold try_catch.
  destruct (throws T) eqn:Ht.
  - erewrite bind_throw; [|erewrite bind_ok; [|by apply placed]; apply bind_throw; unfold cleaning;
      rewrite construct_throws by (done || lia); erewrite bind_ok; [|apply pl_delete_run]; done].
    rewrite printed, !during_logs. by rewrite <- !app_assoc.
  - erewrite bind_ok; [|erewrite bind_ok; [|by apply placed]; cbv beta iota; erewrite bind_ok; [done|]; unfold cleaning;
      rewrite construct_run by (done || lia); done].
    rewrite destroy_run by (done || set_solver).
    replace ((∅ ∪ {[(next h, 0%Z)]}) ∖ {[(next h, 0%Z)]} : gset (nat * Z)) with (∅ : gset (nat * Z)) by set_solver.
    by rewrite <- !app_assoc.
Qed.

Lemma construct_beyond size l cs es d :
  (size < d + csize T)%Z → (construct T (next h, d) (during h size l cs es)).1 = Undef.
Proof. intros Hd. unfold construct. unfold mbind, M_bind. by rewrite storage_beyond. Qed.

Lemma construct_up_beyond size l cs es d i n :
  throws T = false → (0 ≤ d)%Z → 0 < n → (size < d + csize T * Z.of_nat (i + n))%Z →
  (construct_up T (next h, d) i n (during h size l cs es)).1 = Undef.
Proof.
  intros Ht Hd. revert i l es. induction n as [|n IH]; intros i l es Hn Hs; [lia|]. simpl.
  unfold cleaning. rewrite element_eq. unfold mbind at 1, M_bind at 1.
  destruct (decide (d + csize T * Z.of_nat i + csize T ≤ size)%Z) as [Hin|Hout].
  - rewrite construct_run by (done || lia || nia). destruct n as [|n]; [nia|].
    apply IH; [lia|]. by rewrite Nat.add_succ_comm.
  - pose proof (construct_beyond size l cs es (d + csize T * Z.of_nat i) ltac:(lia)) as Hc.
    by destruct (construct _ _ _) as [[]]; simplify_eq/=.
Qed.

Lemma fill_array_beyond size x n es clean :
  throws T = false → (0 ≤ x)%Z → (size < x + csize T * Z.of_nat n)%Z →
  (fill_array T (next h, 0%Z) x n clean (during h size ∅ (counts h) es)).1 = Undef.
Proof.
  intros Ht Hx Hs. unfold fill_array. destruct (decide (x ≤ size)%Z) as [Hin|Hout].
  - erewrite bind_ok; [|apply storage_during; lia]. change (shift (next h, 0%Z) x) with (next h, (0 + x)%Z).
    rewrite Z.add_0_l. unfold mbind at 1, M_bind at 1, cleaning at 1.
    pose proof (construct_up_beyond size ∅ (counts h) es x 0 n Ht Hx ltac:(lia) Hs) as Hc.
    by destruct (construct_up _ _ _ _ _) as [[]]; simplify_eq/=.
  - unfold mbind, M_bind. rewrite storage_beyond by lia. done.
Qed.

(** What the loop of CallPlacementNewArray does to the array: it always destroys the first element. *)
Lemma destroy_first size cs es n :
  (for_each (λ _, destroy T (next h, 0%Z)) (seq 0 n) (during h size (elements_ T (next h, 0%Z) 0 n) cs es)) =
    if decide (n ≤ 1) then (Ok tt, during h size ∅ cs (es ++ replicate n (dead T)))
    else (Undef, during h size (elements_ T (next h, 0%Z) 0 n ∖ {[(next h, 0%Z)]}) cs (es ++ [dead T])).
Proof.
  assert (element T (next h, 0%Z) 0 = (next h, 0%Z)) as He by (rewrite element_eq; f_equal; lia).
  destruct n as [|n]; [by rewrite decide_True, app_nil_r by lia|].
  cbn [seq for_each]. erewrite bind_ok; [|apply destroy_run; [done..|apply elem_of_elements; exists 0; split; [lia|done]]].
  destruct n as [|n]; cbn [seq for_each].
  - rewrite decide_True by lia. unfold mret, M_ret, elements_. cbn [seq map list_to_set]. rewrite He.
    do 2 f_equal. set_solver.
  - rewrite decide_False by lia. unfold mbind, M_bind. rewrite destroy_dead by (done || set_solver). done.
Qed.
End calls.

(** ** Theorems *)

(** For a class whose constructor returns, new with delete and new[] with delete[] call the functions of the class,
    construct and destroy every element, and leave the heap as it was: no block and no object more. *)
Theorem new_delete_balanced T al scope overhead n h :
  Allocates al scope → throws T = false → (0 < csize T)%Z → (0 ≤ overhead)%Z →
  (csize T * Z.of_nat n + overhead < 2 ^ 64)%Z → wf h → refusals h = [] →
  CallNew T al h = (Ok tt, after h (counts h)
    [NewLine (scope +:+ "operator new") (Some (next h, 0%Z)) (csize T); born T; dead T;
     DeleteLine (scope +:+ "operator delete") (Some (next h, 0%Z))]) ∧
  CallNewArray overhead T al n h = (Ok tt, after h (<[(next h, overhead) := n]> (counts h))
    ([NewLine (scope +:+ "operator new[]") (Some (next h, 0%Z)) (csize T * Z.of_nat n + overhead)] ++
     replicate n (born T) ++ replicate n (dead T) ++
     [DeleteLine (scope +:+ "operator delete[]") (Some (next h, 0%Z))])).
Proof. intros. split; [by apply CallNew_run|by apply CallNewArray_run]. Qed.

(** An object placed in a buffer is destroyed before the buffer is freed; where its constructor throws, the
    placement delete that belongs to the placement new is called and the exception ends in the handler. *)
Theorem placement_balanced T pl scope h :
  Places pl scope → (0 < csize T)%Z → wf h → refusals h = [] →
  CallPlacementNew T pl h = (Ok tt, after h (counts h)
    (noted pl (NewLine (scope +:+ "Placement new") (Some (next h, 0%Z)) (csize T)) ++ [born T] ++
     if throws T then noted pl (DeleteLine (scope +:+ "Placement delete") (Some (next h, 0%Z))) ++ [Line "exception"]
     else [dead T])).
Proof. intros. by apply CallPlacementNew_run. Qed.

Lemma CallPlacementNewArray_eq overhead T pl scope n h :
  Places pl scope → refusals h = [] → (0 < csize T)%Z → (csize T * Z.of_nat n < 2 ^ 64)%Z →
  let x := if reserved pl then 0%Z else overhead in
  CallPlacementNewArray overhead T pl n h =
    (try_catch (p ← fill_array T (next h, 0%Z) x n (pl_delete_array pl (Some (next h, 0%Z)));
                for_each (λ _, destroy T p) (seq 0 n)) (print (Line "exception"));;
     free (Some (next h, 0%Z)))
      (during h (csize T * Z.of_nat n) ∅ (counts h)
         (noted pl (NewLine (scope +:+ "Placement new[]") (Some (next h, 0%Z)) (csize T * Z.of_nat n + x)))).
Proof.
  intros Hp Hr Hs Hn x. unfold CallPlacementNewArray, u64. rewrite (wrap_small 64) by lia.
  rewrite (bind_ok _ _ _ _ _ (malloc_run _ _ Hr)). unfold place_array. fold x.
  unfold mbind, M_bind, try_catch. by rewrite pl_new_array_run, during_logs.
Qed.

(** CallPlacementNewArray works just for arrays of at most one element, and only where the array fits the buffer, that is
    where nothing is asked for besides the elements.  With more elements it destroys the first one twice; with
    a placement new[] of the class it may write past the buffer. *)
Theorem placement_array_defined overhead T pl scope n h :
  Places pl scope → throws T = false → (0 < csize T)%Z → (0 ≤ overhead)%Z →
  (csize T * Z.of_nat n < 2 ^ 64)%Z → wf h → refusals h = [] →
  let r := CallPlacementNewArray overhead T pl n h in
  if decide (n ≤ 1 ∧ (reserved pl = true ∨ overhead = 0%Z)) then
    r = (Ok tt, after h (<[(next h, 0%Z) := n]> (counts h))
      (noted pl (NewLine (scope +:+ "Placement new[]") (Some (next h, 0%Z)) (csize T * Z.of_nat n)) ++
       replicate n (born T) ++ replicate n (dead T)))
  else r.1 = Undef.
Proof.
  intros Hp Ht Hs Ho Hn Hw Hr. cbv zeta. rewrite (CallPlacementNewArray_eq _ _ _ scope) by done.
  set (x := if reserved pl then 0%Z else overhead).
  assert (x = 0%Z ↔ reserved pl = true ∨ overhead = 0%Z) as Hx by (unfold x; destruct (reserved pl); naive_solver).
  assert (0 ≤ x)%Z as Hx0 by (unfold x; destruct (reserved pl); lia).
  destruct (decide (x = 0%Z)) as [->|Hpos].
  - rewrite Z.add_0_r. unfold try_catch, mbind, M_bind.
    rewrite fill_array_run, destroy_first by (done || lia). destruct (decide (n ≤ 1)) as [Hle|Hgt].
    + rewrite decide_True by tauto. rewrite free_during by done. by rewrite <- !app_assoc.
    + rewrite decide_False by tauto. done.
  - rewrite decide_False by tauto. unfold try_catch, mbind, M_bind.
    pose proof (λ c, fill_array_beyond T Hs h (csize T * Z.of_nat n) x n
      (noted pl (NewLine (scope +:+ "Placement new[]") (Some (next h, 0%Z)) (csize T * Z.of_nat n + x))) c Ht Hx0 ltac:(lia)) as Hf.
    specialize (Hf (pl_delete_array pl (Some (next h, 0%Z)))).
    by destruct (fill_array _ _ _ _ _ _) as [[]]; simplify_eq/=.
Qed.

(** operator new hands on what malloc returned: when that is null, the object is constructed at no address. *)
Theorem refused_new_undefined T al scope l h :
  Allocates al scope → refusals h = true :: l → (CallNew T al h).1 = Undef.
Proof.
  intros Hal Hr. unfold CallNew, new_. unfold mbind, M_bind. rewrite al_new_run.
  unfold mbind, M_bind, malloc. by rewrite Hr.
Qed.

(** Where the loop of CallPlacementNewArray stops. *)
Lemma placement_array_stops overhead T pl scope n h :
  Places pl scope → throws T = false → (0 < csize T)%Z → reserved pl = true → 2 ≤ n →
  (csize T * Z.of_nat n < 2 ^ 64)%Z → wf h → refusals h = [] →
  ∃ h', CallPlacementNewArray overhead T pl n h = (Undef, h') ∧ log h' = log h ++ replicate n (born T) ++ [dead T].
Proof.
  intros Hp Ht Hs Hres Hn Hsz Hw Hr. rewrite (CallPlacementNewArray_eq _ _ _ scope) by done.
  rewrite Hres, Z.add_0_r. unfold noted. rewrite Hres. unfold try_catch, mbind, M_bind.
  rewrite fill_array_run, destroy_first by (done || lia). rewrite decide_False by lia. eauto.
Qed.

(** main is undefined where it destroys an array that it placed in a buffer, whatever a new-expression asks for
    besides the elements; the 25 lines before are those of the calls that work. *)
Theorem main_undefined overhead : (0 ≤ overhead < 2 ^ 63)%Z →
  ∃ h, main overhead empty_heap = (Undef, h) ∧ drop 25 (log h) = [born A; born A; dead A].
Proof.
  intros Ho. assert (wf empty_heap) as Hw by (split; set_solver). unfold main.
  erewrite bind_ok; [|apply CallNew_run; done || apply _].
  erewrite bind_ok; [|apply CallNew_run; done || apply _ || by apply wf_after].
  erewrite bind_ok; [|apply CallNewArray_run; done || apply _ || (by repeat apply wf_after) || (simpl; lia)].
  erewrite bind_ok; [|apply CallNewArray_run; done || apply _ || (by repeat apply wf_after) || (simpl; lia)].
  erewrite bind_ok; [|apply CallPlacementNew_run; done || apply _ || by repeat apply wf_after].
  erewrite bind_ok; [|apply CallPlacementNew_run; done || apply _ || by repeat apply wf_after].
  match goal with |- context [(CallPlacementNewArray overhead A A_place 2 ≫= _) ?s] =>
    destruct (placement_array_stops overhead A A_place EmptyString 2 s) as (h' & Hh & Hl);
      [done || apply _ || (by repeat apply wf_after) || lia..|] end.
  exists h'. split; [unfold mbind, M_bind; by rewrite Hh|]. by rewrite Hl.
Qed.

(** ** Witnesses *)

Lemma empty_wf : wf empty_heap.
Proof. split; set_solver. Qed.

Lemma new_delete_balanced_witness :
  CallNew B B_alloc empty_heap = (Ok tt, after empty_heap ∅
    [NewLine "B::operator new" (Some (0, 0%Z)) 8; born B; dead B; DeleteLine "B::operator delete" (Some (0, 0%Z))]) ∧
  CallNewArray 8 B B_alloc 2 empty_heap = (Ok tt, after empty_heap {[(0, 8%Z) := 2]}
    [NewLine "B::operator new[]" (Some (0, 0%Z)) 24; born B; born B; dead B; dead B;
     DeleteLine "B::operator delete[]" (Some (0, 0%Z))]).
Proof. apply (new_delete_balanced B B_alloc "B::" 8 2 empty_heap); [apply _|done|done|done|done|apply empty_wf|done]. Defined.

Lemma placement_balanced_witness :
  throws C = true ∧ CallPlacementNew C C_place empty_heap = (Ok tt, after empty_heap ∅
    [NewLine "C::Placement new" (Some (0, 0%Z)) 4; born C; DeleteLine "C::Placement delete" (Some (0, 0%Z)); Line "exception"]).
Proof. split; [done|]. apply (placement_balanced C C_place "C::" empty_heap); [apply _|done|apply empty_wf|done]. Defined.

Lemma placement_array_defined_witness :
  (CallPlacementNewArray 8 B B_place 1 empty_heap).1 = Undef ∧ (CallPlacementNewArray 8 A A_place 2 empty_heap).1 = Undef ∧
  CallPlacementNewArray 8 A A_place 1 empty_heap = (Ok tt, after empty_heap {[(0, 0%Z) := 1]} [born A; dead A]).
Proof.
  split; [|split].
  - apply (placement_array_defined 8 B B_place "B::" 1 empty_heap); [apply _|done|done|done|done|apply empty_wf|done].
  - apply (placement_array_defined 8 A A_place EmptyString 2 empty_heap); [apply _|done|done|done|done|apply empty_wf|done].
  - apply (placement_array_defined 8 A A_place EmptyString 1 empty_heap); [apply _|done|done|done|done|apply empty_wf|done].
Defined.
