(* ===== verification/Movies.v ===== *)
(** * The protobuf demos (demos/protobuf_demos/demos/)

    movie/main.cpp and movie2/main.cpp: a list of movies written to a file and read back, as text or in the wire
    format.  The two differ in one field of the message, [rank = 2] and [year = 6] in movie.proto.  The library
    is a parameter ([Protobuf]) with what it documents ([ProtobufLaws]). *)

From S2P Require Import Prelude CppString.

(** ** Messages *)

(** message Movie; [number] is the field that differs. *)
Record Movie := mkMovie {
  title : bytes; number : Z; director : bytes; writers : list bytes; top_cast : list bytes
}.
Abbreviation Movies := (list Movie).

#[global] Instance Movie_eq_dec : EqDecision Movie.
Proof. solve_decision. Defined.

(** The two versions of movie.proto. *)
Inductive schema := Rank | Year.

#[global] Instance schema_eq_dec : EqDecision schema.
Proof. solve_decision. Defined.

(** TextFormat::Print and Parse, SerializeToOstream and ParseFromIstream, PrintDebugString, for the classes
    generated from a schema. *)
Class Protobuf := {
  text_print : schema → Movies → bytes;
  text_parse : schema → bytes → option Movies;
  serialize : schema → Movies → bytes;
  parse : schema → bytes → option Movies;
  debug_string : schema → Movies → bytes
}.

(** What a program that does not know [number] sees of a message: the default value. *)
Definition forget (m : Movie) : Movie := mkMovie (title m) 0 (director m) (writers m) (top_cast m).

(** What the library can encode: a 32-bit number, and strings in UTF-8, here ASCII. *)
Definition ascii7 (s : bytes) : bool := forallb (λ c, nat_of_ascii c <? 128) s.
Definition encodable (m : Movie) : bool :=
  in_i32 (number m) && forallb ascii7 (title m :: director m :: writers m ++ top_cast m).

(** A message is read back.  In the wire format a field of another number is skipped; in text a field of another
    name is an error (a field with the default value is not written). *)
Class ProtobufLaws `{Protobuf} : Prop := {
  text_parse_print s ms : forallb encodable ms = true → text_parse s (text_print s ms) = Some ms;
  parse_serialize s ms : forallb encodable ms = true → parse s (serialize s ms) = Some ms;
  parse_other s s' ms : forallb encodable ms = true → s ≠ s' → parse s' (serialize s ms) = Some (map forget ms);
  text_parse_other s s' ms : forallb encodable ms = true → s ≠ s' → Exists (λ m, number m ≠ 0%Z) ms →
    text_parse s' (text_print s ms) = None
}.

(** ** The system *)

(** The files and what was printed. *)
Record World := mkWorld { files : gmap bytes bytes; stdout : bytes }.

Definition cout (s : bytes) : M World unit := modify (λ w, mkWorld (files w) (stdout w ++ s)).
Definition endl : bytes := [chr 10].
Definition store (path content : bytes) : M World unit := modify (λ w, mkWorld (<[path := content]> (files w)) (stdout w)).

(** ** The programs *)

Definition movie_gen_movies_msg : Movies := [
  mkMovie (str "The Shawshank Redemption") 1 (str "Frank Darabont") [str "Stephen King"]
    [str "Tim Robbins"; str "Morgan Freeman"; str "Bob Gunton"];
  mkMovie (str "The Godfather") 2 (str "Francis Ford Coppola") [str "Mario Puzo"; str "Francis Ford Coppola"]
    [str "Marlon Brando"; str "Al Pacino"; str "James Caan"];
  mkMovie (str "The Dark Knight") 3 (str "Christopher Nolan")
    [str "Jonathan Nolan"; str "Christopher Nolan"; str "David S. Goyer"]
    [str "Christian Bale"; str "Heath Ledger"; str "Aaron Eckhart"]].

Definition movie2_gen_movies_msg : Movies := [
  mkMovie (str "The Shawshank Redemption") 1994 (str "Frank Darabont") [str "Stephen King"]
    [str "Tim Robbins"; str "Morgan Freeman"; str "Bob Gunton"];
  mkMovie (str "The Godfather") 1972 (str "Francis Ford Coppola") [str "Mario Puzo"; str "Francis Ford Coppola"]
    [str "Marlon Brando"; str "Al Pacino"; str "James Caan"];
  mkMovie (str "The Dark Knight") 2008 (str "Christopher Nolan")
    [str "Jonathan Nolan"; str "Christopher Nolan"; str "David S. Goyer"]
    [str "Christian Bale"; str "Heath Ledger"; str "Aaron Eckhart"]].

Section programs.
Context `{Protobuf}.

(** Which paths can be opened to be written or read; [broken]: where writing fails in a way that is noticed, with what
    the file then holds. *)
Context (can_write can_read : bytes → bool) (broken : bytes → option bytes).

(** open(path, O_RDONLY) and fstream(path, in) find the content of a file. *)
Definition open_read (path : bytes) : M World (option bytes) := λ w,
  (Ok (if can_read path then files w !! path else None), w).

(** A stream that is written and closed; the result is what the library's call returns. *)
Definition write_stream (path content : bytes) : M World bool :=
  match broken path with
  | Some rest => store path rest;; mret false
  | None => store path content;; mret true
  end.

Definition write_to_text_file (s : schema) (file_path : bytes) (msg : Movies) : M World bool :=
  if can_write file_path then write_stream file_path (text_print s msg)
  else cout (str "unable to open file " ++ file_path ++ str " to write");; mret false.

Definition read_from_text_file (s : schema) (file_path : bytes) : M World (option Movies) :=
  fd ← open_read file_path;
  match fd with
  | None => cout (str "failed to open file " ++ file_path);; mret None
  | Some content =>
      match text_parse s content with
      | None => cout (str "failed to parse file " ++ file_path ++ str " as text proto");; mret None
      | Some msg => mret (Some msg)
      end
  end.

(** A stream that could not be opened refuses the message. *)
Definition write_to_bin_file (s : schema) (file_path : bytes) (msg : Movies) : M World bool :=
  if can_write file_path then write_stream file_path (serialize s msg) else mret false.

Definition read_from_bin_file (s : schema) (file_path : bytes) : M World (option Movies) :=
  input ← open_read file_path;
  match input with
  | None => cout (str "failed to open file " ++ file_path);; mret None
  | Some content =>
      match parse s content with
      | None => cout (str "failed to parse file " ++ file_path);; mret None
      | Some msg => mret (Some msg)
      end
  end.

(** The lines for a movie; [label] is "rank: " or "year: ". *)
Definition movie_lines (label : string) (m : Movie) : list bytes :=
  [str "title: " ++ title m; str label ++ to_string (number m); str "director: " ++ director m] ++
  map (λ w, str "writer: " ++ w) (writers m) ++ map (λ c, str "top_cast: " ++ c) (top_cast m).

Definition print (label : string) (msg : Movies) : M World unit :=
  for_each (λ m, for_each (λ l, cout (l ++ endl)) (movie_lines label m)) msg.

Definition code (b : bool) : Z := if b then 0 else 1.

(** [args] are argv[1] and on. *)
Definition main (s : schema) (label : string) (gen : Movies) (args : list bytes) : M World Z :=
  match args with
  | [] => cout (str "no command" ++ endl);; mret 1%Z
  | [_] => cout (str "no file" ++ endl);; mret 1%Z
  | command :: file_path :: _ =>
      if decide (command = str "write_text") then b ← write_to_text_file s file_path gen; mret (code b)
      else if decide (command = str "read_text") then
        r ← read_from_text_file s file_path;
        match r with Some msg => cout (debug_string s msg);; mret 0%Z | None => mret 1%Z end
      else if decide (command = str "write_bin") then b ← write_to_bin_file s file_path gen; mret (code b)
      else if decide (command = str "read_bin") then
        r ← read_from_bin_file s file_path;
        match r with Some msg => cout (debug_string s msg);; print label msg;; mret 0%Z | None => mret 1%Z end
      else mret 1%Z
  end.

Definition movie_main : list bytes → M World Z := main Rank "rank: " movie_gen_movies_msg.
Definition movie2_main : list bytes → M World Z := main Year "year: " movie2_gen_movies_msg.

(** ** Lemmas *)

Definition text_of (label : string) (msg : Movies) : bytes :=
  concat (map (λ l, l ++ endl) (concat (map (movie_lines label) msg))).

Lemma cout_lines ls w :
  for_each (λ l, cout (l ++ endl)) ls w = (Ok tt, mkWorld (files w) (stdout w ++ concat (map (λ l, l ++ endl) ls))).
Proof.
  revert w. induction ls as [|l ls IH]; intros w; [by destruct w; simpl; rewrite app_nil_r|].
  cbn [for_each]. erewrite bind_ok; [|done]. rewrite IH. simpl. by rewrite <- !app_assoc.
Qed.

Lemma print_lines label msg w : print label msg w = (Ok tt, mkWorld (files w) (stdout w ++ text_of label msg)).
Proof.
  unfold print, text_of. revert w. induction msg as [|m msg IH]; intros w; [by destruct w; simpl; rewrite app_nil_r|].
  cbn [for_each]. rewrite (bind_ok _ _ _ _ _ (cout_lines _ _)), IH.
  cbn [map concat files stdout]. by rewrite map_app, concat_app, <- !app_assoc.
Qed.

Lemma write_text_run s label gen path w : can_write path = true → broken path = None →
  main s label gen [str "write_text"; path] w = (Ok 0%Z, mkWorld (<[path := text_print s gen]> (files w)) (stdout w)).
Proof.
  intros Hw Hb. unfold main, write_to_text_file. rewrite decide_True by done. rewrite Hw.
  unfold write_stream. rewrite Hb. done.
Qed.

Lemma write_bin_run s label gen path w : can_write path = true → broken path = None →
  main s label gen [str "write_bin"; path] w = (Ok 0%Z, mkWorld (<[path := serialize s gen]> (files w)) (stdout w)).
Proof.
  intros Hw Hb. unfold main, write_to_bin_file. rewrite !decide_False by done. rewrite decide_True by done.
  rewrite Hw. unfold write_stream. rewrite Hb. done.
Qed.

Lemma read_text_run s label gen path content w : can_read path = true → files w !! path = Some content →
  main s label gen [str "read_text"; path] w =
    match text_parse s content with
    | Some msg => (Ok 0%Z, mkWorld (files w) (stdout w ++ debug_string s msg))
    | None => (Ok 1%Z, mkWorld (files w) (stdout w ++ str "failed to parse file " ++ path ++ str " as text proto"))
    end.
Proof.
  intros Hr Hf. unfold main, read_from_text_file, open_read. rewrite decide_False, decide_True by done.
  unfold mbind, M_bind. rewrite Hr, Hf. by destruct (text_parse s content).
Qed.

Lemma read_bin_run s label gen path content w : can_read path = true → files w !! path = Some content →
  main s label gen [str "read_bin"; path] w =
    match parse s content with
    | Some msg => (Ok 0%Z, mkWorld (files w) (stdout w ++ debug_string s msg ++ text_of label msg))
    | None => (Ok 1%Z, mkWorld (files w) (stdout w ++ str "failed to parse file " ++ path))
    end.
Proof.
  intros Hr Hf. unfold main, read_from_bin_file, open_read. rewrite !decide_False, decide_True by done.
  unfold mbind, M_bind. rewrite Hr, Hf. destruct (parse s content) as [msg|]; [|done].
  unfold cout, modify, mret, M_ret. rewrite print_lines. cbn [files stdout]. by rewrite <- app_assoc.
Qed.

(** ** Theorems *)

Context {Hlaws : ProtobufLaws}.

Lemma movie_encodable : forallb encodable movie_gen_movies_msg = true.
Proof. vm_compute. reflexivity. Qed.

Lemma movie2_encodable : forallb encodable movie2_gen_movies_msg = true.
Proof. vm_compute. reflexivity. Qed.

(** What a program shows of a file that holds its own message: as text, and from the wire format. *)
Lemma own_text s label gen path w : forallb encodable gen = true →
  can_write path = true → can_read path = true → broken path = None →
  ∃ w1, main s label gen [str "write_text"; path] w = (Ok 0%Z, w1) ∧
    main s label gen [str "read_text"; path] w1 = (Ok 0%Z, mkWorld (files w1) (stdout w ++ debug_string s gen)).
Proof.
  intros He Hw Hr Hb. eexists. split; [by apply write_text_run|].
  rewrite (read_text_run _ _ _ _ (text_print s gen)) by (done || apply lookup_insert_eq).
  by rewrite text_parse_print.
Qed.

Lemma own_bin s label gen path w : forallb encodable gen = true →
  can_write path = true → can_read path = true → broken path = None →
  ∃ w1, main s label gen [str "write_bin"; path] w = (Ok 0%Z, w1) ∧
    main s label gen [str "read_bin"; path] w1 =
      (Ok 0%Z, mkWorld (files w1) (stdout w ++ debug_string s gen ++ text_of label gen)).
Proof.
  intros He Hw Hr Hb. eexists. split; [by apply write_bin_run|].
  rewrite (read_bin_run _ _ _ _ (serialize s gen)) by (done || apply lookup_insert_eq).
  by rewrite parse_serialize.
Qed.

(** What movie and movie2 write to a file they read back and show, in text and in the wire format, and end with 0. *)
Theorem movies_roundtrip path w :
  can_write path = true → can_read path = true → broken path = None →
  (∃ w1, movie_main [str "write_text"; path] w = (Ok 0%Z, w1) ∧ movie_main [str "read_text"; path] w1 =
     (Ok 0%Z, mkWorld (files w1) (stdout w ++ debug_string Rank movie_gen_movies_msg))) ∧
  (∃ w1, movie_main [str "write_bin"; path] w = (Ok 0%Z, w1) ∧ movie_main [str "read_bin"; path] w1 =
     (Ok 0%Z, mkWorld (files w1) (stdout w ++ debug_string Rank movie_gen_movies_msg ++ text_of "rank: " movie_gen_movies_msg))) ∧
  (∃ w1, movie2_main [str "write_text"; path] w = (Ok 0%Z, w1) ∧ movie2_main [str "read_text"; path] w1 =
     (Ok 0%Z, mkWorld (files w1) (stdout w ++ debug_string Year movie2_gen_movies_msg))) ∧
  (∃ w1, movie2_main [str "write_bin"; path] w = (Ok 0%Z, w1) ∧ movie2_main [str "read_bin"; path] w1 =
     (Ok 0%Z, mkWorld (files w1) (stdout w ++ debug_string Year movie2_gen_movies_msg ++ text_of "year: " movie2_gen_movies_msg))).
Proof.
  intros Hw Hr Hb.
  repeat split; first [apply own_text | apply own_bin]; first [apply movie_encodable | apply movie2_encodable | done].
Qed.

(** A file of movie read by movie2: from the wire format the movies are shown with the year 0, and end with 0; as text the
    file is refused with 1. *)
Theorem movie2_reads_movie path w :
  can_write path = true → can_read path = true → broken path = None →
  (∃ w1 w2, movie_main [str "write_bin"; path] w = (Ok 0%Z, w1) ∧ movie2_main [str "read_bin"; path] w1 = (Ok 0%Z, w2) ∧
     stdout w2 = stdout w ++ debug_string Year (map forget movie_gen_movies_msg) ++ text_of "year: " (map forget movie_gen_movies_msg)) ∧
  (∃ w1 w2, movie_main [str "write_text"; path] w = (Ok 0%Z, w1) ∧ movie2_main [str "read_text"; path] w1 = (Ok 1%Z, w2) ∧
     stdout w2 = stdout w ++ str "failed to parse file " ++ path ++ str " as text proto").
Proof.
  intros Hw Hr Hb. split.
  - eexists _, _. split; [by apply write_bin_run|].
    unfold movie2_main. rewrite (read_bin_run _ _ _ _ (serialize Rank movie_gen_movies_msg)) by (done || apply lookup_insert_eq).
    rewrite (parse_other Rank Year) by (done || apply movie_encodable). by split.
  - eexists _, _. split; [by apply write_text_run|].
    unfold movie2_main. rewrite (read_text_run _ _ _ _ (text_print Rank movie_gen_movies_msg)) by (done || apply lookup_insert_eq).
    rewrite (text_parse_other Rank Year); [by split|apply movie_encodable|done|]. left. done.
Qed.
End programs.

(** ** Witnesses *)

(** A library that satisfies the laws: a message is written as the digits of its number among all messages. *)
Definition fields (m : Movie) := (title m, number m, director m, writers m, top_cast m).
Definition of_fields (t : bytes * Z * bytes * list bytes * list bytes) : Movie :=
  let '(a, b, c, d, e) := t in mkMovie a b c d e.

#[local] Instance Movie_countable : Countable Movie.
Proof. refine (inj_countable' fields of_fields _). by intros []. Defined.

Definition is_rank (s : schema) : bool := match s with Rank => true | Year => false end.

Fixpoint digits (p : positive) : bytes :=
  match p with xH => [] | xO p => "0"%char :: digits p | xI p => "1"%char :: digits p end.
Fixpoint undigits (l : bytes) : positive :=
  match l with [] => xH | c :: l => if Ascii.eqb c "1"%char then xI (undigits l) else xO (undigits l) end.

Lemma undigits_digits p : undigits (digits p) = p.
Proof. induction p; simpl; congruence. Qed.

Definition ref_write (s : schema) (ms : Movies) : bytes := digits (encode (is_rank s, ms)).
Definition ref_read (b : bytes) : option (bool * Movies) := decode (undigits b).

Lemma ref_read_write s ms : ref_read (ref_write s ms) = Some (is_rank s, ms).
Proof. unfold ref_read, ref_write. by rewrite undigits_digits, decode_encode. Qed.

#[local] Instance ref_protobuf : Protobuf := {
  text_print := ref_write;
  text_parse s b :=
    r ← ref_read b;
    if decide (r.1 = is_rank s ∨ Forall (λ m, number m = 0%Z) r.2) then Some r.2 else None;
  serialize := ref_write;
  parse s b := r ← ref_read b; Some (if decide (r.1 = is_rank s) then r.2 else map forget r.2);
  debug_string s ms := ref_write s ms
}.

#[local] Instance ref_protobuf_laws : ProtobufLaws.
Proof.
  split; simpl; intros *; rewrite ref_read_write; simpl.
  - by rewrite decide_True by auto.
  - by rewrite decide_True by done.
  - intros _ Hs. rewrite decide_False; [done|]. by destruct s, s'.
  - intros _ Hs Hex. rewrite decide_False; [done|]. intros [Heq|Hall]; [by destruct s, s'|].
    apply Exists_exists in Hex as (m & Hm & Hn). rewrite Forall_forall in Hall. auto.
Qed.

Definition can_open : bytes → bool := λ _, true.
Definition never_broken : bytes → option bytes := λ _, None.

Lemma movies_roundtrip_witness :
  ∃ w1, movie_main can_open can_open never_broken [str "write_bin"; str "m.bin"] (mkWorld ∅ []) = (Ok 0%Z, w1) ∧
    movie_main can_open can_open never_broken [str "read_bin"; str "m.bin"] w1 =
      (Ok 0%Z, mkWorld (files w1) ([] ++ debug_string Rank movie_gen_movies_msg ++ text_of "rank: " movie_gen_movies_msg)).
Proof.
  destruct (movies_roundtrip can_open can_open never_broken (str "m.bin") (mkWorld ∅ []) eq_refl eq_refl eq_refl) as (_ & Hb & _).
  exact Hb.
Defined.

Lemma movie2_reads_movie_witness :
  ∃ w1 w2, movie_main can_open can_open never_broken [str "write_text"; str "m.txt"] (mkWorld ∅ []) = (Ok 0%Z, w1) ∧
    movie2_main can_open can_open never_broken [str "read_text"; str "m.txt"] w1 = (Ok 1%Z, w2) ∧
    stdout w2 = [] ++ str "failed to parse file " ++ str "m.txt" ++ str " as text proto".
Proof.
  destruct (movie2_reads_movie can_open can_open never_broken (str "m.txt") (mkWorld ∅ []) eq_refl eq_refl eq_refl) as [_ Ht].
  exact Ht.
Defined.
