(* ===== verification/AsyncServer.v ===== *)
(** * The life of the asynchronous gRPC server (learn_grpc/hello_world/src/server/async)

    [AsyncServer::start] and [stop] of async_server.cpp with the threads of ServerProactor (startDemuxer,
    waitForComplete, shutdown in server_proactor.cpp) and the signal handler of server/main.cpp.  What a handler
    does with an event is GrpcServer.v; here an event counts for the operations it leaves with gRPC, so that
    starting and stopping can be followed thread by thread.

    What gRPC does is taken from its documentation: Wait returns after Shutdown; Shutdown waits for the calls in
    progress; requests that wait for a call then fail; a queue that was shut down and is empty says so; nothing
    may be given to a queue that was shut down. *)

From S2P Require Import Prelude.

(** ** The threads *)

(** Where [AsyncServer::start] is; [StNull]: it called Wait on no server. *)
Inductive start_pc := StQueues | StBuild | StDemux | StWait | StJoin | StReturned | StNull.

(** Where a thread of the pool is: it constructs [k] more handlers, each of which tests [stopped] before it asks for a
    call; it polls; it handles the end of a request, [ok] when a call came. *)
Inductive worker_pc :=
  | WkStart (k : nat) | WkTested (k : nat)
  | WkPoll
  | WkRecv (ok : bool) | WkRecvTested (ok : bool) | WkRecvDone (ok : bool)
  | WkLeft.

(** Where [AsyncServer::stop] is. *)
Inductive stop_pc := SpStop | SpTest | SpDrain | SpQueues | SpEnd.

#[global] Instance start_pc_eq_dec : EqDecision start_pc.
Proof. solve_decision. Defined.
#[global] Instance worker_pc_eq_dec : EqDecision worker_pc.
Proof. solve_decision. Defined.
#[global] Instance stop_pc_eq_dec : EqDecision stop_pc.
Proof. solve_decision. Defined.

(** A thread of the pool with what it has given to its queue: requests that wait for a call, operations of calls. *)
Record Worker := mkWorker { wpc : worker_pc; requests : nat; calls : nat }.

(** What gRPC forbids: an operation, the request for a call or one of a call, for a queue that was shut down, or for a
    service without a server. *)
Inductive operation := RequestCall | CallOperation.
Inductive misuse := ToShutQueue (op : operation) (queue : nat) | WithoutServer (op : operation).

(** [grpcServer]: the server, and whether it was shut down; [down]: how many queues were shut down; [bad]: what was done
    that gRPC forbids. *)
Record Async := mkAsync {
  grpcServer : option bool; ncqs : nat; down : nat; stopped : bool;
  starter : start_pc; pool : list Worker; stoppers : list stop_pc; bad : option misuse
}.

Definition set_grpcServer x s := mkAsync x (ncqs s) (down s) (stopped s) (starter s) (pool s) (stoppers s) (bad s).
Definition set_ncqs x s := mkAsync (grpcServer s) x (down s) (stopped s) (starter s) (pool s) (stoppers s) (bad s).
Definition set_down x s := mkAsync (grpcServer s) (ncqs s) x (stopped s) (starter s) (pool s) (stoppers s) (bad s).
Definition set_stopped x s := mkAsync (grpcServer s) (ncqs s) (down s) x (starter s) (pool s) (stoppers s) (bad s).
Definition set_starter x s := mkAsync (grpcServer s) (ncqs s) (down s) (stopped s) x (pool s) (stoppers s) (bad s).
Definition set_pool x s := mkAsync (grpcServer s) (ncqs s) (down s) (stopped s) (starter s) x (stoppers s) (bad s).
Definition set_stoppers x s := mkAsync (grpcServer s) (ncqs s) (down s) (stopped s) (starter s) (pool s) x (bad s).
Definition set_bad x s := mkAsync (grpcServer s) (ncqs s) (down s) (stopped s) (starter s) (pool s) (stoppers s) (Some x).

Definition AsyncServer_AsyncServer : Async := mkAsync None 0 0 false StQueues [] [] None.

(** The handlers that demultiplex constructs first. *)
Definition first_handlers : nat := 8.

Definition busy (w : Worker) : nat :=
  match wpc w with WkRecv _ | WkRecvTested _ | WkRecvDone _ => 1 | _ => 0 end.
(** The handlers a thread has registered, and the calls in progress among them. *)
Definition registered (w : Worker) : nat := requests w + calls w + busy w.
Definition live (w : Worker) : nat :=
  calls w + match wpc w with WkRecv true | WkRecvTested true | WkRecvDone true => 1 | _ => 0 end.
Definition has_left (w : Worker) : bool := bool_decide (wpc w = WkLeft).

Section server.
(** The size of the pool, and whether BuildAndStart gives a server. *)
Context (threadPoolSize : nat) (built : bool).

(** ** The operations, a step at a time *)

Definition addCompletionQueue (s : Async) : Async := set_ncqs (S (ncqs s)) s.

(** A turn of the loop of startDemuxer: one more thread runs demultiplex. *)
Definition post_demultiplex (s : Async) : Async := set_pool (pool s ++ [mkWorker (WkStart first_handlers) 0 0]) s.

(** Whether [threadPool.join()] returns. *)
Definition waitForComplete (s : Async) : bool := forallb has_left (pool s).

Definition ServerProactor_shutdown (s : Async) : Async := set_down (Nat.max (down s) (ncqs s)) s.

Definition AsyncServer_start (s : Async) : option Async :=
  match starter s with
  | StQueues => if ncqs s <? threadPoolSize then Some (addCompletionQueue s) else Some (set_starter StBuild s)
  | StBuild => Some (set_starter StDemux (set_grpcServer (if built then Some false else None) s))
  | StDemux => if length (pool s) <? threadPoolSize then Some (post_demultiplex s) else Some (set_starter StWait s)
  | StWait =>
      match grpcServer s with
      | None => Some (set_starter StNull s)
      | Some true => Some (set_starter StJoin s)
      | Some false => None
      end
  | StJoin => if waitForComplete s then Some (set_starter StReturned s) else None
  | StReturned | StNull => None
  end.

Definition put_worker (i : nat) (w : Worker) (s : Async) : Async := set_pool (<[i := w]> (pool s)) s.

(** Whether gRPC takes an operation for queue [i]. *)
Definition takes (i : nat) (s : Async) : bool :=
  negb (i <? down s) && match grpcServer s with Some _ => true | None => false end.

(** The state after an operation that it does not take. *)
Definition refuse (op : operation) (i : nat) (s : Async) : Async :=
  set_bad (if i <? down s then ToShutQueue op i else WithoutServer op) s.

(** What the thread of queue [i] can do: register handlers, and take what AsyncNext gives - a request that ended, an
    operation of a call (after which the call has ended; one that is followed by another changes nothing here),
    a time-out when no handler is left anywhere, the end of the queue. *)
Definition demultiplex_steps (i : nat) (w : Worker) (s : Async) : list Async :=
  let go w := put_worker i w s in
  match wpc w with
  | WkStart 0 => [go (mkWorker WkPoll (requests w) (calls w))]
  | WkStart (S k) => [go (mkWorker (if stopped s then WkStart k else WkTested k) (requests w) (calls w))]
  | WkTested k => [if takes i s then go (mkWorker (WkStart k) (S (requests w)) (calls w)) else refuse RequestCall i s]
  | WkPoll =>
      match requests w, grpcServer s with
      | S r, Some b => [go (mkWorker (WkRecv (negb b)) r (calls w))]
      | _, _ => []
      end ++
      match calls w with S c => [go (mkWorker WkPoll (requests w) c)] | 0 => [] end ++
      (if sum_list_with registered (pool s) =? 0 then [go (mkWorker WkLeft (requests w) (calls w))] else []) ++
      (if (i <? down s) && (requests w =? 0) && (calls w =? 0) then [go (mkWorker WkLeft 0 0)] else [])
  | WkRecv ok => [go (mkWorker (if stopped s then WkRecvDone ok else WkRecvTested ok) (requests w) (calls w))]
  | WkRecvTested ok =>
      [if takes i s then go (mkWorker (WkRecvDone ok) (S (requests w)) (calls w)) else refuse RequestCall i s]
  | WkRecvDone true => [if takes i s then go (mkWorker WkPoll (requests w) (S (calls w))) else refuse CallOperation i s]
  | WkRecvDone false => [go (mkWorker WkPoll (requests w) (calls w))]
  | WkLeft => []
  end.

Definition put_stopper (j : nat) (p : stop_pc) (s : Async) : Async := set_stoppers (<[j := p]> (stoppers s)) s.

Definition AsyncServer_stop (j : nat) (p : stop_pc) (s : Async) : option Async :=
  match p with
  | SpStop => Some (put_stopper j SpTest (set_stopped true s))
  | SpTest =>
      match grpcServer s with
      | None => Some (put_stopper j SpQueues s)
      | Some _ => Some (put_stopper j SpDrain (set_grpcServer (Some true) s))
      end
  | SpDrain => if sum_list_with live (pool s) =? 0 then Some (put_stopper j SpQueues s) else None
  | SpQueues => Some (put_stopper j SpEnd (ServerProactor_shutdown s))
  | SpEnd => None
  end.

(** A signal starts a thread that stops the server. *)
Definition SIGINT : Z := 2.
Definition SIGTERM : Z := 15.
Definition HandleSignal (signum : Z) (s : Async) : Async :=
  if (signum =? SIGINT)%Z || (signum =? SIGTERM)%Z then set_stoppers (stoppers s ++ [SpStop]) s else s.

Inductive async_step (s : Async) : Async → Prop :=
  | as_start s' : bad s = None → AsyncServer_start s = Some s' → async_step s s'
  | as_worker i w s' : bad s = None → pool s !! i = Some w → s' ∈ demultiplex_steps i w s → async_step s s'
  | as_stop j p s' : bad s = None → stoppers s !! j = Some p → AsyncServer_stop j p s = Some s' → async_step s s'.

Inductive async_any (s : Async) : Async → Prop :=
  | aa_step s' : async_step s s' → async_any s s'
  | aa_signal signum : async_any s (HandleSignal signum s).

Definition async_reachable : Async → Prop := rtc async_any AsyncServer_AsyncServer.

(** ** The invariant *)

(** A thread that has left has nothing with its queue. *)
Definition left_nothing (w : Worker) : Prop := wpc w = WkLeft → requests w = 0 ∧ calls w = 0.

(** Before [stop], all requests of a thread wait, but for the one it handles. *)
Definition armed (w : Worker) : Prop :=
  match wpc w with
  | WkStart k => requests w + k = first_handlers
  | WkTested k => requests w + S k = first_handlers
  | WkPoll | WkRecvDone _ => requests w = first_handlers
  | WkRecv _ | WkRecvTested _ => S (requests w) = first_handlers
  | WkLeft => False
  end.

Record async_inv (s : Async) : Prop := {
  ai_left : Forall left_nothing (pool s);
  ai_armed : stopped s = false → Forall armed (pool s) ∧ down s = 0 ∧ Forall (eq SpStop) (stoppers s);
  ai_built : grpcServer s ≠ None → starter s ≠ StQueues ∧ starter s ≠ StBuild;
  ai_up : starter s = StJoin ∨ starter s = StReturned → grpcServer s = Some true;
  ai_done : starter s = StReturned → Forall (λ w, wpc w = WkLeft) (pool s);
  ai_null : starter s = StNull → grpcServer s = None;
  ai_pool : length (pool s) ≤ threadPoolSize;
  ai_queues : starter s ≠ StQueues → threadPoolSize ≤ ncqs s;
  ai_down : grpcServer s = Some true →
    (∃ j p, stoppers s !! j = Some p ∧ (p = SpDrain ∨ p = SpQueues)) ∨ ncqs s ≤ down s
}.

(** ** Lemmas *)

Lemma async_init_inv : async_inv AsyncServer_AsyncServer.
Proof. split; simpl; try done; intuition (lia || congruence). Qed.

Lemma signal_inv signum s : async_inv s → async_inv (HandleSignal signum s).
Proof.
  intros [Hl Ha Hb Hu Hd Hnull Hp Hq Hdn]. unfold HandleSignal. destruct (_ || _); [|by split]. split; simpl; try done.
  - intros Hst. destruct (Ha Hst) as (? & ? & ?). split_and!; auto. apply Forall_app; auto.
  - intros Hg. destruct (Hdn Hg) as [(j & p & Hj & Hc)|]; [left|by right]. exists j, p. split; [|done].
    by apply lookup_app_l_Some.
Qed.

Lemma async_start_inv s s' : async_inv s → AsyncServer_start s = Some s' → async_inv s'.
Proof.
  intros [Hl Ha Hb Hu Hd Hnull Hp Hq Hdn]. unfold AsyncServer_start. intros Hs.
  repeat case_match; simplify_eq/=; split; simpl; try done; try intuition congruence.
  - intros _. match goal with H : (_ <? _) = false |- _ => apply Nat.ltb_ge in H; lia end.
  - apply Forall_app. split; [done|]. by repeat constructor.
  - intros Hst. destruct (Ha Hst) as (? & ? & ?). split_and!; try done. apply Forall_app. split; [done|]. by repeat constructor.
  - rewrite length_app. simpl. match goal with H : (_ <? _) = true |- _ => apply Nat.ltb_lt in H; lia end.
  - intros _. apply Forall_forall. intros w Hw%list_elem_of_In.
    match goal with H : waitForComplete _ = true |- _ => unfold waitForComplete in H; rewrite forallb_forall in H; specialize (H w Hw) as Hleft end.
    by apply bool_decide_eq_true in Hleft.
Qed.

Lemma registered_le i w s : pool s !! i = Some w → registered w ≤ sum_list_with registered (pool s).
Proof. apply sum_list_with_ge. Qed.

(** A thread's step changes its own entry, unless gRPC refuses the operation. *)
Lemma worker_step_cases i w s s' :
  pool s !! i = Some w → s' ∈ demultiplex_steps i w s → left_nothing w →
  wpc w ≠ WkLeft ∧
  ((∃ x, s' = set_bad x s) ∨
   ∃ w', s' = put_worker i w' s ∧ left_nothing w' ∧ (stopped s = false → down s = 0 → armed w → armed w')).
Proof.
  intros Hi Hs Hl. unfold demultiplex_steps in Hs. pose proof (registered_le _ _ _ Hi) as Hreg.
  split; [intros Hw; rewrite Hw in Hs; by apply elem_of_nil in Hs|].
  destruct (wpc w) as [[|k]|k| |ok|ok|[]|] eqn:Hw; cbv zeta in Hs.
  4: { rewrite !elem_of_app in Hs. destruct Hs as [Hs|[Hs|[Hs|Hs]]].
    - destruct (requests w) as [|r] eqn:Hq, (grpcServer s); try by apply elem_of_nil in Hs.
      apply list_elem_of_singleton in Hs as ->. right. eexists. split; [reflexivity|]. split; [done|].
      unfold armed. rewrite Hw. simpl. intros. lia.
    - destruct (calls w) as [|c]; [by apply elem_of_nil in Hs|].
      apply list_elem_of_singleton in Hs as ->. right. eexists. split; [reflexivity|]. split; [done|].
      unfold armed. rewrite Hw. simpl. by intros.
    - destruct (Nat.eqb_spec (sum_list_with registered (pool s)) 0) as [Hz|]; [|by apply elem_of_nil in Hs].
      apply list_elem_of_singleton in Hs as ->. right. eexists. split; [reflexivity|].
      rewrite Hz in Hreg. unfold registered in Hreg.
      split; [intros _; simpl; lia|]. unfold armed. rewrite Hw. simpl. unfold first_handlers. intros. lia.
    - destruct (Nat.ltb_spec i (down s)) as [Hlt|]; [|by apply elem_of_nil in Hs]. simpl in Hs.
      case_match; [|by apply elem_of_nil in Hs].
      apply list_elem_of_singleton in Hs as ->. right. eexists. split; [reflexivity|]. split; [done|]. intros. lia. }
  all: try (by apply elem_of_nil in Hs); apply list_elem_of_singleton in Hs as ->.
  all: repeat case_match; try (left; by eexists); right; eexists; (split; [reflexivity|]);
    unfold left_nothing, armed in *; simpl; rewrite ?Hw in *; (split; [done|]); intros; try lia; congruence.
Qed.

Lemma worker_inv i w s s' : async_inv s → pool s !! i = Some w → s' ∈ demultiplex_steps i w s → async_inv s'.
Proof.
  intros [Hl Ha Hb Hu Hd Hnull Hp Hq Hdn] Hi Hs.
  destruct (worker_step_cases i w s s' Hi Hs) as [Hw [[x ->]|(w' & -> & Hw' & Harm)]]; [by eapply Forall_lookup_1| |].
  - by split.
  - split; simpl; try done.
    + by apply Forall_insert.
    + intros Hst. destruct (Ha Hst) as (Hall & Hdown & Hsp). split_and!; try done.
      apply Forall_insert; [done|]. apply Harm; [done..|]. by eapply Forall_lookup_1.
    + intros Hret. destruct Hw. by apply (Forall_lookup_1 _ _ _ _ (Hd Hret) Hi).
    + by rewrite length_insert.
Qed.

Lemma stop_inv j p s s' : async_inv s → stoppers s !! j = Some p → AsyncServer_stop j p s = Some s' → async_inv s'.
Proof.
  intros [Hl Ha Hb Hu Hd Hnull Hp Hq Hdn] Hj Hs. unfold AsyncServer_stop in Hs.
  assert (p ≠ SpStop → stopped s = true) as Hstop.
  { intros Hne. destruct (stopped s) eqn:E; [done|]. destruct (Ha eq_refl) as (_ & _ & Hsp).
    by rewrite (Forall_lookup_1 _ _ _ _ Hsp Hj) in Hne. }
  pose proof (lookup_lt_Some _ _ _ Hj) as Hlt.
  repeat case_match; simplify_eq/=; split; simpl; try done; try (rewrite Hstop; done); try intuition congruence.
  - intros Hg. destruct (Hdn Hg) as [(j0 & p0 & Hj0 & Hc)|]; [left|by right]. exists j0, p0. split; [|done].
    rewrite list_lookup_insert_ne; [done|]. intros ->. intuition congruence.
  - intros _. left. exists j, SpDrain. rewrite list_lookup_insert_eq by done. auto.
  - intros _. left. exists j, SpQueues. rewrite list_lookup_insert_eq by done. auto.
  - intros _. right. lia.
Qed.

Lemma async_step_inv s s' : async_inv s → async_any s s' → async_inv s'.
Proof.
  intros Hi [s1 Hs|signum]; [|by apply signal_inv].
  destruct Hs as [s1 _ Hs|i w s1 _ Hw Hs|j p s1 _ Hp Hs]; eauto using async_start_inv, worker_inv, stop_inv.
Qed.

Lemma async_reachable_inv s : async_reachable s → async_inv s.
Proof. apply rtc_invariant; [apply async_step_inv|apply async_init_inv]. Qed.

(** ** Theorems *)

(** Nothing can happen but a signal. *)
Definition at_rest (s : Async) : Prop := ∀ s', ¬ async_step s s'.

(** What holds a thread up when it cannot go on. *)
Lemma rest_worker i w s :
  at_rest s → bad s = None → grpcServer s = Some true → pool s !! i = Some w →
  wpc w = WkLeft ∨ wpc w = WkPoll ∧ requests w = 0 ∧ calls w = 0 ∧ down s ≤ i.
Proof.
  intros Hr Hb Hg Hi.
  assert (demultiplex_steps i w s = []) as Hnil.
  { destruct (demultiplex_steps i w s) as [|s' l] eqn:E; [done|]. destruct (Hr s').
    apply (as_worker s i w); [done..|]. rewrite E. set_solver. }
  unfold demultiplex_steps in Hnil. rewrite Hg in Hnil.
  destruct (wpc w) as [[|k]|k| |ok|ok|[]|] eqn:Hw; try done; [|by left]. right.
  destruct (requests w), (calls w); try done. split_and!; try done.
  simpl in Hnil. destruct (Nat.ltb_spec i (down s)) as [Hlt|]; [|done]. simpl in Hnil. by case_match.
Qed.

(** Until a signal asks the server to stop, all its threads serve: none has left, and one that polls has a request for each
    of the eight methods waiting. *)
Theorem serves_until_stopped s :
  async_reachable s → stopped s = false →
  Forall (λ w, wpc w ≠ WkLeft ∧ (wpc w = WkPoll → requests w = first_handlers)) (pool s).
Proof.
  intros Hr%async_reachable_inv Hst. destruct (ai_armed _ Hr Hst) as [Ha _].
  eapply Forall_impl; [exact Ha|]. intros w Hw. unfold armed in Hw. split; [by intros E; rewrite E in Hw|].
  intros E. by rewrite E in Hw.
Qed.

(** C22: Once [stop] has found the server, and if nothing was given to a queue after its shutdown ([bad] is None;
    [request_after_shutdown] shows that it can be), the process can only come to rest with [start] returned, all
    threads gone with nothing left with gRPC, and every [stop] ended. *)
Theorem async_stop_ends s :
  async_reachable s → grpcServer s = Some true → bad s = None → at_rest s →
  starter s = StReturned ∧ Forall (λ w, wpc w = WkLeft ∧ registered w = 0) (pool s) ∧ Forall (eq SpEnd) (stoppers s).
Proof.
  intros Hi%async_reachable_inv Hg Hb Hr.
  assert (∀ i w, pool s !! i = Some w → live w = 0) as Hlive.
  { intros i w Hw. destruct (rest_worker _ _ _ Hr Hb Hg Hw) as [Hl|(Hl & _ & Hc & _)]; unfold live; rewrite Hl; [|lia].
    destruct (Forall_lookup_1 _ _ _ _ (ai_left _ Hi) Hw Hl). lia. }
  assert (∀ j p, stoppers s !! j = Some p → p = SpEnd) as Hends.
  { intros j p Hj. destruct (AsyncServer_stop j p s) as [s'|] eqn:E; [by destruct (Hr s'); eapply as_stop|].
    destruct p; simpl in E; try done; [by rewrite Hg in E|].
    rewrite sum_list_with_0 in E; [done|]. apply Forall_lookup. intros i w Hw. by eapply Hlive. }
  assert (ncqs s ≤ down s) as Hdown.
  { destruct (ai_down _ Hi Hg) as [(j & p & Hj & Hc)|]; [|done]. apply Hends in Hj as ->. by destruct Hc. }
  assert (starter s ≠ StQueues ∧ starter s ≠ StBuild) as [Hnq Hnb] by (apply ai_built; [done|by rewrite Hg]).
  assert (Forall (λ w, wpc w = WkLeft ∧ registered w = 0) (pool s)) as Hall.
  { apply Forall_lookup. intros i w Hw. destruct (rest_worker _ _ _ Hr Hb Hg Hw) as [Hl|(_ & _ & _ & Hle)].
    - split; [done|]. unfold registered, busy. rewrite Hl. destruct (Forall_lookup_1 _ _ _ _ (ai_left _ Hi) Hw Hl). lia.
    - apply lookup_lt_Some in Hw. pose proof (ai_pool _ Hi). pose proof (ai_queues _ Hi Hnq). lia. }
  split; [|split; [done|]].
  - destruct (AsyncServer_start s) as [s'|] eqn:E; [by destruct (Hr s'); apply as_start|].
    unfold AsyncServer_start in E. destruct (starter s) eqn:Hst; try done.
    + by case_match.
    + by rewrite Hg in E.
    + assert (waitForComplete s = true) as Hf; [|by rewrite Hf in E].
      apply forallb_forall. intros w Hw%list_elem_of_In. rewrite Forall_forall in Hall.
      apply bool_decide_eq_true. by apply Hall.
    + pose proof (ai_null _ Hi Hst). congruence.
  - apply Forall_lookup. intros j p Hj. symmetry. by eapply Hends.
Qed.

(** [start] that waits for a server which no [stop] will shut down. *)
Definition waits_in_vain (s : Async) : Prop :=
  starter s = StWait ∧ grpcServer s = Some false ∧ Forall (eq SpEnd) (stoppers s).

Lemma waits_in_vain_step s s' : waits_in_vain s → async_step s s' → waits_in_vain s'.
Proof.
  intros (Hst & Hg & Hsp) [s1 _ Hs|i w s1 _ Hw Hs|j p s1 _ Hp Hs].
  - unfold AsyncServer_start in Hs. by rewrite Hst, Hg in Hs.
  - assert (starter s1 = starter s ∧ grpcServer s1 = grpcServer s ∧ stoppers s1 = stoppers s) as (H1 & H2 & H3);
      [|by unfold waits_in_vain; rewrite H1, H2, H3].
    unfold demultiplex_steps in Hs. cbv zeta in Hs.
    destruct (wpc w) as [[|k]|k| |ok|ok|[]|]; rewrite ?elem_of_app in Hs; repeat case_match;
      rewrite ?list_elem_of_singleton, ?elem_of_nil in Hs; naive_solver.
  - rewrite Forall_lookup in Hsp. apply Hsp in Hp as <-. done.
Qed.
End server.

(** ** Executions *)

Inductive choice := ChStart | ChWorker (i k : nat) | ChStop (j : nat) | ChSignal (signum : Z).

Definition take_choice (n : nat) (built : bool) (c : choice) (s : Async) : option Async :=
  match c with
  | ChSignal signum => Some (HandleSignal signum s)
  | _ =>
      match bad s, c with
      | Some _, _ => None
      | None, ChStart => AsyncServer_start n built s
      | None, ChWorker i k => w ← pool s !! i; demultiplex_steps i w s !! k
      | None, ChStop j => p ← stoppers s !! j; AsyncServer_stop j p s
      | None, ChSignal _ => None
      end
  end.

Fixpoint run (n : nat) (built : bool) (l : list choice) (s : Async) : option Async :=
  match l with [] => Some s | c :: l => s' ← take_choice n built c s; run n built l s' end.

Lemma take_choice_step n built c s s' : take_choice n built c s = Some s' → async_any n built s s'.
Proof.
  destruct c; simpl; try (intros [= <-]; apply aa_signal); destruct (bad s) eqn:Hb; try done; intros Hs; apply aa_step.
  - by apply as_start.
  - destruct (pool s !! i) as [w|] eqn:Hw; [|done]. eapply as_worker; [done..|]. by eapply list_elem_of_lookup_2.
  - destruct (stoppers s !! j) as [p|] eqn:Hp; [|done]. by eapply as_stop.
Qed.

Lemma schedule_reachable n built l s : run n built l AsyncServer_AsyncServer = Some s → async_reachable n built s.
Proof.
  unfold async_reachable. generalize AsyncServer_AsyncServer.
  induction l as [|c l IH]; simpl; intros s0 H; simplify_eq; [apply rtc_refl|].
  destruct (take_choice n built c s0) as [s1|] eqn:E; [|done]. eapply rtc_l; [by eapply take_choice_step|]. by apply IH.
Qed.

(** Whether a state is one in which nothing can happen. *)
Definition rests (n : nat) (built : bool) (s : Async) : bool :=
  bool_decide (bad s ≠ None) ||
  match AsyncServer_start n built s with Some _ => false | None => true end &&
  forallb (λ i, match pool s !! i with
      Some w => match demultiplex_steps i w s with [] => true | _ => false end | None => true end)
    (seq 0 (length (pool s))) &&
  forallb (λ j, match stoppers s !! j with
      Some p => match AsyncServer_stop j p s with Some _ => false | None => true end | None => true end)
    (seq 0 (length (stoppers s))).

Lemma rests_at_rest n built s : rests n built s = true → at_rest n built s.
Proof.
  unfold rests. rewrite orb_true_iff, !andb_true_iff, !forallb_forall. intros Hr s' Hs.
  destruct Hs as [s' Hb Hs|i w s' Hb Hw Hs|j p s' Hb Hp Hs]; destruct Hr as [Hr%bool_decide_eq_true|[[H1 H2] H3]]; try congruence.
  - by rewrite Hs in H1.
  - specialize (H2 i). rewrite Hw in H2. apply lookup_lt_Some in Hw.
    destruct (demultiplex_steps i w s); [by apply elem_of_nil in Hs|]. discriminate H2. apply in_seq. lia.
  - specialize (H3 j). rewrite Hp, Hs in H3. apply lookup_lt_Some in Hp. discriminate H3. apply in_seq. lia.
Qed.

Definition run_to (l : list choice) : Async := default AsyncServer_AsyncServer (run 1 true l AsyncServer_AsyncServer).

Lemma run_to_reachable l :
  match run 1 true l AsyncServer_AsyncServer with Some _ => true | None => false end = true → async_reachable 1 true (run_to l).
Proof.
  unfold run_to. destruct (run 1 true l AsyncServer_AsyncServer) as [s|] eqn:E; [|done]. intros _. by eapply schedule_reachable.
Qed.

(** A signal that comes before the server is built. *)
Definition early_signal : list choice :=
  [ChSignal SIGTERM; ChStop 0; ChStop 0; ChStop 0] ++ replicate 5 ChStart ++ replicate 10 (ChWorker 0 0).

(** A signal that comes before the server is built is lost: [stop] finds no server to shut down, the threads construct no
    handlers and leave, and [start] waits for ever in front of a server that answers no call. *)
Theorem early_signal_waits :
  (∃ s, async_reachable 1 true s ∧ at_rest 1 true s ∧ waits_in_vain s ∧ Forall (λ w, wpc w = WkLeft) (pool s)) ∧
  ∀ n built s s', waits_in_vain s → rtc (async_step n built) s s' → waits_in_vain s'.
Proof.
  split.
  - exists (run_to early_signal). split; [apply run_to_reachable; vm_compute; reflexivity|].
    split; [apply rests_at_rest; vm_compute; reflexivity|].
    set (s := run_to early_signal). vm_compute in s. subst s. split; [split_and!|]; simpl; repeat constructor.
  - intros n built s s' Hs Hr. apply (rtc_invariant (async_step n built) waits_in_vain s); [|done..].
    intros a b. apply waits_in_vain_step.
Qed.

Lemma start_runs n built s s' : bad s = None → AsyncServer_start n built s = Some s' → async_any n built s s'.
Proof. intros. by apply aa_step, as_start. Qed.

Lemma queues_added n built k s : starter s = StQueues → bad s = None → k + ncqs s = n →
  rtc (async_any n built) s (set_starter StBuild (set_ncqs n s)).
Proof.
  revert s. induction k as [|k IH]; intros s Hst Hb Hk.
  - simpl in Hk. apply rtc_once, start_runs; [done|]. unfold AsyncServer_start. rewrite Hst.
    rewrite (proj2 (Nat.ltb_ge _ _)) by lia. destruct s. simpl in *. by subst.
  - eapply rtc_l; [|apply (IH (set_ncqs (S (ncqs s)) s)); simpl; [done..|lia]].
    apply start_runs; [done|]. unfold AsyncServer_start. rewrite Hst. by rewrite (proj2 (Nat.ltb_lt _ _)) by lia.
Qed.

Definition new_worker : Worker := mkWorker (WkStart first_handlers) 0 0.

Lemma threads_posted n built k s : starter s = StDemux → bad s = None → k + length (pool s) = n →
  rtc (async_any n built) s (set_starter StWait (set_pool (pool s ++ replicate k new_worker) s)).
Proof.
  revert s. induction k as [|k IH]; intros s Hst Hb Hk.
  - simpl in Hk. apply rtc_once, start_runs; [done|]. unfold AsyncServer_start. rewrite Hst.
    rewrite (proj2 (Nat.ltb_ge _ _)) by lia. destruct s. simpl in *. by rewrite app_nil_r.
  - eapply rtc_l; [|replace (set_starter StWait _) with
      (set_starter StWait (set_pool (pool (post_demultiplex s) ++ replicate k new_worker) (post_demultiplex s)));
      [apply IH|]]; simpl; [|done|done|rewrite length_app; simpl; lia|by rewrite <- app_assoc].
    apply start_runs; [done|]. unfold AsyncServer_start. rewrite Hst. by rewrite (proj2 (Nat.ltb_lt _ _)) by lia.
Qed.

(** [start] waits for the server, the threads of the pool have yet to register their handlers. *)
Definition started (n : nat) (server : option bool) : Async :=
  mkAsync server n 0 false StWait (replicate n new_worker) [] None.

Lemma started_reachable n (built : bool) :
  async_reachable n built (started n (if built then Some false else None)).
Proof.
  unfold async_reachable. etrans; [apply (queues_added n built n); [done..|simpl; lia]|].
  eapply rtc_l; [by apply start_runs|]. apply (threads_posted n built n (mkAsync _ n 0 false StDemux [] [] None)); [done..|simpl; lia].
Qed.

(** A signal, all of [stop] with no call in progress, and what is left then. *)
Lemma stop_runs n w (s : Async) :
  bad s = None → grpcServer s = Some w → stoppers s = [] → Forall (λ w, live w = 0) (pool s) →
  rtc (async_any n true) s (mkAsync (Some true) (ncqs s) (Nat.max (down s) (ncqs s)) true (starter s) (pool s) [SpEnd] None).
Proof.
  intros Hb Hg Hsp Hl. destruct s as [g q d st sr pl sp bd]. simpl in *. subst.
  eapply rtc_l; [apply (aa_signal n true _ SIGTERM)|].
  eapply rtc_l; [apply aa_step; by eapply (as_stop n true _ 0)|].
  eapply rtc_l; [apply aa_step; by eapply (as_stop n true _ 0)|].
  eapply rtc_l; [apply aa_step; eapply (as_stop n true _ 0); [done|done|]|].
  { simpl. rewrite Forall_lookup in Hl. rewrite sum_list_with_0 by by apply Forall_lookup. reflexivity. }
  apply rtc_once, aa_step. by eapply (as_stop n true _ 0).
Qed.

(** C23: [stopped] is tested before the request is given to the queue, not with it.  In a pool of any size, any of its
    threads can find [stopped] false and be stopped short of its request until [stop] has set the flag,
    shut the server down and shut the thread's queue; all that it can do then is to give the request to that queue. *)
Theorem request_after_shutdown n i :
  i < n → ∃ s0 k s1,
    async_reachable n true s0 ∧ stopped s0 = false ∧ pool s0 !! i = Some (mkWorker (WkStart (S k)) 0 0) ∧
    put_worker i (mkWorker (WkTested k) 0 0) s0 ∈ demultiplex_steps i (mkWorker (WkStart (S k)) 0 0) s0 ∧
    rtc (async_any n true) (put_worker i (mkWorker (WkTested k) 0 0) s0) s1 ∧
    pool s1 !! i = Some (mkWorker (WkTested k) 0 0) ∧
    stopped s1 = true ∧ grpcServer s1 = Some true ∧ i < down s1 ∧ bad s1 = None ∧
    demultiplex_steps i (mkWorker (WkTested k) 0 0) s1 = [set_bad (ToShutQueue RequestCall i) s1].
Proof.
  intros Hi. exists (started n (Some false)), 7.
  assert (replicate n new_worker !! i = Some new_worker) as Hnew by by apply lookup_replicate.
  eexists. split; [apply (started_reachable n true)|]. do 2 (split; [done|]). split; [set_solver|]. split; [|split_and!].
  - apply (stop_runs n false); [done..|]. simpl. apply Forall_insert; [by apply Forall_replicate|done].
  - simpl. apply list_lookup_insert_eq. by rewrite length_replicate.
  - done.
  - done.
  - simpl. lia.
  - done.
  - unfold demultiplex_steps, takes, refuse. simpl. rewrite (proj2 (Nat.ltb_lt i n)) by done. done.
Qed.

(** Without a server [start] calls Wait on a null pointer. *)
Theorem unbuilt_waits_on_null n : ∃ s, async_reachable n false s ∧ starter s = StNull.
Proof.
  eexists. split; [eapply rtc_r; [apply (started_reachable n false)|by apply start_runs]|done].
Qed.

(** ** Witnesses *)

(** The thread registers its handlers, a signal stops the server, and the thread sees its eight requests fail. *)
Definition served : list choice := replicate 4 ChStart ++ replicate 17 (ChWorker 0 0) ++ [ChStart].
Definition stopped_run : list choice :=
  served ++ [ChSignal SIGINT] ++ replicate 4 (ChStop 0) ++ replicate 25 (ChWorker 0 0) ++ [ChStart; ChStart].

Lemma serves_until_stopped_witness :
  Forall (λ w, wpc w ≠ WkLeft ∧ (wpc w = WkPoll → requests w = first_handlers)) (pool (run_to served)) ∧
  pool (run_to served) = [mkWorker WkPoll 8 0].
Proof.
  split; [|vm_compute; reflexivity].
  apply (serves_until_stopped 1 true); [apply run_to_reachable|]; vm_compute; reflexivity.
Defined.

Lemma async_stop_ends_witness :
  starter (run_to stopped_run) = StReturned ∧ Forall (λ w, wpc w = WkLeft ∧ registered w = 0) (pool (run_to stopped_run)) ∧
  Forall (eq SpEnd) (stoppers (run_to stopped_run)).
Proof.
  apply (async_stop_ends 1 true); [apply run_to_reachable| | |apply rests_at_rest]; vm_compute; reflexivity.
Defined.

Lemma request_after_shutdown_witness :
  ∃ s0 k s1, async_reachable 2 true s0 ∧ stopped s0 = false ∧
    rtc (async_any 2 true) (put_worker 1 (mkWorker (WkTested k) 0 0) s0) s1 ∧
    demultiplex_steps 1 (mkWorker (WkTested k) 0 0) s1 = [set_bad (ToShutQueue RequestCall 1) s1].
Proof.
  destruct (request_after_shutdown 2 1 ltac:(lia)) as (s0 & k & s1 & H1 & H2 & _ & _ & H3 & _ & _ & _ & _ & _ & H4).
  by exists s0, k, s1.
Defined.
