(* ===== verification/UseAsyncClient.v ===== *)
(** * The program of the asynchronous client (UseAsyncClient in learn_grpc/hello_world/src/client/main.cpp)

    The calls UseAsyncClient makes, in order, against the client of GrpcClient.v, whose threads deliver completions
    meanwhile.  A turn of the program that waits for a permit is a step that is not there. *)

From S2P Require Import Prelude CppString GrpcEvent GrpcClient.

(** ** The program *)

Inductive action := Call (k : kind) | Writer (k : kind) | Write (msg : bytes) | Close.

Definition numbered (i : nat) (t : string) : bytes := to_string (Z.of_nat i) ++ str " - " ++ str t.

(** A turn of its third loop. *)
Definition chat_turn (i : nat) : list action :=
  [Call GreetCall; Call ListenCall; Writer SpeakCall] ++
  map (λ t, Write (numbered i t)) ["1"; "2"; "3"; "4"; "5"]%string ++ [Close; Writer TalkCall] ++
  map (λ t, Write (numbered i t)) ["a"; "b"; "c"; "d"; "e"]%string ++ [Close].

(** [count]: GRPC_CLIENT_ASYNC_REQUEST_COUNT. *)
Definition UseAsyncClient (count : nat) : list action :=
  flat_map (λ _, [Call SayHelloCall; Call SayHelloAgainCall]) (seq 0 count) ++
  flat_map (λ _, [Call SayGoodbyeCall; Call SayGoodbyeAgainCall]) (seq 0 count) ++
  flat_map chat_turn (seq 0 count).

(** ** Its run *)

(** [current]: the writer that speak or talk returned last. *)
Record Run := mkRun { sys : System; todo : list action; current : Z }.

Section program.
(** GRPC_CLIENT_ASYNC_THREADPOOL_SIZE. *)
Context (n : Z).

Definition make (k : kind) : M Client Z :=
  match k with
  | SayHelloCall => AsyncHelloClient_sayHello n
  | SayHelloAgainCall => AsyncHelloClient_sayHelloAgain n
  | SayGoodbyeCall => AsyncGoodbyeClient_sayGoodbye n
  | SayGoodbyeAgainCall => AsyncGoodbyeClient_sayGoodbyeAgain n
  | GreetCall => AsyncChatClient_greet n
  | ListenCall => AsyncChatClient_listen n
  | SpeakCall => AsyncChatClient_speak n
  | TalkCall => AsyncChatClient_talk n
  end.

Definition in_client {A} (m : M Client A) : M (System * Z) A :=
  zoom (λ x, client x.1) (λ p x, (set_client p x.1, x.2)) m.

Definition set_writers (w : list Z) (s : System) : System := mkSystem (client s) w (gone s).

Definition act (a : action) : M (System * Z) unit :=
  match a with
  | Call k => in_client (make k);; mret tt
  | Writer k => me ← in_client (make k); modify (λ x, (set_writers (me :: writers x.1) x.1, me))
  | Write msg => x ← get; in_client (write msg x.2)
  | Close => x ← get; in_client (close x.2);; modify (λ x, (set_writers (filter (λ k, (k ≠ x.2)) (writers x.1)) x.1, x.2))
  end.

(** A completion of a call whose thread still polls. *)
Inductive delivers (s : System) : System → Prop :=
  | delivers_one l1 tok o l2 c ok r status p :
      outstanding (client s) = l1 ++ (tok, o) :: l2 →
      handlers (handlerManager (client s)) !! getKey tok = Some c → c_cq c ∉ gone s →
      deliver tok o ok r status (set_outstanding (l1 ++ l2) (client s)) = (Ok false, p) →
      delivers s (set_client p s).

Definition leaves (q : Z) (s : System) : Prop :=
  (0 ≤ q < n)%Z ∧ (q ∉ gone s) ∧ asyncCompleteRpc_next TIMEOUT (client s) = (Ok true, client s).

Inductive run_step (r : Run) : Run → Prop :=
  | rs_main a rest s cur :
      todo r = a :: rest → act a (sys r, current r) = (Ok tt, (s, cur)) → run_step r (mkRun s rest cur)
  | rs_deliver s : delivers (sys r) s → run_step r (mkRun s (todo r) (current r))
  | rs_leave q : leaves q (sys r) →
      run_step r (mkRun (mkSystem (client (sys r)) (writers (sys r)) (q :: gone (sys r))) (todo r) (current r)).

Definition run_init (count : nat) : Run := mkRun client_init (UseAsyncClient count) 0.
Definition run_from (count : nat) : Run → Prop := rtc run_step (run_init count).

(** ** The invariant *)

(** Calls to write and close come between speak or talk and close; [b]: a writer is open. *)
Fixpoint brackets (b : bool) (l : list action) : option bool :=
  match l with
  | [] => Some b
  | Call k :: l => if b || bool_decide (k = SpeakCall ∨ k = TalkCall) then None else brackets b l
  | Writer k :: l => if b || negb (bool_decide (k = SpeakCall ∨ k = TalkCall)) then None else brackets true l
  | Write _ :: l => if b then brackets b l else None
  | Close :: l => if b then brackets false l else None
  end.

Definition is_call (a : action) : nat := match a with Call _ | Writer _ => 1 | _ => 0 end.
Definition calls_left (l : list action) : nat := sum_list_with is_call l.

Record run_inv (r : Run) : Prop := {
  ri_reach : client_reachable n (sys r);
  ri_shape : ∃ b, brackets b (todo r) = Some false ∧ writers (sys r) = (if b then [current r] else []);
  ri_idx : (0 ≤ cqIdx (client (sys r)))%Z ∧ (cqIdx (client (sys r)) + Z.of_nat (calls_left (todo r)) < 2 ^ 31)%Z;
  ri_size : (Z.of_nat (size (handlers (handlerManager (client (sys r))))) ≤ cqIdx (client (sys r)))%Z
}.

(** ** Lemmas *)

Lemma brackets_app b l1 l2 : brackets b (l1 ++ l2) = brackets b l1 ≫= λ b', brackets b' l2.
Proof.
  revert b. induction l1 as [|a l1 IH]; intros b; [done|]. simpl.
  destruct a; repeat case_match; done || apply IH.
Qed.

Lemma brackets_flat {A} (f : A → list action) l :
  (∀ x, brackets false (f x) = Some false) → brackets false (flat_map f l) = Some false.
Proof. intros Hf. induction l as [|x l IH]; [done|]. simpl. by rewrite brackets_app, Hf. Qed.

Lemma UseAsyncClient_brackets count : brackets false (UseAsyncClient count) = Some false.
Proof.
  unfold UseAsyncClient. rewrite brackets_app, brackets_flat by done. cbn [mbind option_bind].
  rewrite brackets_app, brackets_flat by done. by apply brackets_flat.
Qed.

Lemma calls_flat {A} (f : A → list action) l k : (∀ x, calls_left (f x) = k) → calls_left (flat_map f l) = k * length l.
Proof.
  intros Hf. unfold calls_left in *. induction l as [|x l IH]; simpl; [lia|]. rewrite sum_list_with_app, Hf, IH. lia.
Qed.

Lemma UseAsyncClient_calls count : calls_left (UseAsyncClient count) = 8 * count.
Proof.
  unfold UseAsyncClient. unfold calls_left. rewrite !sum_list_with_app.
  change (sum_list_with is_call) with calls_left.
  rewrite (calls_flat _ _ 2), (calls_flat _ _ 2), (calls_flat _ _ 4), length_seq by done. lia.
Qed.

Section bounded.
Context (Hn : (0 < n < 2 ^ 31)%Z).

Lemma next_cq_run p : (0 ≤ cqIdx p)%Z → (cqIdx p + 1 < 2 ^ 31)%Z →
  ∃ q, next_cq n p = (Ok q, set_cqIdx (cqIdx p + 1) p).
Proof.
  intros H0 H1. exists (cqIdx p mod n)%Z. unfold next_cq, mbind, M_bind, gets, modify.
  rewrite (proj2 (Z.eqb_neq n 0)) by lia. rewrite Z.rem_mod_nonneg by lia.
  pose proof (Z.mod_pos_bound (cqIdx p) n ltac:(lia)).
  rewrite (proj2 (Z.leb_le _ _)), (proj2 (Z.ltb_lt _ _)) by lia. simpl.
  assert (wrap_i32 (cqIdx p + 1) = cqIdx p + 1)%Z as -> by (unfold wrap_i32; rewrite Z.mod_small by lia; lia). done.
Qed.

(** A call is registered and bound to a queue as long as the counters have room. *)
Lemma prepare_runs member c p :
  manager_inv (handlerManager p) → (0 ≤ cqIdx p)%Z → (cqIdx p + 1 < 2 ^ 31)%Z →
  (Z.of_nat (size (handlers (handlerManager p))) < 2 ^ 32)%Z →
  ∃ k p', prepareAsyncCall n member c p = (Ok k, p') ∧ cqIdx p' = (cqIdx p + 1)%Z.
Proof.
  intros Hm H0 H1 Hs. unfold prepareAsyncCall.
  destruct (add_cases c (handlerManager p) Hm) as [(k & m & E & _ & Hk & Hh & _)|[Hfull _]]; [|lia].
  erewrite bind_ok; [|unfold on_manager, zoom; rewrite E; reflexivity].
  assert (getKey k = k) as -> by by apply u32_small.
  destruct (next_cq_run (set_handlerManager m p) H0 H1) as [q Hq]. simpl in Hq.
  set (p1 := if member then set_handlerManager (set_handlers (alter (set_key k) k (handlers m)) m) p else set_handlerManager m p).
  assert (when member (update_this k (set_key k)) (set_handlerManager m p) = (Ok tt, p1)) as Hw by by destruct member.
  rewrite (bind_ok _ _ _ _ _ Hw).
  destruct (next_cq_run p1) as [q' Hq']; [by unfold p1; destruct member..|].
  rewrite (bind_ok _ _ _ _ _ Hq'). eexists _, _. split; [reflexivity|]. simpl. unfold p1. by destruct member.
Qed.

(** A call that is made: it counts, and leaves at most one handler more. *)
Lemma make_runs k p w :
  client_inv p w → (0 ≤ cqIdx p)%Z → (cqIdx p + 1 < 2 ^ 31)%Z → (Z.of_nat (size (handlers (handlerManager p))) ≤ cqIdx p)%Z →
  ∃ me p', make k p = (Ok me, p') ∧ cqIdx p' = (cqIdx p + 1)%Z ∧
    (Z.of_nat (size (handlers (handlerManager p'))) ≤ cqIdx p')%Z.
Proof.
  intros Hi H0 H1 Hs.
  assert (∀ member c, ∃ q k p1, prepareAsyncCall n member c p = (Ok k, p1) ∧ cqIdx p1 = (cqIdx p + 1)%Z ∧
    handlers (handlerManager p1) !! k = Some (registered q member k c) ∧
    (Z.of_nat (size (handlers (handlerManager p1))) ≤ cqIdx p1)%Z) as Hprep.
  { intros member c. destruct (prepare_runs member c p (ci_manager _ _ Hi) H0 H1) as (me & p1 & Hp & Hc); [lia|].
    destruct (prepare_ok n member c me p p1 (ci_manager _ _ Hi) Hp) as (q & Hnone & _ & _ & Hh & _).
    exists q, me, p1. rewrite Hh, lookup_insert_eq. split_and!; try done.
    rewrite map_size_insert_None by done. lia. }
  assert (∀ kd, ∃ me p', unary_call n kd p = (Ok me, p') ∧ cqIdx p' = (cqIdx p + 1)%Z ∧
    (Z.of_nat (size (handlers (handlerManager p'))) ≤ cqIdx p')%Z) as Hunary.
  { intros kd. destruct (Hprep (bool_decide (kd = GreetCall)) (new_call kd)) as (q & me & p1 & Hp & Hc & _ & Hz).
    eexists _, _. split; [unfold unary_call; rewrite (bind_ok _ _ _ _ _ Hp); reflexivity|]. done. }
  destruct k; [apply Hunary..| | |]; destruct (Hprep true (new_call ListenCall)) as (q1 & me1 & p1 & Hp1 & Hc1 & Hl1 & Hz1);
    destruct (Hprep true (new_call SpeakCall)) as (q2 & me2 & p2 & Hp2 & Hc2 & Hl2 & Hz2);
    destruct (Hprep true (new_call TalkCall)) as (q3 & me3 & p3 & Hp3 & Hc3 & Hl3 & Hz3); simpl.
  - eexists _, _. split; [unfold AsyncChatClient_listen; rewrite (bind_ok _ _ _ _ _ Hp1); unfold ListenCall_start;
      erewrite bind_ok; [reflexivity|]; rewrite (bind_ok _ _ _ _ _ (call_this_run _ _ _ Hl1)); reflexivity|]. done.
  - eexists _, _. split; [unfold AsyncChatClient_speak; rewrite (bind_ok _ _ _ _ _ Hp2);
      rewrite (bind_ok _ _ _ _ _ (speak_start_run _ _ _ Hl2)); reflexivity|]. simpl. split; [done|].
    rewrite map_size_insert_Some by eauto. done.
  - eexists _, _. split; [unfold AsyncChatClient_talk; rewrite (bind_ok _ _ _ _ _ Hp3);
      rewrite (bind_ok _ _ _ _ _ (talk_start_run _ _ _ Hl3)); reflexivity|]. simpl. split; [done|].
    rewrite map_size_insert_Some by eauto. done.
Qed.

(** What write and close do on a writer that is open: the operation, or waiting for one that is with gRPC. *)
Lemma use_cases o me p w :
  client_inv p w → me ∈ w →
  (∃ p', use o me p = (Ok tt, p') ∧ cqIdx p' = cqIdx p ∧ size (handlers (handlerManager p')) = size (handlers (handlerManager p))) ∨
  (use o me p).1 = OutOfFuel ∧ cnt me KStart (outstanding p) + cnt me KWrite (outstanding p) = 1.
Proof.
  intros Hi Hin. apply (ci_writers _ _ Hi) in Hin as (c & Hc & Hkd & Hcl & Hz).
  pose proof (ci_calls _ _ Hi me) as Hst. rewrite Hc in Hst. destruct Hst as [_ Hok].
  unfold use. rewrite (bind_ok _ _ _ _ _ (call_this_run _ _ _ Hc)).
  destruct (decide (0 < canWrite c)%Z) as [Hlt|Hge].
  - left. rewrite (bind_ok _ _ _ _ _ (acquire_run _ _ _ Hc Hlt)). erewrite issue_run by apply reacted_lookup.
    eexists. split; [reflexivity|]. split; [done|]. rewrite reacted_twice. simpl. by rewrite map_size_insert_Some by eauto.
  - right. split.
    + unfold acquire. unfold mbind, M_bind. rewrite (call_this_run _ _ _ Hc). by rewrite (proj2 (Z.ltb_ge _ _)) by lia.
    + unfold call_ok in Hok. rewrite Hcl in Hok. destruct Hkd as [E|E]; rewrite E in Hok; simpl in Hok; lia.
Qed.

Lemma in_client_ok {A} (m : M Client A) x a x' :
  in_client m x = (Ok a, x') → ∃ p, m (client x.1) = (Ok a, p) ∧ x' = (set_client p x.1, x.2).
Proof.
  unfold in_client, zoom. destruct (m (client x.1)) as [r p]. intros [= -> <-]. eauto.
Qed.

Lemma make_is_call k : ¬ (k = SpeakCall ∨ k = TalkCall) →
  make k ∈ [AsyncHelloClient_sayHello n; AsyncHelloClient_sayHelloAgain n; AsyncGoodbyeClient_sayGoodbye n;
    AsyncGoodbyeClient_sayGoodbyeAgain n; AsyncChatClient_greet n; AsyncChatClient_listen n].
Proof. intros Hk. destruct k; simpl; rewrite !elem_of_cons; tauto. Qed.

(** A turn of the program is a step of the client. *)
Lemma main_inv r a rest s cur :
  run_inv r → todo r = a :: rest → act a (sys r, current r) = (Ok tt, (s, cur)) →
  client_step n (sys r) s ∧ run_inv (mkRun s rest cur).
Proof.
  intros [Hreach (b & Hb & Hw) [Hi0 Hi1] Hs] Ht Ha. rewrite Ht in Hb, Hi1. unfold calls_left in Hi1. simpl in Hi1.
  pose proof (client_reachable_inv n _ Hreach) as Hinv.
  assert (client_step n (sys r) s → (∃ b, brackets b rest = Some false ∧ writers s = if b then [cur] else []) →
    ((0 ≤ cqIdx (client s))%Z ∧ (cqIdx (client s) + Z.of_nat (calls_left rest) < 2 ^ 31)%Z) →
    (Z.of_nat (size (handlers (handlerManager (client s)))) ≤ cqIdx (client s))%Z →
    client_step n (sys r) s ∧ run_inv (mkRun s rest cur)) as Hdone.
  { intros Hstep Hshape Hidx Hsize. split; [done|]. split; [by eapply rtc_r|done..]. }
  destruct a as [k|k|msg|]; simpl in Hb, Ha, Hi1.
  - destruct b; [done|]. simpl in Hb. case_bool_decide as Hk; [done|].
    apply bind_inv_ok in Ha as (me & x & Hm & [= ->]). apply in_client_ok in Hm as (p & Hm & [= -> ->]).
    destruct (make_runs k _ _ Hinv Hi0 ltac:(lia) Hs) as (me' & p' & Hm' & Hc & Hz).
    simpl in Hm. rewrite Hm in Hm'. injection Hm' as <- <-. apply Hdone; simpl; [|by exists false|unfold calls_left; lia|done].
    eapply step_call; [by apply make_is_call|exact Hm].
  - destruct b; [done|]. simpl in Hb. case_bool_decide as Hk; [|done].
    apply bind_inv_ok in Ha as (me & x & Hm & [= <- <-]). apply in_client_ok in Hm as (p & Hm & ->).
    destruct (make_runs k _ _ Hinv Hi0 ltac:(lia) Hs) as (me' & p' & Hm' & Hc & Hz).
    simpl in Hm. rewrite Hm in Hm'. injection Hm' as <- <-. apply Hdone; simpl; [|exists true|unfold calls_left; lia|done].
    + apply (step_writer n (make k) me p (sys r)); [by destruct Hk as [-> | ->]; [left|right]|exact Hm].
    + by rewrite Hw.
  - destruct b; [|done]. apply in_client_ok in Ha as (p & Hm & [= -> ->]). simpl in Hm.
    assert (current r ∈ writers (sys r)) as Hin by (rewrite Hw; set_solver).
    pose proof (proj1 (write_use msg _ _ (proj1 (proj2 (ci_writers _ _ Hinv) _) Hin))) as Hu.
    destruct (use_cases (CWrite msg) _ _ _ Hinv Hin) as [(p' & Hp & Hc & Hz)|[Hf _]]; rewrite <- Hu, Hm in *; [|done].
    injection Hp as <-. apply Hdone; simpl; [|exists true; auto|unfold calls_left; lia|lia]. by eapply step_write.
  - destruct b; [|done]. unfold mbind at 1, M_bind at 1, get in Ha.
    apply bind_inv_ok in Ha as (u & x & Hm & [= <- <-]). apply in_client_ok in Hm as (p & Hm & ->). simpl in Hm.
    assert (current r ∈ writers (sys r)) as Hin by (rewrite Hw; set_solver).
    pose proof (proj2 (write_use [] _ _ (proj1 (proj2 (ci_writers _ _ Hinv) _) Hin))) as Hu. destruct u.
    destruct (use_cases CWritesDone _ _ _ Hinv Hin) as [(p' & Hp & Hc & Hz)|[Hf _]]; rewrite <- Hu, Hm in *; [|done].
    injection Hp as <-.
    assert (filter (λ k, (k ≠ current r)) (writers (sys r)) = []) as Hfl
      by (rewrite Hw; simpl; rewrite filter_cons_False by tauto; done).
    apply Hdone; simpl; [|exists false; auto|unfold calls_left; lia|lia].
    unfold set_writers, set_client. simpl. rewrite Hfl. apply (step_close n (current r) [] [] p (sys r)); [by rewrite Hw|done].
Qed.

Lemma delivers_inv r s :
  run_inv r → delivers (sys r) s → client_step n (sys r) s ∧ run_inv (mkRun s (todo r) (current r)).
Proof.
  intros [Hreach Hshape Hidx Hs] [l1 tok o l2 c ok q st p Hout Hc Hg Hd].
  assert (client_step n (sys r) (set_client p (sys r))) as Hstep by by eapply step_deliver.
  split; [done|]. pose proof (client_reachable_inv n _ Hreach) as Hinv.
  destruct (deliver_ok _ _ _ _ _ _ ok q st Hinv Hout) as (c0 & new & Hc0 & Hr).
  destruct (react _ _ _) as [[c' no] out]. destruct Hr as (Hrun & _). rewrite Hd in Hrun. injection Hrun as ->.
  split; simpl; [by eapply rtc_r|done|done|].
  etrans; [|exact Hs]. apply inj_le. destruct (isComplete c').
  - rewrite map_size_delete. simpl. rewrite Hc. lia.
  - rewrite map_size_insert_Some by (rewrite Hc in Hc0; by eexists). done.
Qed.

Lemma run_step_inv r r' : run_inv r → run_step r r' → client_step n (sys r) (sys r') ∧ run_inv r'.
Proof.
  intros Hi [a rest s cur Ht Ha|s Hd|q (Hq & Hg & Hl)].
  - by eapply main_inv.
  - by apply delivers_inv.
  - assert (client_step n (sys r) (mkSystem (client (sys r)) (writers (sys r)) (q :: gone (sys r)))) as Hs by by apply step_leave.
    split; [done|]. destruct Hi as [Hreach Hshape Hidx Hsz]. split; [by eapply rtc_r|done..].
Qed.

Lemma run_init_inv count : (8 * Z.of_nat count < 2 ^ 31)%Z → run_inv (run_init count).
Proof.
  intros Hc. split; simpl; [apply rtc_refl|exists false; by rewrite UseAsyncClient_brackets|rewrite UseAsyncClient_calls; lia|done].
Qed.

Lemma run_from_inv count r : (8 * Z.of_nat count < 2 ^ 31)%Z → run_from count r → run_inv r.
Proof.
  intros Hc. apply rtc_invariant; [|by apply run_init_inv]. intros x y Hx Hs. by apply (run_step_inv x y).
Qed.

(** ** Theorems *)

(** Every run of the program is a run of the client: what was shown of the calls, their operations and their threads
    holds in it, and the writers it may still use are none or the one it holds. *)
Theorem program_is_client count r :
  (8 * Z.of_nat count < 2 ^ 31)%Z → run_from count r →
  client_reachable n (sys r) ∧ (writers (sys r) = [] ∨ writers (sys r) = [current r]).
Proof.
  intros Hc [Hr (b & _ & Hw) _ _]%run_from_inv; [|done]. split; [done|]. rewrite Hw. destruct b; auto.
Qed.

(** A turn of the program succeeds, or waits for an operation that is with gRPC. *)
Lemma main_turn r a rest :
  run_inv r → todo r = a :: rest →
  (∃ x, act a (sys r, current r) = (Ok tt, x)) ∨
  (act a (sys r, current r)).1 = OutOfFuel ∧ outstanding (client (sys r)) ≠ [].
Proof.
  intros [Hreach (b & Hb & Hw) [Hi0 Hi1] Hs] Ht. rewrite Ht in Hb, Hi1. unfold calls_left in Hi1. simpl in Hi1.
  pose proof (client_reachable_inv n _ Hreach) as Hinv.
  assert (∀ m o, m (client (sys r)) = use o (current r) (client (sys r)) → current r ∈ writers (sys r) →
    (∃ p, in_client m (sys r, current r) = (Ok tt, (set_client p (sys r), current r))) ∨
    (in_client m (sys r, current r)).1 = OutOfFuel ∧ outstanding (client (sys r)) ≠ []) as Huse.
  { intros m o Hm Hin. unfold in_client, zoom. simpl. rewrite Hm.
    destruct (use_cases o _ _ _ Hinv Hin) as [(p & -> & _)|[Hf Hcnt]]; [left; eauto|right].
    destruct (use o _ _). simpl in *. subst. split; [done|]. intros E. by rewrite E in Hcnt. }
  destruct a as [k|k|msg|]; simpl in Hb, Hi1; simpl.
  - destruct b; [done|]. destruct (make_runs k _ _ Hinv Hi0 ltac:(lia) Hs) as (me & p & Hm & _).
    left. eexists. erewrite bind_ok; [reflexivity|]. unfold in_client, zoom. simpl. by rewrite Hm.
  - destruct b; [done|]. destruct (make_runs k _ _ Hinv Hi0 ltac:(lia) Hs) as (me & p & Hm & _).
    left. eexists. erewrite bind_ok; [reflexivity|]. unfold in_client, zoom. simpl. by rewrite Hm.
  - destruct b; [|done]. assert (current r ∈ writers (sys r)) as Hin by (rewrite Hw; set_solver).
    pose proof (proj1 (write_use msg _ _ (proj1 (proj2 (ci_writers _ _ Hinv) _) Hin))) as Hu.
    unfold mbind, M_bind, get. cbn [snd]. destruct (Huse _ _ Hu Hin) as [[p ->]|]; [left; eauto|by right].
  - destruct b; [|done]. assert (current r ∈ writers (sys r)) as Hin by (rewrite Hw; set_solver).
    pose proof (proj2 (write_use [] _ _ (proj1 (proj2 (ci_writers _ _ Hinv) _) Hin))) as Hu.
    unfold mbind, M_bind, get. cbn [snd]. destruct (Huse _ _ Hu Hin) as [[p ->]|[Hf Ho]]; [left; eexists; reflexivity|right].
    simpl. destruct (in_client _ _). simpl in *. by subst.
Qed.

(** The program never fails: each of its turns succeeds, or waits for the completion of an operation of its writer that gRPC
    holds. *)
Theorem program_never_fails count r a rest :
  (8 * Z.of_nat count < 2 ^ 31)%Z → run_from count r → todo r = a :: rest →
  (∃ x, act a (sys r, current r) = (Ok tt, x)) ∨
  (act a (sys r, current r)).1 = OutOfFuel ∧ outstanding (client (sys r)) ≠ [].
Proof. intros Hc Hr%run_from_inv; [|done]. by apply main_turn. Qed.

(** C24: The program comes to rest only when it has made all its calls, gRPC has returned every operation and all threads have
    left, so that waitForComplete returns - or when a thread has left too early: then an operation of a call bound to its
    queue is never taken. *)
Theorem program_rests count r :
  (8 * Z.of_nat count < 2 ^ 31)%Z → run_from count r → (∀ r', ¬ run_step r r') →
  (todo r = [] ∧ outstanding (client (sys r)) = [] ∧ ∀ q, (0 ≤ q < n)%Z → q ∈ gone (sys r)) ∨
  (∃ tok o c, (tok, o) ∈ outstanding (client (sys r)) ∧
     handlers (handlerManager (client (sys r))) !! getKey tok = Some c ∧ c_cq c ∈ gone (sys r)).
Proof.
  intros Hcount Hr%run_from_inv Hrest; [|done].
  pose proof (client_reachable_inv n _ (ri_reach _ Hr)) as Hinv.
  destruct (outstanding (client (sys r))) as [|[tok o] l] eqn:Hout.
  - left. assert (todo r = []) as Ht.
    { destruct (todo r) as [|a rest] eqn:Ht; [done|]. exfalso.
      destruct (main_turn r a rest Hr Ht) as [[[s cur] Hx]|[_ Ho]]; [by eapply Hrest, rs_main|done]. }
    split; [done|]. split; [done|]. intros q Hq. destruct (decide (q ∈ gone (sys r))) as [|Hg]; [done|].
    exfalso. eapply Hrest, rs_leave. split; [exact Hq|]. split; [exact Hg|].
    apply (client_ends_when_all_closed n _ (ri_reach _ Hr)). split; [done|].
    destruct (ri_shape _ Hr) as (b & Hb & Hw). rewrite Ht in Hb. injection Hb as ->. done.
  - right. destruct (deliver_ok [] tok o l _ _ true no_response true Hinv Hout) as (c & new & Hc & Hd).
    exists tok, o, c. split; [set_solver|]. split; [done|].
    destruct (decide (c_cq c ∈ gone (sys r))) as [|Hg]; [done|]. exfalso.
    destruct (react _ _ _) as [[c' no] out]. destruct Hd as (Hrun & _).
    eapply Hrest, rs_deliver. by eapply (delivers_one _ [] tok o l).
Qed.
End bounded.
End program.

(** ** Witnesses *)

(** A schedule with one thread: the program while it can, then the oldest operation, which succeeds unless it reads, and the
    thread leaves at the end. *)
Definition next_run (r : Run) : option Run :=
  let delivered :=
    match outstanding (client (sys r)) with
    | (tok, o) :: l =>
        c ← handlers (handlerManager (client (sys r))) !! getKey tok;
        match gone (sys r), deliver tok o (negb (bool_decide (class_of o = KRead))) no_response true (set_outstanding l (client (sys r))) with
        | [], (Ok false, p) => Some (mkRun (set_client p (sys r)) (todo r) (current r))
        | _, _ => None
        end
    | [] =>
        match gone (sys r), asyncCompleteRpc_next TIMEOUT (client (sys r)) with
        | [], (Ok true, _) =>
            Some (mkRun (mkSystem (client (sys r)) (writers (sys r)) [0%Z]) (todo r) (current r))
        | _, _ => None
        end
    end in
  match todo r with
  | a :: rest =>
      match act 1 a (sys r, current r) with
      | (Ok tt, (s, cur)) => Some (mkRun s rest cur)
      | _ => delivered
      end
  | [] => delivered
  end.

Lemma timeout_same p b p' : asyncCompleteRpc_next TIMEOUT p = (Ok b, p') → p' = p.
Proof. unfold asyncCompleteRpc_next, mbind, M_bind, get. by intros [= _ <-]. Qed.

Lemma next_run_step r r' : next_run r = Some r' → run_step 1 r r'.
Proof.
  unfold next_run. set (delivered := match outstanding _ with [] => _ | _ => _ end).
  assert (delivered = Some r' → run_step 1 r r') as Hdel.
  { unfold delivered. destruct (outstanding (client (sys r))) as [|[tok o] l] eqn:Ho.
    - destruct (gone (sys r)) eqn:Hg; [|done].
      destruct (asyncCompleteRpc_next TIMEOUT (client (sys r))) as [[[]| | |] p] eqn:Et; try done. intros [= <-].
      rewrite <- Hg. apply (rs_leave 1 r 0). split; [lia|]. split; [by rewrite Hg; set_solver|].
      pose proof (timeout_same _ _ _ Et). congruence.
    - destruct (handlers _ !! _) as [c|] eqn:Hc; [|done]. simpl. destruct (gone (sys r)) eqn:Hg; [|done].
      destruct (deliver _ _ _ _ _ _) as [[[]| | |] p] eqn:Hd; try done. intros [= <-].
      apply rs_deliver. eapply (delivers_one _ [] tok o l c); [done|done|by rewrite Hg; set_solver|exact Hd]. }
  destruct (todo r) as [|a rest] eqn:Ht; [done|].
  destruct (act 1 a (sys r, current r)) as [[[]| | |] [s cur]] eqn:Ha; try done. intros [= <-]. by eapply rs_main.
Qed.

Fixpoint runs_for (fuel : nat) (r : Run) : Run :=
  match fuel with 0 => r | S fuel => match next_run r with Some r' => runs_for fuel r' | None => r end end.

Lemma runs_for_steps fuel r : rtc (run_step 1) r (runs_for fuel r).
Proof.
  revert r. induction fuel as [|fuel IH]; intros r; simpl; [done|].
  destruct (next_run r) as [r'|] eqn:E; [|done]. eapply rtc_l; [by apply next_run_step|apply IH].
Qed.

Definition final_run : Run := runs_for 100 (run_init 1).

Lemma final_run_done : (todo final_run, outstanding (client (sys final_run)), gone (sys final_run)) = ([], [], [0%Z]).
Proof. vm_compute. reflexivity. Qed.

Lemma done_rests r r' :
  todo r = [] → outstanding (client (sys r)) = [] → gone (sys r) = [0%Z] → ¬ run_step 1 r r'.
Proof.
  intros Et Eo Eg [a rest s cur Ht _|s Hd|q (Hq & Hg & _)].
  - by rewrite Et in Ht.
  - destruct Hd as [l1 tok o l2 c ok q st p Hout]. rewrite Eo in Hout. by destruct l1.
  - rewrite Eg in Hg. apply Hg. assert (q = 0%Z) as -> by lia. set_solver.
Qed.

Lemma final_run_rests r' : ¬ run_step 1 final_run r'.
Proof.
  apply done_rests; [exact (f_equal (λ x, x.1.1) final_run_done)|exact (f_equal (λ x, x.1.2) final_run_done)|
    exact (f_equal snd final_run_done)].
Qed.

Lemma program_rests_witness :
  length (outputs (client (sys final_run))) = 8 ∧
  ((todo final_run = [] ∧ outstanding (client (sys final_run)) = [] ∧ ∀ q, (0 ≤ q < 1)%Z → q ∈ gone (sys final_run)) ∨
   (∃ tok o c, (tok, o) ∈ outstanding (client (sys final_run)) ∧
     handlers (handlerManager (client (sys final_run))) !! getKey tok = Some c ∧ c_cq c ∈ gone (sys final_run))).
Proof.
  split; [vm_compute; reflexivity|].
  apply (program_rests 1 ltac:(lia) 1 final_run); [lia|apply runs_for_steps|apply final_run_rests].
Defined.
