(* ===== verification/UseMutex.v ===== *)
(** * Ten threads and one counter (src/thread/use_mutex/main.cpp)

    Each thread prints the counter five times and increments it, under a mutex.  The program has
    too many states to visit, so the proof relates them to those of a smaller machine ([view]): how far
    the main thread is, how many turns each thread has left, and who holds the mutex. *)

From stdpp Require Import functions.
From S2P Require Import Prelude CppString Threads.

(** ** The program *)

Section program.
(** The text of std::this_thread::get_id() in the thread with index [idx]; the number of threads and
    of turns. *)
Context (tid : nat → string) (n turns : nat).

Definition prefix (idx : nat) : string :=
  "thread_id: " +:+ tid idx +:+ ", idx: " +:+ number (Z.of_nat idx) +:+ ", v:".

(** One turn of the loop: the critical section; the sleep after it leaves no trace. *)
Definition turn (idx : nat) : list instr := [Lock; Load 0; StoreInc; SayReg (prefix idx); Unlock].

Definition turns_left (idx r : nat) : list instr := concat (replicate r (turn idx)).
Definition Func (idx : nat) : list instr := turns_left idx turns.

(** Starting the threads, joining them, and the end of the variables. *)
Definition Run : list instr :=
  map (λ i, Spawn i (S i)) (seq 0 n) ++ map Join (seq 0 n) ++ [EndScope (seq 0 n)].

Definition mutex_program : list (list instr) := Run :: map Func (seq 0 n).

(** The line of the thread [idx] when the counter is [v]. *)
Definition v_line (v idx : nat) : string := prefix idx +:+ number (Z.of_nat v).

(** ** Views *)

(** [past]: the instructions the main thread has executed; [left]: the turns a thread has not begun;
    [last]: what it read last; [holder]: who is in its turn, and how many instructions of it
    are done; [who]: whose the lines are. *)
Record view := mkView {
  past : nat;
  left : nat → nat;
  last : nat → nat * Z;
  holder : option (nat * nat);
  who : list nat
}.

Definition in_turn (a : view) (j : nat) : option nat :=
  match holder a with Some (h, s) => if decide (h = j) then Some s else None | None => None end.

Definition started (a : view) : nat := min (past a) n.

Definition worker_code (a : view) (j : nat) : list instr :=
  match in_turn a j with Some s => drop s (turn j) | None => [] end ++ turns_left j (left a j).

Definition worker (a : view) (j : nat) : thread := mkThread (worker_code a j) (last a j) EmptyString Running.

Definition counter (a : view) : nat :=
  length (who a) + match holder a with Some (_, 3) => 1 | _ => 0 end.

Definition handle_at (p i : nat) : option nat := if decide (i < p ∧ p ≤ n + i) then Some (S i) else None.

Definition conc (a : view) : world :=
  mkWorld (mkThread (drop (past a) Run) (0, 0%Z) EmptyString Running :: map (worker a) (seq 0 (started a)))
    (map (handle_at (past a)) (seq 0 n))
    ((λ h, S h.1) <$> holder a)
    [Z.of_nat (counter a)] None true (bool_decide (past a ≤ n + n)) Fine
    (imap v_line (who a)).

Definition lines_of (j : nat) (l : list nat) : nat := length (filter (j =.) l).

(** What is left of the current turn's line. *)
Definition owed (a : view) (j : nat) : nat :=
  match in_turn a j with Some s => if decide (s < 4) then 1 else 0 | None => 0 end.

Record view_ok (a : view) : Prop := {
  ok_past : past a ≤ S (n + n);
  ok_joined j : j < n → n + j < past a → left a j = 0 ∧ in_turn a j = None;
  ok_unborn j : started a ≤ j → left a j = turns ∧ last a j = (0, 0%Z);
  ok_lines j : j < n → lines_of j (who a) + owed a j + left a j = turns;
  ok_idle : Forall (λ j, j < n) (who a);
  ok_holder j s : holder a = Some (j, s) → j < started a ∧ 1 ≤ s ≤ 4;
  ok_loaded j : holder a = Some (j, 2) → last a j = (0, Z.of_nat (counter a));
  ok_stored j : holder a = Some (j, 3) → last a j = (0, Z.of_nat (length (who a)))
}.

(** The instructions that are left. *)
Definition worker_work (a : view) (j : nat) : nat :=
  match in_turn a j with Some s => 5 - s | None => 0 end + 5 * left a j.
Definition work (a : view) : nat := (S (n + n) - past a) + sum_list_with (worker_work a) (seq 0 n).

Definition first_view : view := mkView 0 (λ _, turns) (λ _, (0, 0%Z)) None [].

(** What a step does to the view. *)
Definition main_view (a : view) : view := mkView (S (past a)) (left a) (last a) (holder a) (who a).

Definition worker_view (j : nat) (a : view) : view :=
  match in_turn a j with
  | None => mkView (past a) (<[j := pred (left a j)]> (left a)) (last a) (Some (j, 1)) (who a)
  | Some 1 => mkView (past a) (left a) (<[j := (0, Z.of_nat (counter a))]> (last a)) (Some (j, 2)) (who a)
  | Some 2 => mkView (past a) (left a) (last a) (Some (j, 3)) (who a)
  | Some 3 => mkView (past a) (left a) (last a) (Some (j, 4)) (who a ++ [j])
  | Some _ => mkView (past a) (left a) (last a) None (who a)
  end.

(** ** The program does what its view does *)

Lemma Run_lookup p :
  Run !! p = if decide (p < n) then Some (Spawn p (S p))
             else if decide (p < n + n) then Some (Join (p - n))
             else if decide (p = n + n) then Some (EndScope (seq 0 n)) else None.
Proof.
  unfold Run. repeat case_decide.
  - rewrite lookup_app_l by (rewrite length_map, length_seq; lia).
    rewrite list_lookup_fmap, lookup_seq_lt by lia. done.
  - rewrite lookup_app_r, lookup_app_l by (rewrite ?length_map, ?length_seq; lia).
    rewrite list_lookup_fmap, length_map, length_seq, lookup_seq_lt by lia. done.
  - rewrite !lookup_app_r by (rewrite ?length_map, ?length_seq; lia).
    rewrite !length_map, !length_seq. by replace (p - n - n) with 0 by lia.
  - apply lookup_ge_None. rewrite !length_app, !length_map, length_seq. simpl. lia.
Qed.

Lemma proc_worker j : j < n → proc mutex_program (S j) = Func j.
Proof. intros Hj. unfold proc, mutex_program. simpl. by rewrite list_lookup_fmap, lookup_seq_lt. Qed.

Lemma conc_worker a j : j < started a → threads (conc a) !! S j = Some (worker a j).
Proof. intros Hj. simpl. by rewrite list_lookup_fmap, lookup_seq_lt. Qed.

Lemma conc_no_thread a j : started a ≤ j → threads (conc a) !! S j = None.
Proof. intros Hj. simpl. by rewrite list_lookup_fmap, lookup_seq_ge. Qed.

Lemma alter_map_seq {A} (f : A → A) (g g' : nat → A) j m :
  g' j = f (g j) → (∀ i, i ≠ j → i < m → g' i = g i) → alter f j (map g (seq 0 m)) = map g' (seq 0 m).
Proof.
  intros Hj Hne. apply list_eq. intros i. change (map g' (seq 0 m)) with (g' <$> seq 0 m).
  change (map g (seq 0 m)) with (g <$> seq 0 m). rewrite list_lookup_fmap.
  destruct (decide (i = j)) as [->|Hi]; [rewrite list_lookup_alter_eq|rewrite list_lookup_alter_ne by done];
    rewrite list_lookup_fmap.
  - destruct (seq 0 m !! j) as [x|] eqn:E; [|done]. apply lookup_seq in E as [-> _]. simpl. by rewrite Hj.
  - destruct (seq 0 m !! i) as [x|] eqn:E; [|done]. apply lookup_seq in E as [-> ?]. simpl. by rewrite Hne.
Qed.

Lemma sum_seq_dec (f g : nat → nat) j m :
  j < m → f j = S (g j) → (∀ i, i ≠ j → f i = g i) → sum_list_with f (seq 0 m) = S (sum_list_with g (seq 0 m)).
Proof.
  intros Hj Hfj Hne. induction m as [|m IH]; [lia|].
  rewrite seq_S, !sum_list_with_app. simpl. destruct (decide (j = m)) as [->|].
  - rewrite Hfj. enough (sum_list_with f (seq 0 m) = sum_list_with g (seq 0 m)) by lia.
    clear -Hne. assert (∀ l, m ∉ l → sum_list_with f l = sum_list_with g l) as H.
    { induction l as [|x l IH]; [done|]. intros Hm. apply not_elem_of_cons in Hm as [??]. simpl. rewrite Hne by done. auto. }
    apply H. rewrite elem_of_seq. lia.
  - rewrite Hne by lia. rewrite IH by lia. lia.
Qed.

Definition worker_can (a : view) (j : nat) : bool :=
  match in_turn a j with
  | Some _ => true
  | None => match holder a with None => negb (left a j =? 0) | Some _ => false end
  end.

Definition worker_done (a : view) (j : nat) : bool :=
  match in_turn a j with Some _ => false | None => left a j =? 0 end.

Definition main_can (a : view) : bool :=
  if decide (past a < n) then true
  else if decide (past a < n + n) then worker_done a (past a - n)
  else bool_decide (past a = n + n).

Lemma in_turn_holder a j s : in_turn a j = Some s ↔ holder a = Some (j, s).
Proof.
  unfold in_turn. destruct (holder a) as [[h s']|]; [|done]. case_decide; naive_solver.
Qed.

Lemma over_done a j : view_ok a → past a = S (n + n) → j < n → left a j = 0 ∧ in_turn a j = None.
Proof. intros Hok Hp Hj. apply (ok_joined a Hok); lia. Qed.

Lemma at_worker a a' j f :
  past a' = past a → worker a' j = f (worker a j) → (∀ i, i ≠ j → worker a' i = worker a i) →
  at_thread (S j) f (conc a) = set_threads (threads (conc a')) (conc a).
Proof.
  intros Hp Hj Hne. unfold at_thread. f_equal. simpl. unfold started. rewrite Hp.
  change (alter f (S j) (?x :: ?l)) with (x :: alter f j l). f_equal. apply alter_map_seq; auto.
Qed.

Lemma at_thread_twice i f g w : at_thread i f (at_thread i g w) = at_thread i (f ∘ g) w.
Proof. unfold at_thread, set_threads. simpl. by rewrite list_alter_alter_eq. Qed.

Lemma world_eq w w' :
  threads w = threads w' → handles w = handles w' → mtx w = mtx w' → cells w = cells w' → shared w = shared w' →
  valid w = valid w' → alive w = alive w' → status w = status w' → out w = out w' → w = w'.
Proof. destruct w, w'; simpl; intros; by subst. Qed.

Lemma turns_left_S j r : turns_left j (S r) = turn j ++ turns_left j r.
Proof. done. Qed.

(** The threads of a view whose thread [j] has moved: it and the others. *)
Ltac moved a j E Hh :=
  rewrite ?at_thread_twice; rewrite (at_worker a (worker_view j a)); unfold worker_view; rewrite E;
  [ apply world_eq; simpl; unfold counter; simpl; rewrite ?Hh; try done
  | done
  | unfold worker, worker_code; rewrite E; unfold in_turn; simpl; rewrite ?decide_True by done;
    rewrite ?fn_lookup_insert; try done
  | let i := fresh "i" in let Hi := fresh "Hi" in
    intros i Hi; unfold worker, worker_code, in_turn; simpl; rewrite ?Hh, ?fn_lookup_insert_ne by done;
    rewrite ?decide_False by done; done ].

Lemma worker_steps a j :
  view_ok a → j < started a →
  thread_steps mutex_program (conc a) (S j) = if worker_can a j then [conc (worker_view j a)] else [].
Proof.
  intros Hok Hj. unfold thread_steps. rewrite conc_worker by done.
  destruct (decide (past a = S (n + n))) as [Hp|Hp].
  { unfold worker, worker_code, worker_can. simpl.
    destruct (over_done a j Hok Hp) as [-> ->]; [unfold started in *; lia|]. simpl. by destruct (holder a). }
  assert (alive (conc a) = true) as Hal.
  { simpl. apply bool_decide_eq_true. pose proof (ok_past a Hok). lia. }
  unfold worker, worker_code, worker_can. simpl code.
  destruct (in_turn a j) as [s|] eqn:E.
  - pose proof (proj1 (in_turn_holder _ _ _) E) as Hh.
    destruct (ok_holder a Hok j s Hh) as [_ [Hs1 Hs4]].
    assert (s = 1 ∨ s = 2 ∨ s = 3 ∨ s = 4) as [->|[->|[->| ->]]] by lia; simpl app; rewrite Hal; simpl orb; cbv iota; simpl exec_instr; f_equal.
    + moved a j E Hh.
    + moved a j E Hh. rewrite (ok_loaded a Hok j Hh). unfold counter. rewrite Hh. simpl. f_equal. lia.
    + moved a j E Hh; [rewrite length_app; simpl; do 2 f_equal; lia|].
      rewrite (ok_stored a Hok j Hh), imap_app. simpl. unfold v_line. by rewrite Nat.add_0_r.
    + moved a j E Hh.
  - simpl app. destruct (left a j) as [|r] eqn:El; [by destruct (holder a)|]. rewrite turns_left_S. simpl app.
    rewrite Hal. simpl orb. cbv iota. destruct (holder a) as [[h s]|] eqn:Hh; simpl exec_instr.
    + unfold is_free. simpl. by rewrite Hh.
    + unfold is_free. simpl mtx. rewrite Hh. simpl. f_equal. moved a j E Hh. unfold worker_code. simpl. by rewrite El.
Qed.

Lemma unborn_idle a j : view_ok a → started a ≤ j → in_turn a j = None.
Proof.
  intros Hok Hj. destruct (in_turn a j) as [s|] eqn:E; [|done].
  apply in_turn_holder in E. apply (ok_holder a Hok) in E. lia.
Qed.

Lemma unborn_worker a j :
  view_ok a → started a ≤ j → worker a j = mkThread (Func j) (0, 0%Z) EmptyString Running.
Proof.
  intros Hok Hj. destruct (ok_unborn a Hok j Hj) as [Hl Ht].
  unfold worker, worker_code. by rewrite (unborn_idle a j), Hl, Ht.
Qed.

Lemma handles_insert p j x :
  j < n → handle_at (S p) j = x → (∀ i, i ≠ j → i < n → handle_at (S p) i = handle_at p i) →
  <[j := x]> (map (handle_at p) (seq 0 n)) = map (handle_at (S p)) (seq 0 n).
Proof. intros Hj Hx Hne. rewrite list_insert_alter. by apply alter_map_seq. Qed.

Lemma worker_finished a j :
  view_ok a → j < started a → finished (S j) (conc a) = worker_done a j.
Proof.
  intros Hok Hj. unfold finished. rewrite conc_worker by done. unfold worker, worker_code, worker_done. simpl code.
  destruct (in_turn a j) as [s|] eqn:E; [|by destruct (left a j)].
  apply in_turn_holder, (ok_holder a Hok) in E as [_ Hs].
  assert (s = 1 ∨ s = 2 ∨ s = 3 ∨ s = 4) as [->|[->|[->| ->]]] by lia; done.
Qed.

Lemma conc_handle a i w : i < n → handles w = handles (conc a) → handle i w = handle_at (past a) i.
Proof. intros Hi Hw. unfold handle. rewrite Hw. simpl. by rewrite list_lookup_fmap, lookup_seq_lt. Qed.

Lemma started_main a : n ≤ past a → started (main_view a) = started a.
Proof. unfold started, main_view. cbn [past]. lia. Qed.

Lemma main_steps a :
  view_ok a →
  thread_steps mutex_program (conc a) 0 = if main_can a then [conc (main_view a)] else [].
Proof.
  intros Hok. unfold thread_steps. simpl threads. change ((?x :: ?l) !! 0) with (Some x). cbv iota. simpl code.
  pose proof (Run_lookup (past a)) as HR. unfold main_can. pose proof (ok_past a Hok) as Hp.
  assert (alive (conc a) = bool_decide (past a ≤ n + n)) as Hal by done.
  destruct (decide (past a < n)); [|destruct (decide (past a < n + n)); [|destruct (decide (past a = n + n))]];
    [rewrite (drop_S _ _ _ HR), Hal, bool_decide_eq_true_2 by lia; simpl orb; cbv iota; simpl exec_instr..|].
  - f_equal. apply world_eq; cbn -[seq proc started]; try done.
    + f_equal. rewrite proc_worker, <- (unborn_worker a (past a)) by (done || unfold started; lia).
      assert (started (main_view a) = S (started a)) as -> by (unfold started, main_view; cbn [past]; lia).
      rewrite seq_S, map_app. unfold started. rewrite Nat.min_l by lia. done.
    + rewrite length_map, length_seq. unfold started. rewrite Nat.min_l by lia.
      apply handles_insert; [done|unfold handle_at; rewrite decide_True by lia; done|].
      intros i Hi _. unfold handle_at. repeat case_decide; done || lia.
    + rewrite !bool_decide_eq_true_2 by lia. done.
  - rewrite (conc_handle a) by (done || lia). unfold handle_at. rewrite decide_True by lia. simpl decide.
    destruct (decide (S (past a - n) = 0)); [lia|].
    change (finished (S (past a - n)) (at_thread 0 ?f (conc a))) with (finished (S (past a - n)) (conc a)).
    rewrite worker_finished by (done || unfold started; lia).
    destruct (worker_done a (past a - n)); [|done]. f_equal. apply world_eq; cbn -[seq started]; try done.
    + by rewrite started_main by lia.
    + apply handles_insert; [lia|unfold handle_at; rewrite decide_False by lia; done|].
      intros i Hi ?. unfold handle_at. repeat case_decide; done || lia.
    + rewrite !bool_decide_eq_true_2 by lia. done.
  - rewrite bool_decide_eq_true_2 by done.
    replace (existsb _ _) with false.
    + unfold is_free. simpl mtx. destruct (holder a) as [[h s]|] eqn:Hh.
      * destruct (ok_holder a Hok h s Hh) as [Hst _]. destruct (ok_joined a Hok h) as [_ Hin].
        -- unfold started in Hst. lia.
        -- unfold started in Hst. lia.
        -- apply in_turn_holder in Hh. congruence.
      * simpl. f_equal. apply world_eq; cbn -[seq started]; try done.
        -- by rewrite started_main by lia.
        -- apply map_ext_in. intros i Hi. apply in_seq in Hi. unfold handle_at. rewrite !decide_False by lia. done.
        -- rewrite bool_decide_eq_false_2 by lia. done.
    + symmetry. apply not_true_iff_false. rewrite existsb_exists. intros (h & Hh & Hj). apply in_seq in Hh.
      revert Hj. unfold joinable. rewrite (conc_handle a) by (done || lia). unfold handle_at.
      by rewrite decide_False by lia.
  - rewrite drop_ge by (by apply lookup_ge_None). by rewrite bool_decide_eq_false_2.
Qed.

(** ** Views stay well formed, and shrink *)

Lemma first_view_ok : view_ok first_view.
Proof. split; simpl; try done; intros; lia. Qed.

Lemma main_view_ok a : view_ok a → main_can a = true → view_ok (main_view a).
Proof.
  intros Hok. unfold main_can. pose proof (ok_past a Hok) as Hp.
  assert (started a ≤ started (main_view a)) as Hs by (unfold started, main_view; cbn [past]; lia).
  intros Hc. split; try apply Hok.
  - cbn [past main_view]. repeat case_decide; try lia. apply bool_decide_eq_true in Hc. lia.
  - intros j Hj Hlt. cbn [past main_view] in Hlt. destruct (decide (n + j < past a)); [by apply (ok_joined a Hok)|].
    rewrite decide_False, decide_True in Hc by lia. revert Hc. replace (past a - n) with j by lia.
    unfold worker_done. change (in_turn (main_view a) j) with (in_turn a j).
    destruct (in_turn a j); [done|]. intros ?%Nat.eqb_eq. done.
  - intros j Hj. apply (ok_unborn a Hok). lia.
  - intros j s Hh. apply (ok_holder a Hok) in Hh. lia.
Qed.

Lemma worker_can_alive a j : view_ok a → worker_can a j = true → j < n → past a ≤ n + j.
Proof.
  intros Hok Hc Hj. destruct (decide (n + j < past a)) as [Hlt|]; [|lia].
  destruct (ok_joined a Hok j Hj Hlt) as [Hl Hi]. revert Hc. unfold worker_can. rewrite Hl, Hi. by destruct (holder a).
Qed.

Lemma lines_of_snoc i j l : lines_of i (l ++ [j]) = lines_of i l + if decide (i = j) then 1 else 0.
Proof. unfold lines_of. rewrite filter_app, length_app. f_equal. by case_decide; rewrite filter_cons; repeat case_decide; simplify_eq. Qed.

(** What [worker_view] leaves alone, and what it does to the thread itself. *)
Lemma worker_view_other a j i :
  view_ok a → worker_can a j = true → i ≠ j →
  left (worker_view j a) i = left a i ∧ last (worker_view j a) i = last a i ∧
  in_turn (worker_view j a) i = in_turn a i ∧ lines_of i (who (worker_view j a)) = lines_of i (who a).
Proof.
  intros Hok Hc Hi. unfold worker_can in Hc. unfold worker_view.
  destruct (in_turn a j) as [s|] eqn:E.
  - pose proof (proj1 (in_turn_holder _ _ _) E) as Hh.
    assert (in_turn a i = None) as -> by (unfold in_turn; rewrite Hh; by case_decide).
    destruct s as [|[|[|[|s]]]]; unfold in_turn; cbn [left last holder who]; rewrite ?fn_lookup_insert_ne by done;
      rewrite ?lines_of_snoc; rewrite ?decide_False by congruence; rewrite ?Nat.add_0_r; done.
  - destruct (holder a) as [|] eqn:Hh; [done|].
    unfold in_turn. cbn. rewrite Hh, fn_lookup_insert_ne, decide_False by congruence. done.
Qed.

Lemma worker_view_own a j :
  view_ok a → worker_can a j = true →
  lines_of j (who (worker_view j a)) + owed (worker_view j a) j + left (worker_view j a) j
    = lines_of j (who a) + owed a j + left a j ∧
  worker_work a j = S (worker_work (worker_view j a) j).
Proof.
  intros Hok Hc. unfold worker_can in Hc. unfold worker_view, owed, worker_work.
  destruct (in_turn a j) as [s|] eqn:E.
  - pose proof (proj1 (in_turn_holder _ _ _) E) as Hh. apply (ok_holder a Hok) in Hh as [_ Hs].
    assert (s = 1 ∨ s = 2 ∨ s = 3 ∨ s = 4) as [->|[->|[->| ->]]] by lia;
      unfold in_turn; cbn [holder who left]; rewrite ?decide_True by done;
      rewrite ?lines_of_snoc; repeat case_decide; try done; lia.
  - destruct (holder a) as [|] eqn:Hh; [done|]. destruct (left a j) as [|r]; [done|].
    unfold in_turn. cbn [holder who left]. rewrite fn_lookup_insert. repeat case_decide; try done; lia.
Qed.

Lemma worker_view_ok a j : view_ok a → j < started a → worker_can a j = true → view_ok (worker_view j a).
Proof.
  intros Hok Hj Hc. assert (past (worker_view j a) = past a) as Hp by (unfold worker_view; repeat case_match; done).
  assert (started (worker_view j a) = started a) as Hst by (unfold started; by rewrite Hp).
  assert (j < n) as Hn by (unfold started in Hj; lia).
  pose proof (worker_can_alive a j Hok Hc Hn) as Hal.
  split.
  - rewrite Hp. apply Hok.
  - intros i Hi Hlt. rewrite Hp in Hlt. destruct (worker_view_other a j i) as (-> & _ & -> & _); [done..|lia|].
    by apply (ok_joined a Hok).
  - intros i Hi. rewrite Hst in Hi. destruct (worker_view_other a j i) as (-> & -> & _); [done..|lia|].
    by apply (ok_unborn a Hok).
  - intros i Hi. destruct (decide (i = j)) as [->|Hne].
    + destruct (worker_view_own a j) as [-> _]; [done..|]. by apply (ok_lines a Hok).
    + unfold owed. destruct (worker_view_other a j i) as (-> & _ & -> & ->); [done..|]. by apply (ok_lines a Hok).
  - unfold worker_view. repeat case_match; try apply Hok. simpl. apply Forall_app. split; [apply Hok|by repeat constructor].
  - intros i s. rewrite Hst. unfold worker_view. repeat case_match; simpl; intros; simplify_eq; lia.
  - intros i. unfold worker_view. destruct (in_turn a j) as [[|[|[|[|s]]]]|] eqn:E; cbn [holder last]; try done.
    apply in_turn_holder in E. intros [= <-]. rewrite fn_lookup_insert. unfold counter. cbn [who holder]. by rewrite E.
  - intros i. unfold worker_view. destruct (in_turn a j) as [[|[|[|[|s]]]]|] eqn:E; cbn [holder last who]; try done.
    apply in_turn_holder in E. intros [= <-]. rewrite (ok_loaded a Hok j E). unfold counter. rewrite E. do 2 f_equal. lia.
Qed.

(** ** Steps *)

Lemma conc_steps a w' :
  view_ok a → thread_step mutex_program (conc a) w' →
  ∃ a', w' = conc a' ∧ view_ok a' ∧ work a = S (work a').
Proof.
  intros Hok Hs. unfold thread_step, steps in Hs. cbn [status conc] in Hs.
  apply list_elem_of_In, in_flat_map in Hs as (i & _ & Hs). apply list_elem_of_In in Hs. destruct i as [|j].
  - rewrite main_steps in Hs by done. destruct (main_can a) eqn:Hc; [|by apply elem_of_nil in Hs].
    apply list_elem_of_singleton in Hs as ->. exists (main_view a). pose proof (main_view_ok a Hok Hc) as Hok'.
    split; [done|]. split; [done|]. pose proof (ok_past _ Hok') as Hp. cbn [past main_view] in Hp.
    unfold work. cbn [past main_view]. change (worker_work (main_view a)) with (worker_work a). lia.
  - destruct (decide (j < started a)) as [Hj|Hj].
    + rewrite worker_steps in Hs by done. destruct (worker_can a j) eqn:Hc; [|by apply elem_of_nil in Hs].
      apply list_elem_of_singleton in Hs as ->. exists (worker_view j a).
      split; [done|]. split; [by apply worker_view_ok|].
      unfold work. rewrite (sum_seq_dec (worker_work a) (worker_work (worker_view j a)) j).
      * replace (past (worker_view j a)) with (past a) by (unfold worker_view; repeat case_match; done). lia.
      * unfold started in Hj. lia.
      * by apply worker_view_own.
      * intros i Hi. unfold worker_work. by destruct (worker_view_other a j i) as (-> & _ & -> & _).
    + unfold thread_steps in Hs. rewrite conc_no_thread in Hs by lia. by apply elem_of_nil in Hs.
Qed.

Lemma conc_sleepers a : sleepers (conc a) = [].
Proof.
  destruct (sleepers (conc a)) as [|j l] eqn:E; [done|].
  assert (j ∈ sleepers (conc a)) as Hj by (rewrite E; by left).
  unfold sleepers in Hj. apply list_elem_of_filter in Hj as [Hj _]. apply bool_decide_unpack in Hj.
  destruct j as [|j]; [done|]. simpl in Hj. rewrite list_lookup_fmap in Hj.
  by destruct (seq 0 (started a) !! j).
Qed.

Lemma conc_reaches a w :
  view_ok a → reaches mutex_program (conc a) w → ∃ a', w = conc a' ∧ view_ok a'.
Proof.
  intros Hok Hr. apply (rtc_invariant (any_step mutex_program) (λ w, ∃ a', w = conc a' ∧ view_ok a') (conc a)); [|by eauto|done].
  intros x y (a1 & -> & Hok1) Hs. unfold any_step, wakes in Hs. rewrite conc_sleepers in Hs. cbn [status conc map] in Hs.
  rewrite app_nil_r in Hs. destruct (conc_steps a1 y Hok1 Hs) as (a2 & -> & Hok2 & _). eauto.
Qed.

Lemma conc_nsteps a m w : view_ok a → nsteps (thread_step mutex_program) m (conc a) w → m ≤ work a.
Proof.
  intros Hok Hm. revert a Hok Hm. induction m as [|m IH]; intros a Hok Hm; [lia|].
  inversion Hm as [|? ? y ? Hs Hr]; subst.
  destruct (conc_steps a y Hok Hs) as (a' & -> & Hok' & Hw). specialize (IH a' Hok' Hr). lia.
Qed.

Lemma conc_rest_step a i w' : at_rest mutex_program (conc a) → w' ∉ thread_steps mutex_program (conc a) i.
Proof. intros Hr Hin. apply (Hr w'). by apply (thread_steps_in _ _ i). Qed.

Lemma conc_rest_worker a j : view_ok a → at_rest mutex_program (conc a) → j < started a → worker_done a j = true.
Proof.
  intros Hok Hr Hj.
  assert (∀ i, i < started a → worker_can a i = false) as Hno.
  { intros i Hi. destruct (worker_can a i) eqn:E; [|done].
    destruct (conc_rest_step a (S i) (conc (worker_view i a)) Hr). rewrite worker_steps, E by done. by left. }
  pose proof (Hno j Hj) as Hjn. unfold worker_can, worker_done in *. destruct (in_turn a j) as [s|]; [done|].
  destruct (holder a) as [[h s]|] eqn:Hh; [|by apply negb_false_iff in Hjn].
  destruct (ok_holder a Hok h s Hh) as [Hhs _]. apply in_turn_holder in Hh.
  specialize (Hno h Hhs). by rewrite Hh in Hno.
Qed.

Lemma conc_rest a : view_ok a → at_rest mutex_program (conc a) → past a = S (n + n).
Proof.
  intros Hok Hr. assert (main_can a = false) as Hm.
  { destruct (main_can a) eqn:E; [|done]. destruct (conc_rest_step a 0 (conc (main_view a)) Hr).
    rewrite main_steps, E by done. by left. }
  pose proof (ok_past a Hok). unfold main_can in Hm. repeat case_decide; try done.
  - rewrite (conc_rest_worker a (past a - n)) in Hm; [done..|]. unfold started. lia.
  - apply bool_decide_eq_false in Hm. lia.
Qed.

Lemma lines_of_sum l : Forall (λ j, j < n) l → sum_list_with (λ j, lines_of j l) (seq 0 n) = length l.
Proof.
  induction l as [|x l IH] using rev_ind; intros Hl.
  - clear Hl. induction (seq 0 n) as [|y s IHs]; [done|]. simpl. by rewrite IHs.
  - apply Forall_app in Hl as [Hl Hx]. apply Forall_cons in Hx as [Hx _].
    rewrite (sum_seq_dec _ (λ j, lines_of j l) x), IH, length_app; [simpl; lia|done|done|..].
    + rewrite lines_of_snoc, decide_True by done. lia.
    + intros i Hi. rewrite lines_of_snoc, decide_False by done. lia.
Qed.

Lemma sum_const (f : nat → nat) c m : (∀ j, j < m → f j = c) → sum_list_with f (seq 0 m) = m * c.
Proof.
  intros Hf. induction m as [|m IH]; [done|]. rewrite seq_S, sum_list_with_app. simpl.
  rewrite IH, Hf by auto with lia. lia.
Qed.

Lemma boot_first : boot mutex_program 1 n = conc first_view.
Proof.
  unfold boot. apply world_eq; try done. simpl. apply list_eq. intros i.
  change (map (handle_at 0) (seq 0 n)) with (handle_at 0 <$> seq 0 n). rewrite list_lookup_fmap.
  destruct (decide (i < n)).
  - by rewrite lookup_replicate_2, lookup_seq_lt.
  - rewrite lookup_seq_ge by lia. apply lookup_replicate_None. lia.
Qed.

Lemma mutex_runs w :
  reaches mutex_program (boot mutex_program 1 n) w →
  status w = Fine ∧
  ∃ l, out w = imap v_line l ∧ Forall (λ j, j < n) l ∧ (∀ j, j < n → lines_of j l ≤ turns) ∧
    (at_rest mutex_program w →
     all_finished w = true ∧ length l = n * turns ∧ ∀ j, j < n → lines_of j l = turns).
Proof.
  rewrite boot_first. intros Hr. destruct (conc_reaches _ _ first_view_ok Hr) as (a & -> & Hok).
  split; [done|]. exists (who a). split; [done|]. split; [apply Hok|]. split.
  - intros j Hj. pose proof (ok_lines a Hok j Hj). lia.
  - intros Hrest. pose proof (conc_rest a Hok Hrest) as Hp.
    assert (∀ j, j < n → lines_of j (who a) = turns) as Hl.
    { intros j Hj. destruct (over_done a j Hok Hp Hj) as [Hlj Hij]. pose proof (ok_lines a Hok j Hj) as Hlines.
      unfold owed in Hlines. rewrite Hij, Hlj in Hlines. lia. }
    split; [|split; [|done]].
    + unfold all_finished. cbn [threads conc forallb code]. rewrite drop_ge, andb_true_l.
      * apply forallb_forall. intros t (j & <- & Hj)%in_map_iff. apply in_seq in Hj. unfold started in Hj.
        destruct (over_done a j Hok Hp) as [Hlj Hij]; [lia|]. unfold worker, worker_code. by rewrite Hlj, Hij.
      * apply lookup_ge_None. rewrite Run_lookup. repeat case_decide; done || lia.
    + rewrite <- lines_of_sum by apply Hok. by apply sum_const.
Qed.

Lemma mutex_bounded m w :
  nsteps (thread_step mutex_program) m (boot mutex_program 1 n) w → m ≤ S (n + n) + n * (5 * turns).
Proof.
  rewrite boot_first. intros Hm. apply (conc_nsteps _ _ _ first_view_ok) in Hm.
  unfold work in Hm. rewrite (sum_const _ (5 * turns)) in Hm by done. simpl past in Hm. lia.
Qed.
End program.

(** ** The program of the source: ten threads, five turns each *)

Definition use_mutex (tid : nat → string) : list (list instr) := mutex_program tid 10 5.

(** What main does is Run. *)
Definition use_mutex_main (tid : nat → string) : world := boot (use_mutex tid) 1 10.

(** C39: whatever the schedule, the lines of the ten threads are numbered 0, 1, 2 ... in the order in which they
    are printed; a thread prints at most five; the program ends within 271 steps, and when nothing more
    can happen every thread has printed its five lines and has been joined. *)
Theorem ten_threads_count (tid : nat → string) (w : world) :
  reaches (use_mutex tid) (use_mutex_main tid) w →
  status w = Fine ∧
  (∀ m w', nsteps (thread_step (use_mutex tid)) m (use_mutex_main tid) w' → m ≤ 271) ∧
  ∃ l, out w = imap (v_line tid) l ∧ Forall (λ j, j < 10) l ∧ (∀ j, j < 10 → lines_of j l ≤ 5) ∧
    (at_rest (use_mutex tid) w →
     all_finished w = true ∧ length l = 50 ∧ ∀ j, j < 10 → lines_of j l = 5).
Proof.
  intros Hr. destruct (mutex_runs tid 10 5 w Hr) as [Hs Hl]. split; [done|]. split; [|done].
  intros m w' Hm. by apply mutex_bounded in Hm.
Qed.

(** The threads take their turns round after round. *)
Definition rounds_schedule : list nat :=
  replicate 10 0 ++ concat (replicate 5 (flat_map (λ j, replicate 5 (S j)) (seq 0 10))) ++ replicate 11 0.

Definition rounds_end : world :=
  default (use_mutex_main (λ _, EmptyString))
    (follow (use_mutex (λ _, EmptyString)) rounds_schedule (use_mutex_main (λ _, EmptyString))).

Lemma ten_threads_count_witness :
  status rounds_end = Fine ∧ length (out rounds_end) = 50 ∧ ∃ l, out rounds_end = imap (v_line (λ _, EmptyString)) l.
Proof.
  assert (reaches (use_mutex (λ _, EmptyString)) (use_mutex_main (λ _, EmptyString)) rounds_end) as Hr.
  { apply (follow_reaches _ rounds_schedule). vm_compute. reflexivity. }
  destruct (ten_threads_count (λ _, EmptyString) rounds_end Hr) as (Hs & _ & l & Hl & _ & _ & _).
  split; [exact Hs|]. split; [vm_compute; reflexivity|]. exists l. exact Hl.
Defined.
