(* ===== verification/IocpLog.v ===== *)
(** * The logger of the completion-port server, used by its threads
      (win32_programming/use_iocp/iocp_demo/log.h, log.cpp)

    A message is written item by item, each item first to the file and then to the console, while the
    caller holds the mutex.  Threads take steps of one read of the level, one write, one lock or unlock.
    The specification is a logger that writes a message in one step to one output; the theorem says that
    the threads cannot tell. *)

From S2P Require Import Prelude.

Definition LEVEL_ERROR : Z := 0.
Definition LEVEL_WARN : Z := 1.
Definition LEVEL_INFO : Z := 2.
Definition LEVEL_DEBUG : Z := 3.
Definition LEVEL_ALWAYS : Z := 4.

(** ** Calls *)

(** The public member functions; the arguments as text.  LogAlways needs one. *)
Inductive log_request :=
  | LogAlways (t : bytes) (args : list bytes)
  | LogInfo (args : list bytes)
  | LogWarn (args : list bytes)
  | LogError (args : list bytes)
  | LogDebug (args : list bytes)
  | SetLogLevel (s : bytes).

(** The macros put the name of the function before the arguments. *)
Definition with_function (fn : bytes) (args : list bytes) : list bytes := (str "[" ++ fn ++ str "] ") :: args.

(** ** The logger *)

(** [opened]: the file is open, until the destructor closes it; [owner]: the thread that holds [m]. *)
Record Logger := mkLogger { logLevel : Z; opened : bool; fs : bytes; cout : bytes; owner : option nat }.

(** The constructor, given whether the file could be opened; otherwise the process exits with 1. *)
Definition Logger_Logger (can_open : bool) (console : bytes) : Logger + bytes :=
  if can_open then inl (mkLogger LEVEL_ALWAYS true [] console None)
  else inr (console ++ str "failed to open logfile" ++ [chr 10]).

Definition Logger_dtor (l : Logger) : Logger := mkLogger (logLevel l) false (fs l) (cout l) (owner l).

Definition set_level (n : Z) (l : Logger) : Logger := mkLogger n (opened l) (fs l) (cout l) (owner l).
Definition set_owner (o : option nat) (l : Logger) : Logger := mkLogger (logLevel l) (opened l) (fs l) (cout l) o.

(** Nothing is written to a stream that is closed. *)
Definition put_file (s : bytes) (l : Logger) : Logger :=
  mkLogger (logLevel l) (opened l) (if opened l then fs l ++ s else fs l) (cout l) (owner l).
Definition put_console (s : bytes) (l : Logger) : Logger :=
  mkLogger (logLevel l) (opened l) (fs l) (cout l ++ s) (owner l).

(** What a thread has to do. *)
Inductive op := Request (r : log_request) | SetLevel (n : Z) | LockM | ToFile (s : bytes) | ToConsole (s : bytes) | UnlockM.

Fixpoint Log (args : list bytes) : list op :=
  match args with
  | [] => []
  | [t] => [ToFile (t ++ [chr 10]); ToConsole (t ++ [chr 10])]
  | t :: args => ToFile t :: ToConsole t :: Log args
  end.

Definition guarded (args : list bytes) : list op := LockM :: Log args ++ [UnlockM].

Definition LogInfo_ops (level : Z) (args : list bytes) : list op :=
  if (level <? LEVEL_INFO)%Z then [] else guarded (str "[Info]" :: args).
Definition LogWarn_ops (level : Z) (args : list bytes) : list op :=
  if (level <? LEVEL_WARN)%Z then [] else guarded (str "[Warn]" :: args).
Definition LogError_ops (level : Z) (args : list bytes) : list op :=
  if (level <? LEVEL_ERROR)%Z then [] else guarded (str "[Error]" :: args).
Definition LogDebug_ops (level : Z) (args : list bytes) : list op :=
  if (level <? LEVEL_DEBUG)%Z then [] else guarded (str "[Debug]" :: args).

(** A level that is set and the text that says so, with the name the compiler gives the function. *)
Definition set_and_tell (n : Z) (s : bytes) : list op :=
  SetLevel n :: guarded (with_function (str "Logger::SetLogLevel") [str "SetLogLevel: " ++ s]).

Definition SetLogLevel_ops (s : bytes) : list op :=
  if bool_decide (s = str "error") then set_and_tell LEVEL_ERROR s
  else if bool_decide (s = str "warn") then set_and_tell LEVEL_WARN s
  else if bool_decide (s = str "info") then set_and_tell LEVEL_INFO s
  else if bool_decide (s = str "debug") then set_and_tell LEVEL_DEBUG s
  else [].

(** The body of a call, which reads the level first. *)
Definition request_ops (level : Z) (r : log_request) : list op :=
  match r with
  | LogAlways t args => guarded (t :: args)
  | LogInfo args => LogInfo_ops level args
  | LogWarn args => LogWarn_ops level args
  | LogError args => LogError_ops level args
  | LogDebug args => LogDebug_ops level args
  | SetLogLevel s => SetLogLevel_ops s
  end.

(** ** Threads *)

Record system := mkSystem { logger : Logger; ops : list (list op) }.

(** One step of the thread [i], whose operations are [o :: rest]; [None] while it waits for the mutex. *)
Definition op_step (i : nat) (o : op) (rest : list op) (l : Logger) : option (Logger * list op) :=
  match o with
  | Request r => Some (l, request_ops (logLevel l) r ++ rest)
  | SetLevel n => Some (set_level n l, rest)
  | LockM => match owner l with None => Some (set_owner (Some i) l, rest) | Some _ => None end
  | ToFile s => Some (put_file s l, rest)
  | ToConsole s => Some (put_console s l, rest)
  | UnlockM => Some (set_owner None l, rest)
  end.

Definition system_step (i : nat) (w : system) : option system :=
  match ops w !! i with
  | Some (o :: rest) =>
      '(l, c) ← op_step i o rest (logger w);
      Some (mkSystem l (<[i := c]> (ops w)))
  | _ => None
  end.

Definition step (w w' : system) : Prop := ∃ i, system_step i w = Some w'.

(** The threads make the calls [calls], one list each, of the logger [l]. *)
Definition start (l : Logger) (calls : list (list log_request)) : system := mkSystem l (map (map Request) calls).

Definition idle (w : system) : Prop := ∀ w', ¬ step w w'.

(** ** The specification *)

(** A message that is due is one line. *)
Inductive act := ARequest (r : log_request) | ASetLevel (n : Z) | AEmit (line : bytes).

Record spec := mkSpec { spec_level : Z; spec_out : bytes; spec_acts : list (list act) }.

Definition line (args : list bytes) : bytes := concat args ++ [chr 10].

Definition leveled (level least : Z) (args : list bytes) : list act :=
  if (level <? least)%Z then [] else [AEmit (line args)].

Definition level_names : list (bytes * Z) :=
  [(str "error", LEVEL_ERROR); (str "warn", LEVEL_WARN); (str "info", LEVEL_INFO); (str "debug", LEVEL_DEBUG)].

Definition request_acts (level : Z) (r : log_request) : list act :=
  match r with
  | LogAlways t args => [AEmit (line (t :: args))]
  | LogInfo args => leveled level LEVEL_INFO (str "[Info]" :: args)
  | LogWarn args => leveled level LEVEL_WARN (str "[Warn]" :: args)
  | LogError args => leveled level LEVEL_ERROR (str "[Error]" :: args)
  | LogDebug args => leveled level LEVEL_DEBUG (str "[Debug]" :: args)
  | SetLogLevel s =>
      flat_map (λ p : bytes * Z,
        if bool_decide (s = p.1)
        then [ASetLevel p.2; AEmit (line (with_function (str "Logger::SetLogLevel") [str "SetLogLevel: " ++ s]))]
        else []) level_names
  end.

Inductive spec_step : spec → spec → Prop :=
  | spec_request i r rest s :
      spec_acts s !! i = Some (ARequest r :: rest) →
      spec_step s (mkSpec (spec_level s) (spec_out s) (<[i := request_acts (spec_level s) r ++ rest]> (spec_acts s)))
  | spec_set i n rest s :
      spec_acts s !! i = Some (ASetLevel n :: rest) →
      spec_step s (mkSpec n (spec_out s) (<[i := rest]> (spec_acts s)))
  | spec_emit i t rest s :
      spec_acts s !! i = Some (AEmit t :: rest) →
      spec_step s (mkSpec (spec_level s) (spec_out s ++ t) (<[i := rest]> (spec_acts s))).

Definition spec_start (calls : list (list log_request)) : spec :=
  mkSpec LEVEL_ALWAYS [] (map (map ARequest) calls).

(** ** The simulation *)

(** What a thread that holds no mutex has to do, and what it has to do by the specification. *)
Inductive corr : list op → list act → Prop :=
  | corr_nil : corr [] []
  | corr_request r c a : corr c a → corr (Request r :: c) (ARequest r :: a)
  | corr_set n c a : corr c a → corr (SetLevel n :: c) (ASetLevel n :: a)
  | corr_emit t args c a : corr c a → corr (guarded (t :: args) ++ c) (AEmit (line (t :: args)) :: a).

Definition is_write (o : op) : Prop := match o with ToFile _ | ToConsole _ => True | _ => False end.
Definition file_part (l : list op) : bytes := concat (map (λ o, match o with ToFile s => s | _ => [] end) l).
Definition console_part (l : list op) : bytes := concat (map (λ o, match o with ToConsole s => s | _ => [] end) l).

Lemma Log_parts t args :
  Forall is_write (Log (t :: args)) ∧
  file_part (Log (t :: args)) = line (t :: args) ∧ console_part (Log (t :: args)) = line (t :: args).
Proof.
  revert t. induction args as [|u args IH]; intros t.
  - unfold file_part, console_part, line. simpl. rewrite !app_nil_r. repeat constructor.
  - destruct (IH u) as (Hw & Hf & Hc). split; [by repeat constructor|].
    change (Log (t :: u :: args)) with (ToFile t :: ToConsole t :: Log (u :: args)).
    change (file_part (ToFile t :: ToConsole t :: ?l)) with (t ++ file_part l).
    change (console_part (ToFile t :: ToConsole t :: ?l)) with (t ++ console_part l).
    rewrite Hf, Hc. unfold line. simpl. by rewrite <- !app_assoc.
Qed.

(** The call's operations correspond to its actions. *)
Lemma request_corr level r c a : corr c a → corr (request_ops level r ++ c) (request_acts level r ++ a).
Proof.
  intros Hc.
  assert (∀ least t args,
    corr ((if (level <? least)%Z then [] else guarded (t :: args)) ++ c) (leveled level least (t :: args) ++ a)) as Hl.
  { intros least t args. unfold leveled. destruct (level <? least)%Z; [done|]. by apply corr_emit. }
  destruct r as [t args|args|args|args|args|s]; simpl request_ops; [by apply corr_emit|apply Hl..|].
  unfold SetLogLevel_ops, request_acts, level_names. cbn [flat_map fst snd].
  assert (∀ n, corr (set_and_tell n s ++ c)
    (ASetLevel n :: AEmit (line (with_function (str "Logger::SetLogLevel") [str "SetLogLevel: " ++ s])) :: a)) as Hset.
  { intros n. by apply corr_set, corr_emit. }
  repeat case_bool_decide; try (exfalso; by simplify_eq/=); done || apply Hset.
Qed.

Section simulation.
Context (console : bytes).

(** What is left when the message that is being written, if any, is: of the operations, and to be written
    to the file and to the console. *)
Inductive pending (w : system) : list (list op) → bytes → bytes → Prop :=
  | pending_none : owner (logger w) = None → pending w (ops w) [] []
  | pending_held i todo c :
      owner (logger w) = Some i → ops w !! i = Some (todo ++ UnlockM :: c) → Forall is_write todo →
      pending w (<[i := c]> (ops w)) (file_part todo) (console_part todo).

Definition sim (w : system) (s : spec) : Prop := ∃ cs f g,
  pending w cs f g ∧ logLevel (logger w) = spec_level s ∧ opened (logger w) = true ∧
  fs (logger w) ++ f = spec_out s ∧ cout (logger w) ++ g = console ++ spec_out s ∧ Forall2 corr cs (spec_acts s).

Lemma sim_start calls : sim (start (mkLogger LEVEL_ALWAYS true [] console None) calls) (spec_start calls).
Proof.
  eexists _, _, _. split; [by apply pending_none|]. repeat split; simpl; rewrite ?app_nil_r; try done.
  induction calls as [|l calls IH]; constructor; [|done]. clear. induction l; constructor; done.
Qed.

(** A thread that does not hold the mutex goes on. *)
Lemma pending_other w cs f g k x y l :
  pending w cs f g → owner (logger w) ≠ Some k → ops w !! k = Some x → owner l = owner (logger w) →
  cs !! k = Some x ∧ pending (mkSystem l (<[k := y]> (ops w))) (<[k := y]> cs) f g.
Proof.
  intros Hp Hk Hx Hl. destruct Hp as [Hfree|i todo c Hi Hops Hw].
  - split; [done|]. change (<[k := y]> (ops w)) with (ops (mkSystem l (<[k := y]> (ops w)))) at 2.
    apply pending_none. simpl. congruence.
  - assert (i ≠ k) by congruence. rewrite list_lookup_insert_ne by done. split; [done|].
    rewrite list_insert_insert_ne by done.
    change (<[k := y]> (ops w)) with (ops (mkSystem l (<[k := y]> (ops w)))) at 2.
    apply pending_held; simpl; [congruence|by rewrite list_lookup_insert_ne|done].
Qed.

(** The holder of the mutex goes on; the specification has nothing to do. *)
Lemma sim_holder w s i w' :
  sim w s → owner (logger w) = Some i → system_step i w = Some w' → sim w' s.
Proof.
  intros (cs & f & g & Hp & Hl & Ho & Hf & Hg & Hc) Hi Hs.
  destruct Hp as [?|j todo c Hj Hops Hw]; [congruence|]. assert (j = i) as -> by congruence.
  unfold system_step in Hs. rewrite Hops in Hs. destruct Hw as [|o todo Ho' Hw]; simpl in Hs; simplify_eq.
  - exists (<[i := c]> (ops w)), [], []. split; [by apply (pending_none (mkSystem _ _))|done].
  - exists (<[i := c]> (ops w)), (file_part todo), (console_part todo).
    assert (<[i := c]> (ops w) = <[i := c]> (<[i := todo ++ UnlockM :: c]> (ops w))) as Heq
      by (by rewrite list_insert_insert_eq).
    destruct o; simplify_eq/=; try done; (split; [rewrite Heq; apply (pending_held (mkSystem _ _)); simpl; [done| |done];
      apply list_lookup_insert_eq; by eapply lookup_lt_Some|]); rewrite ?Ho; repeat split; try done;
      rewrite <- app_assoc; done.
Qed.

(** Any other thread goes on; so does the specification. *)
Lemma sim_other w s k w' :
  sim w s → owner (logger w) ≠ Some k → system_step k w = Some w' → ∃ s', spec_step s s' ∧ sim w' s'.
Proof.
  intros (cs & f & g & Hp & Hl & Ho & Hf & Hg & Hc) Hk Hs. unfold system_step in Hs.
  destruct (ops w !! k) as [[|o rest]|] eqn:Hops; [done| |done].
  destruct (op_step k o rest (logger w)) as [[l c]|] eqn:Hop; simplify_eq/=.
  assert (cs !! k = Some (o :: rest)) as Hcs.
  { by destruct (pending_other w cs f g k (o :: rest) c (logger w)). }
  destruct (Forall2_lookup_l _ _ _ _ _ Hc Hcs) as (a & Ha & Hcorr).
  inversion Hcorr as [|r c' a' Hc'|n c' a' Hc'|t args c' a' Hc']; subst; simplify_eq/=.
  - eexists. split; [by eapply spec_request|]. eexists _, f, g.
    split; [by eapply pending_other|]. rewrite <- Hl. repeat split; try done. simpl.
    apply Forall2_insert; [done|]. by apply request_corr.
  - eexists. split; [by eapply spec_set|]. eexists _, f, g.
    split; [by eapply pending_other|]. repeat split; try done. by apply Forall2_insert.
  - destruct (owner (logger w)) eqn:Hw; simplify_eq/=. destruct Hp as [_|? ? ? ?]; [|congruence].
    rewrite app_nil_r in Hf, Hg. destruct (Log_parts t args) as (Hlw & Hlf & Hlc).
    eexists. split; [by eapply spec_emit|].
    exists (<[k := c']> (ops w)), (line (t :: args)), (line (t :: args)). split.
    + rewrite <- Hlf at 1. rewrite <- Hlc.
      assert (<[k := c']> (ops w) = <[k := c']> (<[k := (Log (t :: args) ++ [UnlockM]) ++ c']> (ops w))) as ->
        by (by rewrite list_insert_insert_eq).
      apply (pending_held (mkSystem _ _)); simpl; [done| |done].
      rewrite list_lookup_insert_eq by (by eapply lookup_lt_Some). by rewrite <- app_assoc.
    + repeat split; simpl; try done; [by rewrite Hf|by rewrite Hg, app_assoc|by apply Forall2_insert].
Qed.

Lemma sim_step w s w' : sim w s → step w w' → ∃ s', rtc spec_step s s' ∧ sim w' s'.
Proof.
  intros Hsim [i Hs]. destruct (decide (owner (logger w) = Some i)) as [Hi|Hi].
  - exists s. split; [done|]. by eapply sim_holder.
  - destruct (sim_other w s i w') as (s' & Hss & Hs'); [done..|]. exists s'. split; [by apply rtc_once|done].
Qed.

(** Nobody waits for ever: a system in which nothing can happen has nothing left to do. *)
Lemma sim_idle w s :
  sim w s → idle w →
  owner (logger w) = None ∧ Forall (λ c, c = []) (ops w) ∧ Forall (λ a, a = []) (spec_acts s).
Proof.
  intros (cs & f & g & Hp & _ & _ & _ & _ & Hc) Hidle.
  assert (∀ i, system_step i w = None) as Hno.
  { intros i. destruct (system_step i w) as [w'|] eqn:E; [|done]. destruct (Hidle w'). by exists i. }
  destruct Hp as [Hfree|i todo c Hi Hops Hw].
  - split; [done|]. assert (Forall (λ c, c = []) (ops w)) as Hall.
    { apply Forall_lookup. intros i c Hi. destruct (Forall2_lookup_l _ _ _ _ _ Hc Hi) as (a & _ & Ha).
      specialize (Hno i). unfold system_step in Hno. rewrite Hi in Hno.
      inversion Ha; subst; simpl in Hno; try done. by rewrite Hfree in Hno. }
    split; [done|]. apply Forall_lookup. intros i a Hi.
    destruct (Forall2_lookup_r _ _ _ _ _ Hc Hi) as (c & Hci & Hcorr).
    rewrite (proj1 (Forall_lookup _ _) Hall i c Hci) in Hcorr. by inversion Hcorr.
  - exfalso. specialize (Hno i). unfold system_step in Hno. rewrite Hops in Hno.
    destruct Hw as [|o todo Ho Hw]; [done|]. by destruct o.
Qed.
End simulation.

(** ** Calls end *)

Definition request_cost (r : log_request) : nat :=
  match r with
  | LogAlways t args => length (guarded (t :: args))
  | LogInfo args => length (guarded (str "[Info]" :: args))
  | LogWarn args => length (guarded (str "[Warn]" :: args))
  | LogError args => length (guarded (str "[Error]" :: args))
  | LogDebug args => length (guarded (str "[Debug]" :: args))
  | SetLogLevel s => length (set_and_tell 0 s)
  end.

Definition op_cost (o : op) : nat := match o with Request r => S (request_cost r) | _ => 1 end.
Definition ops_cost (c : list op) : nat := sum_list_with op_cost c.
Definition system_cost (w : system) : nat := sum_list_with ops_cost (ops w).

Lemma writes_cost l : Forall is_write l → ops_cost l = length l.
Proof. unfold ops_cost. induction 1 as [|o l Ho _ IH]; [done|]. simpl. rewrite IH. by destruct o. Qed.

Lemma ops_cost_app l1 l2 : ops_cost (l1 ++ l2) = ops_cost l1 + ops_cost l2.
Proof. apply sum_list_with_app. Qed.

Lemma guarded_cost t args : ops_cost (guarded (t :: args)) = length (guarded (t :: args)).
Proof.
  unfold guarded. change (LockM :: ?l) with ([LockM] ++ l). rewrite !ops_cost_app, !length_app.
  by rewrite (writes_cost (Log _)) by apply Log_parts.
Qed.

Lemma request_ops_cost level r : ops_cost (request_ops level r) ≤ request_cost r.
Proof.
  assert (∀ least t args,
    ops_cost (if (level <? least)%Z then [] else guarded (t :: args)) ≤ length (guarded (t :: args))) as Hl.
  { intros least t args. destruct (level <? least)%Z; [unfold ops_cost; simpl; lia|]. by rewrite guarded_cost. }
  destruct r as [t args|args|args|args|args|s]; simpl request_ops; try apply Hl.
  - by rewrite guarded_cost.
  - unfold SetLogLevel_ops. repeat case_bool_decide; unfold ops_cost; simpl; lia.
Qed.

Lemma step_cost w w' : step w w' → system_cost w' < system_cost w.
Proof.
  intros [i Hs]. unfold system_step in Hs. destruct (ops w !! i) as [[|o rest]|] eqn:Hi; [done| |done].
  destruct (op_step i o rest (logger w)) as [[l c]|] eqn:Hop; simplify_eq/=.
  unfold system_cost. simpl. pose proof (sum_list_with_insert ops_cost (ops w) i _ c Hi) as Hsum.
  assert (ops_cost c < ops_cost (o :: rest)) by
    (unfold op_step in Hop; repeat case_match; simplify_eq; unfold ops_cost; rewrite ?sum_list_with_app; simpl;
     try match goal with |- context [request_ops ?l ?r] => pose proof (request_ops_cost l r) end;
     unfold ops_cost in *; lia).
  lia.
Qed.

Lemma steps_cost m w w' : nsteps step m w w' → m + system_cost w' ≤ system_cost w.
Proof. induction 1 as [|m x y z Hs _ IH]; [lia|]. apply step_cost in Hs. lia. Qed.

(** ** Refinement *)

(** C40: threads that log through the shared logger behave as if each message were written in one step, to both
    outputs: in every reachable state there is a run of the specification that has written what the file
    and the console have together with the rest of at most one message, of the holder of the mutex; while
    nobody holds it they have just that.  The calls end after a bounded number of steps, and when nothing
    more can happen every call of every thread has been carried out. *)
Theorem logger_refines (console : bytes) (l : Logger) (calls : list (list log_request)) (w : system) :
  Logger_Logger true console = inl l →
  rtc step (start l calls) w →
  ∃ s, rtc spec_step (spec_start calls) s ∧ logLevel (logger w) = spec_level s ∧
    (∃ f g, fs (logger w) ++ f = spec_out s ∧ cout (logger w) ++ g = console ++ spec_out s ∧
      (owner (logger w) = None → f = [] ∧ g = [])) ∧
    (∀ m w', nsteps step m (start l calls) w' → m ≤ system_cost (start l calls)) ∧
    (idle w → owner (logger w) = None ∧ Forall (λ c, c = []) (ops w) ∧ Forall (λ a, a = []) (spec_acts s)).
Proof.
  intros [= <-] Hr.
  assert (∃ s, rtc spec_step (spec_start calls) s ∧ sim console w s) as (s & Hss & Hsim).
  { apply (rtc_invariant step (λ w, ∃ s, rtc spec_step (spec_start calls) s ∧ sim console w s)
             (start (mkLogger LEVEL_ALWAYS true [] console None) calls)); [| |done].
    - intros a b (s & Hs & Ha) Hab. destruct (sim_step console a s b Ha Hab) as (s' & Hs' & Hb).
      exists s'. split; [by etrans|done].
    - exists (spec_start calls). split; [done|apply sim_start]. }
  exists s. split; [done|]. split; [by destruct Hsim as (? & ? & ? & ? & ? & ?)|]. split; [|split].
  - destruct Hsim as (cs & f & g & Hp & _ & _ & Hf & Hg & _). exists f, g. split; [done|]. split; [done|].
    intros Hfree. destruct Hp; [done|congruence].
  - intros m w' Hm. apply steps_cost in Hm. lia.
  - by eapply sim_idle.
Qed.

(** Two threads: one message between the items of the other. *)
Definition two_calls : list (list log_request) :=
  [[LogError [str "a"; str "b"]]; [SetLogLevel (str "info"); LogDebug [str "c"]]].

Fixpoint run (sched : list nat) (w : system) : system :=
  match sched with
  | [] => w
  | i :: sched => match system_step i w with Some w' => run sched w' | None => run sched w end
  end.

Lemma run_reaches sched w : rtc step w (run sched w).
Proof.
  revert w. induction sched as [|i sched IH]; intros w; simpl; [apply rtc_refl|].
  destruct (system_step i w) as [w'|] eqn:E; [|apply IH]. eapply rtc_l; [by exists i|apply IH].
Qed.

(** [0] waits with its message half written while [1] sets the level and asks for the mutex. *)
Definition half_way : system :=
  run [0; 0; 0; 1; 1; 1] (start (mkLogger LEVEL_ALWAYS true [] [] None) two_calls).

Lemma logger_refines_witness :
  Logger_Logger true [] = inl (mkLogger LEVEL_ALWAYS true [] [] None) ∧
  fs (logger half_way) = str "[Error]" ∧ logLevel (logger half_way) = LEVEL_INFO ∧
  ∃ s, rtc spec_step (spec_start two_calls) s ∧ spec_level s = LEVEL_INFO.
Proof.
  split; [reflexivity|]. split; [reflexivity|]. split; [reflexivity|].
  destruct (logger_refines [] (mkLogger LEVEL_ALWAYS true [] [] None) two_calls half_way) as (s & Hs & Hl & _).
  - reflexivity.
  - apply run_reaches.
  - exists s. split; [exact Hs|]. rewrite <- Hl. reflexivity.
Defined.
