(* ===== verification/EchoNet.v ===== *)
(** * The echo client and the echo server together

    (linux_programming/socket/client/use_poll/main.cpp and server/use_epoll/edge_triggered/main.cpp.)
    The client sends what is typed without the line ends; the connection delivers what was sent, or the
    first part of it, in pieces of its own; a session of the server reads them, event by event, and answers sentence
    by sentence as its socket takes the answers. *)

From S2P Require Import Prelude CppString Posix RefKernel EchoServer EchoClient.

(** What the typist is to get back for the sentences [ws]. *)
Definition answers_to (ws : list bytes) : bytes := concat (map (λ w, str "[" ++ reverse w ++ str "]") ws).

(** ** Texts are cut into sentences in one way *)

Lemma text_of_cons w ws rest : text_of (w :: ws) rest = w ++ FULL_STOP :: text_of ws rest.
Proof. unfold text_of. simpl. by rewrite <- !app_assoc. Qed.

Lemma stop_split w t w' t' :
  no_stop w → no_stop w' → w ++ FULL_STOP :: t = w' ++ FULL_STOP :: t' → w = w' ∧ t = t'.
Proof.
  intros Hw Hw' Heq. pose proof (find_stop w t Hw) as H1. rewrite Heq, find_stop in H1 by done.
  injection H1 as H1. apply app_inj_1 in Heq as [-> Heq]; [|done]. split; [done|]. by injection Heq.
Qed.

Lemma stop_in_text w t r : no_stop r → w ++ FULL_STOP :: t ≠ r.
Proof. intros Hr <-. apply Hr, elem_of_app. right. by left. Qed.

Lemma text_of_inj ws1 r1 ws2 r2 :
  Forall no_stop ws1 → no_stop r1 → Forall no_stop ws2 → no_stop r2 →
  text_of ws1 r1 = text_of ws2 r2 → ws1 = ws2 ∧ r1 = r2.
Proof.
  intros Hw1 Hr1. revert ws2. induction Hw1 as [|w1 ws1 Hw Hw1 IH]; intros [|w2 ws2] Hw2 Hr2 Heq.
  - done.
  - rewrite text_of_cons in Heq. by apply eq_sym, stop_in_text in Heq.
  - rewrite text_of_cons in Heq. by apply stop_in_text in Heq.
  - apply Forall_cons in Hw2 as [Hw' Hw2]. rewrite !text_of_cons in Heq.
    apply stop_split in Heq as [-> Heq]; [|done..]. by destruct (IH ws2 Hw2 Hr2 Heq) as [-> ->].
Qed.

(** The first part of a text is its first sentences and the beginning of another. *)
Lemma text_prefix p ws rest :
  Forall no_stop ws → no_stop rest → p `prefix_of` text_of ws rest →
  ∃ n r, no_stop r ∧ p = text_of (take n ws) r ∧ (p = text_of ws rest → n = length ws ∧ r = rest).
Proof.
  intros Hws Hrest [q Hq]. destruct (text_split p) as (ws1 & r1 & Hw1 & Hr1 & ->).
  destruct (text_split (r1 ++ q)) as (ws2 & r2 & Hw2 & Hr2 & Heq).
  rewrite (text_of_app ws1 r1 q ws2 r2 Heq) in Hq.
  apply text_of_inj in Hq as [-> ->]; [|done|done|by apply Forall_app|done].
  exists (length ws1), r1. split; [done|]. split; [by rewrite take_app_length|].
  intros Hall. by apply text_of_inj in Hall as [<- ->].
Qed.

(** ** A session and its socket *)

Section session.
  Context {K : Type} `{!Kernel K, !KernelLaws K} (read_fuel : nat) (fd id : Z).
  Implicit Types e : Echo K.

(** The read and write events of one connection, with the pieces its socket delivers.  Between them the kernel goes on, but
    sends nothing on this socket. *)
Inductive session_run : list bytes → Echo K → Echo K → Prop :=
  | sr_start e : session_run [] e e
  | sr_read bss eof k' ps e e1 e' :
      conns e !! fd = Some id → reads READ_BUF_SIZE fd (ekern e) bss eof k' →
      SessionManager_CanRead read_fuel id e = (Ok tt, e1) → session_run ps e1 e' → session_run (bss ++ ps) e e'
  | sr_write ps e e1 e' :
      conns e !! fd = Some id → SessionManager_CanWrite id e = (Ok tt, e1) → session_run ps e1 e' → session_run ps e e'
  | sr_kernel ps k' e e' :
      fds k' = fds (ekern e) → watched k' = watched (ekern e) → sent fd k' = sent fd (ekern e) →
      session_run ps (set_ekern k' e) e' → session_run ps e e'.

(** When the read loop returns, it has appended all the pieces. *)
Lemma read_all_pieces n k bss eof k' fuel s t b k'' :
  reads n fd k bss eof k' → Ascii.zero ∉ concat bss → read_all n n fuel fd s k = (Ok (t, b), k'') →
  t = s ++ concat bss ∧ b = eof ∧ k'' = k'.
Proof.
  intros Hr. revert fuel s. induction Hr as [k k' H|k k' H|k bs k1 bss eof k' H Hne Hr IH];
    intros [|fuel] s Hz; try done; cbn [read_all concat] in *; unfold mbind, M_bind, syscall; rewrite H.
  - intros [= <- <- <-]. by rewrite app_nil_r.
  - intros [= <- <- <-]. by rewrite app_nil_r.
  - rewrite not_elem_of_app in Hz. destruct Hz as [Hz1 Hz2]. destruct bs as [|c bs]; [done|].
    destruct (decide (length (c :: bs) < n)) as [Hlt|Hge].
    + rewrite filled_short by done. intros Hread. destruct (IH fuel _ Hz2 Hread) as (-> & -> & ->).
      by rewrite <- app_assoc.
    + rewrite filled_full; [done| |done]. pose proof (read_len _ _ _ _ _ H). lia.
Qed.

(** The session has answered the sentences [ws] and keeps [r]: the answers are sent, but for the end that waits in its
    output; a closed session has sent them all. *)
Definition answered (sent0 : bytes) (ws : list bytes) (r : bytes) e : Prop :=
  (conns e !! fd = Some id ∧ ∃ s, sobjs e !! id = Some s ∧ s_input s = r ∧
     sent fd (ekern e) ++ s_output s = sent0 ++ concat (map reply ws)) ∨
  (conns e !! fd = None ∧ sent fd (ekern e) = sent0 ++ concat (map reply ws)).

Lemma answered_kernel sent0 ws r k' e :
  sent fd k' = sent fd (ekern e) → answered sent0 ws r e → answered sent0 ws r (set_ekern k' e).
Proof. intros Hs H. unfold answered in *. simpl. by rewrite Hs. Qed.

Lemma read_answers sent0 ws r bss eof k' e e1 :
  echo_inv e → conns e !! fd = Some id → reads READ_BUF_SIZE fd (ekern e) bss eof k' → Ascii.zero ∉ concat bss →
  SessionManager_CanRead read_fuel id e = (Ok tt, e1) → answered sent0 ws r e → no_stop r →
  ∃ ws1 r1, r ++ concat bss = text_of ws1 r1 ∧ Forall no_stop ws1 ∧ no_stop r1 ∧
    echo_inv e1 ∧ answered sent0 (ws ++ ws1) r1 e1.
Proof.
  intros Hi Hfd Hr Hz Hread Ha Hstop. destruct Ha as [(_ & s & Hs & Hin & Hout)|[Hnone _]]; [|congruence].
  destruct (CanRead_inv read_fuel fd id e e1 Hi Hfd Hread) as (Hi1 & Hc & _ & _ & _ & _ & Hsent).
  destruct (text_split (r ++ concat bss)) as (ws1 & r1 & Hws1 & Hr1 & Ht).
  exists ws1, r1. split_and!; [done..|]. rewrite (CanRead_eq read_fuel fd id s e Hi Hfd Hs) in Hread. cbv zeta in Hread.
  destruct (read_all _ _ _ fd [] (ekern e)) as [[[t b]|x| |] k''] eqn:E; try done.
  destruct (read_all_pieces _ _ _ _ _ _ _ _ _ _ Hr Hz E) as (-> & -> & ->). simpl in Hread.
  rewrite (feed_text_of (concat bss) (s_input s) (s_output s) ws1 r1) in Hread by (done || by rewrite Hin).
  injection Hread as <-. left. split; [done|]. eexists. split; [apply with_session_lookup|].
  split; [by destruct eof|]. rewrite Hsent, map_app, concat_app. destruct eof; simpl; by rewrite !app_assoc, Hout.
Qed.

Lemma write_answers sent0 ws r e e1 :
  echo_inv e → conns e !! fd = Some id → SessionManager_CanWrite id e = (Ok tt, e1) → answered sent0 ws r e →
  echo_inv e1 ∧ answered sent0 ws r e1.
Proof.
  intros Hi Hfd Hw [(_ & s & Hs & Hin & Hout)|[Hnone _]]; [|congruence].
  destruct (CanWrite_cases fd id s e Hi Hfd Hs) as (x & e2 & Hw' & H). rewrite Hw in Hw'. injection Hw' as <- <-.
  destruct H as (d & rest & Hd & Hi1 & _ & _ & _ & Hsent & H). split; [done|].
  destruct (ch_isEof (s_conn s) && bool_decide (rest = [])) eqn:Hb.
  - right. destruct H as (Hc & _). rewrite Hc. split; [apply lookup_delete_eq|].
    apply andb_true_iff in Hb as [_ ->%bool_decide_eq_true]. rewrite app_nil_r in Hd. by rewrite Hsent, <- Hd.
  - left. destruct H as (Hc & _ & Hs1). split; [congruence|]. eexists. split; [exact Hs1|]. simpl. split; [done|].
    by rewrite Hsent, <- app_assoc, <- Hd.
Qed.

(** A session that has read some pieces has answered the sentences in them, in order. *)
Lemma session_run_answers ps e e' sent0 ws r :
  session_run ps e e' → Ascii.zero ∉ concat ps → echo_inv e → answered sent0 ws r e → no_stop r →
  ∃ ws' r', r ++ concat ps = text_of ws' r' ∧ Forall no_stop ws' ∧ no_stop r' ∧ answered sent0 (ws ++ ws') r' e'.
Proof.
  intros Hrun. revert ws r.
  induction Hrun as [e|bss eof k' ps e e1 e' Hfd Hr Hread Hrun IH|ps e e1 e' Hfd Hw Hrun IH|ps k' e e' Hf Hwk Hsk Hrun IH];
    intros ws r Hz Hi Ha Hstop.
  - exists [], r. rewrite !app_nil_r. by split_and!.
  - rewrite concat_app, not_elem_of_app in Hz. destruct Hz as [Hz1 Hz2].
    destruct (read_answers sent0 ws r bss eof k' e e1 Hi Hfd Hr Hz1 Hread Ha Hstop) as (ws1 & r1 & Ht & Hws1 & Hr1 & Hi1 & Ha1).
    destruct (IH (ws ++ ws1) r1 Hz2 Hi1 Ha1 Hr1) as (ws2 & r2 & Ht2 & Hws2 & Hr2 & Ha2).
    exists (ws1 ++ ws2), r2. rewrite concat_app, app_assoc, Ht, (text_of_app ws1 r1 (concat ps) ws2 r2 Ht2).
    split_and!; [done|by apply Forall_app|done|by rewrite app_assoc].
  - destruct (write_answers sent0 ws r e e1 Hi Hfd Hw Ha) as [Hi1 Ha1]. by apply IH.
  - apply IH; [done| |by apply answered_kernel|done]. destruct Hi as [H1 H2 H3 H4 H5 H6]. split; simpl; rewrite ?Hwk; auto.
Qed.
End session.

(** ** Together *)

(** C32: the client has run for any number of turns, however its loop ended; what it sent, or any first part of it, has been
    delivered to a new session in pieces of any size, and the session has handled any sequence of read and write events
    that is not undefined (no piece fills its buffer, main.cpp:153).  Then what its socket took, with the output it still
    holds unless it is closed, is just the answers to the sentences delivered, in order, reversed and in brackets; once
    all that was typed is delivered, to every sentence, and the session keeps what was typed after the last full stop. *)
Theorem typed_sentences_answered {C K} `{!Kernel C, !KernelLaws C, !StreamKernel C, !StreamLaws C} `{!Kernel K, !KernelLaws K}
    fuel cfd (c : Client C) o c' l read_fuel fd id (e e' : Echo K) s ps ws rest :
  client_loop fuel cfd (mkTurn POLLIN []) c = (o, c') → sent cfd (ckern c) = [] → entered c' = entered c ++ l →
  strip (concat l) = text_of ws rest → Forall no_stop ws → no_stop rest → Ascii.zero ∉ concat l →
  echo_inv e → conns e !! fd = Some id → sobjs e !! id = Some s → s_input s = [] → s_output s = [] →
  session_run read_fuel fd id ps e e' → concat ps `prefix_of` sent cfd (ckern c') →
  ∃ n r, answered fd id (sent fd (ekern e)) (take n ws) r e' ∧
    (concat ps = strip (concat l) → n = length ws ∧ r = rest).
Proof.
  intros Hrun Hnone Hl Htext Hws Hrest Hzl Hi Hfd Hs Hin Hout Hsession Hps.
  apply (passes_loop cfd) in Hrun as (_ & unsent & (l' & He & Hsent) & _); [|apply turn_ok_init].
  rewrite Hl in He. apply app_inv_head in He as <-. rewrite Hnone in Hsent. simpl in Hsent.
  assert (concat ps `prefix_of` strip (concat l)) as Hpre.
  { rewrite <- Hsent. etrans; [exact Hps|]. by apply prefix_app_r. }
  assert (Ascii.zero ∉ concat ps) as Hz.
  { intros H. apply Hzl. destruct Hpre as [x Hx]. assert (Ascii.zero ∈ strip (concat l)) as Hin0.
    { rewrite Hx. apply elem_of_app. by left. }
    by apply list_elem_of_filter in Hin0 as [_ Hin0]. }
  destruct (session_run_answers read_fuel fd id ps e e' (sent fd (ekern e)) [] []) as (ws' & r' & Ht & Hws' & Hr' & Ha);
    [done|done|done| |apply not_elem_of_nil|].
  { left. split; [done|]. exists s. rewrite Hout. split_and!; [done|done|by rewrite !app_nil_r]. }
  rewrite Htext in Hpre. destruct (text_prefix (concat ps) ws rest) as (n & r & Hr & Hp & Hall); [done..|].
  simpl in Ht. rewrite Hp in Ht. apply text_of_inj in Ht as [<- <-]; [|by apply Forall_take|done..].
  exists n, r. split; [done|]. intros H. apply Hall. by rewrite <- Htext.
Qed.

(** "ab." and "cd" are typed on two lines. *)
Definition typing : Client ref_kernel :=
  mkClient (mkRef {[0; 5]}%Z ∅ {[0%Z := [str "ab." ++ [LINE_FEED]; str "cd" ++ [LINE_FEED]]]} {[5%Z := 9]} ∅ []
    [[(0, POLLIN)]; [(0, POLLIN); (5, POLLOUT)]]%Z) [] [].

(** The connection delivers "ab.c" in three pieces, of which the session reads two at one event, and the socket takes
    two characters of the answer at first. *)
Definition wit_e0 : Echo ref_kernel :=
  mkEcho (mkRef {[3; 4; 5]}%Z {[4; 5]}%Z {[5%Z := [str "ab"; str "."]]} {[5%Z := 2]} ∅ [] [])
    3 4 {[5%Z := 1%Z]} 1 {[1%Z]} {[1%Z := mkSession 1 [] [] false false false (mkConnHandler 5 (str "127.0.0.1") 443 false)]}.
Definition wit_e1 := Eval vm_compute in (SessionManager_CanRead 10 1 wit_e0).2.
Definition wit_e2 := Eval vm_compute in (SessionManager_CanWrite 1 wit_e1).2.
Definition wit_k2 : ref_kernel :=
  mkRef (rk_fds (ekern wit_e2)) (rk_watched (ekern wit_e2)) {[5%Z := [str "c"]]} {[5%Z := 100]} (rk_sent (ekern wit_e2)) [] [].
Definition wit_e3 := Eval vm_compute in (SessionManager_CanRead 10 1 (set_ekern wit_k2 wit_e2)).2.
Definition wit_e4 := Eval vm_compute in (SessionManager_CanWrite 1 wit_e3).2.

Lemma wit_e0_inv : echo_inv wit_e0.
Proof.
  split; try done; try decide_closed.
  - intros fd id H. simpl in H. apply lookup_singleton_Some in H as [<- <-]. simpl.
    split_and!; [lia|lia|set_solver|]. eexists. split; [apply lookup_singleton_eq|done].
  - intros id Hid. simpl in Hid. apply elem_of_singleton in Hid as ->. exists 5%Z. done.
Qed.

Lemma wit_run : session_run 10 5 1 ([str "ab"; str "."] ++ [str "c"] ++ []) wit_e0 wit_e4.
Proof.
  eapply sr_read; [reflexivity| |vm_compute; reflexivity|].
  { eapply reads_more; [reflexivity|done|]. eapply reads_more; [reflexivity|done|]. apply reads_again. reflexivity. }
  eapply (sr_write 10 5 1 _ _ wit_e2); [vm_compute; reflexivity..|].
  apply (sr_kernel 10 5 1 _ wit_k2); [vm_compute; reflexivity..|].
  eapply (sr_read 10 5 1 _ _ _ _ _ wit_e3); [reflexivity| |vm_compute; reflexivity|].
  { eapply reads_more; [reflexivity|done|]. apply reads_again. reflexivity. }
  eapply (sr_write 10 5 1 _ _ wit_e4); [vm_compute; reflexivity..|]. apply sr_start.
Qed.

Lemma typed_sentences_answered_witness :
  sent 5%Z (ckern (client_loop 2 5 (mkTurn POLLIN []) typing).2) = str "ab.cd" ∧
  sent 5%Z (ekern wit_e4) = str "[ba]" ∧
  ∃ n r, answered 5 1 [] (take n [str "ab"]) r wit_e4.
Proof.
  do 2 (split; [vm_compute; reflexivity|]).
  destruct (typed_sentences_answered (C := ref_kernel) (K := ref_kernel) 2 5%Z typing (client_loop 2 5 (mkTurn POLLIN []) typing).1
    (client_loop 2 5 (mkTurn POLLIN []) typing).2 [str "ab." ++ [LINE_FEED]; str "cd" ++ [LINE_FEED]]
    10 5%Z 1%Z wit_e0 wit_e4
    (mkSession 1 [] [] false false false (mkConnHandler 5 (str "127.0.0.1") 443 false))
    ([str "ab"; str "."] ++ [str "c"] ++ []) [str "ab"] (str "cd")) as (n & r & H & _).
  - apply surjective_pairing.
  - reflexivity.
  - vm_compute. reflexivity.
  - vm_compute. reflexivity.
  - repeat constructor. decide_closed.
  - decide_closed.
  - decide_closed.
  - apply wit_e0_inv.
  - reflexivity.
  - reflexivity.
  - reflexivity.
  - reflexivity.
  - apply wit_run.
  - exists (str "d"). vm_compute. reflexivity.
  - exists n, r. exact H.
Defined.
