(* ===== verification/SharedLibrary.v ===== *)
(** * Libraries loaded by a running program (shared_library/call_func/, shared_library/static_init/)

    What a library constructs when it is loaded, what the program prints of it, and what is destroyed
    when the process ends.  dlopen is a parameter: it gives the text of an error, or runs the
    library's initialisers. *)

From S2P Require Import Prelude.

(** ** The process *)

(** What std::exit does, last registered first: destroy an object, or the vector of [m]. *)
Inductive at_exit := Deconstruct (name : string) | DestroyVector.

(** [pointers]: the static vector of [m], once it is constructed; objects are known by what [name] returns.
    [living]: the objects that exist. *)
Record process := mkProcess {
  pointers : option (list string);
  living : list string;
  exits : list at_exit;
  printed : list string
}.

Definition say (s : string) : M process unit :=
  modify (λ p, mkProcess (pointers p) (living p) (exits p) (printed p ++ [s])).
Definition register (x : at_exit) : M process unit :=
  modify (λ p, mkProcess (pointers p) (living p) (x :: exits p) (printed p)).
Definition set_living (l : list string) : M process unit :=
  modify (λ p, mkProcess (pointers p) l (exits p) (printed p)).
Definition set_pointers (v : option (list string)) : M process unit :=
  modify (λ p, mkProcess v (living p) (exits p) (printed p)).

(** The vector, constructed by the first call. *)
Definition m : M process (list string) :=
  p ← get;
  match pointers p with
  | Some v => mret v
  | None => set_pointers (Some []);; register DestroyVector;; mret []
  end.

Definition add_new (x : string) : M process unit :=
  v ← m; set_pointers (Some (v ++ [x])).

(** A virtual call: the object has to exist. *)
Definition name (x : string) : M process string :=
  p ← get; if bool_decide (x ∈ living p) then mret x else undef.

Definition print_all : M process unit :=
  say "================================";;
  v ← m;
  for_each (λ x, n ← name x; say n) v;;
  say "--------------------------------".

(** The constructors of D1 and D2 of call_func; the destructor is registered when they are done. *)
Definition D_construct (x : string) : M process unit :=
  p ← get; set_living (x :: living p);;
  say ("construct: " +:+ x);;
  add_new x;;
  register (Deconstruct x).

(** The constructor of static_init, which tells nobody. *)
Definition D1_construct : M process unit :=
  p ← get; set_living ("D1" :: living p);;
  say "construct: D1";;
  register (Deconstruct "D1").

Definition D_deconstruct (x : string) : M process unit :=
  say ("deconstruct: " +:+ x);;
  p ← get; set_living (filter (λ y, y ≠ x) (living p)).

(** What happens when main has returned. *)
Definition exit_process : M process unit :=
  p ← get;
  for_each (λ x, match x with Deconstruct x => D_deconstruct x | DestroyVector => set_pointers None end) (exits p).

Definition fresh : process := mkProcess None [] [] [].

(** ** The programs *)

Section programs.
Context (dlopen : string → string + M process unit).

(** The failure is told, and the rest is done all the same. *)
Definition load_lib (lib_path : string) : M process unit :=
  match dlopen lib_path with
  | inl error_msg => say ("failed to load: " +:+ lib_path +:+ ", error msg: " +:+ error_msg)
  | inr init => init
  end;;
  say ("lib " +:+ lib_path +:+ " loaded").

(** [argv[1]] of a program that was given nothing is a null pointer, of which no string can be made. *)
Definition argument (argv : list string) : M process string :=
  when (bool_decide (length argv = 1)) (say "must give a so path");;
  match argv !! 1 with Some s => mret s | None => undef end.

(** call_func: [d2] is constructed before main. *)
Definition call_func (argv : list string) : M process unit :=
  D_construct "D2";;
  lib_path ← argument argv;
  print_all;;
  load_lib lib_path;;
  print_all;;
  exit_process.

Definition static_init (argv : list string) : M process unit :=
  lib_path ← argument argv;
  load_lib lib_path;;
  exit_process.

(** ** Theorems *)

Definition rule1 : string := "================================".
Definition rule2 : string := "--------------------------------".

(** The library's object joins the one of the program, behind it, and is destroyed before it, although no
    variable of main refers to it. *)
Theorem call_func_loads cmd path :
  dlopen path = inr (D_construct "D1") →
  ∃ p, call_func [cmd; path] fresh = (Ok tt, p) ∧ living p = [] ∧
    printed p = ["construct: D2"; rule1; "D2"; rule2; "construct: D1"; "lib " +:+ path +:+ " loaded";
                 rule1; "D2"; "D1"; rule2; "deconstruct: D1"; "deconstruct: D2"].
Proof. intros H. eexists. split; [cbv; rewrite H; cbv; reflexivity|]. split; reflexivity. Qed.

(** A library that cannot be loaded is reported as loaded. *)
Theorem failed_is_loaded cmd path e :
  dlopen path = inl e →
  ∃ p, call_func [cmd; path] fresh = (Ok tt, p) ∧ living p = [] ∧
    printed p = ["construct: D2"; rule1; "D2"; rule2;
                 "failed to load: " +:+ path +:+ ", error msg: " +:+ e; "lib " +:+ path +:+ " loaded";
                 rule1; "D2"; rule2; "deconstruct: D2"].
Proof. intros H. eexists. split; [cbv; rewrite H; cbv; reflexivity|]. split; reflexivity. Qed.

(** Without an argument both programs print that they need one, and go on with a null pointer. *)
Theorem no_argument_undefined cmd :
  (∃ p, call_func [cmd] fresh = (Undef, p) ∧ printed p = ["construct: D2"; "must give a so path"]) ∧
  (∃ p, static_init [cmd] fresh = (Undef, p) ∧ printed p = ["must give a so path"]).
Proof. split; eexists; (split; [reflexivity|]; reflexivity). Qed.

(** A static object of the library lives from the load to the end of the process. *)
Theorem static_init_loads cmd path :
  dlopen path = inr D1_construct →
  ∃ p, static_init [cmd; path] fresh = (Ok tt, p) ∧ living p = [] ∧
    printed p = ["construct: D1"; "lib " +:+ path +:+ " loaded"; "deconstruct: D1"].
Proof. intros H. eexists. split; [cbv; rewrite H; cbv; reflexivity|]. split; reflexivity. Qed.
End programs.

(** ** The vector and what it points to *)

(** Every pointer of the vector is to an object that exists. *)
Definition registered_ok (p : process) : Prop :=
  match pointers p with Some v => Forall (λ x, x ∈ living p) v | None => True end.

Lemma print_each v p :
  Forall (λ x, x ∈ living p) v →
  for_each (λ x, n ← name x; say n) v p = (Ok tt, mkProcess (pointers p) (living p) (exits p) (printed p ++ v)).
Proof.
  revert p. induction v as [|x v IH]; intros p Hv; simpl; [by destruct p; rewrite app_nil_r|].
  apply Forall_cons in Hv as [Hx Hv]. unfold name, say, modify, get, mbind, M_bind in *. cbn.
  rewrite bool_decide_eq_true_2 by done. cbn. rewrite IH by done. cbn. by rewrite <- app_assoc.
Qed.

Lemma print_all_run p :
  registered_ok p →
  ∃ p', print_all p = (Ok tt, p') ∧ registered_ok p' ∧
    printed p' = printed p ++ [rule1] ++ default [] (pointers p) ++ [rule2].
Proof.
  intros Hok. unfold print_all.
  rewrite (bind_ok _ _ _ tt (mkProcess (pointers p) (living p) (exits p) (printed p ++ [rule1]))) by done.
  unfold registered_ok in *. destruct (pointers p) as [v|] eqn:E.
  - eexists. rewrite (bind_ok m _ _ v (mkProcess (Some v) (living p) (exits p) (printed p ++ [rule1]))) by done.
    erewrite bind_ok by (by apply print_each). split; [reflexivity|]. cbn. split; [done|]. by rewrite <- !app_assoc.
  - eexists. split; [reflexivity|]. cbn. split; [done|]. by rewrite <- !app_assoc.
Qed.

Lemma D_construct_run x p :
  ∃ p', D_construct x p = (Ok tt, p') ∧ pointers p' = Some (default [] (pointers p) ++ [x]) ∧
    living p' = x :: living p ∧ printed p' = printed p ++ ["construct: " +:+ x].
Proof. unfold D_construct. destruct p as [[v|] l e o]; eexists; (split; [reflexivity|]); done. Qed.

Lemma construct_all xs p :
  ∃ p', for_each D_construct xs p = (Ok tt, p') ∧
    default [] (pointers p') = default [] (pointers p) ++ xs ∧ living p' = reverse xs ++ living p ∧
    printed p' = printed p ++ map (λ x, "construct: " +:+ x) xs.
Proof.
  revert p. induction xs as [|x xs IH]; intros p.
  { exists p. simpl. rewrite !app_nil_r. done. }
  destruct (D_construct_run x p) as (p1 & H1 & Hp1 & Hl1 & Ho1). destruct (IH p1) as (p2 & H2 & Hp2 & Hl2 & Ho2).
  exists p2. cbn [for_each]. rewrite (bind_ok _ _ _ _ _ H1). split; [done|].
  rewrite Hp2, Hp1, Hl2, Hl1, Ho2, Ho1. simpl. rewrite reverse_cons, <- !app_assoc. done.
Qed.

(** Objects that are constructed one library after the other are printed in that order, and every pointer the
    vector holds is to an object that exists. *)
Theorem loaded_are_printed xs :
  ∃ p p', for_each D_construct xs fresh = (Ok tt, p) ∧ print_all p = (Ok tt, p') ∧
    printed p' = map (λ x, "construct: " +:+ x) xs ++ [rule1] ++ xs ++ [rule2].
Proof.
  destruct (construct_all xs fresh) as (p & Hp & Hv & Hl & Ho).
  destruct (print_all_run p) as (p' & Hp' & _ & Ho').
  { unfold registered_ok. destruct (pointers p) as [v|]; [|done]. simpl in Hv. subst v.
    rewrite Hl. apply Forall_forall. intros x Hx. apply elem_of_app. left. by apply elem_of_reverse. }
  exists p, p'. split; [done|]. split; [done|]. by rewrite Ho', Ho, Hv.
Qed.
