(* ===== verification/Objects.v ===== *)
(** * Objects and how functions find them (trick/vptr/, template/reflection/, syntax/class/this_pointer/delete_this/)

    Three programs that go below the types of the language: one reads the table of virtual functions
    out of an object, one recovers the type of an object from a tag, one deletes the object whose
    member function is running. *)

From S2P Require Import Prelude.

(** What is printed is the state. *)
Definition say (s : string) : M (list string) unit := modify (λ o, o ++ [s]).

(** ** trick/vptr/main.cpp *)

Module Vptr.

(** The functions of the program that can be called through a pointer. *)
Inductive func := B_func | D_func.

Definition call (f : func) : M (list string) unit :=
  match f with B_func => say "B::func()" | D_func => say "D::func()" end.

(** A pointer to a member function as the Itanium ABI has it, which the program relies on: an even [ptr] is
    the address of the function, an odd one is one more than the offset in the table of the object at
    [adj] from the address given. *)
Record member_ptr := mkMember { ptr : Z; adj : Z }.

Section memory.
(** The words of the memory, and the functions at code addresses. *)
Context (word : Z → Z) (code_at : Z → option func).

(** The address of the table is the first word of an object; the function is the first of the table. *)
Definition vptr (obj : Z) : Z := word obj.
Definition run_code (a : Z) : M (list string) unit := match code_at a with Some f => call f | None => undef end.
Definition call_virtual (obj : Z) (offset : Z) : M (list string) unit := run_code (word (vptr obj + offset)%Z).

Definition call_member (obj : Z) (f : member_ptr) : M (list string) unit :=
  if Z.even (ptr f) then run_code (ptr f) else call_virtual (obj + adj f)%Z (ptr f - 1)%Z.

(** [&B::func]: the function is virtual, the first of its table. *)
Definition B_func_ptr : member_ptr := mkMember 1 0.

(** The union: [fb.p] is the first half of [fb.f]; nothing is stored in the other. *)
Definition through_void (p : Z) (garbage : Z) : member_ptr := mkMember p garbage.

(** main, up to the lines that print addresses; [b] and [d] are where the objects are. *)
Definition vptr_main (b d : Z) (garbage_b garbage_d : Z) : M (list string) unit :=
  let fb := through_void (word (word b)) garbage_b in
  let fd := through_void (word (word d)) garbage_d in
  call_virtual d 0;;
  call B_func;;
  call_member d B_func_ptr;;
  call_member d fb;;
  call_member d fd.

(** A program that was laid out by the compiler: objects start with the address of their class's table, whose first
    entry is the even address of the class's function. *)
Definition laid_out (b d : Z) : Prop :=
  Z.even (word (word b)) = true ∧ code_at (word (word b)) = Some B_func ∧
  Z.even (word (word d)) = true ∧ code_at (word (word d)) = Some D_func.

(** The five calls print what the comments beside them say, whatever is in the halves of the pointers that are
    never set: a virtual call and a call through a pointer to a virtual member find the object's own
    function, a name with its class and the words of a table find what they name. *)
Theorem calls_as_commented b d gb gd out :
  laid_out b d →
  vptr_main b d gb gd out = (Ok tt, out ++ ["D::func()"; "B::func()"; "D::func()"; "B::func()"; "D::func()"]).
Proof.
  intros (Eb & Cb & Ed & Cd). unfold vptr_main, call_member, call_virtual, vptr, run_code, through_void, B_func_ptr.
  cbn [ptr adj]. change (Z.even 1) with false. change (1 - 1)%Z with 0%Z. cbv iota.
  rewrite !Z.add_0_r, Eb, Ed, Cb, Cd. unfold mbind, M_bind. cbn. unfold say, modify. by rewrite <- !app_assoc.
Qed.
End memory.

(** Tables at 100 and 200, functions at 1000 and 2000, objects at 10 and 20. *)
Definition sample_word (a : Z) : Z :=
  (if a =? 10 then 100 else if a =? 20 then 200 else if a =? 100 then 1000 else if a =? 200 then 2000 else 0)%Z.
Definition sample_code (a : Z) : option func :=
  (if a =? 1000 then Some B_func else if a =? 2000 then Some D_func else None)%Z.

Lemma calls_as_commented_witness :
  laid_out sample_word sample_code 10 20 ∧
  vptr_main sample_word sample_code 10 20 7 9 [] =
    (Ok tt, ["D::func()"; "B::func()"; "D::func()"; "B::func()"; "D::func()"]).
Proof.
  assert (laid_out sample_word sample_code 10 20) as H by (repeat split).
  split; [exact H|]. apply (calls_as_commented sample_word sample_code 10 20 7 9 [] H).
Defined.
End Vptr.

(** ** template/reflection/main.cpp *)

Module Reflection.

Inductive cls := Foo | Bar | Baz.

#[global] Instance cls_eq_dec : EqDecision cls.
Proof. solve_decision. Defined.

Definition DataTypeEnum_FOO : Z := 0.
Definition DataTypeEnum_BAR : Z := 1.
Definition DataTypeEnum_BAZ : Z := 2.

Definition print_foo : M (list string) unit := say "Foo".
Definition print_bar : M (list string) unit := say "Bar".
Definition print_baz : M (list string) unit := say "Baz".

(** print of a pointer to a class. *)
Definition print (c : cls) : M (list string) unit :=
  match c with Foo => print_foo | Bar => print_bar | Baz => print_baz end.

(** print of a pointer to void, with the class to take it for; an object that was made as another class may
    not be used as that one. *)
Definition print_as (c : cls) (data : cls) : M (list string) unit :=
  if decide (c = data) then print c else undef.

(** A value of the enumeration may be any int; the switch has no default. *)
Definition process_data (type_enum : Z) (func : cls → M (list string) unit) : M (list string) unit :=
  if (type_enum =? DataTypeEnum_FOO)%Z then func Foo
  else if (type_enum =? DataTypeEnum_BAR)%Z then func Bar
  else if (type_enum =? DataTypeEnum_BAZ)%Z then func Baz
  else mret tt.

Definition reflection_main : M (list string) unit :=
  process_data DataTypeEnum_FOO (λ p, print_as p Foo);;
  process_data DataTypeEnum_BAR (λ p, print_as p Bar);;
  process_data DataTypeEnum_BAZ (λ p, print_as p Baz).

Definition tag_of (c : cls) : Z :=
  match c with Foo => DataTypeEnum_FOO | Bar => DataTypeEnum_BAR | Baz => DataTypeEnum_BAZ end.

(** Data is printed as what it is when the tag says so; a tag of another class is undefined, and a tag that
    is none does nothing, silently. *)
Theorem tag_decides tag data out :
  process_data tag (λ p, print_as p data) out =
    if (tag =? tag_of data)%Z then print data out
    else if ((0 <=? tag) && (tag <=? 2))%Z then (Undef, out) else (Ok tt, out).
Proof.
  unfold process_data, tag_of, DataTypeEnum_FOO, DataTypeEnum_BAR, DataTypeEnum_BAZ, print_as.
  destruct (Z.eqb_spec tag 0) as [->|]; [by destruct data|].
  destruct (Z.eqb_spec tag 1) as [->|]; [by destruct data|].
  destruct (Z.eqb_spec tag 2) as [->|]; [by destruct data|].
  assert (((0 <=? tag) && (tag <=? 2))%Z = false) as -> by lia.
  destruct data; by rewrite (proj2 (Z.eqb_neq tag _)).
Qed.

Theorem main_prints_all out : reflection_main out = (Ok tt, out ++ ["Foo"; "Bar"; "Baz"]).
Proof.
  unfold reflection_main. rewrite (bind_ok _ _ _ tt (out ++ ["Foo"])) by reflexivity.
  rewrite (bind_ok _ _ _ tt ((out ++ ["Foo"]) ++ ["Bar"])) by reflexivity.
  change (process_data _ _ ?o) with (print_baz o). unfold print_baz, say, modify. by rewrite <- !app_assoc.
Qed.
End Reflection.

(** ** syntax/class/this_pointer/delete_this/main.cpp *)

Module DeleteThis.

(** The one object, while it exists, and what was printed. *)
Record world := mkWorld { object : option string; lines : list string }.

Definition print_line (s : string) : M world unit := modify (λ w, mkWorld (object w) (lines w ++ [s])).

(** A member function of an object that does not exist is undefined, whether it looks at it or not. *)
Definition this : M world string := w ← get; match object w with Some s => mret s | None => undef end.

Definition A_new (s : string) : M world unit := modify (λ w, mkWorld (Some s) (lines w)).
Definition A_delete : M world unit := print_line "~A()";; modify (λ w, mkWorld None (lines w)).

Definition PrintString : M world unit := s ← this; print_line ("A::PrintString(), s: " +:+ s).
Definition PrintX (x : string) : M world unit := this;; print_line ("A::PrintX(), x: " +:+ x).
Definition Release : M world unit := this;; print_line "A::Release()";; A_delete.

Definition Run : M world unit :=
  A_new "sss";;
  PrintString;;
  Release;;
  PrintX "xxx";;
  PrintString.

(** The object may delete itself; what Run does with it afterwards is undefined. *)
Theorem use_after_release :
  (A_new "sss";; PrintString;; Release) (mkWorld None []) =
    (Ok tt, mkWorld None ["A::PrintString(), s: sss"; "A::Release()"; "~A()"]) ∧
  Run (mkWorld None []) = (Undef, mkWorld None ["A::PrintString(), s: sss"; "A::Release()"; "~A()"]).
Proof. split; reflexivity. Qed.
End DeleteThis.
