(* ===== verification/RandomClock.v ===== *)
(** * Random numbers and a stopwatch (random/random_number_generator/, chrono/stopwatch/)

    The generator is std::mt19937, whose numbers the C++ standard fixes, and a distribution, whose numbers
    it leaves to the library: a parameter.  The stopwatch reads a steady clock. *)

From Stdlib Require Import QArith.
From S2P Require Import Prelude.

#[local] Open Scope Z_scope.

(** ** std::mt19937 *)

Definition mt_n : nat := 624.
Definition mt_m : nat := 397.

(** The state: the last [mt_n] words, the oldest first. *)
Abbreviation engine := (list Z).

Definition word (l : engine) (i : nat) : Z := default 0 (l !! i).

Fixpoint seed_words (k : nat) (i x : Z) : engine :=
  match k with
  | O => []
  | S k => x :: seed_words k (i + 1) (u32 (1812433253 * Z.lxor x (Z.shiftr x 30) + (i + 1)))
  end.

Definition mt_seed (value : Z) : engine := seed_words mt_n 0 (u32 value).

Definition twist (l : engine) : Z :=
  let y := Z.lor (Z.land (word l 0) 0x80000000) (Z.land (word l 1) 0x7fffffff) in
  Z.lxor (Z.lxor (word l mt_m) (Z.shiftr y 1)) (if Z.odd y then 0x9908b0df else 0).

Definition temper (x : Z) : Z :=
  let x := Z.lxor x (Z.land (Z.shiftr x 11) 0xffffffff) in
  let x := Z.lxor x (Z.land (u32 (Z.shiftl x 7)) 0x9d2c5680) in
  let x := Z.lxor x (Z.land (u32 (Z.shiftl x 15)) 0xefc60000) in
  Z.lxor x (Z.shiftr x 18).

Definition mt_next (l : engine) : Z * engine :=
  let x := twist l in (temper x, tail l ++ [x]).

Fixpoint mt_discard (k : nat) (l : engine) : engine :=
  match k with O => l | S k => mt_discard k (mt_next l).2 end.

(** The value the standard asks for: the 10000th of a default-constructed engine. *)
Example mt_10000th : (mt_next (mt_discard (Z.to_nat 9999) (mt_seed 5489))).1 = 4123659995.
Proof. vm_compute. reflexivity. Qed.

(** Nothing below depends on the numbers themselves. *)
#[local] Opaque mt_seed.

(** ** RandNumGenerator *)

(** std::uniform_int_distribution between two bounds: a value and what is left of the engine. *)
Class Distribution := distribution : Z → Z → engine → Z * engine.

(** What the standard promises of it. *)
Class DistributionLaw `{!Distribution} := distribution_between : ∀ min max g,
  min ≤ max → min ≤ (distribution min max g).1 ≤ max.

Section random.
Context `{!Distribution}.

Record RandNumGenerator := mkRand { gen : engine; dist_min : Z; dist_max : Z }.

(** The constructor; [rd] is what std::random_device gave. *)
Definition RandNumGenerator_new (rd min max : Z) : RandNumGenerator := mkRand (mt_seed rd) min max.

(** The seed is converted to the engine's unsigned type. *)
Definition SetSeed (seed : Z) (r : RandNumGenerator) : RandNumGenerator :=
  mkRand (mt_seed (u64 seed)) (dist_min r) (dist_max r).

Definition Get (r : RandNumGenerator) : Z * RandNumGenerator :=
  let '(x, g) := distribution (dist_min r) (dist_max r) (gen r) in
  (x, mkRand g (dist_min r) (dist_max r)).

Fixpoint gets (k : nat) (r : RandNumGenerator) : list Z * RandNumGenerator :=
  match k with
  | O => ([], r)
  | S k => let '(x, r) := Get r in let '(l, r) := gets k r in (x :: l, r)
  end.

(** The numbers main prints, before the seed is set and after. *)
Definition random_run (k : nat) (seed lo hi rd : Z) : list Z * list Z :=
  let '(before, r) := gets k (RandNumGenerator_new rd lo hi) in
  let '(after, _) := gets k (SetSeed seed r) in
  (before, after).

Definition random_main (rd : Z) : list Z * list Z := random_run 10 42 1 100 rd.

Lemma gets_bounds k r : dist_min (gets k r).2 = dist_min r ∧ dist_max (gets k r).2 = dist_max r.
Proof.
  revert r. induction k as [|k IH]; intros r; [done|]. cbn [gets]. unfold Get.
  destruct (distribution _ _ _) as [x g].
  destruct (IH (mkRand g (dist_min r) (dist_max r))) as [H1 H2].
  by destruct (gets k (mkRand g (dist_min r) (dist_max r))) as [l r'].
Qed.

Lemma gets_between `{!DistributionLaw} k r :
  dist_min r ≤ dist_max r →
  length (gets k r).1 = k ∧ Forall (λ x, dist_min r ≤ x ≤ dist_max r) (gets k r).1.
Proof.
  revert r. induction k as [|k IH]; intros r Hr; [done|]. cbn [gets]. unfold Get.
  pose proof (distribution_between (dist_min r) (dist_max r) (gen r) Hr) as Hx.
  destruct (distribution _ _ _) as [x g].
  destruct (IH (mkRand g (dist_min r) (dist_max r)) Hr) as [Hn Hall].
  destruct (gets k (mkRand g (dist_min r) (dist_max r))) as [l r']. simpl in *. split; [by rewrite Hn|by constructor].
Qed.

(** A seeded generator does not depend on what it was before. *)
Lemma reseeded k seed e lo hi : SetSeed seed (gets k (mkRand e lo hi)).2 = mkRand (mt_seed (u64 seed)) lo hi.
Proof. destruct (gets_bounds k (mkRand e lo hi)) as [H1 H2]. unfold SetSeed. by rewrite H1, H2. Qed.

Lemma run_parts k seed lo hi rd :
  random_run k seed lo hi rd =
    ((gets k (mkRand (mt_seed rd) lo hi)).1, (gets k (mkRand (mt_seed (u64 seed)) lo hi)).1).
Proof.
  unfold random_run, RandNumGenerator_new. generalize (mt_seed rd) as e. intros e.
  rewrite <- (reseeded k seed e lo hi). destruct (gets k (mkRand e lo hi)) as [l r]. cbn [snd fst].
  by destruct (gets k (SetSeed seed r)).
Qed.

Lemma run_between `{!DistributionLaw} k seed lo hi rd :
  lo ≤ hi →
  length (random_run k seed lo hi rd).1 = k ∧ length (random_run k seed lo hi rd).2 = k ∧
  Forall (λ x, lo ≤ x ≤ hi) ((random_run k seed lo hi rd).1 ++ (random_run k seed lo hi rd).2).
Proof.
  intros Hlh. rewrite run_parts. cbn [fst snd].
  destruct (gets_between k (mkRand (mt_seed rd) lo hi) Hlh) as [Hn Hb].
  destruct (gets_between k (mkRand (mt_seed (u64 seed)) lo hi) Hlh) as [Hn' Hb'].
  split; [exact Hn|]. split; [exact Hn'|]. apply Forall_app. split; [exact Hb|exact Hb'].
Qed.

Lemma run_repeats k seed lo hi rd rd' : (random_run k seed lo hi rd).2 = (random_run k seed lo hi rd').2.
Proof. rewrite !run_parts. reflexivity. Qed.

(** main prints ten numbers from 1 to 100, and ten more, which are the same in every run, whatever the
    random device gives. *)
Theorem seeded_run_repeats `{!DistributionLaw} rd rd' :
  (random_main rd).2 = (random_main rd').2 ∧
  length (random_main rd).1 = 10%nat ∧ length (random_main rd).2 = 10%nat ∧
  Forall (λ x, 1 ≤ x ≤ 100) ((random_main rd).1 ++ (random_main rd).2).
Proof. split; [apply run_repeats|apply run_between; lia]. Qed.
End random.

(** A distribution with a slight bias, as many libraries have had. *)
#[local] Instance modulo_distribution : Distribution := λ min max g,
  let '(x, g) := mt_next g in (min + x mod (max - min + 1), g).

#[local] Instance modulo_law : DistributionLaw.
Proof.
  intros min max g H. unfold distribution, modulo_distribution. destruct (mt_next g) as [x g']. simpl.
  pose proof (Z.mod_pos_bound x (max - min + 1)). lia.
Qed.

Lemma seeded_run_repeats_witness : (random_main 7).2 = (random_main 9).2 ∧ length (random_main 7).1 = 10%nat.
Proof. destruct (seeded_run_repeats 7 9) as (H & Hl & _). split; [exact H|exact Hl]. Defined.

(** ** Stopwatch *)

(** [elapsed] has no value until Stop is called; times are in nanoseconds. *)
Record Stopwatch := mkStopwatch { startTime : Z; elapsed : option Z }.

(** [now]: what the steady clock shows. *)
Definition Stopwatch_Start (now : Z) (w : Stopwatch) : Stopwatch := mkStopwatch now (elapsed w).
Definition Stopwatch_new (now : Z) : Stopwatch := Stopwatch_Start now (mkStopwatch 0 None).
Definition Stopwatch_Stop (now : Z) (w : Stopwatch) : Stopwatch := mkStopwatch (startTime w) (Some (now - startTime w)).

(** Milliseconds as a double; rounding is not modelled. *)
Definition ElapsedMs (w : Stopwatch) : result Q :=
  match elapsed w with Some e => Ok (inject_Z e / inject_Z 1000000)%Q | None => Undef end.

(** main: three readings of the clock, a sleep between the last two. *)
Definition stopwatch_main (t0 t1 t2 : Z) : result Q :=
  ElapsedMs (Stopwatch_Stop t2 (Stopwatch_Start t1 (Stopwatch_new t0))).

(** What is shown is the time since the last Start, whatever was measured before, and a stopwatch that was
    never stopped has nothing to show. *)
Theorem shows_last_interval w t1 t2 ms :
  t1 + ms * 1000000 ≤ t2 →
  (∃ q, ElapsedMs (Stopwatch_Stop t2 (Stopwatch_Start t1 w)) = Ok q ∧ (inject_Z ms <= q)%Q) ∧
  ElapsedMs (Stopwatch_Start t1 (Stopwatch_new t2)) = Undef.
Proof.
  intros H. split; [|done]. eexists. split; [reflexivity|]. simpl.
  apply Qle_shift_div_l; [done|]. rewrite <- inject_Z_mult. rewrite <- Zle_Qle. lia.
Qed.

Lemma shows_last_interval_witness : ∃ q, stopwatch_main 0 5 100000005 = Ok q ∧ (inject_Z 100 <= q)%Q.
Proof. apply (shows_last_interval (Stopwatch_new 0) 5 100000005 100). vm_compute. discriminate. Defined.
