(* ===== verification/IocpMain.v ===== *)
(** * The program of the completion-port server (win32_programming/use_iocp/iocp_demo/main.cpp)

    One thread starts the server of Iocp.v while the main thread reads words until one is "exit" and then
    stops it.  Nothing makes the main thread wait for the start. *)

From S2P Require Import Prelude Iocp.

Definition PORT : Z := 10001.
Definition POOL_SIZE : nat := 5.

(** The thread that calls [IOCP::start]: before it; with the handles made; with the accepting thread and some
    threads of the pool created. *)
Inductive starter := SBegin | SHandles (p : IOCP) | SPool (p : IOCP) (n : nat).

(** The main thread: reading words, or in [stop]. *)
Inductive reader := Reading (words : list string) | Exit.

Inductive program :=
  | Launch (words : list string)
  | Booting (s : starter) (m : reader)
  | Serving (st : server) (m : reader)    (* start has returned *)
  | Returned                              (* from main, everything joined *)
  | Caught                                (* main has logged an exception and ends *)
  | Terminated                            (* std::terminate *)
  | Raced.                                (* the vector of threads was read while start appended to it *)

(** [std::cin >> s]; at the end of the input the word stays empty and the loop goes on. *)
Definition read_word (words : list string) : reader :=
  match words with
  | w :: words => if bool_decide (w = "exit") then Exit else Reading words
  | [] => Reading []
  end.

Section program.
(** Whether WSAStartup succeeds; what the system answers to the calls of start. *)
Context (winsock : bool) (answers : start_answers).

(** A step that the threads of the server take before [start] returns may as well be taken just after, so
    they begin then. *)
Inductive run_step : program → program → Prop :=
  | run_init words :
      run_step (Launch words) (if winsock then Booting SBegin (Reading words) else Caught)
  | run_read_booting s words : run_step (Booting s (Reading words)) (Booting s (read_word words))
  | run_read_serving st words : run_step (Serving st (Reading words)) (Serving st (read_word words))
  | run_start m p : start answers IOCP_IOCP = (Ok tt, p) → run_step (Booting SBegin m) (Booting (SHandles p) m)
  | run_start_throws m e p : start answers IOCP_IOCP = (Throw e, p) → run_step (Booting SBegin m) Terminated
  | run_accept p m : run_step (Booting (SHandles p) m) (Booting (SPool p 0) m)
  | run_push p n m : n < POOL_SIZE → run_step (Booting (SPool p n) m) (Booting (SPool p (S n)) m)
  | run_started p m : run_step (Booting (SPool p POOL_SIZE) m) (Serving (server_init p POOL_SIZE) m)
  (* [join] of a thread that is not there throws, and the handler destroys [t], which is joinable *)
  | run_stop_before s :
      match s with SPool _ _ => False | _ => True end → run_step (Booting s Exit) Terminated
  | run_stop_during p n : run_step (Booting (SPool p n) Exit) Raced
  | run_serve st st' words :
      step st st' → main st' = main st → run_step (Serving st (Reading words)) (Serving st' (Reading words))
  | run_stop st st' : step st st' → run_step (Serving st Exit) (Serving st' Exit)
  | run_return st : main st = MStopped → run_step (Serving st Exit) Returned.

Definition runs (words : list string) (x : program) : Prop := rtc run_step (Launch words) x.

(** ** Invariants *)

(** What the main thread has read of [words]. *)
Definition reads (words : list string) (m : reader) : Prop :=
  match m with Reading l => l `suffix_of` words | Exit => "exit" ∈ words end.

Definition program_ok (words : list string) (x : program) : Prop :=
  match x with
  | Launch l => l = words
  | Booting SBegin m => reads words m
  | Booting (SHandles p) m | Booting (SPool p _) m => start answers IOCP_IOCP = (Ok tt, p) ∧ reads words m
  | Serving st m => Iocp.reachable st ∧ reads words m
  | Returned => "exit" ∈ words
  | Terminated => "exit" ∈ words ∨ ∃ e p, start answers IOCP_IOCP = (Throw e, p)
  | Raced => "exit" ∈ words
  | Caught => winsock = false
  end.

Lemma read_word_ok words l : reads words (Reading l) → reads words (read_word l).
Proof.
  intros [pre ->]. destruct l as [|w l]; unfold read_word, reads; [by exists pre|]. case_bool_decide as Hw.
  - subst. apply elem_of_app. right. by left.
  - exists (pre ++ [w]). by rewrite <- app_assoc.
Qed.

Lemma run_step_ok words x y : program_ok words x → run_step x y → program_ok words y.
Proof.
  intros Hx Hs. destruct Hs as [l|s l|st l|m p Hp|m e p Hp|p m|p k m Hk|p m|s Hnp|p k|st st' l Hst Hm|st st' Hst|st Hm]; cbn [program_ok] in *.
  - subst. destruct winsock eqn:E; [by exists []|done].
  - destruct s; [by apply read_word_ok|destruct Hx as [? Hx]; split; [done|by apply read_word_ok]..].
  - destruct Hx as [? Hx]. split; [done|by apply read_word_ok].
  - done.
  - right. eauto.
  - done.
  - done.
  - destruct Hx as [Hx ?]. split; [|done]. exists answers, p, POOL_SIZE. done.
  - destruct s; [by left|by left; destruct Hx|done].
  - by destruct Hx.
  - destruct Hx as [(a & p & k & Ha & Hr) ?]. split; [|done]. exists a, p, k. split; [done|]. by eapply rtc_r.
  - destruct Hx as [(a & p & k & Ha & Hr) ?]. split; [|done]. exists a, p, k. split; [done|]. by eapply rtc_r.
  - by destruct Hx.
Qed.

Lemma runs_ok words x : runs words x → program_ok words x.
Proof.
  intros Hr. apply (rtc_invariant run_step (program_ok words) (Launch words)); [|done|done].
  intros a b Ha Hab. by eapply run_step_ok.
Qed.

(** ** Theorems *)

(** What is proved of the server holds of the server in the program. *)
Theorem served_by_server words st m : runs words (Serving st m) → Iocp.reachable st.
Proof. intros Hr. by destruct (runs_ok _ _ Hr). Qed.

(** Without the word the program does not end by itself, whether or not the input does; it is not ended
    either, unless the server cannot be started. *)
Theorem no_exit_no_end words x :
  runs words x → "exit" ∉ words → x ≠ Returned ∧ x ≠ Raced ∧ (x = Terminated → ∃ e p, start answers IOCP_IOCP = (Throw e, p)).
Proof.
  intros Hr Hw. apply runs_ok in Hr. split; [by intros ->|]. split; [by intros ->|].
  intros ->. by destruct Hr as [|Hr].
Qed.

(** A server that cannot be started ends the process: the exception leaves the function of its thread. *)
Theorem failed_start_terminates words x e p :
  winsock = true → start answers IOCP_IOCP = (Throw e, p) → runs words x →
  (∀ st m, x ≠ Serving st m) ∧ x ≠ Returned ∧ rtc run_step x Terminated.
Proof.
  intros Hwin Hthrow Hr.
  assert (match x with Launch _ | Booting SBegin _ | Terminated => True | _ => False end) as Hx.
  { apply (rtc_invariant run_step (λ x, match x with Launch _ | Booting SBegin _ | Terminated => True | _ => False end)
             (Launch words)); [|done|done].
    intros a b Ha Hab. destruct Hab; try done; try (by rewrite Hwin); try congruence; by destruct s. }
  destruct x as [l|[] m| | | | |]; try done; (split; [done|split; [done|]]).
  - eapply rtc_l; [apply run_init|]. rewrite Hwin. apply rtc_once. by eapply run_start_throws.
  - apply rtc_once. by eapply run_start_throws.
Qed.

(** Once the accepting thread has ended and a packet is posted for each thread of the pool, the program can
    return from main with every thread joined. *)
Theorem stop_returns words st :
  runs words (Serving st Exit) → main st = MJoinPool → unposted st = 0 → rtc run_step (Serving st Exit) Returned.
Proof.
  intros Hr Hm Hu. pose proof (served_by_server _ _ _ Hr) as Hst. apply stop_reachable_inv in Hst as [Hinv Hstop].
  destruct (pool_ends _ st (le_n _) Hinv Hstop Hm Hu) as (st' & Hrun & Hend).
  transitivity (Serving st' Exit); [|apply rtc_once; by apply run_return].
  clear -Hrun. induction Hrun as [|a b c Hab _ IH]; [done|]. eapply rtc_l; [by apply run_stop|done].
Qed.
End program.

(** Who types "exit" too early is answered by std::terminate, although nothing has failed: the accepting thread
    is not there to be joined, the exception is caught outside the scope of [t], and [t] has not been joined. *)
Theorem early_exit_terminates :
  start sample_answers IOCP_IOCP = (Ok tt, sample_object) ∧
  runs true sample_answers ["exit"] Terminated.
Proof.
  split; [reflexivity|].
  eapply rtc_l; [apply run_init|]. eapply rtc_l; [apply run_read_booting|].
  apply rtc_once. by apply run_stop_before.
Qed.
