(* ===== verification/HttpMain.v ===== *)
(** * The start and the end of the HTTP server (simple_http/http_server/src/main.cpp)

    What main's own thread does around [Server::Start], and how the process ends.  The loop of the server and its
    worker threads are the machine of ServerRace.v; what the workers do with a connection is ConnectionManager.v.
    Here they may at any time end the process, as an exception of a detached thread does.  Of the log only the line
    main writes itself is followed. *)

From S2P Require Import Prelude CppString Posix RefKernel HttpConfig HttpLog Server ConnectionManager SimpleHttp ServerRace.

(** How the process ends: by exit in a constructor, by an exception nobody catches, or by the return of main,
    [caught] when through its handler. *)
Inductive fate := Exited (code : Z) | Terminated | Finished (caught : bool).

Definition SIGINT : Z := 2.

(** The exit flag after a signal; it is never cleared. *)
Definition SigHandler (sigNum : Z) (isTimeToExit : bool) : bool := if (sigNum =? SIGINT)%Z then true else isTimeToExit.

(** [signal] may fail. *)
Definition SetExitCondition (signal_ok : bool) : result unit := if signal_ok then Ok tt else Throw RuntimeError.

(** What the handler writes of an exception whose text is [what]. *)
Definition log_exception (what : bytes) (l : Logger) : Logger :=
  (Logger_LogError [str "[int main()] "; str "exception: "; what] l).2.

(** The two singletons, which are made before the try block: the log, then the configuration. *)
Definition prepare (log_opens : bool) (file : option bytes) : fate + (Config * Logger) :=
  if negb log_opens then inl (Exited 1)
  else
    match Config_Config file with
    | None => inl (Exited 1)
    | Some (Ok _, c) => inr (c, (Logger_SetLogLevel (logLevel c) Logger_Logger).2)
    | Some _ => inl Terminated
    end.

Section main.
  Context {K : Type} `{!Kernel K}.

(** Main is in [Start], or the process has ended. *)
Inductive main_state := Serving (x : control K * World K) | Ended (f : fate).

(** The way into the loop of [Start]. *)
Definition http_main (log_opens : bool) (file : option bytes) (signal_ok : bool) (flags : list bool) (k : K) : main_state :=
  match prepare log_opens file with
  | inl f => Ended f
  | inr (c, _) =>
      match SetExitCondition signal_ok with
      | Ok _ =>
          match Server_setup (port c) (Server_Server k (Z.to_nat (epEventCount c))) with
          | (Ok _, w) => Serving (AtWait flags, w)
          | _ => Ended (Finished true)
          end
      | _ => Ended (Finished true)
      end
  end.

(** The server and its workers; a callback of the connection manager that throws on main's thread; a worker thread
    that is left by an exception; the end of the try block and its handler. *)
Inductive main_step : main_state → main_state → Prop :=
  | ms_serve x y : server_step x y → main_step (Serving x) (Serving y)
  | ms_callback_throws m todo b flags w : main_step (Serving (InTurn (m :: todo) b flags, w)) (Ended (Finished true))
  | ms_worker_dies x : main_step (Serving x) (Ended Terminated)
  | ms_return w : main_step (Serving (Left_ (Ok tt), w)) (Ended (Finished false))
  | ms_catch e w : main_step (Serving (Left_ (Throw e), w)) (Ended (Finished true)).
End main.
Arguments main_state K : clear implicits.

(** ** Lemmas *)

Lemma ParseLine_total s c : (∃ c', Config_ParseLine s c = (Ok tt, c')) ∨ (∃ e c', Config_ParseLine s c = (Throw e, c')).
Proof.
  unfold Config_ParseLine. destruct (find_char "=" (Trim s)) as [pos|]; [|left; by eexists].
  case_bool_decide; [|case_bool_decide; left; by eexists].
  destruct (stoi_total (Trim (drop (pos + 1) (Trim s)))) as [[n Hn]|[e He]].
  - left. eexists. unfold lift. rewrite Hn. reflexivity.
  - right. eexists _, _. unfold lift. rewrite He. reflexivity.
Qed.

(** A file is read to its end, or up to a port that std::stoi refuses. *)
Lemma Config_total text :
  (∃ c, Config_Config (Some text) = Some (Ok tt, c)) ∨ (∃ e c, Config_Config (Some text) = Some (Throw e, c)).
Proof.
  unfold Config_Config. generalize (mkConfig [] DEFAULT_PORT EP_EVENT_COUNT).
  induction (getlines [] text) as [|s ls IH]; intros c; [left; by eexists|]. cbn [for_each].
  destruct (ParseLine_total s c) as [[c' H]|(e & c' & H)].
  - rewrite (bind_ok _ _ _ _ _ H). apply IH.
  - rewrite (bind_throw _ _ _ _ _ H). right. eauto.
Qed.

(** An error is logged at every level. *)
Lemma error_is_logged what l :
  (0 ≤ logger_level l)%Z →
  logger_out (log_exception what l) = logger_out l ++ str "[Error][int main()] exception: " ++ what ++ [chr 10].
Proof.
  intros Hl. unfold log_exception, Logger_LogError, mbind, M_bind, get. simpl.
  destruct (Z.ltb_spec (logger_level l) LEVEL_ERROR); [unfold LEVEL_ERROR in *; lia|]. simpl. by rewrite app_nil_r.
Qed.

Lemma level_nonneg s : (0 ≤ logger_level (Logger_SetLogLevel s Logger_Logger).2)%Z.
Proof. unfold Logger_SetLogLevel. repeat case_bool_decide; vm_compute; discriminate. Qed.

(** ** Theorems *)

Section theorems.
  Context {K : Type} `{!Kernel K, !KernelLaws K}.

(** The ways the process can end: by exit when the log or the configuration is not to be had; in std::terminate, although
    main has a handler, when the configured port is no number; and once the server has started, by its return, by an
    exception that main catches, or by one of a worker. *)
Theorem http_main_ends log_opens file signal_ok flags (k : K) f :
  rtc main_step (http_main log_opens file signal_ok flags k) (Ended f) →
  match prepare log_opens file with
  | inl f' => f = f' ∧ (f' = Exited 1 ∧ (log_opens = false ∨ file = None) ∨
                        f' = Terminated ∧ ∃ e c, Config_Config file = Some (Throw e, c))
  | inr _ => f = Terminated ∨ ∃ caught, f = Finished caught
  end.
Proof.
  intros Hr. destruct (prepare log_opens file) as [f'|[c l]] eqn:Ep.
  - unfold http_main in Hr. rewrite Ep in Hr. split.
    + apply rtc_inv in Hr as [Hr|(y & Hs & _)]; [by injection Hr|inversion Hs].
    + unfold prepare in Ep. destruct log_opens; [|injection Ep as <-; left; auto]. destruct file as [text|]; [|injection Ep as <-; left; auto].
      cbn [negb] in Ep. destruct (Config_total text) as [[c Hc]|(e & c & Hc)]; rewrite Hc in Ep; simplify_eq. right. eauto.
  - set (good := λ s : main_state K, match s with Serving _ => True | Ended f => f = Terminated ∨ ∃ caught, f = Finished caught end).
    assert (good (http_main log_opens file signal_ok flags k)) as H0.
    { unfold http_main. rewrite Ep. destruct (SetExitCondition signal_ok); simpl; eauto.
      destruct (Server_setup _ _) as [[]]; simpl; eauto. }
    apply (rtc_invariant main_step good _ _) in Hr; [exact Hr| |exact H0]. intros x y _ Hs. destruct Hs; simpl; eauto.
Qed.
End theorems.

(** A port that is no number. *)
Definition bad_file : bytes := str "log_level = info" ++ NEWLINE :: str "port = http".

Theorem bad_port_terminates {K} `{!Kernel K} signal_ok flags (k : K) :
  http_main true (Some bad_file) signal_ok flags k = Ended Terminated.
Proof. reflexivity. Qed.
