(* ===== verification/Hex.v ===== *)
(** * Numbers and pointers as hexadecimal text (learn_grpc/hello_world/src/lib/utils/utils.h) *)

From S2P Require Import Prelude.

#[local] Open Scope Z_scope.

(** What [std::hex] prints of an unsigned value: no leading zeros, lower case. *)
Definition hex_char (d : Z) : ascii := chr (Z.to_nat (if d <? 10 then 48 + d else 87 + d)).

Fixpoint hex_text (fuel : nat) (z : Z) : bytes :=
  match fuel with
  | O => []
  | S fuel => (if z <? 16 then [] else hex_text fuel (z / 16)) ++ [hex_char (z mod 16)]
  end.

(** [std::setfill('0') << std::setw(w)]: zeros before a text that is shorter. *)
Definition padded (w : nat) (t : bytes) : bytes := replicate (w - length t) "0"%char ++ t.

(** T is an integer type that is not a character; a signed value is printed as the unsigned one with the same
    bits; [size] is sizeof(T). *)
Definition IntToHex (size : nat) (i : Z) : bytes :=
  str "0x" ++ padded (size * 2) (hex_text (S (size * 2)) (wrap (8 * Z.of_nat size) i)).

Definition PtrToHex (p : Z) : bytes := IntToHex 8 p.

(** ** Reading it back *)

Definition hex_value (c : ascii) : Z :=
  let n := Z.of_nat (nat_of_ascii c) in if n <? 58 then n - 48 else n - 87.

Definition hex_read (t : bytes) : Z := fold_left (λ z c, 16 * z + hex_value c) t 0.

Lemma hex_value_char d : 0 ≤ d < 16 → hex_value (hex_char d) = d.
Proof.
  intros Hd. assert (d ∈ seqZ 0 16) as Hin by (apply elem_of_seqZ; lia).
  revert d Hd Hin. refine (λ d _ Hin, _).
  repeat (apply elem_of_cons in Hin as [->|Hin]; [reflexivity|]). by apply elem_of_nil in Hin.
Qed.

Lemma hex_read_snoc t c : hex_read (t ++ [c]) = 16 * hex_read t + hex_value c.
Proof. unfold hex_read. by rewrite fold_left_app. Qed.

Lemma hex_read_zeros k t : hex_read (replicate k "0"%char ++ t) = hex_read t.
Proof. induction k as [|k IH]; [done|]. exact IH. Qed.

(** Enough fuel, and no more digits than the width has. *)
Lemma hex_text_spec n z fuel :
  (n < fuel)%nat → 0 ≤ z < 16 ^ Z.of_nat (S n) →
  hex_read (hex_text fuel z) = z ∧ (1 ≤ length (hex_text fuel z) ≤ S n)%nat.
Proof.
  revert z fuel. induction n as [|n IH]; intros z [|fuel] Hf Hz; try lia; cbn [hex_text].
  - destruct (Z.ltb_spec z 16); [|simpl in Hz; lia]. simpl. rewrite Z.mod_small by lia.
    unfold hex_read. simpl. rewrite hex_value_char by lia. split; lia.
  - pose proof (Z.div_mod z 16 ltac:(lia)) as Hdm. pose proof (Z.mod_pos_bound z 16 ltac:(lia)).
    rewrite hex_read_snoc, hex_value_char, length_app by lia. destruct (Z.ltb_spec z 16).
    + rewrite Z.mod_small by lia. change (hex_read []) with 0. cbn [length]. split; lia.
    + destruct (IH (z / 16) fuel) as [Hr Hl]; [lia| |].
      { split; [apply Z.div_pos; lia|]. apply Z.div_lt_upper_bound; [lia|].
        rewrite <- Z.pow_succ_r by lia. replace (Z.succ (Z.of_nat (S n))) with (Z.of_nat (S (S n))) by lia. lia. }
      rewrite Hr. cbn [length]. split; lia.
Qed.

(** The text has the width of the type and gives the value back, for every value of a type of at least one
    byte: two different values never have the same text. *)
Theorem hex_roundtrip size i :
  (0 < size)%nat →
  length (IntToHex size i) = (2 + 2 * size)%nat ∧ hex_read (drop 2 (IntToHex size i)) = wrap (8 * Z.of_nat size) i.
Proof.
  intros Hs. unfold IntToHex, padded.
  pose proof (wrap_range (8 * Z.of_nat size) i ltac:(lia)) as Hw.
  destruct (hex_text_spec (size * 2 - 1) (wrap (8 * Z.of_nat size) i) (S (size * 2))) as [Hr Hl]; [lia| |].
  { replace (Z.of_nat (S (size * 2 - 1))) with (2 * Z.of_nat size) by lia.
    rewrite <- (Z.pow_mul_r 2 4) in * by lia. replace (4 * (2 * Z.of_nat size)) with (8 * Z.of_nat size) by lia. done. }
  split.
  - rewrite !length_app, length_replicate. change (length (str "0x")) with 2%nat. lia.
  - change (drop 2 (str "0x" ++ ?t)) with t. by rewrite hex_read_zeros.
Qed.

Lemma hex_roundtrip_witness :
  (0 < 8)%nat ∧ PtrToHex 3735928559 = str "0x00000000deadbeef" ∧
  hex_read (drop 2 (IntToHex 4 (-2))) = 4294967294.
Proof.
  split; [lia|]. split; [vm_compute; reflexivity|].
  destruct (hex_roundtrip 4 (-2)) as [_ H]; [lia|]. rewrite H. vm_compute. reflexivity.
Defined.
