(* ===== verification/Templates.v ===== *)
(** * Overloads, forwarding and detectors (template/, syntax/)

    The examples that the compiler decides: which overload a call picks, what a forwarding reference is deduced
    to, and what a template finds out about a class by letting a substitution fail.  Types, expressions and
    overload resolution are those of C++14 (the makefiles' version), cut down to what the examples use: object types
    with const, references, parameters that take their argument without a conversion to another type. *)

From S2P Require Import Prelude.
From stdpp Require Import strings gmap.

#[local] Open Scope string_scope.
#[local] Open Scope list_scope.

(** ** Types and expressions *)

Inductive base :=
  | Int | Void | StdString
  | Class (name : string)
  | SharedPtr (const : bool) (pointee : base).

(** An object type, and the references to it. *)
Record obj := mkObj { is_const : bool; kind : base }.
Inductive ty := Obj (o : obj) | LRef (o : obj) | RRef (o : obj).

#[export] Instance base_eq_dec : EqDecision base.
Proof. solve_decision. Defined.
#[export] Instance obj_eq_dec : EqDecision obj.
Proof. solve_decision. Defined.
#[export] Instance ty_eq_dec : EqDecision ty.
Proof. solve_decision. Defined.

Inductive category := lvalue | xvalue | prvalue.
Record expr := mkExpr { etype : obj; cat : category }.
Definition is_rvalue (e : expr) : bool := match cat e with lvalue => false | _ => true end.

Definition referent (t : ty) : obj := match t with Obj o | LRef o | RRef o => o end.
Definition is_reference (t : ty) : bool := match t with Obj _ => false | _ => true end.
Definition remove_reference (t : ty) : ty := Obj (referent t).
Definition remove_cv (t : ty) : ty := match t with Obj o => Obj (mkObj false (kind o)) | _ => t end.

(** [T&&]: a reference to a reference collapses. *)
Definition add_rref (t : ty) : ty := match t with Obj o => RRef o | _ => t end.

(** The expression of a call, or of a cast, to a type: the prvalue of a scalar has no const. *)
Definition result (t : ty) : expr :=
  match t with
  | Obj (mkObj c (Class _ as k)) | Obj (mkObj c (SharedPtr _ _ as k)) | Obj (mkObj c (StdString as k)) =>
      mkExpr (mkObj c k) prvalue
  | Obj o => mkExpr (mkObj false (kind o)) prvalue
  | LRef o => mkExpr o lvalue
  | RRef o => mkExpr o xvalue
  end.

(** The name of a variable or a parameter is an lvalue, whatever its type. *)
Definition named (t : ty) : expr := mkExpr (referent t) lvalue.

Definition declval (t : ty) : expr := result (add_rref t).
Definition move (e : expr) : expr := mkExpr (etype e) xvalue.

(** ** Overload resolution *)

(** Whether a parameter of a type takes the argument. *)
Definition binds (p : ty) (e : expr) : bool :=
  bool_decide (kind (referent p) = kind (etype e)) && bool_decide (kind (etype e) ≠ Void) &&
  match p with
  | Obj _ => true
  | LRef o => is_const o || negb (is_const (etype e)) && negb (is_rvalue e)
  | RRef o => is_rvalue e && (is_const o || negb (is_const (etype e)))
  end.

(** Whether the argument fits the first parameter better, when both take it. *)
Definition fits_better (e : expr) (p q : ty) : bool :=
  match p, q with
  | RRef _, LRef _ => is_rvalue e
  | LRef o, LRef o' | RRef o, RRef o' => negb (is_const o) && is_const o'
  | _, _ => false
  end.

(** A function: its parameters, and what the program knows of it. *)
Record function (A : Type) := mkFun { params : list ty; body : A }.
#[global] Arguments mkFun {A}.
#[global] Arguments params {A}.
#[global] Arguments body {A}.

Definition viable {A} (es : list expr) (f : function A) : bool :=
  bool_decide (length (params f) = length es) && forallb (λ '(p, e), binds p e) (zip (params f) es).

Definition better {A} (es : list expr) (f g : function A) : bool :=
  forallb (λ '(e, (p, q)), negb (fits_better e q p)) (zip es (zip (params f) (params g))) &&
  existsb (λ '(e, (p, q)), fits_better e p q) (zip es (zip (params f) (params g))).

(** Each element with the others. *)
Fixpoint picks {A} (l : list A) : list (A * list A) :=
  match l with
  | [] => []
  | x :: l => (x, l) :: map (λ '(y, rest), (y, x :: rest)) (picks l)
  end.

(** The one that is better than all others that are viable, if there is one. *)
Definition resolve {A} (fs : list (function A)) (es : list expr) : option A :=
  body ∘ fst <$> head (filter (λ '(f, rest), forallb (better es f) rest = true) (picks (filter (viable es) fs))).

(** ** syntax/std_forward/, syntax/value_categories/ *)

Definition int : obj := mkObj false Int.
Definition const_int : obj := mkObj true Int.

Definition Foo : list (function string) :=
  [mkFun [LRef int] "Foo(int& a)"; mkFun [RRef int] "Foo(int&& a)"; mkFun [LRef const_int] "Foo(const int& a)"].

(** What [T] is for a parameter [T&&], and for a parameter [T]. *)
Definition deduce (e : expr) : ty := if is_rvalue e then Obj (etype e) else LRef (etype e).
Definition deduce_by_value (e : expr) : ty := Obj (mkObj false (kind (etype e))).

(** std::forward: a cast to [T&&]. *)
Definition forward (T : ty) : expr := result (add_rref T).

Definition Bar (e : expr) : option string := let T := deduce e in resolve Foo [named (add_rref T)].
Definition Baz (e : expr) : option string := let T := deduce e in resolve Foo [forward T].

Definition forward_main : list (option string) :=
  let x := mkExpr int lvalue in
  let y := mkExpr const_int lvalue in
  [Bar (mkExpr int prvalue); Baz (mkExpr int prvalue); Bar x; Baz x; Bar y; Baz y; Bar (move x); Baz (move x)].

Definition func : list (function string) :=
  [mkFun [LRef const_int] "func(const int& a)"; mkFun [RRef int] "func(int&& a)"].
Definition foo : ty := LRef int.
Definition bar : ty := RRef int.
Definition categories_main : list (option string) := [resolve func [result foo]; resolve func [result bar]].

(** ** template/enable_if/, template/conditional/ *)

(** A template that is a function where its condition holds, and no function where it does not. *)
Definition enable_if {A} (b : bool) (f : function A) : list (function A) := if b then [f] else [].

Definition print_func (print_yes : bool) : option string :=
  resolve (enable_if print_yes (mkFun [] "yes") ++ enable_if (negb print_yes) (mkFun [] "no")) [].
Definition Foo_print (print_yes : bool) : option string := print_func print_yes.
Definition enable_if_main : list (option string) := [Foo_print true; Foo_print false].

Definition Foo_Type (use_string : bool) : base := if use_string then StdString else Int.

(** ** Classes *)

(** A member function: whether it is static, whether it can be called on a const object, its type. *)
Record signature := mkSig { s_static : bool; s_const : bool; s_args : list ty; s_ret : ty }.
Inductive member :=
  | Field (static : bool) (t : ty)
  | Methods (overloads : list signature).

(** The classes of a program: their members, each with whether it is public. *)
Definition classes : Type := gmap string (gmap string (bool * member)).

(** The second parameter of a detector may be the type of a function. *)
Inductive type_argument := Type_ (t : ty) | Function (ret : ty) (args : list ty).

Section detectors.
Context (Γ : classes).

(** [T::x]: a substitution fails where there is no such member, or no access to it. *)
Definition lookup_member (T : ty) (x : string) : option member :=
  match T with
  | Obj (mkObj _ (Class c)) => m ← Γ !! c; '(public, d) ← m !! x; if (public : bool) then Some d else None
  | _ => None
  end.

(** Whether [(void) T::x] is an expression: an object, or one static function. *)
Definition names_value (T : ty) (x : string) : bool :=
  match lookup_member T x with
  | Some (Field _ _) => true
  | Some (Methods [s]) => s_static s
  | _ => false
  end.

(** Whether [&T::x] is one: there are no pointers to members that are references. *)
Definition has_address (T : ty) (x : string) : bool :=
  match lookup_member T x with
  | Some (Field static t) => static || negb (is_reference t)
  | Some (Methods [_]) => true
  | _ => false
  end.

(** *** template/detect_member/ *)

(** The specialisation is chosen where its second argument is a type. *)
Definition HasX (T : ty) : bool := if names_value T "x" then true else false.
Definition HasX2 (T : ty) : bool := if has_address T "x" then true else false.

(** *** template/detect_member_2/ *)

(** sizeof of what [test<T>(0)] returns: a pointer is a better match than an ellipsis. *)
Definition yes_type : nat := 1.
Definition no_type : nat := 8.
Definition has_member (T : ty) (member_name : string) : bool :=
  ((if has_address T member_name then yes_type else no_type) =? yes_type)%nat.

(** *** template/detect_member_3/ *)

(** A call of a member: the object is an argument like the others, which an rvalue binds as well. *)
Definition this_param (c : string) (s : signature) : ty :=
  if s_static s then Obj (mkObj false (Class c)) else LRef (mkObj (s_const s) (Class c)).
Definition call_methods (o : obj) (c : string) (fs : list signature) (es : list expr) : option ty :=
  resolve (map (λ s, mkFun (this_param c s :: s_args s) (s_ret s)) fs) (mkExpr o lvalue :: es).

(** [e.x(es)]: a member function, or the operator of an object that is a member. *)
Definition field_object (o : obj) (static : bool) (t : ty) : obj :=
  if static || is_reference t then referent t
  else mkObj (is_const o || is_const (referent t)) (kind (referent t)).
Definition call_member (e : expr) (x : string) (es : list expr) : option ty :=
  match kind (etype e), lookup_member (Obj (etype e)) x with
  | Class c, Some (Methods fs) => call_methods (etype e) c fs es
  | _, Some (Field static t) =>
      let o := field_object (etype e) static t in
      match kind o, lookup_member (Obj o) "operator()" with
      | Class c, Some (Methods fs) => call_methods o c fs es
      | _, _ => None
      end
  | _, _ => None
  end.

(** decltype of a call. *)
Definition decltype_call (t : ty) : ty := if is_reference t then t else Obj (etype (result t)).

(** [check<C>(0)]: a pointer is a better match than an ellipsis, but there is none to a reference.  Any other
    second argument is an error of compilation. *)
Definition check (C : ty) (Ret : ty) (Args : list ty) : bool :=
  negb (is_reference C) &&
  match call_member (declval C) "x" (map declval Args) with
  | Some r => bool_decide (decltype_call r = Ret)
  | None => false
  end.
Definition HasX_call (C : ty) (t : type_argument) : option bool :=
  match t with Function Ret Args => Some (check C Ret Args) | Type_ _ => None end.

(** *** template/detect_member_4/ *)

Definition HasFieldX (T : ty) : bool := if names_value T "x" then true else false.
Definition HasFuncX (C : ty) (t : type_argument) : option bool :=
  match t with Function Ret Args => Some (check C Ret Args) | Type_ _ => None end.

(** *** template/is_shared_ptr/ *)

Definition is_shared_ptr (t : ty) : bool :=
  match t with Obj (mkObj false (SharedPtr _ _)) => true | _ => false end.

(** decltype of a member of an object: of a field its type as declared, of a static function its type. *)
Definition decltype_member (T : ty) (x : string) : option type_argument :=
  match lookup_member (Obj (referent T)) x with
  | Some (Field _ t) => Some (Type_ t)
  | Some (Methods [s]) => if s_static s then Some (Function (s_ret s) (s_args s)) else None
  | _ => None
  end.
Definition is_shared_argument (t : type_argument) : bool :=
  match t with Type_ t => is_shared_ptr t | Function _ _ => false end.

(** The two templates, for an argument. *)
Definition func_templates (e : expr) : list (function string) :=
  let T := deduce_by_value e in
  match decltype_member T "value" with
  | Some t =>
      enable_if (is_shared_argument t) (mkFun [T] "shared ptr") ++
      enable_if (negb (is_shared_argument t)) (mkFun [T] "non shared")
  | None => []
  end.
Definition call_func (e : expr) : option string := resolve (func_templates e) [e].
End detectors.

(** The classes of the programs. *)
Definition detect_classes : classes :=
  {[ "A" := {[ "x" := (true, Field false (Obj int)) ]};
     "B" := {[ "x" := (true, Methods [mkSig false false [] (Obj int)]) ]} ]}.
Definition value_classes : classes :=
  {[ "Foo" := {[ "value" := (true, Field false (Obj (mkObj false (SharedPtr false Int)))) ]};
     "Bar" := {[ "value" := (true, Field false (Obj int)) ]} ]}.
Definition class (name : string) : ty := Obj (mkObj false (Class name)).

Definition detect_member_main : list bool :=
  [HasX detect_classes (class "A"); HasX detect_classes (class "B");
   HasX2 detect_classes (class "A"); HasX2 detect_classes (class "B")].
Definition detect_member_2_main : list bool :=
  [has_member detect_classes (class "A") "x"; has_member detect_classes (class "B") "x"].
Definition detect_member_3_main : list (option bool) :=
  [HasX_call detect_classes (class "A") (Function (Obj int) []);
   HasX_call detect_classes (class "B") (Function (Obj int) [])].
Definition detect_member_4_main : list (option bool) :=
  [Some (HasFieldX detect_classes (class "A")); Some (HasFieldX detect_classes (class "B"));
   HasFuncX detect_classes (class "A") (Function (Obj int) []);
   HasFuncX detect_classes (class "B") (Function (Obj int) [])].
Definition is_shared_ptr_main : list (option string) :=
  [call_func value_classes (named (class "Foo")); call_func value_classes (named (class "Bar"))].

(** ** template/is_shared_ptr_2/ *)

(** The two templates, for an argument, with what they print. *)
Definition get_condition (T : ty) : bool := is_shared_ptr (remove_cv (remove_reference T)).
Definition get_templates (e : expr) : list (function string) :=
  let T := deduce e in
  enable_if (get_condition T) (mkFun [add_rref T] "shared_ptr") ++
  enable_if (negb (get_condition T)) (mkFun [add_rref T] "no shared_ptr").

(** decltype(auto), from [*(t.get())] and from [t]; [None] is an error in the body: there is no reference to void,
    and no rvalue reference is bound to the name [t]. *)
Definition get_type (e : expr) : option ty :=
  let t := add_rref (deduce e) in
  s ← resolve (get_templates e) [e];
  if String.eqb s "shared_ptr" then
    match kind (referent t) with
    | SharedPtr c U => if bool_decide (U = Void) then None else Some (LRef (mkObj c U))
    | _ => None
    end
  else if binds t (named t) then Some t else None.

(** What the reference refers to: the argument, or what the pointer in it points to. *)
Definition get_address (pointee : Z → Z) (e : expr) (address : Z) : option Z :=
  s ← resolve (get_templates e) [e];
  Some (if String.eqb s "shared_ptr" then pointee address else address).

(** The static assertions of main, and the pairs of addresses it prints. *)
Definition get_a : expr := mkExpr const_int lvalue.
Definition get_b : expr := mkExpr (mkObj true (SharedPtr false Int)) lvalue.
Definition get_asserts : bool :=
  bool_decide (get_type get_a = Some (LRef const_int)) && bool_decide (get_type get_b = Some (LRef int)).
Definition get_main (pointee : Z → Z) (a b : Z) : list (option string) * list (Z * option Z) :=
  ([resolve (get_templates get_a) [get_a]; resolve (get_templates get_b) [get_b]],
   [(a, get_address pointee get_a a); (pointee b, get_address pointee get_b b)]).

(** ** Lemmas *)

(** The choice of an overload depends on the type of an argument and on its being an rvalue or not. *)
Definition same_argument (e e' : expr) : Prop := etype e = etype e' ∧ is_rvalue e = is_rvalue e'.

Lemma binds_same p e e' : same_argument e e' → binds p e = binds p e'.
Proof. intros [Ht Hr]. unfold binds. by rewrite Ht, Hr. Qed.

Lemma fits_better_same p q e e' : same_argument e e' → fits_better e p q = fits_better e' p q.
Proof. intros [_ Hr]. unfold fits_better. by rewrite Hr. Qed.

Lemma viable_same {A} es es' (f : function A) : Forall2 same_argument es es' → viable es f = viable es' f.
Proof.
  intros H. unfold viable. rewrite (Forall2_length _ _ _ H). f_equal.
  generalize (params f) as ps. induction H as [|e e' es es' He _ IH]; intros [|p ps]; simpl; try done.
  by rewrite (binds_same _ _ _ He), IH.
Qed.

Lemma better_same {A} es es' (f g : function A) : Forall2 same_argument es es' → better es f g = better es' f g.
Proof.
  intros H. unfold better. f_equal; generalize (zip (params f) (params g)) as ps;
    induction H as [|e e' es es' He _ IH]; intros [|[p q] ps]; simpl; try done;
    by rewrite !(fits_better_same _ _ _ _ He), IH.
Qed.

Lemma resolve_same {A} (fs : list (function A)) es es' :
  Forall2 same_argument es es' → resolve fs es = resolve fs es'.
Proof.
  intros H. unfold resolve. do 2 f_equal.
  rewrite (list_filter_iff (viable es) (viable es')) by (intros f; by rewrite (viable_same _ _ f H)).
  apply list_filter_iff. intros [f rest].
  assert (forallb (better es f) rest = forallb (better es' f) rest) as ->; [|done].
  induction rest as [|g rest IH]; [done|]. simpl. by rewrite IH, (better_same _ _ f g H).
Qed.

(** An overload is picked just when it takes the arguments and is better than all others that do. *)
Lemma picks_elem {A} (l : list A) x rest : (x, rest) ∈ picks l ↔ ∃ l1 l2, l = l1 ++ x :: l2 ∧ rest = l1 ++ l2.
Proof.
  revert x rest. induction l as [|y l IH]; intros x rest; simpl.
  - split; [by intros ?%elem_of_nil|]. by intros ([] & ? & ? & _).
  - rewrite elem_of_cons, list_elem_of_fmap. split.
    + intros [[= -> ->]|([z r] & [= -> ->] & (l1 & l2 & -> & ->)%IH)]; [by exists [], l|by exists (y :: l1), l2].
    + intros ([|y' l1] & l2 & [= -> ->] & ->); [by left|right].
      exists (x, l1 ++ l2). split; [done|]. apply IH. eauto.
Qed.

Lemma better_asym {A} es (f g : function A) : better es f g = true → better es g f = false.
Proof.
  unfold better. intros [_ (x & Hin & Hx)%existsb_exists]%andb_true_iff. apply andb_false_iff. left.
  apply not_true_iff_false. rewrite forallb_forall. intros H.
  destruct x as [e [p q]]. assert (In (e, (q, p)) (zip es (zip (params g) (params f)))) as Hin'.
  { clear -Hin. revert Hin. generalize (params f) as ps, (params g) as qs. induction es as [|e' es IH]; [done|].
    intros [|p' ps] [|q' qs]; simpl; try done. intros [[= -> -> ->]|Hi]; [by left|right; by apply IH]. }
  apply H in Hin'. simpl in Hin'. by rewrite Hx in Hin'.
Qed.

Lemma middle_or_others {A} (l1 l2 k1 k2 : list A) x y :
  l1 ++ x :: l2 = k1 ++ y :: k2 → x = y ∨ x ∈ k1 ++ k2 ∧ y ∈ l1 ++ l2.
Proof.
  revert k1. induction l1 as [|z l1 IH]; intros [|z' k1]; simpl; intros [= -> H]; [by left|subst; right; set_solver..|].
  destruct (IH _ H); [by left|right; set_solver].
Qed.

Lemma resolve_picks {A} (fs : list (function A)) es r :
  resolve fs es = Some r ↔
  ∃ l1 f l2, filter (viable es) fs = l1 ++ f :: l2 ∧ body f = r ∧ Forall (λ g, better es f g = true) (l1 ++ l2).
Proof.
  unfold resolve. set (l := filter (viable es) fs). set (w := filter _ (picks l)).
  assert (∀ f rest, (f, rest) ∈ w ↔ Forall (λ g, better es f g = true) rest ∧ (f, rest) ∈ picks l) as Hw.
  { intros f rest. unfold w. rewrite list_elem_of_filter, forallb_forall, Forall_forall.
    setoid_rewrite list_elem_of_In. done. }
  split.
  - destruct w as [|[f rest] w'] eqn:E; [done|]. intros [= <-].
    destruct (proj1 (Hw f rest)) as [Hb (l1 & l2 & Hl & ->)%picks_elem]; [left|]. eauto 10.
  - intros (l1 & f & l2 & Hl & <- & Hb).
    assert ((f, l1 ++ l2) ∈ w) as Hin by (apply Hw; split; [done|]; apply picks_elem; eauto).
    destruct w as [|[g rest] w'] eqn:E; [by apply elem_of_nil in Hin|]. simpl. do 2 f_equal.
    destruct (proj1 (Hw g rest)) as [Hg (k1 & k2 & Hk & ->)%picks_elem]; [left|].
    rewrite Hl in Hk. apply middle_or_others in Hk as [->|[Hf Hg']]; [done|].
    rewrite Forall_forall in Hg, Hb. pose proof (better_asym es f g (Hb _ Hg')). rewrite Hg in *; done.
Qed.

Lemma viable_cons {A} e es p ps (r : A) : viable (e :: es) (mkFun (p :: ps) r) = binds p e && viable es (mkFun ps r).
Proof.
  unfold viable. simpl. rewrite (bool_decide_ext (S (length ps) = S (length es)) (length ps = length es)) by lia.
  destruct (bool_decide _), (binds p e); done.
Qed.

Lemma resolve_one {A} (f : function A) es : resolve [f] es = if viable es f then Some (body f) else None.
Proof.
  unfold resolve. destruct (viable es f) eqn:E.
  - by rewrite filter_cons_True by (by rewrite E).
  - by rewrite filter_cons_False by (by rewrite E; intros []).
Qed.

(** ** Forwarding *)

Lemma forward_same e : same_argument (forward (deduce e)) e.
Proof. destruct e as [[c k] []]; by destruct k. Qed.

(** What is forwarded picks the overload that the argument itself would, whatever the overloads; the name of
    the parameter picks the one an lvalue of the argument's type would. *)
Theorem forwarding_is_perfect {A} (fs : list (function A)) e :
  resolve fs [forward (deduce e)] = resolve fs [e] ∧
  resolve fs [named (add_rref (deduce e))] = resolve fs [mkExpr (etype e) lvalue].
Proof.
  split; apply resolve_same; constructor; [apply forward_same|done| |done].
  destruct e as [[c k] []]; by destruct k.
Qed.

(** The overloads of the example: never ambiguous. *)
Lemma Foo_picks c cat :
  resolve Foo [mkExpr (mkObj c Int) cat] =
  Some (if c then "Foo(const int& a)" else match cat with lvalue => "Foo(int& a)" | _ => "Foo(int&& a)" end).
Proof. by destruct c, cat. Qed.

Lemma forward_main_prints :
  forward_main = Some <$> ["Foo(int& a)"; "Foo(int&& a)"; "Foo(int& a)"; "Foo(int& a)"; "Foo(const int& a)";
                           "Foo(const int& a)"; "Foo(int& a)"; "Foo(int&& a)"].
Proof. reflexivity. Qed.

(** As the comment at the end of the program says. *)
Lemma categories_main_prints : categories_main = Some <$> ["func(const int& a)"; "func(int&& a)"].
Proof. reflexivity. Qed.

(** ** Functions that exclude each other *)

(** One of two templates is a function, and it is picked if it takes the argument. *)
Lemma resolve_if {A} (b : bool) (ps : list ty) (x y : A) es :
  viable es (mkFun ps tt) = true →
  resolve (enable_if b (mkFun ps x) ++ enable_if (negb b) (mkFun ps y)) es = Some (if b then x else y).
Proof.
  intros H. assert (∀ z : A, viable es (mkFun ps z) = true) as Hv by exact (λ _, H).
  unfold enable_if. destruct b; simpl; by rewrite resolve_one, Hv.
Qed.

Lemma print_func_prints b : Foo_print b = Some (if b then "yes" else "no").
Proof. by apply resolve_if. Qed.

Lemma enable_if_main_prints : enable_if_main = [Some "yes"; Some "no"].
Proof. reflexivity. Qed.

(** ** Detectors *)

Section detected.
Context (Γ : classes).

Lemma has_member_address T x : has_member Γ T x = has_address Γ T x.
Proof. unfold has_member. by destruct (has_address Γ T x). Qed.

(** A member that is absent, or not public, is found by none of them. *)
Lemma undetected T Ret Args :
  lookup_member Γ T "x" = None →
  names_value Γ T "x" = false ∧ has_address Γ T "x" = false ∧ check Γ T Ret Args = false.
Proof.
  intros H. unfold names_value, has_address. rewrite H. split_and!; [done..|].
  destruct T as [o|o|o]; [|done..]. unfold check, declval, call_member. cbn -[lookup_member]. rewrite H.
  by destruct (kind o).
Qed.

(** A field that is not a reference is found by its value and by its address; a function that has no overloads
    by its address, and by its value if it is static; an overloaded one by neither. *)
Lemma detected T x d :
  lookup_member Γ T x = Some d →
  (names_value Γ T x, has_address Γ T x) =
  match d with
  | Field static t => (true, static || negb (is_reference t))
  | Methods [s] => (s_static s, true)
  | Methods _ => (false, false)
  end.
Proof. intros H. unfold names_value, has_address. rewrite H. by destruct d as [|[|? [|]]]. Qed.

(** A member function that has no overloads is found by a call just when it takes the arguments, can be called
    on the object, and returns the type asked for. *)
Lemma check_one_function (c : bool) name s Ret Args :
  lookup_member Γ (Obj (mkObj c (Class name))) "x" = Some (Methods [s]) →
  check Γ (Obj (mkObj c (Class name))) Ret Args =
    (s_static s || s_const s || negb c) && viable (map declval Args) (mkFun (s_args s) tt) &&
    bool_decide (decltype_call (s_ret s) = Ret).
Proof.
  intros H. unfold check, declval, call_member. cbn -[lookup_member]. rewrite H.
  unfold call_methods. simpl. rewrite resolve_one, viable_cons. simpl.
  assert (binds (this_param name s) (mkExpr (mkObj c (Class name)) lvalue) = s_static s || s_const s || negb c) as ->.
  { unfold binds, this_param. destruct (s_static s); simpl; rewrite !bool_decide_eq_true_2 by done; simpl;
      by rewrite ?andb_true_r. }
  change (viable (map declval Args) (mkFun (s_args s) (s_ret s)))
    with (viable (map declval Args) (mkFun (s_args s) tt)).
  by destruct (_ && _).
Qed.
End detected.

Lemma detect_mains_print :
  detect_member_main = [true; false; true; true] ∧ detect_member_2_main = [true; true] ∧
  detect_member_3_main = [Some false; Some true] ∧
  detect_member_4_main = [Some true; Some false; Some false; Some true].
Proof. by vm_compute. Qed.

(** ** Shared pointers *)

(** [get] has one overload for every argument; it returns a reference to what a shared pointer points to, and to
    other arguments with their const.  It has no body for what is no lvalue and no shared pointer. *)
Theorem get_overloads e :
  kind (etype e) ≠ Void →
  resolve (get_templates e) [e] =
    Some (match kind (etype e) with SharedPtr _ _ => "shared_ptr" | _ => "no shared_ptr" end) ∧
  get_type e = match kind (etype e) with
               | SharedPtr c U => if bool_decide (U = Void) then None else Some (LRef (mkObj c U))
               | _ => if is_rvalue e then None else Some (LRef (etype e))
               end.
Proof.
  intros Hv. assert (get_condition (deduce e) = match kind (etype e) with SharedPtr _ _ => true | _ => false end) as Hc.
  { by destruct e as [[c []] []]. }
  assert (viable [e] (mkFun [add_rref (deduce e)] tt) = true) as Hb.
  { destruct e as [[c k] ct]. simpl in Hv. unfold viable. simpl. unfold binds, deduce, is_rvalue.
    destruct ct; simpl; rewrite !bool_decide_eq_true_2 by done; by destruct c. }
  assert (resolve (get_templates e) [e] = Some (if get_condition (deduce e) then "shared_ptr" else "no shared_ptr")) as Hr
    by (by apply resolve_if).
  unfold get_type. rewrite Hr, Hc. clear Hr Hc Hb.
  destruct e as [[c k] ct]. simpl in *. split; [by destruct k|].
  destruct k; simpl; try done; try (by destruct ct);
    unfold deduce, is_rvalue, binds; destruct ct; simpl; rewrite ?bool_decide_eq_true_2 by done; simpl; by destruct c.
Qed.

Lemma get_main_prints pointee a b :
  get_asserts = true ∧
  get_main pointee a b = ([Some "no shared_ptr"; Some "shared_ptr"], [(a, Some a); (pointee b, Some (pointee b))]).
Proof. by vm_compute. Qed.

(** [func] has no overload for a class without a public member [value] that is a field or a static function, and
    one for every other. *)
Lemma call_func_picks Γ e :
  kind (etype e) ≠ Void →
  call_func Γ e = match decltype_member Γ (deduce_by_value e) "value" with
                  | Some t => Some (if is_shared_argument t then "shared ptr" else "non shared")
                  | None => None
                  end.
Proof.
  intros Hv. unfold call_func, func_templates. destruct (decltype_member _ _ _); [|done].
  apply resolve_if. unfold viable, binds. simpl. by rewrite !bool_decide_eq_true_2 by done.
Qed.

Lemma is_shared_ptr_main_prints : is_shared_ptr_main = [Some "shared ptr"; Some "non shared"].
Proof. by vm_compute. Qed.

(** A shared pointer that is const is told apart by [get], not by [func]. *)
Lemma const_member_not_shared :
  let Γ := {[ "C" := {[ "value" := (true, Field false (Obj (mkObj true (SharedPtr false Int)))) ]} ]} in
  call_func Γ (named (class "C")) = Some "non shared" ∧
  get_condition (deduce (mkExpr (mkObj true (SharedPtr false Int)) lvalue)) = true.
Proof. by vm_compute. Qed.

(** [has_member] is to tell whether there is a member: it tells of no member that is overloaded, private, or a
    reference. *)
Lemma has_member_misses :
  let f := mkSig false false [] (Obj int) in
  let g := mkSig false false [Obj int] (Obj int) in
  let Γ := {[ "O" := {[ "x" := (true, Methods [f; g]) ]};
              "P" := {[ "x" := (false, Field false (Obj int)) ]};
              "R" := {[ "x" := (true, Field false (LRef int)) ]} ]} : classes in
  has_member Γ (class "O") "x" = false ∧ has_member Γ (class "P") "x" = false ∧
  has_member Γ (class "R") "x" = false ∧
  HasX_call Γ (class "O") (Function (Obj int) [Obj int]) = Some true.
Proof. by vm_compute. Qed.

(** HasFieldX takes a static function for a field. *)
Lemma static_function_is_field :
  HasFieldX {[ "S" := {[ "x" := (true, Methods [mkSig true false [] (Obj int)]) ]} ]} (class "S") = true.
Proof. by vm_compute. Qed.

Lemma get_overloads_witness :
  let e := mkExpr (mkObj true (SharedPtr true Int)) xvalue in
  kind (etype e) ≠ Void ∧ get_type e = Some (LRef const_int).
Proof.
  split; [discriminate|].
  by destruct (get_overloads (mkExpr (mkObj true (SharedPtr true Int)) xvalue) ltac:(discriminate)) as [_ ->].
Defined.
