(* ===== verification/Streams.v ===== *)
(** * Streams of text (string/, stream_based_io/, demos/log_demo/)

    What std::getline cuts a text into, what a timestamp looks like, a number printed with two decimals, a text put
    together in a stream and in a string, and the level of a log set by its name.  A double is the rational
    number it stands for; the clock and std::put_time are parameters. *)

From Stdlib Require Import QArith Qround Lqa.
From S2P Require Import Prelude CppString RandomClock.

#[local] Open Scope Z_scope.

(** ** string/getline/ *)

(** [std::getline]: the text up to a delimiter, which is taken away; nothing from a stream at its end. *)
Fixpoint up_to (d : ascii) (t : bytes) : bytes * bytes :=
  match t with
  | [] => ([], [])
  | c :: t => if Ascii.eqb c d then ([], t) else let '(s, rest) := up_to d t in (c :: s, rest)
  end.
Definition getline (d : ascii) (t : bytes) : option (bytes * bytes) :=
  match t with [] => None | _ => Some (up_to d t) end.

(** The loop of main: the strings it prints; [fuel]: the length of the text is enough. *)
Fixpoint getline_loop (fuel : nat) (d : ascii) (t : bytes) : option (list bytes) :=
  match getline d t, fuel with
  | None, _ => Some []
  | Some (s, rest), S fuel => l ← getline_loop fuel d rest; Some (s :: l)
  | Some _, O => None
  end.
Definition getline_main : option (list bytes) := getline_loop 5 "|"%char (str "1|2|3").

(** ** stream_based_io/sstream/performance_compare_with_string/ *)

(** A loop from 0 up to [n]. *)
Definition times {A} (n : Z) (f : A → A) (a : A) : A := Nat.iter (Z.to_nat n) f a.

(** std::stringstream: its buffer and the position at which the next output is written, over what is there. *)
Record stringstream := mkStream { buffer : bytes; put : nat }.
Definition write (s : bytes) (ss : stringstream) : stringstream :=
  mkStream (take (put ss) (buffer ss) ++ s ++ drop (put ss + length s) (buffer ss)) (put ss + length s).

(** [r] is a size_t. *)
Definition UseStringStream (s : bytes) (n repeat : Z) : Z :=
  times repeat (λ r, u64 (r + Z.of_nat (length (buffer (times n (write s) (mkStream [] 0)))))) 0.
Definition UseString (s : bytes) (n repeat : Z) : Z :=
  times repeat (λ r, u64 (r + Z.of_nat (length (times n (λ ss, ss ++ s) [])))) 0.

Definition originString : bytes := str "abcdefghijklmnopqrstuvwxyz".
Definition copyCount : Z := 2.
Definition repeatTimes : Z := 1000000.

(** What main prints: milliseconds and a length, twice; [t0] to [t4] are what the clock shows. *)
Definition performance_main (t0 t1 t2 t3 t4 : Z) : list (result Q * Z) :=
  let w := Stopwatch_Stop t2 (Stopwatch_Start t1 (Stopwatch_new t0)) in
  let w' := Stopwatch_Stop t4 (Stopwatch_Start t3 w) in
  [(ElapsedMs w, UseStringStream originString copyCount repeatTimes);
   (ElapsedMs w', UseString originString copyCount repeatTimes)].

(** ** string/double_to_string/ *)

(** A number that is not negative in fixed notation, rounded to the nearest (a tie goes up). *)
Fixpoint pad (k : nat) (n : Z) : bytes :=
  match k with O => [] | S k => pad k (n / 10) ++ [digit_chr (n mod 10)] end.
Definition rounded (precision : nat) (v : Q) : Z := Qfloor (v * inject_Z (10 ^ Z.of_nat precision) + (1 # 2))%Q.
Definition fixed (precision : nat) (v : Q) : bytes :=
  let n := rounded precision v in
  to_string (n / 10 ^ Z.of_nat precision) ++ str "." ++ pad precision (n mod 10 ^ Z.of_nat precision).
Definition double_to_string_main : bytes := fixed 2 (314159 # 100000).

(** ** stream_based_io/io_manipulators/put_time/ *)

Section put_time.
(** std::put_time of the local time of a time in seconds, with the format of the program. *)
Context (put_time : Z → bytes).

(** [now] in nanoseconds since 1970. *)
Definition GetTimeStamp (now : Z) : bytes :=
  let ms := Z.quot now 1000000 - Z.quot now 1000000000 * 1000 in
  put_time (Z.quot now 1000000000) ++ to_string ms.
End put_time.

(** ** demos/log_demo/ *)

Inductive level := debug | info | warn | err.
#[export] Instance level_eq_dec : EqDecision level.
Proof. solve_decision. Defined.

(** The level of the logger that InitLogger makes, and of spdlog after SetLogLevel; other names change nothing. *)
Definition InitLogger : level := debug.
Definition SetLogLevel (name : bytes) (current : level) : level :=
  if bool_decide (name = str "debug") then debug
  else if bool_decide (name = str "info") then info
  else if bool_decide (name = str "warn") then warn
  else if bool_decide (name = str "error") then err
  else current.

Definition rank (l : level) : nat := match l with debug => 0 | info => 1 | warn => 2 | err => 3 end.
Definition logged (current : level) (messages : list (level * bytes)) : list (level * bytes) :=
  filter (λ m, (rank current ≤ rank m.1)%nat) messages.
Definition log_main : list (level * bytes) :=
  logged (SetLogLevel (str "debug") InitLogger)
    [(debug, str "debug"); (info, str "info: 2"); (warn, str "warn: 3"); (err, str "error: 4")].

(** ** Theorems on getline *)

Lemma up_to_rest d t : (length (up_to d t).2 ≤ length t)%nat.
Proof. induction t as [|c t IH]; simpl; [lia|]. destruct (Ascii.eqb c d); simpl; [lia|]. destruct (up_to d t); simpl in *; lia. Qed.

Lemma up_to_shrinks d c t : (length (up_to d (c :: t)).2 < length (c :: t))%nat.
Proof.
  simpl. pose proof (up_to_rest d t). destruct (Ascii.eqb c d); simpl; [lia|]. destruct (up_to d t); simpl in *; lia.
Qed.

Lemma getline_loop_ends d fuel t : (length t ≤ fuel)%nat → is_Some (getline_loop fuel d t).
Proof.
  revert t. induction fuel as [|fuel IH]; intros [|c t] H; cbn [getline_loop getline]; try (by eexists); [simpl in H; lia|].
  pose proof (up_to_shrinks d c t) as Hs. destruct (up_to d (c :: t)) as [s rest]. cbn [snd] in Hs.
  destruct (IH rest) as [l ->]; [lia|]. by eexists.
Qed.

Lemma up_to_piece d s t : d ∉ s → up_to d (s ++ d :: t) = (s, t) ∧ up_to d s = (s, []).
Proof.
  induction s as [|c s IH]; simpl; [by rewrite Ascii.eqb_refl|]. rewrite not_elem_of_cons. intros [Hc Hs].
  destruct (Ascii.eqb_spec c d); [congruence|]. destruct (IH Hs) as [-> ->]. done.
Qed.

(** A text of pieces with delimiters between them. *)
Fixpoint joined (d : ascii) (s : bytes) (l : list bytes) : bytes :=
  match l with [] => s | s' :: l => s ++ d :: joined d s' l end.

Fixpoint without_empty_end (l : list bytes) : list bytes :=
  match l with [] => [] | [s] => if bool_decide (s = []) then [] else [s] | s :: l => s :: without_empty_end l end.

(** The loop yields the pieces of a text again, but for an empty one at the end, and ends. *)
Theorem getline_pieces d s l fuel :
  Forall (λ s, d ∉ s) (s :: l) → (length (joined d s l) ≤ fuel)%nat →
  getline_loop fuel d (joined d s l) = Some (without_empty_end (s :: l)).
Proof.
  revert s fuel. induction l as [|s' l IH]; intros s fuel Hall Hf.
  - apply Forall_cons in Hall as [Hs _]. cbn [joined] in *. destruct s as [|c s]; [by destruct fuel|].
    destruct fuel as [|fuel]; [simpl in Hf; lia|]. cbn [getline_loop getline].
    rewrite (proj2 (up_to_piece d (c :: s) [] Hs)). by destruct fuel.
  - apply Forall_cons in Hall as [Hs Hall]. change (joined d s (s' :: l)) with (s ++ d :: joined d s' l) in *.
    rewrite length_app in Hf. destruct fuel as [|fuel]; [simpl in Hf; lia|].
    assert (getline d (s ++ d :: joined d s' l) = Some (s, joined d s' l)) as Hg.
    { unfold getline. rewrite (proj1 (up_to_piece d s _ Hs)). by destruct s. }
    cbn [getline_loop]. rewrite Hg, IH by (done || simpl in Hf; lia). done.
Qed.

Lemma getline_pieces_witness : getline_loop 5 "|"%char (str "1|2|3") = Some [str "1"; str "2"; str "3"].
Proof.
  apply (getline_pieces "|"%char (str "1") [str "2"; str "3"] 5); [|simpl; lia].
  repeat constructor; apply (bool_decide_unpack _); vm_compute; exact I.
Defined.

(** ** Theorems on the other programs *)

Lemma times_S {A} n (f : A → A) a : 0 ≤ n → times (n + 1) f a = f (times n f a).
Proof. intros H. unfold times. by rewrite Z2Nat.inj_add, Nat.add_comm by lia. Qed.

Lemma repeated_length (s : bytes) n : 0 ≤ n → Z.of_nat (length (times n (λ ss, ss ++ s) [])) = n * Z.of_nat (length s).
Proof.
  intros Hn. revert n Hn. apply natlike_ind; [done|]. intros n Hn IH.
  rewrite <- Z.add_1_r, times_S, length_app by done. lia.
Qed.

(** A stream that is only written to holds the string. *)
Lemma written_at_end (s : bytes) n :
  0 ≤ n → times n (write s) (mkStream [] 0) =
  mkStream (times n (λ ss, ss ++ s) []) (length (times n (λ ss, ss ++ s) [])).
Proof.
  intros Hn. revert n Hn. apply natlike_ind; [done|]. intros n Hn IH.
  rewrite <- Z.add_1_r, !times_S, IH by done. unfold write. simpl.
  by rewrite firstn_all, drop_ge, app_nil_r, length_app by lia.
Qed.

Lemma total_length n repeat k :
  0 ≤ n → 0 ≤ repeat → times repeat (λ r, u64 (r + k)) 0 = u64 (repeat * k).
Proof.
  intros Hn Hr. revert repeat Hr. apply natlike_ind; [done|]. intros r Hr IH.
  rewrite <- Z.add_1_r, times_S, IH by done. unfold u64, wrap. rewrite Zplus_mod_idemp_l. f_equal. lia.
Qed.

(** The stream and the string give the same total: the length of all copies, modulo 2^64. *)
Theorem totals_agree s n repeat :
  0 ≤ n → 0 ≤ repeat →
  UseStringStream s n repeat = u64 (repeat * (n * Z.of_nat (length s))) ∧
  UseString s n repeat = UseStringStream s n repeat.
Proof.
  intros Hn Hr. unfold UseStringStream, UseString. rewrite written_at_end by done. simpl.
  split; [|done]. rewrite repeated_length by done. by apply (total_length n).
Qed.

Lemma totals_agree_witness : UseStringStream originString copyCount repeatTimes = 52000000.
Proof.
  destruct (totals_agree originString copyCount repeatTimes) as [-> _]; [discriminate|discriminate|].
  vm_compute. reflexivity.
Defined.

Lemma parse_digits_app (s t : bytes) acc :
  Forall (λ c, isdigit c = true) s → parse_digits (s ++ t) acc = parse_digits t (parse_digits s acc).
Proof. intros H. revert acc. induction H as [|c s Hc _ IH]; intros acc; simpl; [done|]. rewrite Hc. apply IH. Qed.

Lemma pad_digits k n :
  length (pad k n) = k ∧ Forall (λ c, isdigit c = true) (pad k n) ∧
  ∀ acc, parse_digits (pad k n) acc = acc * 10 ^ Z.of_nat k + n mod 10 ^ Z.of_nat k.
Proof.
  revert n. induction k as [|k IH]; intros n; [split_and!; [done|constructor|]; intros acc; simpl; rewrite Z.mod_1_r; lia|].
  cbn [pad]. destruct (IH (n / 10)) as (Hl & Hd & Hp).
  assert (0 ≤ n mod 10 < 10) as Hn by (apply Z.mod_pos_bound; lia). pose proof (isdigit_digit_chr _ Hn) as Hdig.
  split_and!; [rewrite length_app, Hl; simpl; lia|apply Forall_app; split; [done|by repeat constructor]|].
  intros acc. rewrite parse_digits_app, Hp by done. cbn [parse_digits]. rewrite Hdig.
  unfold digit_val. rewrite code_digit_chr by done.
  rewrite Nat2Z.inj_succ, Z.pow_succ_r by lia. rewrite (Z.rem_mul_r n 10) by lia. lia.
Qed.

(** A number in fixed notation is digits, a point and as many digits as the precision says; read without the
    point they are the number in units of the last digit, to within half a unit. *)
Theorem fixed_is_near precision v :
  (0 <= v)%Q →
  ∃ i f, fixed precision v = i ++ str "." ++ f ∧ length f = precision ∧
    Forall (λ c, isdigit c = true) (i ++ f) ∧
    let n := inject_Z (parse_digits (i ++ f) 0) in
    let w := (v * inject_Z (10 ^ Z.of_nat precision))%Q in
    (n - (1 # 2) <= w <= n + (1 # 2))%Q.
Proof.
  intros Hv. set (p := 10 ^ Z.of_nat precision). set (r := rounded precision v).
  assert (0 < p) as Hp by (apply Z.pow_pos_nonneg; lia).
  assert (0 ≤ r) as Hr.
  { change 0 with (Qfloor 0). apply Qfloor_resp_le. fold p.
    assert (0 <= v * inject_Z p)%Q; [|lra]. apply Qmult_le_0_compat; [done|]. rewrite <- (Zle_Qle 0). lia. }
  destruct (pad_digits precision (r mod p)) as (Hl & Hd & Hparse).
  exists (to_string (r / p)), (pad precision (r mod p)).
  assert (0 ≤ r / p) as Hq by (by apply Z.div_pos).
  pose proof (to_string_digits _ Hq) as Hi. destruct (to_string_nonneg _ Hq) as (c & ds & Hs & _ & Hval).
  split_and!; [done|done|by apply Forall_app|..].
  all: assert (parse_digits (to_string (r / p) ++ pad precision (r mod p)) 0 = r) as ->
    by (rewrite parse_digits_app, Hparse, Hs, Hval by done; fold p; rewrite Z.mod_mod by lia;
        pose proof (Z.div_mod r p); lia).
  all: unfold r, rounded; fold p; set (w := (v * inject_Z p)%Q);
    pose proof (Qfloor_le (w + (1 # 2))) as H1; pose proof (Qlt_floor (w + (1 # 2))) as H2;
    rewrite inject_Z_plus in H2; change (inject_Z 1) with 1%Q in H2; lra.
Qed.

Lemma fixed_is_near_witness :
  ∃ i f, fixed 2 (314159 # 100000) = i ++ str "." ++ f ∧ length f = 2%nat.
Proof.
  destruct (fixed_is_near 2 (314159 # 100000)) as (i & f & H & Hl & _); [discriminate|]. by exists i, f.
Defined.

(** Two times in one second, in order: their stamps are in the other order, as the milliseconds have no leading zeros. *)
Fixpoint before (s t : bytes) : bool :=
  match s, t with
  | [], _ :: _ => true
  | c :: s, d :: t => (nat_of_ascii c <? nat_of_ascii d)%nat || Ascii.eqb c d && before s t
  | _, [] => false
  end.

Lemma before_app p s t : before (p ++ s) (p ++ t) = before s t.
Proof. induction p as [|c p IH]; simpl; [done|]. by rewrite Nat.ltb_irrefl, Ascii.eqb_refl, IH. Qed.

Theorem stamps_out_of_order put_time second :
  0 ≤ second →
  let t := second * 1000000000 + 9000000 in
  let t' := second * 1000000000 + 10000000 in
  t < t' ∧ before (GetTimeStamp put_time t') (GetTimeStamp put_time t) = true.
Proof.
  intros Hs t t'. split; [lia|]. unfold GetTimeStamp, t, t'.
  rewrite !Z.quot_div_nonneg by lia.
  replace ((second * 1000000000 + 9000000) / 1000000000) with second by (apply Z.div_unique with 9000000; lia).
  replace ((second * 1000000000 + 10000000) / 1000000000) with second by (apply Z.div_unique with 10000000; lia).
  replace ((second * 1000000000 + 9000000) / 1000000) with (second * 1000 + 9) by (apply Z.div_unique with 0; lia).
  replace ((second * 1000000000 + 10000000) / 1000000) with (second * 1000 + 10) by (apply Z.div_unique with 0; lia).
  rewrite before_app. replace (second * 1000 + 10 - second * 1000) with 10 by lia.
  by replace (second * 1000 + 9 - second * 1000) with 9 by lia.
Qed.

Lemma stamps_out_of_order_witness : before (GetTimeStamp (λ _, str "x") 10000000) (GetTimeStamp (λ _, str "x") 9000000) = true.
Proof. exact (proj2 (stamps_out_of_order (λ _, str "x") 0 ltac:(lia))). Defined.

Lemma double_to_string_prints : double_to_string_main = str "3.14".
Proof. by vm_compute. Qed.

Lemma log_main_logs : log_main = [(debug, str "debug"); (info, str "info: 2"); (warn, str "warn: 3"); (err, str "error: 4")].
Proof. by vm_compute. Qed.
