(* ===== verification/EchoMain.v ===== *)
(** * The program of the epoll server (linux_programming/socket/server/use_epoll/edge_triggered/main.cpp)

    main around the server and the sessions of EchoServer.v: how it ends, whatever the kernel answers.  The signals
    are given as those that arrive before each turn of the loop reads [timeToExit]. *)

From S2P Require Import Prelude CppString Posix RefKernel EchoServer.

Definition SIGINT : Z := 2.
Definition PORT : Z := 5666.

(** The flag after a signal; it is never cleared. *)
Definition SigHandler (sigNum : Z) (timeToExit : bool) : bool := if (sigNum =? SIGINT)%Z then true else timeToExit.

(** What the turns of the loop read, from the signals before each. *)
Fixpoint flags_of (timeToExit : bool) (turns : list (list Z)) : list bool :=
  match turns with
  | [] => []
  | signals :: turns =>
      let timeToExit := foldl (λ b n, SigHandler n b) timeToExit signals in
      timeToExit :: flags_of timeToExit turns
  end.

Lemma flags_length b turns : length (flags_of b turns) = length turns.
Proof. revert b. induction turns as [|s turns IH]; intros b; simpl; [done|]. by rewrite IH. Qed.

Lemma signal_raises b signals : b = true ∨ SIGINT ∈ signals → foldl (λ b n, SigHandler n b) b signals = true.
Proof.
  revert b. induction signals as [|n signals IH]; intros b; cbn [foldl]; [by intros [|?%elem_of_nil]|].
  intros H. apply IH. unfold SigHandler. destruct (Z.eqb_spec n SIGINT); [by left|].
  destruct H as [->|[H|H]%elem_of_cons]; [by left|congruence|by right].
Qed.

Lemma flag_is_raised b turns : SIGINT ∈ concat turns → true ∈ flags_of b turns.
Proof.
  revert b. induction turns as [|s turns IH]; intros b; cbn [concat flags_of]; [by intros ?%elem_of_nil|].
  intros [H|H]%elem_of_app.
  - rewrite signal_raises by by right. left.
  - right. by apply IH.
Qed.

Section main.
  Context {K : Type} `{!Kernel K} (read_fuel : nat).

(** The server with its sessions, and the line main's handler prints.  The other output, which tells of closed
    descriptors and of time-outs, is not modelled. *)
Record program := mkProgram { echo : Echo K; exception_line : option bytes }.
Definition set_echo e p := mkProgram e (exception_line p).

(** [signal] may fail. *)
Definition SetExitCondition (signal_ok : bool) : M program unit := if signal_ok then mret tt else throw RuntimeError.

(** The handler, for an exception whose text is [what]. *)
Definition print_exception (what : bytes) : M program unit :=
  modify (λ p, mkProgram (echo p) (Some (str "exception: " ++ what))).

Definition main (signal_ok : bool) (turns : list (list Z)) (what : bytes) : M program Z :=
  try_catch
    (SetExitCondition signal_ok;; zoom echo set_echo (Server_Start read_fuel PORT (flags_of false turns)))
    (print_exception what);;
  mret 0%Z.

(** The constructors call nothing. *)
Definition start (k : K) : program := mkProgram (Server_Server k) None.

(** The part of [Start] before the loop. *)
Definition set_up : M (Echo K) unit :=
  Server_Listen PORT;; Epoll_Init;; e ← get; Epoll_Add (elistenFd e) EPOLLIN.

(** ** Runs of the loop, call by call *)

Inductive loop_move (e e' : Echo K) : Prop :=
  | lm_wait evs : Epoll_Wait TIMEOUT_MS e = (Ok evs, e') → loop_move e e'
  | lm_accept : Server_ProcessNewConnection e = (Ok tt, e') → loop_move e e'
  | lm_read fd id : conns e !! fd = Some id → SessionManager_CanRead read_fuel id e = (Ok tt, e') → loop_move e e'
  | lm_write fd id : conns e !! fd = Some id → SessionManager_CanWrite id e = (Ok tt, e') → loop_move e e'
  | lm_error fd id : conns e !! fd = Some id → SessionManager_ErrorOccurred id e = (Ok tt, e') → loop_move e e'.

(** The result of a call, unless it is a value or an exception, is that of a read event of a connection, in a state the
    loop came to from [e]: a read of the socket filled the buffer with text, so that the behaviour is undefined, or
    [read_fuel] reads have not found the socket empty. *)
Definition stuck_read {A} (e : Echo K) (r : result A) (e' : Echo K) : Prop :=
  ∃ e0 fd id, rtc loop_move e e0 ∧ conns e0 !! fd = Some id ∧
    match r with
    | Undef => SessionManager_CanRead read_fuel id e0 = (Undef, e') ∧
        ∃ bs k, sys_read fd READ_BUF_SIZE k = (inr bs, ekern e') ∧ length bs = READ_BUF_SIZE ∧ Ascii.zero ∉ bs
    | OutOfFuel => SessionManager_CanRead read_fuel id e0 = (OutOfFuel, e') ∧
        (read_all READ_BUF_SIZE READ_BUF_SIZE read_fuel fd [] (ekern e0)).1 = OutOfFuel
    | _ => False
    end.

Definition fine {A} (e : Echo K) (x : result A * Echo K) : Prop :=
  match x.1 with Ok _ | Throw _ => True | _ => stuck_read e x.1 x.2 end.

Lemma stuck_later {A} e e1 (r : result A) e' : rtc loop_move e e1 → stuck_read e1 r e' → stuck_read e r e'.
Proof. intros H (e0 & fd & id & H0 & Hr). exists e0, fd, id. split; [by etrans|done]. Qed.

Lemma fine_later {A} e e1 (x : result A * Echo K) : rtc loop_move e e1 → fine e1 x → fine e x.
Proof. unfold fine. destruct (x.1); [done..| |]; apply stuck_later. Qed.

Lemma fine_bind {A B} (m : M (Echo K) A) (f : A → M (Echo K) B) e :
  fine e (m e) → (∀ a e1, m e = (Ok a, e1) → rtc loop_move e e1 ∧ fine e1 (f a e1)) → fine e ((m ≫= f) e).
Proof.
  unfold mbind, M_bind. intros Hm Hf. destruct (m e) as [[a|x| |] e1] eqn:E; try done.
  destruct (Hf a e1 eq_refl) as [H1 H2]. by eapply fine_later.
Qed.
End main.
#[global] Arguments program K : clear implicits.

(** ** Under the laws of the kernel *)

Section laws.
  Context {K : Type} `{!Kernel K, !KernelLaws K} (read_fuel : nat).
#[local] Abbreviation fine := (fine (K := K) read_fuel).
#[local] Abbreviation moves := (rtc (loop_move (K := K) read_fuel)).
  Implicit Types e : Echo K.

(** Undefined behaviour comes of a buffer that was filled. *)
Lemma read_all_undef n fuel fd s (k k' : K) :
  read_all n n fuel fd s k = (Undef, k') →
  ∃ bs k0, sys_read fd n k0 = (inr bs, k') ∧ length bs = n ∧ Ascii.zero ∉ bs.
Proof.
  revert s k. induction fuel as [|fuel IH]; intros s k; [done|]. cbn [read_all]. unfold mbind, M_bind, syscall.
  destruct (sys_read fd n k) as [[code|[|b bs]] k1] eqn:E; [by destruct (code =? EAGAIN)%Z|done|].
  destruct (c_str (filled n (b :: bs))) eqn:Ec; [apply IH|]. intros [= <-].
  exists (b :: bs), k. split; [done|]. pose proof (read_len _ _ _ _ _ E) as Hlen.
  destruct n as [|n]; [simpl in Hlen; lia|].
  assert (length (b :: bs) = S n) as Hfull.
  { destruct (decide (length (b :: bs) ≤ n)) as [Hle|]; [|lia].
    destruct (c_str_terminated n (b :: bs) Hle) as [t Ht]. congruence. }
  split; [done|]. intros Hz. unfold filled in Ec. rewrite Hfull, Nat.sub_diag in Ec. simpl replicate in Ec.
  rewrite app_nil_r in Ec. clear -Hz Ec. induction (b :: bs) as [|c l IHl]; [by apply elem_of_nil in Hz|].
  simpl in Ec. case_match eqn:Hc; [done|]. destruct (c_str l) eqn:El; [done|].
  apply elem_of_cons in Hz as [<-|Hz]; [by rewrite Ascii.eqb_refl in Hc|by apply IHl].
Qed.

Lemma Epoll_Add_total fd m e : ∃ r e', Epoll_Add fd m e = (r, e') ∧ (r = Ok tt ∨ r = Throw RuntimeError).
Proof.
  unfold Epoll_Add, ecall, zoom, syscall, check, mbind, M_bind, get. simpl.
  destruct (sys_epoll_ctl_add _ fd m (ekern e)) as [[x|[]] k']; eexists _, _; (split; [reflexivity|auto]).
Qed.

(** Accepting returns or throws. *)
Lemma ProcessNewConnection_fine e : fine e (Server_ProcessNewConnection e).
Proof.
  assert (∃ r e', Server_ProcessNewConnection e = (r, e') ∧ (r = Ok tt ∨ r = Throw RuntimeError)) as (r & e' & -> & [->| ->]);
    [|done..].
  unfold Server_ProcessNewConnection, Server_Accept, ecall, zoom, syscall, check.
  unfold mbind, M_bind, get, mret, M_ret, throw.
  destruct (sys_accept _ _) as [[x|[[fd addr] p]] k1]; [eauto|]. destruct (lib_inet_ntop addr); [eauto|].
  simpl. case_bool_decide; [eauto|]. unfold modify. simpl.
  edestruct (Echo_SetNonBlocking_frame fd) as (k2 & -> & _).
  edestruct (Epoll_Add_total fd) as (r & e4 & -> & [->| ->]); [|eauto].
  unfold gets, SessionManager_NewConnection, VerifySessionNotExist, mbind, M_bind, get. destruct (decide _); eauto.
Qed.

Lemma CanRead_fine fd id e :
  echo_inv e → conns e !! fd = Some id → fine e (SessionManager_CanRead read_fuel id e).
Proof.
  intros Hi Hfd. destruct (einv_conns e Hi fd id Hfd) as (_ & _ & s & Hs & _).
  pose proof (CanRead_eq read_fuel fd id s e Hi Hfd Hs) as Heq. cbv zeta in Heq.
  destruct (read_all _ _ _ fd [] (ekern e)) as [[[t eof]|x| |] k'] eqn:E.
  - destruct (feed_text_ok t (s_input s) (s_output s)) as (i & o & Ht). rewrite Ht in Heq. by rewrite Heq.
  - by rewrite Heq.
  - unfold EchoMain.fine. rewrite Heq. exists e, fd, id. split; [apply rtc_refl|]. split; [done|]. split; [done|].
    destruct (read_all_undef _ _ _ _ _ _ E) as (bs & k0 & ? & ? & ?). by exists bs, k0.
  - unfold EchoMain.fine. rewrite Heq. exists e, fd, id. split; [apply rtc_refl|]. split; [done|]. split; [done|]. by rewrite E.
Qed.

Lemma CanWrite_fine fd id e :
  echo_inv e → conns e !! fd = Some id → fine e (SessionManager_CanWrite id e).
Proof.
  intros Hi Hfd. destruct (einv_conns e Hi fd id Hfd) as (_ & _ & s & Hs & _).
  destruct (CanWrite_cases fd id s e Hi Hfd Hs) as (r & e' & -> & Hr). by destruct r.
Qed.

Lemma flag_fine l n b fd (f : Z → M (Echo K) unit) e :
  (∀ id e, good l n e → conns e !! fd = Some id → fine e (f id e)) →
  (∀ e, 0%Z ∉ sessions e → f 0%Z e = (Throw RuntimeError, e)) →
  good l n e → fine e (when b (id ← conns_at fd; f id) e).
Proof.
  intros Hf H0 Hg. destruct b; [|done]. simpl. unfold conns_at, mbind, M_bind, get. destruct (conns e !! fd) as [id|] eqn:E.
  - by apply Hf.
  - unfold modify, mret, M_ret. rewrite H0; [done|]. simpl. apply zero_no_session, Hg.
Qed.

Lemma flag_moves b fd (f : Z → M (Echo K) unit) e e' :
  (∀ id, conns e !! fd = Some id → f id e = (Ok tt, e') → loop_move read_fuel e e') →
  (∀ e, 0%Z ∉ sessions e → f 0%Z e = (Throw RuntimeError, e)) →
  echo_inv e → when b (id ← conns_at fd; f id) e = (Ok tt, e') → moves e e'.
Proof.
  intros Hf H0 Hi. destruct b; simpl; [|intros [= ->]; apply rtc_refl].
  unfold conns_at, mbind, M_bind, get. destruct (conns e !! fd) as [id|] eqn:E.
  - intros H. apply rtc_once. by apply (Hf id).
  - unfold modify, mret, M_ret. rewrite H0; [done|]. simpl. by apply zero_no_session.
Qed.

Lemma ProcessEvent_split fd mask e :
  Server_ProcessEvent read_fuel fd mask e =
  if bool_decide (conns e !! fd = None) then (Throw RuntimeError, e)
  else
    (when (has_flag mask EPOLLIN) (id ← conns_at fd; SessionManager_CanRead read_fuel id);;
     when (has_flag mask EPOLLOUT) (id ← conns_at fd; SessionManager_CanWrite id);;
     when (has_flag mask EPOLLERR) (id ← conns_at fd; SessionManager_ErrorOccurred id)) e.
Proof. unfold Server_ProcessEvent. unfold mbind at 1, M_bind at 1, get. by case_bool_decide. Qed.

(** The three callbacks of an event, one after the other. *)
Lemma ProcessEvent_fine l n fd mask e :
  good l n e → fine e (Server_ProcessEvent read_fuel fd mask e) ∧
  ∀ e', Server_ProcessEvent read_fuel fd mask e = (Ok tt, e') → moves e e'.
Proof.
  intros Hg. rewrite ProcessEvent_split. case_bool_decide; [by split|].
  pose proof (callbacks_zero (K := K) read_fuel) as H0.
  assert (∀ b e e', good l n e → when b (id ← conns_at fd; SessionManager_CanRead read_fuel id) e = (Ok tt, e') →
    moves e e' ∧ good l n e') as Hread.
  { intros b e0 e1 Hg0 Hr. split.
    - eapply flag_moves; [intros ?; by eapply lm_read|intros; by apply H0|apply Hg0|exact Hr].
    - eapply flag_good; [intros; by eapply CanRead_good|apply H0|done|exact Hr]. }
  assert (∀ b e e', good l n e → when b (id ← conns_at fd; SessionManager_CanWrite id) e = (Ok tt, e') →
    moves e e' ∧ good l n e') as Hwrite.
  { intros b e0 e1 Hg0 Hr. split.
    - eapply flag_moves; [intros ?; by eapply lm_write|intros; by apply H0|apply Hg0|exact Hr].
    - eapply flag_good; [intros; by eapply CanWrite_good|apply H0|done|exact Hr]. }
  split.
  - apply fine_bind.
    { apply flag_fine with l n; [|intros; by apply H0|done]. intros id e1 [Hi _]. by apply CanRead_fine. }
    intros [] e1 [Hm1 Hg1]%Hread; [|done]. split; [done|]. apply fine_bind.
    { apply flag_fine with l n; [|intros; by apply H0|done]. intros id e2 [Hi _]. by apply CanWrite_fine. }
    intros [] e2 [Hm2 Hg2]%Hwrite; [|done]. split; [done|].
    apply flag_fine with l n; [|intros; by apply H0|done].
    intros id e3 Hg3 Hfd. by destruct (ErrorOccurred_good l n fd id e3 Hg3 Hfd) as (e4 & -> & _).
  - intros e' H1. apply bind_inv_ok in H1 as ([] & e1 & [Hm1 Hg1]%Hread & H1); [|done].
    apply bind_inv_ok in H1 as ([] & e2 & [Hm2 Hg2]%Hwrite & H1); [|done].
    etrans; [exact Hm1|]. etrans; [exact Hm2|].
    eapply flag_moves; [intros ?; by eapply lm_error|intros; by apply H0|apply Hg2|exact H1].
Qed.

Lemma ProcessEvents_fine l evs n e :
  good l n e → (n + Z.of_nat (length evs) < 2 ^ 64)%Z → fine e (Server_ProcessEvents read_fuel evs e) ∧
  ∀ e', Server_ProcessEvents read_fuel evs e = (Ok tt, e') → moves e e'.
Proof.
  unfold Server_ProcessEvents. revert n e. induction evs as [|ev evs IH]; intros n e Hg Hb.
  { split; [done|]. intros e' [= ->]. apply rtc_refl. }
  cbn [length for_each] in *.
  assert (∀ e1, (e ← get; if (ev.1 =? elistenFd e)%Z then Server_ProcessNewConnection
      else Server_ProcessEvent read_fuel ev.1 ev.2) e = (Ok tt, e1) →
    moves e e1 ∧ ∃ n1, good l n1 e1 ∧ (n1 ≤ n + 1)%Z) as Hstep.
  { intros e1 H1. unfold mbind, M_bind, get in H1. destruct (_ =? _)%Z.
    - split; [by apply rtc_once, lm_accept|]. exists (n + 1)%Z. split; [|lia]. eapply ProcessNewConnection_good; eauto. lia.
    - split; [by eapply ProcessEvent_fine|]. exists n. split; [|lia]. by eapply ProcessEvent_good. }
  split.
  - apply fine_bind.
    + unfold mbind, M_bind, get. destruct (_ =? _)%Z; [apply ProcessNewConnection_fine|by eapply ProcessEvent_fine].
    + intros [] e1 (Hm & n1 & Hg1 & Hn1)%Hstep. split; [done|]. apply (IH n1); [done|lia].
  - intros e' H1. apply bind_inv_ok in H1 as ([] & e1 & (Hm & n1 & Hg1 & Hn1)%Hstep & H1).
    etrans; [exact Hm|]. apply (IH n1); [done|lia|done].
Qed.

(** The loop with a flag that is raised: it ends with everything released, or as [fine] says. *)
Lemma loop_fine flags l n e :
  good l n e → true ∈ flags → (n + Z.of_nat (length flags * MAX_EVENTS) < 2 ^ 64)%Z →
  fine e (Server_loop read_fuel flags e).
Proof.
  revert n e. induction flags as [|b flags IH]; intros n e Hg Hin Hb; [by apply elem_of_nil in Hin|].
  cbn [Server_loop length] in *. unfold MAX_EVENTS in Hb.
  pose proof (Epoll_Wait_good l n TIMEOUT_MS e Hg) as Hw. apply fine_bind.
  { unfold EchoMain.fine. by destruct (Epoll_Wait TIMEOUT_MS e) as [[| | |] ?]. }
  intros evs e1 E1. split; [by eapply rtc_once, lm_wait|].
  rewrite E1 in Hw. destruct Hw as [Hg1 Hlen]. unfold MAX_EVENTS in Hlen. apply fine_bind.
  { unfold when. destruct (0 <? _)%Z; [|done]. apply (ProcessEvents_fine l evs n); [done|lia]. }
  intros [] e2 E2. assert (moves e1 e2 ∧ ∃ n2, good l n2 e2 ∧ (n2 ≤ n + 10)%Z) as (Hm & n2 & Hg2 & Hn2).
  { unfold when in E2. destruct (0 <? _)%Z; [|injection E2 as <-; split; [apply rtc_refl|exists n; split; [done|lia]]].
    split; [apply (ProcessEvents_fine l evs n e1); [done|lia|done]|].
    destruct (ProcessEvents_good read_fuel l evs n e1 e2 Hg1) as (n2 & ? & ?); [lia|done|].
    exists n2. split; [done|lia]. }
  split; [done|]. destruct b.
  - destruct Hg2 as (Hi2 & _). by destruct (Release_ok e2 Hi2) as (e3 & -> & _).
  - apply (IH n2); [done|by apply elem_of_cons in Hin as [|]|unfold MAX_EVENTS; lia].
Qed.

(** The set-up either throws or leaves an empty server that listens, with two descriptors more open. *)
Lemma set_up_good (k : K) :
  watched k = ∅ →
  match set_up (Server_Server k) with
  | (Ok _, e) => good (mkSetup (elistenFd e) (eepollFd e) (fds k ∪ {[elistenFd e; eepollFd e]})) 0 e ∧
      elistenFd e ∉ fds k ∪ {[eepollFd e]}
  | (Throw _, _) => True
  | _ => False
  end.
Proof.
  intros Hk. unfold set_up, Server_Listen, Epoll_Init, Epoll_Add, ecall, zoom, syscall, check.
  unfold mbind, M_bind, get, modify, throw, mret, M_ret. simpl.
  destruct (sys_socket k) as [[e|fd] k1] eqn:E1; [done|]. simpl.
  destruct (sys_bind fd _ k1) as [[e|[]] k2] eqn:E2; [done|]. simpl.
  destruct (sys_listen fd _ k2) as [[e|[]] k3] eqn:E3; [done|]. simpl.
  destruct (sys_epoll_create k3) as [[e|ep] k4] eqn:E4; [done|]. simpl.
  destruct (sys_epoll_ctl_add ep fd _ k4) as [[e|[]] k5] eqn:E5; [done|]. simpl.
  apply socket_fresh in E1 as (Hn1 & Hf1 & _). apply bind_frame in E2 as [Hf2 _]. apply listen_frame in E3 as [Hf3 _].
  apply epoll_create_fresh in E4 as (Hn4 & Hf4 & _). apply ctl_add_ok in E5 as [Hf5 Hw5].
  assert (ep ≠ fd) as Hne by (intros ->; apply Hn4; rewrite Hf3, Hf2, Hf1; set_solver -).
  split; [split_and!; [| |done]|by rewrite not_elem_of_union, not_elem_of_singleton].
  - split; simpl; try done. rewrite Hw5. set_solver.
  - split; simpl; try done. by rewrite dom_empty_L, (right_id_L ∅ (∪)), Hf5, Hf4, Hf3, Hf2, Hf1, (assoc_L (∪)).
Qed.

Lemma Start_split flags e :
  Server_Start read_fuel PORT flags e = (set_up;; Server_loop read_fuel flags) e.
Proof.
  unfold Server_Start, set_up, mbind, M_bind. destruct (Server_Listen PORT e) as [[[]| | |] e1]; [|done..].
  destruct (Epoll_Init e1) as [[[]| | |] e2]; [|done..]. done.
Qed.

Lemma main_eq turns what (k : K) :
  main read_fuel true turns what (start k) =
  match Server_Start read_fuel PORT (flags_of false turns) (Server_Server k) with
  | (Ok _, e) => (Ok 0%Z, mkProgram e None)
  | (Throw _, e) => (Ok 0%Z, mkProgram e (Some (str "exception: " ++ what)))
  | (Undef, e) => (Undef, mkProgram e None)
  | (OutOfFuel, e) => (OutOfFuel, mkProgram e None)
  end.
Proof.
  unfold main, SetExitCondition, try_catch, zoom, start, mbind, M_bind, mret, M_ret. simpl.
  by destruct (Server_Start read_fuel PORT _ (Server_Server k)) as [[[]| | |] e].
Qed.

(** ** The program *)

(** C12: Once SIGINT has arrived before a turn of the loop the program ends with 0, whatever the kernel answers: either no
    exception came to main, no session is left, and of all the descriptors the server opened only the epoll's is still
    open (every connection and the listening socket were closed); or main's handler printed the exception.  The only
    exceptions are in a read event of a connection the run has come to: a read fills the buffer with text, which is
    undefined, or [read_fuel] reads never find the socket empty. *)
Theorem echo_main_ends signal_ok turns what (k : K) :
  watched k = ∅ → SIGINT ∈ concat turns → (Z.of_nat (length turns * MAX_EVENTS) < 2 ^ 64)%Z →
  let '(r, p) := main read_fuel signal_ok turns what (start k) in
  (r = Ok 0%Z ∧
   (exception_line p = None ∧ conns (echo p) = ∅ ∧ sessions (echo p) = ∅ ∧
      fds (ekern (echo p)) = fds k ∪ {[eepollFd (echo p)]} ∨
    exception_line p = Some (str "exception: " ++ what))) ∨
  (∃ e, set_up (Server_Server k) = (Ok tt, e) ∧ stuck_read read_fuel e r (echo p)).
Proof.
  intros Hk Hin Hb. destruct signal_ok; [|left; by split; [|right]]. rewrite main_eq, Start_split.
  apply (flag_is_raised false) in Hin. rewrite <- (flags_length false) in Hb. set (flags := flags_of false turns) in *.
  pose proof (set_up_good k Hk) as Hs.
  destruct (set_up (Server_Server k)) as [[[]|x| |] e] eqn:E1; try done.
  - rewrite (bind_ok _ _ _ _ _ E1). destruct Hs as [Hg Hfresh].
    pose proof (loop_fine flags _ 0 e Hg Hin ltac:(lia)) as Hf.
    destruct (Server_loop read_fuel flags e) as [[[]|x| |] e'] eqn:E; simpl in *.
    + destruct (loop_releases read_fuel _ 0 flags e e' Hg) as (H1 & H2 & H3 & H4); [lia|done|].
      left. split; [done|]. left. split_and!; [done..|]. rewrite H4, H3. simpl. set_solver.
    + left. by split; [|right].
    + right. by exists e.
    + right. by exists e.
  - rewrite (bind_throw _ _ _ _ _ E1). left. by split; [|right].
Qed.
End laws.

(** A client sends a sentence, is answered, and the program is told to exit. *)
Definition sample_kernel : ref_kernel :=
  mkRef ∅ ∅ {[5%Z := [str "a."]]} {[5%Z := 100]} ∅ [(16777343, 20480)]%Z [[(3, 1)]; [(5, 5)]]%Z.

Lemma echo_main_ends_witness :
  let '(r, p) := main (K := ref_kernel) 10 true [[]; [15]; [2]]%Z [] (start sample_kernel) in
  r = Ok 0%Z ∧ conns (echo p) = ∅ ∧ sent 5%Z (ekern (echo p)) = str "[a]" ∧ fds (ekern (echo p)) = fds sample_kernel ∪ {[4%Z]}.
Proof.
  pose proof (echo_main_ends (K := ref_kernel) 10 true [[]; [15]; [2]]%Z [] sample_kernel eq_refl
    ltac:(right; left) eq_refl) as H.
  set (x := main (K := ref_kernel) 10 true [[]; [15]; [2]]%Z [] (start sample_kernel)) in *.
  assert (sent 5%Z (ekern (echo x.2)) = str "[a]") as Hs by (vm_compute; reflexivity).
  assert (exception_line x.2 = None) as Hp by (vm_compute; reflexivity).
  assert (eepollFd (echo x.2) = 4%Z) as He by (vm_compute; reflexivity).
  assert (x.1 = Ok 0%Z) as Hr by (vm_compute; reflexivity).
  revert H Hs Hp Hr He. generalize x. intros [r p] H Hs Hp Hr He. cbn [fst snd] in *.
  destruct H as [[_ [(_ & Hc & _ & Hl)|H]]|(e & _ & H)].
  - by rewrite He in Hl.
  - congruence.
  - rewrite Hr in H. by destruct H as (? & ? & ? & _ & _ & []).
Defined.
