(* ===== verification/GrpcMain.v ===== *)
(** * The main functions of the gRPC client and server (learn_grpc/hello_world/src/)

    client/main.cpp and server/main.cpp set up the logger (lib/logger), read the configuration of GrpcConfig.v when
    they first ask for it, and start one of two programs, which are those of GrpcSync.v, UseAsyncClient.v and
    AsyncServer.v.  The time string of lib/utils is here too. *)

From S2P Require Import Prelude CppString GrpcSync GrpcConfig.

(** ** lib/logger and the configuration objects *)

Section process.
  Context {C P : Type} `{!AbstractConfig (C * LogLevel)}.

(** The static configuration, once made; the level of the logger and its file; the signals that have the handler of the
    program; what was started. *)
Record process := mkProcess {
  config : option C; level : LogLevel; logPath : bytes; handled : list Z; started : option P
}.

Definition InitLogger (path : bytes) : M process unit :=
  modify (λ p, mkProcess (config p) LOG_INFO path (handled p) (started p)).
Definition set_level (l : LogLevel) : M process unit :=
  modify (λ p, mkProcess (config p) l (logPath p) (handled p) (started p)).
Definition handle_signal (signum : Z) : M process unit :=
  modify (λ p, mkProcess (config p) (level p) (logPath p) (handled p ++ [signum]) (started p)).
Definition run_program (x : P) : M process unit :=
  modify (λ p, mkProcess (config p) (level p) (logPath p) (handled p) (Some x)).

(** [getInstance]: the configuration is made from the file at the first call; [blank] is what its members held. *)
Definition getInstance (file : option bytes) (blank : C) : M process C := λ p,
  match config p with
  | Some c => (Ok c, p)
  | None =>
      let '(r, (c, l)) := AbstractConfig_init file (blank, level p) in
      match r with
      | Ok _ => (Ok c, mkProcess (Some c) l (logPath p) (handled p) (started p))
      | Throw e => (Throw e, mkProcess None l (logPath p) (handled p) (started p))
      | Undef => (Undef, p)
      | OutOfFuel => (OutOfFuel, p)
      end
  end.

(** At the start of main. *)
Definition fresh_process (l : LogLevel) : process := mkProcess None l [] [] None.
End process.
Arguments process : clear implicits.

(** ** The programs *)

Inductive server_program := StartAsync | StartSync.
Inductive client_program := CallAsync (serverAddress : bytes) | CallSync (serverAddress : bytes).

Section programs.
  Context (file : option bytes).

Definition RegisterSignalHandler : M (process ServerConfig server_program) unit :=
  handle_signal SIGINT;; handle_signal SIGTERM.

(** [start] returns when the server has been stopped. *)
Definition server_main (blank : ServerConfig) : M (process ServerConfig server_program) Z :=
  InitLogger (str "./server.log");;
  c ← getInstance file blank; set_level (sv_log_level c);;
  RegisterSignalHandler;;
  c ← getInstance file blank;
  run_program (if sv_async c then StartAsync else StartSync);;
  mret 0%Z.

Definition client_main (blank : ClientConfig) : M (process ClientConfig client_program) Z :=
  InitLogger (str "client.log");;
  c ← getInstance file blank; set_level (cl_log_level c);;
  c ← getInstance file blank;
  let serverAddress := cl_host c ++ str ":" ++ to_string (cl_port c) in
  c ← getInstance file blank;
  run_program (if cl_async c then CallAsync serverAddress else CallSync serverAddress);;
  mret 0%Z.
End programs.

(** ** lib/utils: the time *)

Section time.
(** The local time [now] in a format of boost's time_facet. *)
Context (time_text : bytes → Z → bytes).

(** The state is the static locale: the format it was made with. *)
Definition GetCurrentTimeString (fmt : bytes) (now : Z) : M (option bytes) bytes :=
  currlocale ← get;
  let format := default fmt currlocale in
  modify (λ _, Some format);;
  mret (time_text format now).
End time.

(** ** A configuration is always made *)

Section total.
  Context {C : Type} `{!AbstractConfig C, !ConfigLaws C}.

(** A line is taken or refused. *)
Lemma load_line_total line (s : C) : ∃ r s', load_line line s = (r, s') ∧ (r = Ok tt ∨ ∃ e, r = Throw e).
Proof.
  unfold load_line. destruct (Trim line) as [|c t]; [by eexists _, _; split; [|left]|].
  destruct (Ascii.eqb c COMMENT_PREFIX); [by eexists _, _; split; [|left]|].
  destruct (split _ [] _) as [|k [|v [|]]]; try by eexists _, _; split; [|left].
  destruct (decide (Trim k ∈ int_names)) as [Hk|Hk]; [|eexists _, _; split; [apply setting_ok; by left|by left]].
  destruct (stoi_total (Trim v)) as [Hv|[e He]].
  - eexists _, _. split; [apply setting_ok; by right|by left].
  - eexists _, _. split; [by apply setting_refused|right; eauto].
Qed.

Lemma loadConfigFile_total file (s : C) : ∃ s', loadConfigFile file s = (Ok tt, s').
Proof.
  destruct file as [text|]; [|by eexists]. unfold loadConfigFile, try_catch. generalize (lines [] text) as ls. intros ls.
  revert s. induction ls as [|line ls IH]; intros s; [by eexists|]. cbn [for_each].
  destruct (load_line_total line s) as (r & s' & E & [->|[e ->]]).
  - rewrite (bind_ok _ _ _ _ _ E). apply IH.
  - rewrite (bind_throw _ _ _ _ _ E). by eexists.
Qed.
End total.

Lemma ServerConfig_made file s : ∃ s', ServerConfig_init file s = (Ok tt, s').
Proof. unfold ServerConfig_init, AbstractConfig_init. erewrite bind_ok by reflexivity. apply loadConfigFile_total. Qed.

Lemma ClientConfig_made file s : ∃ s', ClientConfig_init file s = (Ok tt, s').
Proof. unfold ClientConfig_init, AbstractConfig_init. erewrite bind_ok by reflexivity. apply loadConfigFile_total. Qed.

(** ** Theorems *)

(** Whatever the file holds, the server starts as its configuration says, with the configuration's level of the log and
    a handler for both signals, and the file is read once. *)
Theorem server_main_starts file blank l :
  ∃ c l', ServerConfig_init file (blank, LOG_INFO) = (Ok tt, (c, l')) ∧
    server_main file blank (fresh_process l) =
      (Ok 0%Z, mkProcess (Some c) (sv_log_level c) (str "./server.log") [SIGINT; SIGTERM]
                 (Some (if sv_async c then StartAsync else StartSync))).
Proof.
  destruct (ServerConfig_made file (blank, LOG_INFO)) as [[c l'] H]. exists c, l'. split; [done|].
  unfold server_main. erewrite bind_ok by reflexivity.
  erewrite bind_ok by (unfold getInstance; simpl; unfold ServerConfig_init in H; by rewrite H).
  reflexivity.
Qed.

Theorem client_main_starts file blank l :
  ∃ c l', ClientConfig_init file (blank, LOG_INFO) = (Ok tt, (c, l')) ∧
    client_main file blank (fresh_process l) =
      (Ok 0%Z, mkProcess (Some c) (cl_log_level c) (str "client.log") []
                 (Some (let a := cl_host c ++ str ":" ++ to_string (cl_port c) in
                        if cl_async c then CallAsync a else CallSync a))).
Proof.
  destruct (ClientConfig_made file (blank, LOG_INFO)) as [[c l'] H]. exists c, l'. split; [done|].
  unfold client_main. erewrite bind_ok by reflexivity.
  erewrite bind_ok by (unfold getInstance; simpl; unfold ClientConfig_init in H; by rewrite H).
  reflexivity.
Qed.

(** Without a file both programs are synchronous, on port 50051 of this host. *)
Lemma defaults blank blank' l :
  started (server_main None blank (fresh_process l)).2 = Some StartSync ∧
  started (client_main None blank' (fresh_process l)).2 = Some (CallSync (str "localhost:50051")).
Proof. by split. Qed.

(** The format of the first call is that of all: the parameter of later calls is ignored. *)
Theorem first_format_stays time_text fmt now (calls : list (bytes * Z)) (f : option bytes) :
  let stays := default fmt f in
  for_each (λ c, _ ← GetCurrentTimeString time_text c.1 c.2; mret tt) ((fmt, now) :: calls) f = (Ok tt, Some stays) ∧
  ∀ fmt' now', (GetCurrentTimeString time_text fmt' now' (Some stays)).1 = Ok (time_text stays now').
Proof.
  intros stays. split; [|done]. cbn [for_each]. erewrite bind_ok by reflexivity.
  induction calls as [|c calls IH]; [done|]. cbn [for_each]. by erewrite bind_ok by reflexivity.
Qed.
